(* ===== verification/_CoqProject ===== *)
-Q . S2P
Prelude.v
Physical.v
PhysicalSpec.v
PhysicalTheorems.v
PageIndex.v
Paging.v
PagingSpec.v
PagingTheorems.v
PagingSequence.v
Scheduler.v
SchedulerSpec.v
SchedulerTheorems.v
SchedulerStates.v
RoundRobin.v
Core.v
CoreTheorems.v
CoreSequence.v
FrameAllocator.v
Heap.v
HeapTheorems.v
HeapGrowth.v
Vmm.v
VmmSpec.v
VmmTheorems.v
VmmPhysical.v
VmmIsolation.v
VmmProcesses.v
Dispatch.v
DispatchTheorems.v
Timer.v
TimerTheorems.v
Extra.v
ExtraTheorems.v
Console.v
ConsoleTheorems.v
ConsolePaper.v
Spinlock.v
SpinlockTheorems.v
Boot.v
BootTheorems.v
Pcb.v
PcbTheorems.v
Cpu.v
Instructions.v
CpuTheorems.v
Idt.v
Irq.v
Apic.v
ApicTheorems.v
