(* ===== verification/Prelude.v ===== *)
(** * Masika: a verification of the kernel's core

    Masika is an x86-64 kernel in Rust.  This library translates the parts of it
    that carry its logic into executable definitions and proves what they do:
    memory management, page tables, scheduling, locking, system calls, interrupts,
    processor and timer set-up, start-up and the console.  Paths below are relative to src/src/.

    ** Files

    - [Prelude]: machine integers, outcomes, loops, bits, ports, the state monad
      [ST] with its rules [runs] and the error monad [EST] with its rules [wp];
      shared lemmas, tactics and the hint database [masika].
    - [Physical], [PhysicalSpec], [PhysicalTheorems]: memory/physical.rs.
      [PhysicalMemoryManager] is the Rust struct with the words behind its bitmap
      pointer as a list; one definition per method.  The specification is the
      predicate [allocated] and the invariant [wf].
    - [PageIndex]: the index arithmetic of four-level tables, shared by the next
      component and the user memory manager.
    - [Paging], [PagingSpec], [PagingTheorems]: arch/paging.rs.  Page tables are
      objects in a store, found by address through the entries, as the code's raw
      pointers find them.  The specification is the address space [mapping], a
      function from virtual addresses to leaf entries, under the invariant that
      the tables form a tree.  [PagingSequence] relates sequences of calls to the
      same sequence on a plain function.
    - [Scheduler], [SchedulerSpec], [SchedulerTheorems]: scheduler/scheduler.rs.
      Control blocks are in a store, [RUNQUEUE] and [CURRENT_TASK] hold references
      into it, because the code reaches one block through both.
      [SchedulerStates]: the states of the tasks over sequences of calls.
      [RoundRobin]: which task runs after any number of timer ticks.
    - [Core], [CoreTheorems]: syscall/core.rs, with the modules [Bump]
      ([PageAllocator]) and [Pages] ([PhysicalPageAllocator]) and the handlers.
      [CoreSequence]: any sequence of calls of the dispatcher.
    - [FrameAllocator]: [Page], the constants and [init] of memory/mod.rs, and its
      trait as a class; the sources have no implementation of the trait.
    - [Heap], [HeapTheorems]: memory/heap.rs.  Free blocks are linked through the
      words of the memory they describe; the specification [rep] says which lists
      of blocks the words represent.  [HeapGrowth]: growth by pages, and [realloc]
      with a byte view of the words.
    - [Vmm], [VmmSpec], [VmmTheorems]: memory/virtual.rs.  The tables of a process
      are words of physical memory; the operations run in [EST] over the manager,
      physical and user memory and the page source.  The specification is the
      address space [space] under the invariant [space_ok].
    - [VmmPhysical]: an instance of the page source [Vmm] has as a parameter, with the
      contiguous allocator of [Physical] behind it: the laws can hold.  (The function
      virtual.rs calls, [physical::alloc_pages], is not in the sources.)
    - [VmmIsolation], [VmmProcesses]: what a call of one manager may change
      ([evolves]), and any number of managers on one machine, with calls, stores,
      new processes and switches in any order.
    - [Dispatch], [DispatchTheorems]: syscall/dispatch.rs and the numbers of
      syscall/mod.rs: the handler table, as the list of registrations of
      [SyscallTable::new], and the copies from and to user memory.
    - [Extra], [ExtraTheorems]: syscall/extra.rs, every handler.
    - [Console], [ConsoleTheorems]: console.rs.  [ConsolePaper]: the abstract roll of
      paper the console shows a window of.
    - [Spinlock], [SpinlockTheorems]: sync/spinlock.rs, the lock word's operations
      and step relations in which any number of threads interleave them.
    - [Timer], [TimerTheorems]: timer.rs.  A waiting loop takes the sequence of the
      values it reads.
    - [Boot], [BootTheorems]: main.rs and panic.rs.
    - [Pcb], [PcbTheorems]: scheduler/pcb.rs, and its signal word as a set.
    - [Cpu], [CpuTheorems]: arch/cpu.rs, the registers as a function and one
      definition per function that reads or changes them.  [Instructions]: the
      functions that only issue instructions, as the sequence they issue.
    - [Idt]: arch/idt.rs.
    - [Irq]: irq/handler.rs.
    - [Apic], [ApicTheorems]: irq/apic.rs, register programs over a memory-mapped
      device whose laws [IoApicLaws] describe an I/O APIC.

    The console and the interrupt files share the port interface [PortIO], [Core]
    and [Apic] the memory-mapped devices [Mmio]; the heap and
    the user memory manager share the page source [PageSource]; [Core] calls its own
    page allocator and, through parameters, the process and mapping functions it
    imports; the scheduler is called by the timer tick; [Boot] calls the set-up
    functions, and [boot_hangs_without_hpet] composes it with [Timer].

    ** Conventions

    A Rust function that can fail to return is a function into [outcome]: [Ret],
    [Panic], [Undef] (a raw access outside its object) or [Diverge].  Integer
    operations keep their width: [checked] panics or wraps according to the build
    [Profile] (Cargo.toml has dev and release), atomics wrap in both.  A theorem
    without a profile hypothesis holds in both profiles.  [returns m P] is total
    correctness: [m] ends in a value that satisfies [P].  [safely m P] excludes
    undefined behaviour but allows a panic; it is used where the code really can
    panic (a scheduler call without a current task).

    Static variables are the fields of a state record that functions take and
    return.  The functions on one static share one record, so a theorem over a
    sequence of calls quantifies over lists of operations ([reachable_accounting],
    [scheduler_reachable], [irq_counts_exact], [process_isolation],
    [paging_refines_map], [one_running_task], [core_syscalls_safe],
    [signals_refine_set]) or over a step relation
    ([spinlock_mutual_exclusion], [spinlock_refines_mutex]).

    ** What the theorems show

    - Frame allocator: next-fit and lowest-run behaviour, the counters in step
      with the bitmap over every sequence of the calls listed at
      [reachable_accounting], round trips, all or nothing ranges; the underflow of
      oversized requests and of freed reserved frames, and the regions that are
      counted twice or not at all ([mark_counts_again], [init_region_forgets]).
    - Kernel heap: which block a search takes, the round trip of freeing and
      allocating, growth by pages when nothing fits, [realloc] that moves the bytes
      of a block, and where the remainder of a split block goes.  The theorems hold of
      heaps anywhere in the address space for which no sum overflows, and exclude
      remainders that land on the header of another free block ([request_ok]).
    - Page tables: mapping is a one-point update and unmapping a one-point
      deletion of the address space; translation, flags and ranges agree with it;
      every sequence of calls implements the same sequence on a plain function from
      pages to frames and flags, when tables are placed where an entry can point
      ([BoxLaws]; at the documented heap addresses they are not,
      [high_heap_loses_tables]); the entry mask that lets flag bits into addresses.
    - Scheduler: the task counter over every sequence of calls; at most one running
      task, under the conditions of [one_running_task]; [schedule] on every branch, the
      held lock and the missing task included; slot allocation and priority search; the
      exact rotation under timer ticks when ids are slot numbers, and the slots that
      starve when they are one more; the context switch of a task with itself.
    - System calls: user pointer validation is exact, [sys_read] is confined to
      the buffer, [sys_mmap] maps distinct free frames or undoes its mappings;
      both page allocators on every branch; the clean-up of [sys_brk].  Over every
      sequence of calls the dispatcher never panics, kernel memory is not written,
      and every mapped page is a user page on a taken frame of its own, as long as
      heap mappings are not refused (the clean-up after a refusal releases frames it
      does not own).  User memory that cannot be accessed faults ([Undef]), and the
      calls that can run into it are named.
    - User memory manager: mapping refines a one-point update and unmapping undoes
      it; [find_free_virtual_range] terminates with the first fit; [mmap] on every
      branch; page faults on every branch: copy-on-write faults copy, but the first
      access to a marked page does not; string copies and range checks for all machine
      words.  All of this on a machine whose free frames hold unused entries, since new
      tables are not cleared ([dirty_table_maps_neighbour]).
    - Processes: over every interleaving of the calls listed at [process_isolation] and
      of stores no frame is behind two pages, none behind a page is a page table or
      free, and nothing one process does changes the pages of another or their contents.
    - Dispatch: every number runs the function registered for it; user copies are
      confined and exact; string validation terminates; words and error numbers survive
      their encoding.
    - Extended calls: polling is exact; sleeping on [Timer.sleep_ns] with all overflows;
      what opening and closing do.
    - Locking: mutual exclusion and stable data in every interleaving, for both
      lock types; the spinlock refines an atomic mutex; the interrupt flag around [lock]; what the operations that
      bypass guards and the halt in [lock] do; exact back-off.
    - Console, timer, control blocks: [write_str] refines a roll of paper seen
      through a window of 25 rows and waits for the transmitter before each byte; screen bounds, exact numerals, first in first out
      buffering, the calendar, names, signals as a set; how long sleeps last and when
      they never end.
    - Processor: the feature set-up is exact bit by bit, registers keep their width,
      descriptors decode to what they encode.
    - Interrupts: the table [init_idt] builds, gate by gate (it has lost the system call
      gate), vector arithmetic, exact counters, commands and latencies, unmasking; the
      fields of redirection entries, masking and legacy routing.
    - Start-up and panics: the order of the set-up and the hang without an HPET, when no
      set-up function changes the interrupt flag itself; the single panic report and the
      exact register dump.

    ** Bounds and fuel

    A [for] loop runs through [for_range], whose count is binary, so no fuel is
    involved.  [Paging.map_kernel_loop] takes one unit of fuel per page of the
    range, which [map_kernel_space_terminates] shows to be enough.
    A heap search needs as much fuel as its longest list has blocks
    ([best_fit_is_first_fit]).  [Console.digits] gets more fuel than a 64-bit number has digits in any base
    ([numbers_print_exactly]).  Loops that poll hardware ([uart_fuel], [wait_until],
    [sync_loop]) have as fuel the number of polls followed; theorems about them
    assume a device that becomes ready within it, and [Diverge] stands for one that does
    not ([uart_putc_hangs]).  [Extra.wait_fuel] is the number of clock readings a sleep
    inside a call is followed for.  [Spinlock.wait_until_timeout] needs [timeout + 1] calls
    ([wait_until_timeout_exact]); the other waiting loops need one more than the
    number of failures before the first success ([waits_return_first],
    [backoff_exact], [sleep_ns_exact]).  [Vmm.search_rounds] is one round per page of
    user space and one more, as a binary count; the loop of
    [Dispatch.validate_string_ptr] runs 4098 rounds, one more than the code can;
    [Apic.poll_clear] has the polls of a device as fuel.

    ** Parameters

    What the sources call but do not contain is an argument: the addresses [Box]
    returns (class [BoxAlloc], with the condition [BoxLaws]), the control block
    [create_task] stores ([pcb_new]; the constructor of pcb.rs has other arguments),
    [Process], [map_user_page] and [unmap_user_page] and which user addresses can be
    read and written ([ProcessOps], [UserSpace], [UserSpaceLaws], [ProcessLaws]), memory-mapped and port devices ([Mmio], [PortIO],
    [PicMasks]), the heap's page source and the field layout of [FreeBlock]
    ([PageSource], [BlockLayout]), the entries of user page tables ([PageEntry],
    [PageEntryLaws]) and the laws of their page source ([PageSourceLaws]), which
    addresses are user addresses ([UserAddr]), the numbers of the enumeration
    [SyscallNum] and the handlers behind the dispatch table ([SyscallNum],
    [SyscallHandlers]), user memory and kernel services of the extended calls
    ([UserMem], [KernelCalls]), model-specific registers ([Msr]) and [cpuid]
    ([Cpuid]), the calls of [_start] ([BootCalls]), external interrupt handlers, spurious failures of the weak
    compare-exchange, and the processor's wake-ups.  Each theorem with laws about
    a parameter has a witness with a concrete instance.

    ** Not modelled

    Left out: what halting, monitoring, cache and TLB instructions do to the
    processor ([Instructions] has the sequences issued), inline assembly around
    context switches beyond its effect on the stack pointer, weak memory orderings (atomics are
    sequentially consistent), [heap::alloc_zeroed] (it matches a pointer against [Ok],
    which does not type-check), [scheduler::wait_for_task_exit] (the file ends inside
    it), [idt::get_idt_base] (it returns an uninitialised local), the lifetime of the
    block [create_task] stores (a local value; the model's store keeps it), module
    re-exports, and names main.rs and the
    module files use that are not in the sources.  The address spaces of
    [VmmProcesses] are not cloned: [clone_address_space] shares frames, which is its
    purpose. *)

From stdpp Require Export base tactics numbers list sets gmap.
From Stdlib Require Export Btauto.

Declare Scope rust_scope.
Delimit Scope rust_scope with rust.
Open Scope Z_scope.

(** ** Build profiles and outcomes *)

(** [Cargo.toml] declares the profiles [dev] and [release].  They differ in what
    an out-of-range integer operation does: [dev] checks and panics, [release]
    wraps around.  Every definition that performs such an operation takes the
    profile as a class argument, and a theorem without a profile hypothesis
    holds in both. *)
Class Profile := overflow_checks : bool.
Definition dev : Profile := true.
Definition release : Profile := false.

(** The result of running a piece of Rust: a value, a panic (overflow check,
    [unwrap] of [None], slice index out of bounds, division by zero), undefined
    behaviour (a raw pointer access outside the object it points to), or a loop
    that never ends (a spin on a flag nobody clears, [loop {}]). *)
Inductive outcome (A : Type) : Type :=
| Ret (a : A)
| Panic
| Undef
| Diverge.
Arguments Ret {A} a.
Arguments Panic {A}.
Arguments Undef {A}.
Arguments Diverge {A}.

#[export] Instance outcome_ret : MRet outcome := @Ret.
#[export] Instance outcome_bind : MBind outcome := λ A B f m,
  match m with Ret a => f a | Panic => Panic | Undef => Undef | Diverge => Diverge end.
#[export] Instance outcome_fmap : FMap outcome := λ A B f m,
  match m with Ret a => Ret (f a) | Panic => Panic | Undef => Undef | Diverge => Diverge end.

(** [returns m P]: [m] terminates without panic or undefined behaviour, and its
    value satisfies [P].  It is a total-correctness postcondition. *)
Definition returns {A} (m : outcome A) (P : A → Prop) : Prop :=
  match m with Ret a => P a | Panic => False | Undef => False | Diverge => False end.

Create HintDb masika.

Section returns_rules.
Context {A B : Type}.
Implicit Types (m : outcome A) (P : A → Prop).

Lemma returns_iff m P : returns m P ↔ ∃ a, m = Ret a ∧ P a.
Proof. destruct m; naive_solver. Qed.

Lemma returns_eq m P a : m = Ret a → P a → returns m P.
Proof. by intros ->. Qed.

Lemma returns_mono m P (Q : A → Prop) :
  returns m P → (∀ a, P a → Q a) → returns m Q.
Proof. destruct m; naive_solver. Qed.

Lemma returns_and m P (Q : A → Prop) :
  returns m P → returns m Q → returns m (λ a, P a ∧ Q a).
Proof. by destruct m. Qed.

Lemma returns_bind m (f : A → outcome B) (Q : B → Prop) :
  returns m (λ a, returns (f a) Q) → returns (m ≫= f) Q.
Proof. by destruct m. Qed.

Lemma returns_bind_inv m (f : A → outcome B) (Q : B → Prop) :
  returns (m ≫= f) Q → returns m (λ a, returns (f a) Q).
Proof. by destruct m. Qed.

Lemma bind_ret_inv m (f : A → outcome B) b :
  m ≫= f = Ret b → ∃ a, m = Ret a ∧ f a = Ret b.
Proof. destruct m; naive_solver. Qed.
End returns_rules.

(** [safely m P]: [m] runs into no undefined behaviour, and if it returns its
    value satisfies [P]; it may panic or not return. *)
Definition safely {A} (m : outcome A) (P : A → Prop) : Prop :=
  match m with Ret a => P a | Panic => True | Undef => False | Diverge => True end.

Section safely_rules.
Context {A B : Type}.
Implicit Types (m : outcome A) (P : A → Prop).

Lemma returns_safely m P : returns m P → safely m P.
Proof. by destruct m. Qed.

Lemma safely_mono m P (Q : A → Prop) : safely m P → (∀ a, P a → Q a) → safely m Q.
Proof. destruct m; naive_solver. Qed.

Lemma safely_bind m (f : A → outcome B) (Q : B → Prop) :
  safely m (λ a, safely (f a) Q) → safely (m ≫= f) Q.
Proof. by destruct m. Qed.
End safely_rules.

(** ** Machine integers *)

(** A [w]-bit unsigned value. *)
Definition in_u (w x : Z) : Prop := 0 ≤ x < 2 ^ w.

#[export] Instance in_u_dec w x : Decision (in_u w x).
Proof. unfold in_u. apply _. Defined.

(** [checked w r]: the result of a [w]-bit unsigned [+], [-] or [*] whose
    mathematical result is [r]. *)
Definition checked {prof : Profile} (w r : Z) : outcome Z :=
  if (0 <=? r) && (r <? 2 ^ w) then Ret r
  else if overflow_checks then Panic else Ret (r mod 2 ^ w).

Definition uadd {prof : Profile} (a b : Z) : outcome Z := checked 64 (a + b).
Definition usub {prof : Profile} (a b : Z) : outcome Z := checked 64 (a - b).
Definition umul {prof : Profile} (a b : Z) : outcome Z := checked 64 (a * b).

(** Unsigned division and remainder panic on a zero divisor in both profiles. *)
Definition udiv (a b : Z) : outcome Z := if b =? 0 then Panic else Ret (a / b).
Definition urem (a b : Z) : outcome Z := if b =? 0 then Panic else Ret (a mod b).

(** [AtomicUsize::fetch_add] and [fetch_sub] wrap in both profiles. *)
Definition wrap (w r : Z) : Z := r mod 2 ^ w.

(** Bitwise complement on [w] bits. *)
Definition wnot (w x : Z) : Z := Z.ldiff (Z.ones w) x.

(** [1u64 << i] for [i < 64], and the bit test [x & (1 << i) != 0]. *)
Definition bit (i : Z) : Z := Z.shiftl 1 i.
Definition has_bit (x i : Z) : bool := negb (Z.land x (bit i) =? 0).

(** [uN::trailing_zeros]. *)
Fixpoint pos_tz (p : positive) : Z :=
  match p with xO q => Z.succ (pos_tz q) | _ => 0 end.
Definition trailing_zeros (w x : Z) : Z :=
  match x with Zpos p => pos_tz p | _ => w end.

Section arith_lemmas.
Context {prof : Profile}.

Lemma checked_ok w r : in_u w r → checked w r = Ret r.
Proof.
  intros [??]. unfold checked.
  rewrite (proj2 (Z.leb_le _ _)), (proj2 (Z.ltb_lt _ _)) by done. done.
Qed.

Lemma uadd_ok a b : in_u 64 (a + b) → uadd a b = Ret (a + b).
Proof. apply checked_ok. Qed.
Lemma usub_ok a b : in_u 64 (a - b) → usub a b = Ret (a - b).
Proof. apply checked_ok. Qed.
Lemma umul_ok a b : in_u 64 (a * b) → umul a b = Ret (a * b).
Proof. apply checked_ok. Qed.

Lemma returns_checked w r (P : Z → Prop) : in_u w r → P r → returns (checked w r) P.
Proof. intros. by rewrite checked_ok. Qed.

Lemma safely_checked w r (P : Z → Prop) :
  0 ≤ w → (∀ x, in_u w x → P x) → safely (checked w r) P.
Proof.
  intros Hw HP. unfold checked.
  destruct ((0 <=? r) && (r <? 2 ^ w)) eqn:E; [apply HP; unfold in_u; lia|].
  destruct overflow_checks; [done|]. apply HP. apply Z.mod_pos_bound. by apply Z.pow_pos_nonneg.
Qed.

Lemma checked_dev w r : overflow_checks = true → ¬ in_u w r → checked w r = Panic.
Proof.
  intros Hd Hr. unfold checked.
  destruct ((0 <=? r) && (r <? 2 ^ w)) eqn:E; [|by rewrite Hd].
  exfalso. apply Hr. unfold in_u. lia.
Qed.

Lemma checked_release w r : 0 ≤ w → overflow_checks = false → checked w r = Ret (r mod 2 ^ w).
Proof.
  intros Hw Hd. unfold checked.
  destruct ((0 <=? r) && (r <? 2 ^ w)) eqn:E; [|by rewrite Hd].
  rewrite Z.mod_small; [done|]. lia.
Qed.

Lemma checked_in_u w r x : 0 ≤ w → checked w r = Ret x → in_u w x.
Proof.
  unfold checked, in_u. intros Hw.
  destruct ((0 <=? r) && (r <? 2 ^ w)) eqn:E; [intros [= <-]; lia|].
  destruct overflow_checks; intros [= <-].
  apply Z.mod_pos_bound. by apply Z.pow_pos_nonneg.
Qed.
End arith_lemmas.

Lemma wrap_small w r : in_u w r → wrap w r = r.
Proof. apply Z.mod_small. Qed.

Lemma wrap_in_u w r : 0 ≤ w → in_u w (wrap w r).
Proof. intros. apply Z.mod_pos_bound. by apply Z.pow_pos_nonneg. Qed.

(** ** Bits *)

Lemma in_u_bits w x : 0 ≤ w → 0 ≤ x → in_u w x ↔ ∀ i, w ≤ i → Z.testbit x i = false.
Proof. intros. unfold in_u. rewrite <-Z.bounded_iff_bits_nonneg; lia. Qed.

Lemma in_u_testbit w x i : 0 ≤ w → in_u w x → w ≤ i → Z.testbit x i = false.
Proof. intros Hw Hx Hi. apply (in_u_bits w x); [done|by destruct Hx|done|done]. Qed.

Lemma bit_spec i j : 0 ≤ i → Z.testbit (bit i) j = bool_decide (i = j).
Proof.
  intros Hi. unfold bit. rewrite Z.shiftl_1_l, Z.pow2_bits_eqb by done.
  case_bool_decide; [by apply Z.eqb_eq|by apply Z.eqb_neq].
Qed.

Lemma wnot_spec w x i :
  0 ≤ w → 0 ≤ i → Z.testbit (wnot w x) i = (i <? w) && negb (Z.testbit x i).
Proof.
  intros. unfold wnot. rewrite Z.ldiff_spec, Z.testbit_ones_nonneg by done. done.
Qed.

Lemma has_bit_spec x i : 0 ≤ i → has_bit x i = Z.testbit x i.
Proof.
  intros Hi. unfold has_bit, bit. rewrite Z.shiftl_1_l.
  destruct (Z.testbit x i) eqn:E.
  - apply negb_true_iff, Z.eqb_neq. intros Hz.
    assert (Z.testbit (Z.land x (2 ^ i)) i = true) as H.
    { by rewrite Z.land_spec, E, Z.pow2_bits_true. }
    by rewrite Hz, Z.bits_0 in H.
  - apply negb_false_iff, Z.eqb_eq. apply Z.bits_inj'. intros j Hj.
    rewrite Z.land_spec, Z.bits_0, Z.pow2_bits_eqb by done.
    destruct (Z.eqb_spec i j) as [->|]; [by rewrite E|apply andb_false_r].
Qed.

Lemma land_bit_eqb x i : 0 ≤ i → (Z.land x (bit i) =? 0) = negb (Z.testbit x i).
Proof. intros Hi. rewrite <-has_bit_spec by done. unfold has_bit. by rewrite negb_involutive. Qed.

Lemma land_in_u_l w x y : 0 ≤ w → in_u w x → 0 ≤ y → in_u w (Z.land x y).
Proof.
  intros Hw Hx Hy. assert (0 ≤ Z.land x y) by (apply Z.land_nonneg; lia).
  apply in_u_bits; [done..|]. intros i Hi.
  by rewrite Z.land_spec, (in_u_testbit w x) by done.
Qed.

Lemma land_in_u_r w x y : 0 ≤ w → in_u w y → in_u w (Z.land x y).
Proof.
  intros Hw Hy. assert (0 ≤ Z.land x y) by (apply Z.land_nonneg; destruct Hy; lia).
  apply in_u_bits; [done..|]. intros i Hi.
  by rewrite Z.land_spec, (in_u_testbit w y), andb_false_r by done.
Qed.

Lemma lor_in_u w x y : 0 ≤ w → in_u w x → in_u w y → in_u w (Z.lor x y).
Proof.
  intros Hw Hx Hy. assert (0 ≤ Z.lor x y) by (apply Z.lor_nonneg; destruct Hx, Hy; lia).
  apply in_u_bits; [done..|]. intros i Hi.
  by rewrite Z.lor_spec, (in_u_testbit w x), (in_u_testbit w y) by done.
Qed.

Lemma bit_in_u w i : 0 ≤ i < w → in_u w (bit i).
Proof.
  intros. unfold bit, in_u. rewrite Z.shiftl_1_l.
  split; [apply Z.pow_nonneg; lia|apply Z.pow_lt_mono_r; lia].
Qed.

Lemma wnot_in_u w x : 0 ≤ w → in_u w (wnot w x).
Proof.
  intros Hw. unfold wnot.
  assert (0 ≤ Z.ones w) by (rewrite Z.ones_equiv; pose proof (Z.pow_pos_nonneg 2 w); lia).
  apply in_u_bits; [done|by apply Z.ldiff_nonneg; left|].
  intros i Hi. by rewrite Z.ldiff_spec, Z.ones_spec_high by lia.
Qed.

Lemma shiftr_in_u w x n : 0 ≤ w → 0 ≤ n → in_u w x → in_u w (Z.shiftr x n).
Proof.
  intros Hw Hn Hx. apply in_u_bits; [done|apply Z.shiftr_nonneg; by destruct Hx|].
  intros i Hi. rewrite Z.shiftr_spec by lia. apply (in_u_testbit w); [done..|lia].
Qed.

#[export] Hint Resolve land_in_u_r lor_in_u bit_in_u wnot_in_u shiftr_in_u : masika.
#[export] Hint Extern 1 (_ ≤ _) => lia : masika.
#[export] Hint Extern 1 (_ ≤ _ < _) => lia : masika.

(** [frame >> 6] and [frame & 63] are quotient and remainder by 64; the same
    for every power of two. *)
Lemma shiftr_div x n : 0 ≤ n → Z.shiftr x n = x / 2 ^ n.
Proof. apply Z.shiftr_div_pow2. Qed.

Lemma land_mod x n : 0 ≤ n → Z.land x (2 ^ n - 1) = x mod 2 ^ n.
Proof. intros. rewrite <-Z.land_ones, Z.ones_equiv by done. by rewrite Z.sub_1_r. Qed.

(** [!(align - 1)] masks: clearing the low [n] bits rounds down. *)
Lemma land_wnot_low w x n :
  0 ≤ n ≤ w → in_u w x → Z.land x (wnot w (2 ^ n - 1)) = x - x mod 2 ^ n.
Proof.
  intros Hn Hx. rewrite <-land_mod by lia. rewrite (Z.sub_nocarry_ldiff x).
  - apply Z.bits_inj'. intros i Hi.
    rewrite Z.land_spec, wnot_spec, Z.ldiff_spec, Z.land_spec by lia.
    destruct (Z.ltb_spec i w) as [?|?]; simpl; [btauto|].
    by rewrite (in_u_testbit w x) by (done || lia).
  - apply Z.bits_inj'. intros i Hi. rewrite Z.ldiff_spec, Z.land_spec, Z.bits_0. btauto.
Qed.

Lemma pos_tz_nonneg p : 0 ≤ pos_tz p.
Proof. induction p; simpl; lia. Qed.

Lemma pos_tz_true p : Z.testbit (Zpos p) (pos_tz p) = true.
Proof.
  induction p as [p _|p IH|]; simpl pos_tz; [done| |done].
  pose proof (pos_tz_nonneg p).
  by rewrite Pos2Z.inj_xO, Z.double_bits_succ.
Qed.

Lemma pos_tz_below p i : i < pos_tz p → Z.testbit (Zpos p) i = false.
Proof.
  revert i. induction p as [p _|p IH|]; simpl pos_tz; intros i Hi.
  - apply Z.testbit_neg_r. lia.
  - destruct (decide (i < 0)); [by apply Z.testbit_neg_r|].
    rewrite Pos2Z.inj_xO. destruct (decide (i = 0)) as [->|]; [apply Z.testbit_even_0|].
    replace i with (Z.succ (i - 1)) by lia. rewrite Z.double_bits_succ. apply IH. lia.
  - apply Z.testbit_neg_r. lia.
Qed.

Lemma trailing_zeros_spec w x :
  0 ≤ w → in_u w x → x ≠ 0 →
  0 ≤ trailing_zeros w x < w ∧ Z.testbit x (trailing_zeros w x) = true ∧
  ∀ i, i < trailing_zeros w x → Z.testbit x i = false.
Proof.
  intros Hw Hx Hnz. destruct x as [|p|p]; [done| |destruct Hx; lia]. simpl.
  pose proof (pos_tz_nonneg p). pose proof (pos_tz_true p) as Ht.
  split; [|split; [done|apply pos_tz_below]].
  destruct (decide (pos_tz p < w)); [lia|].
  rewrite (in_u_testbit w) in Ht by (done || lia). done.
Qed.

(** ** Loops *)

(** What one iteration of a Rust loop does: go on with a new state, or leave
    the loop with a value ([return] or [break]). *)
Inductive flow (R S : Type) : Type :=
| Next (s : S)
| Done (r : R).
Arguments Next {R S} s.
Arguments Done {R S} r.

(** Sequencing of a loop's iterations. *)
Definition andthen {R S} (m : outcome (flow R S)) (k : S → outcome (flow R S)) :
    outcome (flow R S) :=
  match m with
  | Ret (Next s) => k s
  | Ret (Done r) => Ret (Done r)
  | Panic => Panic
  | Undef => Undef
  | Diverge => Diverge
  end.

(** Run [f] at most [p] times.  The count is a binary number, so a loop whose
    bound is close to [2^64] still evaluates when it leaves early. *)
Fixpoint iter_pos {R S} (p : positive) (f : S → outcome (flow R S)) (s : S) :
    outcome (flow R S) :=
  match p with
  | xH => f s
  | xO q => andthen (iter_pos q f s) (iter_pos q f)
  | xI q => andthen (f s) (λ s', andthen (iter_pos q f s') (iter_pos q f))
  end.

(** [for i in lo..hi { body }]: the counter is part of the iterated state. *)
Definition counted {R S} (body : Z → S → outcome (flow R S)) (c : Z * S) :
    outcome (flow R (Z * S)) :=
  fl ← body c.1 c.2;
  Ret (match fl with Next s => Next (c.1 + 1, s) | Done r => Done r end).

Definition for_range {R S} (lo hi : Z) (body : Z → S → outcome (flow R S)) (s : S) :
    outcome (flow R S) :=
  match hi - lo with
  | Zpos p =>
      fl ← iter_pos p (counted body) (lo, s);
      Ret (match fl with Next c => Next c.2 | Done r => Done r end)
  | _ => Ret (Next s)
  end.

Section loop_lemmas.
Context {R S : Type}.

Fixpoint iter_nat (n : nat) (f : S → outcome (flow R S)) (s : S) : outcome (flow R S) :=
  match n with O => Ret (Next s) | Datatypes.S n' => andthen (f s) (iter_nat n' f) end.

Lemma andthen_assoc m (k l : S → outcome (flow R S)) :
  andthen (andthen m k) l = andthen m (λ s, andthen (k s) l).
Proof. by destruct m as [[]| | |]. Qed.

Lemma andthen_ext m (k l : S → outcome (flow R S)) :
  (∀ s, k s = l s) → andthen m k = andthen m l.
Proof. destruct m as [[]| | |]; simpl; auto. Qed.

Lemma iter_nat_add n m f s :
  iter_nat (n + m) f s = andthen (iter_nat n f s) (iter_nat m f).
Proof.
  revert s. induction n as [|n IH]; intros s; simpl; [done|].
  rewrite andthen_assoc. by apply andthen_ext.
Qed.

Lemma iter_pos_nat p f s : iter_pos p f s = iter_nat (Pos.to_nat p) f s.
Proof.
  revert s. induction p as [p IH|p IH|]; intros s; cbn [iter_pos].
  - rewrite Pos2Nat.inj_xI. simpl. apply andthen_ext. intros s'.
    rewrite Nat.add_0_r, iter_nat_add, IH. by apply andthen_ext.
  - rewrite Pos2Nat.inj_xO. simpl. rewrite Nat.add_0_r, iter_nat_add, IH.
    by apply andthen_ext.
  - change (Pos.to_nat 1) with 1%nat. simpl. by destruct (f s) as [[]| | |].
Qed.

(** The invariant rule: [I k] holds before round [k]. *)
Lemma iter_pos_inv (I : Z → S → Prop) (Q : R → Prop) p f s :
  I 0 s →
  (∀ k s, 0 ≤ k < Zpos p → I k s →
     returns (f s) (λ fl, match fl with Next s' => I (k + 1) s' | Done r => Q r end)) →
  returns (iter_pos p f s) (λ fl, match fl with Next s' => I (Zpos p) s' | Done r => Q r end).
Proof.
  intros HI Hf. rewrite iter_pos_nat.
  cut (∀ n k s, 0 ≤ k → k + Z.of_nat n = Zpos p → I k s →
    returns (iter_nat n f s) (λ fl, match fl with Next s' => I (Zpos p) s' | Done r => Q r end)).
  { intros H. apply (H _ 0); [done|lia|done]. }
  clear s HI. induction n as [|n IH]; intros k s Hk Hn HI; simpl.
  { by replace (Zpos p) with k by lia. }
  pose proof (Hf k s ltac:(lia) HI) as Hs. destruct (f s) as [[s'|r]| | |]; simpl in *; [|done..].
  apply (IH (k + 1)); [lia|lia|done].
Qed.
End loop_lemmas.

Section for_lemmas.
Context {R S : Type}.
Implicit Types (body : Z → S → outcome (flow R S)) (s : S).

Lemma for_range_empty lo hi body s : hi ≤ lo → for_range lo hi body s = Ret (Next s).
Proof. intros. unfold for_range. destruct (hi - lo) eqn:E; [done|lia|done]. Qed.

Lemma for_range_iter lo n body s :
  for_range lo (lo + Z.of_nat n) body s =
  (fl ← iter_nat n (counted body) (lo, s);
   Ret (match fl with Next c => Next c.2 | Done r => Done r end)).
Proof.
  unfold for_range. replace (lo + Z.of_nat n - lo) with (Z.of_nat n) by lia.
  destruct n as [|n]; [done|].
  change (Z.of_nat (Datatypes.S n)) with (Zpos (Pos.of_succ_nat n)). cbv iota.
  by rewrite iter_pos_nat, SuccNat2Pos.id_succ.
Qed.

Lemma for_range_step lo hi body s :
  lo < hi → for_range lo hi body s = andthen (body lo s) (for_range (lo + 1) hi body).
Proof.
  intros Hlt. assert (∃ n, hi = lo + Z.of_nat (Datatypes.S n)) as [n ->].
  { exists (Z.to_nat (hi - lo - 1)). lia. }
  rewrite for_range_iter. simpl iter_nat. unfold counted at 1. simpl.
  destruct (body lo s) as [[s'|r]| | |]; simpl; [|done..].
  rewrite <-for_range_iter. f_equal. lia.
Qed.

(** The invariant rule: [I i] holds when iteration [i] starts, and every
    early exit satisfies [Q]. *)
Lemma for_range_inv (I : Z → S → Prop) (Q : R → Prop) lo hi body s :
  lo ≤ hi → I lo s →
  (∀ i s, lo ≤ i < hi → I i s →
     returns (body i s) (λ fl, match fl with Next s' => I (i + 1) s' | Done r => Q r end)) →
  returns (for_range lo hi body s)
    (λ fl, match fl with Next s' => I hi s' | Done r => Q r end).
Proof.
  intros Hle HI Hbody.
  assert (∃ n, hi = lo + Z.of_nat n) as [n ->] by (exists (Z.to_nat (hi - lo)); lia).
  clear Hle. revert lo s HI Hbody.
  induction n as [|n IH]; intros lo s HI Hbody.
  { rewrite for_range_empty by lia. simpl. by rewrite Z.add_0_r. }
  rewrite for_range_step by lia.
  pose proof (Hbody lo s ltac:(lia) HI) as Hb.
  destruct (body lo s) as [[s'|r]| | |]; simpl in *; [|done..].
  replace (lo + Z.of_nat (Datatypes.S n)) with (lo + 1 + Z.of_nat n) by lia.
  apply IH; [done|]. intros i t Hi. apply Hbody. lia.
Qed.
End for_lemmas.

(** A [for] loop without early exit, over its state alone. *)
Definition for_each {S} (lo hi : Z) (body : Z → S → outcome S) (s : S) : outcome S :=
  fl ← for_range (R := Empty_set) lo hi (λ i s, Next <$> body i s) s;
  match fl with Next s' => Ret s' | Done r => match (r : Empty_set) with end end.

Lemma for_each_inv {S} (I : Z → S → Prop) lo hi (body : Z → S → outcome S) s :
  lo ≤ hi → I lo s →
  (∀ i s, lo ≤ i < hi → I i s → returns (body i s) (I (i + 1))) →
  returns (for_each lo hi body s) (I hi).
Proof.
  intros Hle HI Hb. unfold for_each. apply returns_bind.
  eapply returns_mono; [apply (for_range_inv I (λ _, False)); [done..|]|by intros []].
  intros i t Hi Ht. specialize (Hb i t Hi Ht). by destruct (body i t).
Qed.

Lemma for_each_empty {S} lo hi (body : Z → S → outcome S) s :
  hi ≤ lo → for_each lo hi body s = Ret s.
Proof. intros. unfold for_each. by rewrite for_range_empty. Qed.

(** [ends D U m P]: [m] does not panic; if it returns, its value satisfies [P]; it
    waits for ever only if [D] and runs into undefined behaviour only if [U]. *)
Definition ends {A} (D U : Prop) (m : outcome A) (P : A → Prop) : Prop :=
  match m with Ret a => P a | Panic => False | Undef => U | Diverge => D end.

Lemma returns_ends {A} D U (m : outcome A) P : returns m P → ends D U m P.
Proof. by destruct m. Qed.

Lemma ends_mono {A} (D D' U U' : Prop) (m : outcome A) (P Q : A → Prop) :
  ends D U m P → (D → D') → (U → U') → (∀ a, P a → Q a) → ends D' U' m Q.
Proof. destruct m; simpl; auto. Qed.

Lemma ends_bind {A B} D U (m : outcome A) (f : A → outcome B) Q :
  ends D U m (λ a, ends D U (f a) Q) → ends D U (m ≫= f) Q.
Proof. by destruct m. Qed.

Lemma for_range_ends {R S} (D U : Prop) (I : Z → S → Prop) (Q : R → Prop) lo hi body (s : S) :
  lo ≤ hi → I lo s →
  (∀ i s, lo ≤ i < hi → I i s →
     ends D U (body i s) (λ fl, match fl with Next s' => I (i + 1) s' | Done r => Q r end)) →
  ends D U (for_range lo hi body s) (λ fl, match fl with Next s' => I hi s' | Done r => Q r end).
Proof.
  intros Hle HI Hbody.
  assert (∃ n, hi = lo + Z.of_nat n) as [n ->] by (exists (Z.to_nat (hi - lo)); lia).
  clear Hle. revert lo s HI Hbody. induction n as [|n IH]; intros lo s HI Hbody.
  { rewrite for_range_empty by lia. simpl. by rewrite Z.add_0_r. }
  rewrite for_range_step by lia. pose proof (Hbody lo s ltac:(lia) HI) as Hb.
  destruct (body lo s) as [[s'|r]| | |]; simpl in *; try done.
  replace (lo + Z.of_nat (Datatypes.S n)) with (lo + 1 + Z.of_nat n) by lia.
  apply IH; [done|]. intros i t Hi. apply Hbody. lia.
Qed.

Lemma for_each_ends {S} (D U : Prop) lo hi (body : Z → S → outcome S) s :
  lo ≤ hi → (∀ i s, lo ≤ i < hi → ends D U (body i s) (λ _, True)) →
  ends D U (for_each lo hi body s) (λ _, True).
Proof.
  intros Hle Hb. unfold for_each. apply ends_bind. eapply ends_mono; [|done..|].
  - apply (for_range_ends D U (λ _ _, True) (λ _, False)); [done..|].
    intros i t Hi _. specialize (Hb i t Hi). by destruct (body i t).
  - by intros [].
Qed.

(** [unfailing m]: [m] neither panics nor has undefined behaviour; it may wait for
    ever. *)
Definition unfailing {A} (m : outcome A) : Prop :=
  match m with Ret _ | Diverge => True | Panic | Undef => False end.

Lemma for_each_unfailing {S} lo hi (body : Z → S → outcome S) s :
  (∀ i s, unfailing (body i s)) → unfailing (for_each lo hi body s).
Proof.
  intros Hb. destruct (decide (lo ≤ hi)) as [Hle|]; [|by rewrite for_each_empty by lia].
  assert (∃ n, hi = lo + Z.of_nat n) as [n ->] by (exists (Z.to_nat (hi - lo)); lia). clear Hle.
  revert lo s. induction n as [|n IH]; intros lo s; [by rewrite for_each_empty by lia|].
  unfold for_each. rewrite for_range_step by lia. specialize (Hb lo s).
  destruct (body lo s) as [s'| | |]; try done. simpl.
  specialize (IH (lo + 1) s'). unfold for_each in IH.
  by replace (lo + Z.of_nat (Datatypes.S n)) with (lo + 1 + Z.of_nat n) by lia.
Qed.

(** A search loop: [for i in lo..hi { if p(i) { return ... } }].  The first
    index that satisfies a decidable test, if any. *)
Definition first_in (p : Z → bool) (lo hi : Z) (r : option Z) : Prop :=
  match r with
  | Some i => lo ≤ i < hi ∧ p i = true ∧ ∀ j, lo ≤ j < i → p j = false
  | None => ∀ j, lo ≤ j < hi → p j = false
  end.

Lemma first_in_unique p lo hi r r' : first_in p lo hi r → first_in p lo hi r' → r = r'.
Proof.
  destruct r as [i|], r' as [j|]; simpl; [| | |done].
  - intros (?&Ei&Hi) (?&Ej&Hj). f_equal.
    destruct (Z.lt_trichotomy i j) as [|[|]]; [|done|].
    + by rewrite Hj in Ei by lia.
    + by rewrite Hi in Ej by lia.
  - intros (?&Ei&_) Hj. by rewrite Hj in Ei by lia.
  - intros Hi (?&Ej&_). by rewrite Hi in Ej by lia.
Qed.

(** A search loop whose body looks at index [i] and leaves with [g i] when that
    is a value: the first index where there is one decides. *)
Definition found {X} (g : Z → option X) (lo hi : Z) (r : option X) : Prop :=
  match r with
  | Some x => ∃ i, lo ≤ i < hi ∧ g i = Some x ∧ ∀ j, lo ≤ j < i → g j = None
  | None => ∀ j, lo ≤ j < hi → g j = None
  end.

Lemma for_range_find {X} (g : Z → option X) lo hi (body : Z → unit → outcome (flow X unit)) :
  lo ≤ hi →
  (∀ i, lo ≤ i < hi → body i () = Ret (match g i with Some x => Done x | None => Next () end)) →
  returns (for_range lo hi body ()) (λ fl,
    found g lo hi (match fl with Done x => Some x | Next _ => None end)).
Proof.
  intros Hle Hb. eapply returns_mono.
  { apply (for_range_inv (λ i _, ∀ j, lo ≤ j < i → g j = None) (λ x, found g lo hi (Some x)));
      [done|lia|].
    intros i [] Hi Hnone. rewrite Hb by done. destruct (g i) as [x|] eqn:E; simpl.
    - by exists i.
    - intros j Hj. destruct (decide (j = i)) as [->|]; [done|]. apply Hnone. lia. }
  by intros [[]|x].
Qed.

(** ** Bitmaps *)

(** Bit [f] of an array of 64-bit words. *)
Definition word_bit (ws : list Z) (f : Z) : bool :=
  Z.testbit (default 0 (ws !! Z.to_nat (f / 64))) (f mod 64).

(** Writing a word changes the bits of that word only. *)
Lemma word_bit_insert ws f w v g :
  0 ≤ f → 0 ≤ g → ws !! Z.to_nat (f / 64) = Some w →
  (∀ i, 0 ≤ i < 64 → i ≠ f mod 64 → Z.testbit v i = Z.testbit w i) →
  word_bit (<[Z.to_nat (f / 64) := v]> ws) g =
  if g =? f then Z.testbit v (f mod 64) else word_bit ws g.
Proof.
  intros Hf Hg Hw Hv. unfold word_bit.
  pose proof (Z.mod_pos_bound g 64 ltac:(lia)). pose proof (Z.mod_pos_bound f 64 ltac:(lia)).
  pose proof (Z.div_mod f 64 ltac:(lia)). pose proof (Z.div_mod g 64 ltac:(lia)).
  assert (0 ≤ f / 64) by (apply Z.div_pos; lia). assert (0 ≤ g / 64) by (apply Z.div_pos; lia).
  destruct (Z.eqb_spec g f) as [->|Hne].
  - by rewrite list_lookup_insert_eq by (by eapply lookup_lt_Some).
  - destruct (decide (g / 64 = f / 64)) as [Hd|Hd].
    + rewrite Hd, list_lookup_insert_eq by (by eapply lookup_lt_Some). rewrite Hw. simpl.
      apply Hv; [lia|]. lia.
    + by rewrite list_lookup_insert_ne by lia.
Qed.

(** One step of a proof about a monadic definition. *)
Ltac step1 :=
  match goal with
  | |- returns (_ ≫= _) _ => apply returns_bind
  | |- returns (Ret _) _ => simpl
  | |- returns (mret _) _ => simpl
  | |- returns (checked _ _) _ => apply returns_checked; [|]
  | |- returns (uadd _ _) _ => apply returns_checked; [|]
  | |- returns (usub _ _) _ => apply returns_checked; [|]
  | |- returns (umul _ _) _ => apply returns_checked; [|]
  end.

(** [x << n] on [w] bits, for [n < w]: the bits shifted out are lost. *)
Definition ushl (w x n : Z) : Z := wrap w (Z.shiftl x n).

(** [u64::MAX]. *)
Definition u64_max : Z := 2 ^ 64 - 1.

(** ** Port input and output *)

(** The instructions [in al, dx] and [out dx, al] on the machine's devices,
    whose state is [Dev]. *)
Class PortIO (Dev : Type) := {
  inb : Dev → Z → Z * Dev;
  outb : Dev → Z → Z → Dev
}.

(** A sequence of port writes. *)
Definition out_all {Dev} `{!PortIO Dev} (d : Dev) (l : list (Z * Z)) : Dev :=
  fold_left (λ d '(p, v), outb d p v) l d.

(** Volatile reads and writes of memory-mapped device registers. *)
Class Mmio (Dev : Type) := {
  mmio_read : Dev → Z → Z * Dev;
  mmio_write : Dev → Z → Z → Dev
}.

(** ** Stateful code *)

(** Code that works on a state [S], as a static or through [&mut self]. *)
Definition ST (S A : Type) : Type := S → outcome (A * S).

Definition st_ret {S A} (a : A) : ST S A := λ s, Ret (a, s).
Definition st_bind {S A B} (m : ST S A) (f : A → ST S B) : ST S B := λ s,
  '(a, s1) ← m s; f a s1.
Definition st_gets {S A} (f : S → A) : ST S A := λ s, Ret (f s, s).
Definition st_modify {S} (f : S → S) : ST S () := λ s, Ret ((), f s).
Definition st_lift {S A} (m : outcome A) : ST S A := λ s, a ← m; Ret (a, s).

Declare Scope st_scope.
Delimit Scope st_scope with st.
Notation "x <- m ;; k" := (st_bind m (λ x, k)) (at level 100, m at next level, right associativity) : st_scope.
Notation "m ;;; k" := (st_bind m (λ _, k)) (at level 100, right associativity) : st_scope.

(** [for i in lo..hi { body }]. *)
Definition st_for {S} (lo hi : Z) (body : Z → ST S ()) : ST S () := λ s,
  s1 ← for_each lo hi (λ i s, snd <$> body i s) s; Ret ((), s1).

(** [m] returns from [s], with a value and a state that satisfy [Q]. *)
Definition runs {S A} (m : ST S A) (s : S) (Q : A → S → Prop) : Prop :=
  returns (m s) (λ p, Q p.1 p.2).

Section runs_rules.
Context {S A B : Type}.
Implicit Types (s : S).

Lemma runs_ret (a : A) s (Q : A → S → Prop) : Q a s → runs (st_ret a) s Q.
Proof. done. Qed.

Lemma runs_bind (m : ST S A) (f : A → ST S B) s (Q : B → S → Prop) :
  runs m s (λ a s1, runs (f a) s1 Q) → runs (st_bind m f) s Q.
Proof. unfold runs, st_bind. by destruct (m s) as [[]| | |]. Qed.

Lemma runs_mono (m : ST S A) s (P Q : A → S → Prop) :
  runs m s P → (∀ a s1, P a s1 → Q a s1) → runs m s Q.
Proof. intros H HPQ. eapply returns_mono; [exact H|]. intros [a s1]. apply HPQ. Qed.

Lemma runs_elim (m : ST S A) s (Q : A → S → Prop) : runs m s Q → ∃ a s1, m s = Ret (a, s1) ∧ Q a s1.
Proof. intros ([a s1]&?&?)%returns_iff. eauto. Qed.

Lemma runs_modify (f : S → S) s (Q : () → S → Prop) : Q () (f s) → runs (st_modify f) s Q.
Proof. done. Qed.

Lemma runs_gets (f : S → A) s (Q : A → S → Prop) : Q (f s) s → runs (st_gets f) s Q.
Proof. done. Qed.

Lemma runs_lift (m : outcome A) s a (Q : A → S → Prop) : m = Ret a → Q a s → runs (st_lift m) s Q.
Proof. by intros ->. Qed.

Lemma runs_unit (m : ST S ()) s (Q : S → Prop) : runs m s (λ _, Q) → ∃ s1, m s = Ret ((), s1) ∧ Q s1.
Proof. intros ([[] s1]&?&?)%returns_iff. eauto. Qed.

Lemma runs_for (I : Z → S → Prop) lo hi (body : Z → ST S ()) s :
  lo ≤ hi → I lo s → (∀ i s, lo ≤ i < hi → I i s → runs (body i) s (λ _, I (i + 1))) →
  runs (st_for lo hi body) s (λ _, I hi).
Proof.
  intros Hle H0 Hb. unfold runs, st_for. apply returns_bind.
  eapply returns_mono; [apply (for_each_inv I); [done|done|]|done].
  intros i t Hi Ht. specialize (Hb i t Hi Ht). unfold runs in Hb. by destruct (body i t).
Qed.
End runs_rules.

(** ** Stateful code with errors *)

(** A function with a [Result] on a state [S]. *)
Definition EST (S E A : Type) : Type := S → outcome ((E + A) * S).

Definition es_ret {S E A} (a : A) : EST S E A := λ s, Ret (inr a, s).
(** [e?]: an error ends the function. *)
Definition es_bind {S E A B} (m : EST S E A) (f : A → EST S E B) : EST S E B := λ s,
  '(r, s1) ← m s;
  match r with inl e => Ret (inl e, s1) | inr a => f a s1 end.
Definition es_throw {S E A} (e : E) : EST S E A := λ s, Ret (inl e, s).
(** A computation that only reads the state, or only changes it. *)
Definition es_read {S E A} (f : S → outcome A) : EST S E A := λ s,
  a ← f s; Ret (inr a, s).
Definition es_update {S E} (f : S → outcome S) : EST S E () := λ s,
  s1 ← f s; Ret (inr (), s1).

Declare Scope es_scope.
Delimit Scope es_scope with es.
Notation "x <- m ;; k" := (es_bind m (λ x, k)) (at level 100, m at next level, right associativity) : es_scope.
Notation "m ;;; k" := (es_bind m (λ _, k)) (at level 100, right associativity) : es_scope.

(** [for i in lo..hi { body }] where the body may return an error. *)
Definition es_for {S E} (lo hi : Z) (body : Z → EST S E ()) : EST S E () := λ s,
  fl ← for_range lo hi (λ i s,
    '(r, s1) ← body i s;
    Ret (match r with inr _ => Next s1 | inl e => Done (e, s1) end)) s;
  Ret (match fl with Next s1 => (inr (), s1) | Done (e, s1) => (inl e, s1) end).

(** [m] run in [s] returns a result and a state that satisfy [Q]. *)
Definition wp {S E A} (m : EST S E A) (s : S) (Q : E + A → S → Prop) : Prop :=
  returns (m s) (λ rs, Q rs.1 rs.2).

Section wp_rules.
Context {S E A B : Type}.
Implicit Types (s : S) (Q : E + A → S → Prop).

Lemma wp_ret (a : A) s Q : Q (inr a) s → wp (es_ret a) s Q.
Proof. done. Qed.

Lemma wp_throw (e : E) s Q : Q (inl e) s → wp (es_throw e) s Q.
Proof. done. Qed.

Lemma wp_bind (m : EST S E A) (f : A → EST S E B) s (Q : E + B → S → Prop) :
  wp m s (λ r s1, match r with inl e => Q (inl e) s1 | inr a => wp (f a) s1 Q end) →
  wp (es_bind m f) s Q.
Proof. unfold wp, es_bind. destruct (m s) as [[[e|a] s1]| | |]; done. Qed.

Lemma wp_mono (m : EST S E A) s (P Q : E + A → S → Prop) :
  wp m s P → (∀ r s1, P r s1 → Q r s1) → wp m s Q.
Proof. intros H HPQ. eapply returns_mono; [apply H|]. intros [r s1]. apply HPQ. Qed.

Lemma wp_read (f : S → outcome A) s a Q : f s = Ret a → Q (inr a) s → wp (es_read f) s Q.
Proof. unfold wp, es_read. by intros ->. Qed.

Lemma wp_update (f : S → outcome S) s s1 (Q : E + () → S → Prop) :
  f s = Ret s1 → Q (inr ()) s1 → wp (es_update f) s Q.
Proof. unfold wp, es_update. by intros ->. Qed.

Lemma wp_run (m : EST S E A) s r s1 Q : m s = Ret (r, s1) → Q r s1 → wp m s Q.
Proof. unfold wp. by intros ->. Qed.

Lemma wp_elim (m : EST S E A) s Q : wp m s Q → ∃ r s1, m s = Ret (r, s1) ∧ Q r s1.
Proof. intros ([r s1]&?&?)%returns_iff. eauto. Qed.
End wp_rules.

(** The loop rule: [I i] holds when iteration [i] starts. *)
Lemma wp_for {S E} (I : Z → S → Prop) (Q : E + () → S → Prop) lo hi (body : Z → EST S E ()) s :
  lo ≤ hi → I lo s →
  (∀ i s, lo ≤ i < hi → I i s →
     wp (body i) s (λ r s1, match r with inl e => Q (inl e) s1 | inr _ => I (i + 1) s1 end)) →
  (∀ s1, I hi s1 → Q (inr ()) s1) → wp (es_for lo hi body) s Q.
Proof.
  intros Hle H0 Hb HQ. unfold wp, es_for. apply returns_bind.
  eapply returns_mono.
  { apply (for_range_inv I (λ r, Q (inl r.1) r.2)); [done|done|].
    intros i t Hi Ht. apply returns_bind. eapply returns_mono; [by apply Hb|].
    intros [[e|[]] t1] Hq; done. }
  intros [s1|[e s1]] Hq; [by apply HQ|done].
Qed.

(** ** Page frames *)

(** [alloc_pages(n)], which memory/heap.rs and memory/virtual.rs import: the start
    address of [n] frames, if there are any. *)
Class PageSource (Pg : Type) := alloc_pages : Pg → Z → option Z * Pg.
