(* ===== verification/Physical.v ===== *)
(** * The physical frame allocator (src/memory/physical.rs)

    [PhysicalMemoryManager] keeps one bit per 4 KiB frame in an array of [u64]
    words reached through a raw pointer, together with three atomic counters.
    This file translates its operations; [PhysicalSpec] states and proves what
    they do.  The words behind the pointer are the list [bitmap_words]; an
    access outside it is [Undef]. *)

From Stdlib Require SpecFloat.
From S2P Require Import Prelude.
Open Scope Z_scope.

Definition PAGE_SIZE : Z := 4096.
Definition FRAME_SIZE : Z := PAGE_SIZE.

Record PhysicalMemoryManager := {
  bitmap : Z;
  bitmap_words : list Z;
  total_frames : Z;
  used_frames : Z;
  reserved_frames : Z;
  max_reserved_frame : Z
}.

Definition with_words (s : PhysicalMemoryManager) (ws : list Z) : PhysicalMemoryManager :=
  {| bitmap := bitmap s; bitmap_words := ws; total_frames := total_frames s;
     used_frames := used_frames s; reserved_frames := reserved_frames s;
     max_reserved_frame := max_reserved_frame s |}.

Definition with_used (s : PhysicalMemoryManager) (n : Z) : PhysicalMemoryManager :=
  {| bitmap := bitmap s; bitmap_words := bitmap_words s; total_frames := total_frames s;
     used_frames := n; reserved_frames := reserved_frames s;
     max_reserved_frame := max_reserved_frame s |}.

Definition with_reserved (s : PhysicalMemoryManager) (n : Z) : PhysicalMemoryManager :=
  {| bitmap := bitmap s; bitmap_words := bitmap_words s; total_frames := total_frames s;
     used_frames := used_frames s; reserved_frames := n;
     max_reserved_frame := max_reserved_frame s |}.

Definition with_max (s : PhysicalMemoryManager) (n : Z) : PhysicalMemoryManager :=
  {| bitmap := bitmap s; bitmap_words := bitmap_words s; total_frames := total_frames s;
     used_frames := used_frames s; reserved_frames := reserved_frames s;
     max_reserved_frame := n |}.

(** The atomic counters: [fetch_add] and [fetch_sub] wrap around. *)
Definition used_add (s : PhysicalMemoryManager) (n : Z) : PhysicalMemoryManager :=
  with_used s (wrap 64 (used_frames s + n)).
Definition used_sub (s : PhysicalMemoryManager) (n : Z) : PhysicalMemoryManager :=
  with_used s (wrap 64 (used_frames s - n)).
Definition reserved_add (s : PhysicalMemoryManager) (n : Z) : PhysicalMemoryManager :=
  with_reserved s (wrap 64 (reserved_frames s + n)).
Definition reserved_sub (s : PhysicalMemoryManager) (n : Z) : PhysicalMemoryManager :=
  with_reserved s (wrap 64 (reserved_frames s - n)).

(** [if x > max { max_reserved_frame.store(x) }]. *)
Definition raise_max (s : PhysicalMemoryManager) (x : Z) : PhysicalMemoryManager :=
  if max_reserved_frame s <? x then with_max s x else s.

(** [self.bitmap.add(i).read()] and [self.bitmap.add(i).write(v)]. *)
Definition read_word (s : PhysicalMemoryManager) (i : Z) : outcome Z :=
  match bitmap_words s !! Z.to_nat i with Some w => Ret w | None => Undef end.

Definition write_word (s : PhysicalMemoryManager) (i v : Z) : outcome PhysicalMemoryManager :=
  match bitmap_words s !! Z.to_nat i with
  | Some _ => Ret (with_words s (<[Z.to_nat i := v]> (bitmap_words s)))
  | None => Undef
  end.

Section operations.
Context {prof : Profile}.
Implicit Types (s : PhysicalMemoryManager).

(** [new] reads the bitmap pointer at [base_addr] and rounds it up to a page.
    [read_ptr] is what that read returns and [region] the words found at the
    rounded address: both are properties of the machine's memory. *)
Definition new (read_ptr : Z → Z) (region : Z → list Z) (memory_size base_addr : Z) :
    outcome PhysicalMemoryManager :=
  let total := memory_size / FRAME_SIZE in
  bitmap_bits ← uadd total 63;
  let bitmap_size := bitmap_bits / 64 in
  let bitmap_ptr := read_ptr base_addr in
  p ← uadd bitmap_ptr 4095;
  let aligned_bitmap := Z.land p (wnot 64 4095) in
  Ret {| bitmap := aligned_bitmap; bitmap_words := region aligned_bitmap;
         total_frames := total; used_frames := 0; reserved_frames := 0;
         max_reserved_frame := 0 |}.

Definition init (read_ptr : Z → Z) (region : Z → list Z) : outcome PhysicalMemoryManager :=
  new read_ptr region 0 0.

Definition get_bit s (frame : Z) : outcome bool :=
  if total_frames s <=? frame then Ret false else
  let word_index := Z.shiftr frame 6 in
  let bit_index := Z.land frame 63 in
  w ← read_word s word_index;
  Ret (has_bit w bit_index).

Definition set_bit s (frame : Z) : outcome PhysicalMemoryManager :=
  if total_frames s <=? frame then Ret s else
  let word_index := Z.shiftr frame 6 in
  let bit_index := Z.land frame 63 in
  value ← read_word s word_index;
  write_word s word_index (Z.lor value (bit bit_index)).

Definition clear_bit s (frame : Z) : outcome PhysicalMemoryManager :=
  if total_frames s <=? frame then Ret s else
  let word_index := Z.shiftr frame 6 in
  let bit_index := Z.land frame 63 in
  value ← read_word s word_index;
  write_word s word_index (Z.land value (wnot 64 (bit bit_index))).

Definition find_first_free_frame_from s (start : Z) : outcome (option Z) :=
  let start_word := Z.shiftr start 6 in
  let start_bit := Z.land start 63 in
  bits ← uadd (total_frames s) 63;
  fl ← for_range start_word (Z.shiftr bits 6) (λ word_idx _,
    word ← read_word s word_idx;
    mask ← (if word_idx =? start_word
            then m ← usub (bit start_bit) 1; Ret (wnot 64 m)
            else Ret u64_max);
    let masked_word := Z.land (wnot 64 word) mask in
    if masked_word =? 0 then Ret (Next tt) else
    let bit_pos := trailing_zeros 64 masked_word in
    frame ← uadd (ushl 64 word_idx 6) bit_pos;
    if frame <? total_frames s then Ret (Done frame) else Ret (Next tt)) tt;
  Ret (match fl with Done frame => Some frame | Next _ => None end).

(** The statements that take a frame found free, written twice in [alloc_frame]. *)
Definition take_frame s (frame : Z) : outcome (option Z * PhysicalMemoryManager) :=
  s1 ← set_bit s frame;
  let s2 := raise_max (used_add s1 1) frame in
  addr ← umul frame FRAME_SIZE;
  Ret (Some addr, s2).

Definition alloc_frame s : outcome (option Z * PhysicalMemoryManager) :=
  let start_hint := max_reserved_frame s in
  found ← find_first_free_frame_from s start_hint;
  match found with
  | Some frame => take_frame s frame
  | None =>
      fl ← for_range 0 (total_frames s) (λ frame _,
        b ← get_bit s frame;
        if (b : bool) then Ret (Next tt) else Done <$> take_frame s frame) tt;
      Ret (match fl with Done r => r | Next _ => (None, s) end)
  end.

(** The inner loops of the range allocators: are the [count] frames from
    [start] free, and mark them. *)
Definition range_free s (start count : Z) : outcome bool :=
  fl ← for_range 0 count (λ offset _,
    frame ← uadd start offset;
    b ← get_bit s frame;
    if (b : bool) then Ret (Done false) else Ret (Next tt)) tt;
  Ret (match fl with Done free => free | Next _ => true end).

Definition set_range s (start count : Z) : outcome PhysicalMemoryManager :=
  for_each 0 count (λ offset s, frame ← uadd start offset; set_bit s frame) s.

Definition alloc_frames_contiguous s (count : Z) : outcome (option Z * PhysicalMemoryManager) :=
  if count =? 0 then Ret (None, s) else
  if count =? 1 then alloc_frame s else
  last ← usub (total_frames s) count;
  fl ← for_range 0 (last + 1) (λ start _,
    free ← range_free s start count;
    if (free : bool) then
      s1 ← set_range s start count;
      e ← uadd start count;
      let s2 := raise_max (used_add s1 count) e in
      addr ← umul start FRAME_SIZE;
      Ret (Done (Some addr, s2))
    else Ret (Next tt)) tt;
  Ret (match fl with Done r => r | Next _ => (None, s) end).

(** Frees one frame by number: the body shared by [free_frame] and the loop of
    [free_frames_contiguous]. *)
Definition release_frame_number s (frame : Z) : outcome PhysicalMemoryManager :=
  if frame <? total_frames s then
    b ← get_bit s frame;
    if (b : bool) then s1 ← clear_bit s frame; Ret (used_sub s1 1) else Ret s
  else Ret s.

Definition free_frame s (addr : Z) : outcome PhysicalMemoryManager :=
  release_frame_number s (addr / FRAME_SIZE).

Definition reserve_frame s (addr : Z) : outcome PhysicalMemoryManager :=
  let frame := addr / FRAME_SIZE in
  if frame <? total_frames s then
    b ← get_bit s frame;
    if (b : bool) then Ret s
    else s1 ← set_bit s frame; Ret (raise_max (reserved_add s1 1) frame)
  else Ret s.

Definition free_frames_contiguous s (addr count : Z) : outcome PhysicalMemoryManager :=
  let start_frame := addr / FRAME_SIZE in
  for_each 0 count (λ i s, frame ← uadd start_frame i; release_frame_number s frame) s.

Definition get_used_frames s : Z := used_frames s.

Definition get_free_frames s : outcome Z :=
  d ← usub (total_frames s) (used_frames s);
  usub d (reserved_frames s).

Definition is_frame_free s (addr : Z) : outcome bool :=
  b ← get_bit s (addr / FRAME_SIZE); Ret (negb b).

Definition alloc_n_frames s (n : Z) : outcome (option Z * PhysicalMemoryManager) :=
  if n =? 1 then alloc_frame s else alloc_frames_contiguous s n.

Definition free_n_frames s (ptr n : Z) : outcome PhysicalMemoryManager :=
  if n =? 1 then free_frame s ptr else free_frames_contiguous s ptr n.

(** [(base + size + FRAME_SIZE - 1) / FRAME_SIZE]. *)
Definition end_frame_of (base size : Z) : outcome Z :=
  a ← uadd base size; b ← uadd a FRAME_SIZE; c ← usub b 1; Ret (c / FRAME_SIZE).

Definition init_region s (base size : Z) : outcome PhysicalMemoryManager :=
  let start_frame := base / FRAME_SIZE in
  end_frame ← end_frame_of base size;
  for_each start_frame (Z.min end_frame (total_frames s)) (λ i s, clear_bit s i) s.

Definition mark_as_used s (base size : Z) : outcome PhysicalMemoryManager :=
  let start_frame := base / FRAME_SIZE in
  end_frame ← end_frame_of base size;
  s1 ← for_each start_frame (Z.min end_frame (total_frames s)) (λ i s, set_bit s i) s;
  n ← usub end_frame start_frame;
  Ret (used_add s1 n).

Definition get_total_memory s : outcome Z := umul (total_frames s) FRAME_SIZE.

(** [Result<(), ()>] as a boolean: [true] is [Ok(())]. *)
Definition alloc_specific_frame s (frame : Z) : outcome (bool * PhysicalMemoryManager) :=
  if total_frames s <=? frame then Ret (false, s) else
  b ← get_bit s frame;
  if (b : bool) then Ret (false, s) else s1 ← set_bit s frame; Ret (true, used_add s1 1).

Definition alloc_at s (addr : Z) : outcome (bool * PhysicalMemoryManager) :=
  let frame := addr / FRAME_SIZE in
  if total_frames s <=? frame then Ret (false, s) else
  b ← get_bit s frame;
  if (b : bool) then Ret (false, s) else s1 ← set_bit s frame; Ret (true, used_add s1 1).

Definition validate_range s (base size : Z) : outcome bool :=
  let start_frame := base / FRAME_SIZE in
  end_frame ← end_frame_of base size;
  if total_frames s <? end_frame then Ret false else
  fl ← for_range start_frame end_frame (λ i _,
    b ← get_bit s i; if (b : bool) then Ret (Done false) else Ret (Next tt)) tt;
  Ret (match fl with Done r => r | Next _ => true end).

(** [zero_frame] and [zero_frames] write into the memory the frames stand for:
    a byte store, separate from the words of the bitmap. *)
Definition write_bytes (ram : Z → Z) (addr val len : Z) : Z → Z :=
  λ a, if (addr <=? a) && (a <? addr + len) then val else ram a.

Definition zero_frame (ram : Z → Z) (addr : Z) : Z → Z := write_bytes ram addr 0 FRAME_SIZE.

Definition zero_frames (ram : Z → Z) (addr count : Z) : outcome (Z → Z) :=
  n ← umul count FRAME_SIZE; Ret (write_bytes ram addr 0 n).

Definition get_frame_count s : Z := total_frames s.

Definition alloc_zeroed_frame s (ram : Z → Z) :
    outcome (option Z * PhysicalMemoryManager * (Z → Z)) :=
  '(r, s1) ← alloc_frame s;
  Ret (match r with Some addr => (Some addr, s1, zero_frame ram addr) | None => (None, s1, ram) end).

Definition alloc_zeroed_frames_contiguous s (ram : Z → Z) (count : Z) :
    outcome (option Z * PhysicalMemoryManager * (Z → Z)) :=
  '(r, s1) ← alloc_frames_contiguous s count;
  match r with
  | Some addr => ram1 ← zero_frames ram addr count; Ret (Some addr, s1, ram1)
  | None => Ret (None, s1, ram)
  end.

Definition reclaim_frame s (addr : Z) : outcome PhysicalMemoryManager := reserve_frame s addr.
Definition release_frame s (addr : Z) : outcome PhysicalMemoryManager := free_frame s addr.

(** [(size + FRAME_SIZE - 1) / FRAME_SIZE]. *)
Definition frames_for (size : Z) : outcome Z :=
  a ← uadd size FRAME_SIZE; b ← usub a 1; Ret (b / FRAME_SIZE).

(** [(0..total_frames).step_by(align_frames.max(1))]: the [k]-th start is
    [k * step], for [k] below the rounded-up quotient. *)
Definition alloc_aligned s (align size : Z) : outcome (option Z * PhysicalMemoryManager) :=
  frames_needed ← frames_for size;
  let align_frames := align / FRAME_SIZE in
  let step := Z.max align_frames 1 in
  fl ← for_range 0 ((total_frames s + step - 1) / step) (λ k _,
    let start := k * step in
    inner ← for_range 0 frames_needed (λ offset _,
      frame ← uadd start offset;
      if total_frames s <=? frame then Ret (Done false) else
      b ← get_bit s frame;
      if (b : bool) then Ret (Done false) else Ret (Next tt)) tt;
    if match inner with Done free => free | Next _ => true end then
      s1 ← set_range s start frames_needed;
      addr ← umul start FRAME_SIZE;
      Ret (Done (Some addr, used_add s1 frames_needed))
    else Ret (Next tt)) tt;
  Ret (match fl with Done r => r | Next _ => (None, s) end).

Definition alloc_huge_page s : outcome (option Z * PhysicalMemoryManager) :=
  alloc_frames_contiguous s 512.
Definition free_huge_page s (addr : Z) : outcome PhysicalMemoryManager :=
  free_frames_contiguous s addr 512.

Definition get_bitmap_ptr s : Z := bitmap s.

(** [dump_stats] computes and drops three values; only its overflow is visible. *)
Definition dump_stats s : outcome unit :=
  let used := get_used_frames s in
  total ← get_total_memory s;
  u ← umul used FRAME_SIZE;
  free ← usub total u;
  Ret tt.

Definition alloc_multiple_frames s (count : Z) : outcome (option Z * PhysicalMemoryManager) :=
  if count <=? 1 then alloc_frame s else alloc_frames_contiguous s count.

Definition get_reserved_frames s : Z := reserved_frames s.
Definition get_max_frame s : Z := total_frames s.

Definition get_frame_address s (frame : Z) : outcome (option Z) :=
  if frame <? total_frames s then Some <$> umul frame FRAME_SIZE else Ret None.

Definition is_valid_frame s (addr : Z) : bool := addr / FRAME_SIZE <? total_frames s.

Definition alloc_kernel_heap_space s (size : Z) : outcome (option Z * PhysicalMemoryManager) :=
  pages_needed ← frames_for size; alloc_frames_contiguous s pages_needed.

Definition find_largest_free_block s : outcome Z :=
  '(max_free, current_free) ← for_each 0 (total_frames s) (λ i '(max_free, current_free),
    b ← get_bit s i;
    if negb b then c ← uadd current_free 1; Ret (max_free, c)
    else Ret (if max_free <? current_free then current_free else max_free, 0)) (0, 0);
  Ret (if max_free <? current_free then current_free else max_free).

Definition get_largest_contiguous_allocatable s : outcome Z := find_largest_free_block s.

(** The two loops of [alloc_specific_range] and [validate_and_alloc]: refuse
    unless every frame of [start..end) exists and is free, then take them all. *)
Definition take_exact s (start_frame end_frame : Z) : outcome (bool * PhysicalMemoryManager) :=
  fl ← for_range start_frame end_frame (λ frame _,
    if total_frames s <=? frame then Ret (Done tt) else
    b ← get_bit s frame;
    if (b : bool) then Ret (Done tt) else Ret (Next tt)) tt;
  match fl with
  | Done _ => Ret (false, s)
  | Next _ =>
      s1 ← for_each start_frame end_frame (λ frame s, set_bit s frame) s;
      n ← usub end_frame start_frame;
      Ret (true, used_add s1 n)
  end.

Definition alloc_specific_range s (start_addr end_addr : Z) : outcome (bool * PhysicalMemoryManager) :=
  end_frame ← frames_for end_addr;
  take_exact s (start_addr / FRAME_SIZE) end_frame.

Definition is_frame_allocated s (addr : Z) : outcome bool := get_bit s (addr / FRAME_SIZE).

Definition alloc_and_map s (size : Z) (vmm : Z → Z → bool) : outcome (option Z * PhysicalMemoryManager) :=
  frames_needed ← frames_for size;
  '(r, s1) ← alloc_frames_contiguous s frames_needed;
  match r with
  | Some paddr =>
      if vmm paddr size then Ret (Some paddr, s1)
      else s2 ← free_frames_contiguous s1 paddr frames_needed; Ret (None, s2)
  | None => Ret (None, s1)
  end.

Definition reserve_region_for_boot s (base size : Z) : outcome PhysicalMemoryManager :=
  let start_frame := base / FRAME_SIZE in
  end_frame ← end_frame_of base size;
  s1 ← for_each start_frame (Z.min end_frame (total_frames s)) (λ i s, set_bit s i) s;
  n ← usub end_frame start_frame;
  Ret (reserved_add s1 n).

Definition get_available_memory s : outcome Z :=
  n ← get_free_frames s; umul n FRAME_SIZE.

Definition alloc_dma_capable_frame s : outcome (option Z * PhysicalMemoryManager) :=
  '(r, s1) ← alloc_frame s;
  match r with
  | Some frame =>
      if frame <? 0x100000 then Ret (Some frame, s1)
      else s2 ← free_frame s1 frame; Ret (None, s2)
  | None => Ret (None, s1)
  end.

Definition is_low_memory s : outcome bool := n ← get_free_frames s; Ret (n <? 1024).

Definition alloc_guarded_region s (size : Z) :
    outcome (option (Z * Z * Z) * PhysicalMemoryManager) :=
  size_frames ← frames_for size;
  n ← uadd size_frames 2;
  '(r, s1) ← alloc_frames_contiguous s n;
  match r with
  | Some region => a ← uadd region FRAME_SIZE; Ret (Some (a, size, region), s1)
  | None => Ret (None, s1)
  end.

Definition free_guarded_region s (addr size guard_before : Z) : outcome PhysicalMemoryManager :=
  size_frames ← frames_for size;
  n ← uadd size_frames 2;
  free_frames_contiguous s guard_before n.

(** [f32]: IEEE 754 with 24 digits, rounding to the nearest even. *)
Definition f32 : Type := SpecFloat.spec_float.
Definition f32_of (n : Z) : f32 := SpecFloat.binary_normalize 24 128 n 0 false.

Definition get_usage_percentage s : f32 :=
  let used := get_used_frames s in
  let total := total_frames s in
  if total =? 0 then f32_of 0
  else SpecFloat.SFmul 24 128 (SpecFloat.SFdiv 24 128 (f32_of used) (f32_of total)) (f32_of 100).

Definition get_memory_map s : outcome (Z * Z * Z) :=
  free ← get_free_frames s; Ret (get_used_frames s, get_reserved_frames s, free).

Definition compact_bitmap s : PhysicalMemoryManager := s.

(** Unlike every other access, this one is not guarded by [total_frames]. *)
Definition set_bitmap_byte s (byte_index value : Z) : outcome PhysicalMemoryManager :=
  let word_idx := byte_index / 8 in
  let bit_shift := byte_index mod 8 * 8 in
  let mask := Z.shiftl value bit_shift in
  old ← read_word s word_idx;
  write_word s word_idx (Z.lor (Z.land old (wnot 64 (Z.shiftl 255 bit_shift))) mask).

Definition get_physical_address s (frame : Z) : outcome (option Z) :=
  if frame <? total_frames s then Some <$> umul frame FRAME_SIZE else Ret None.

Definition is_frame_reserved s (addr : Z) : outcome bool :=
  let frame := addr / FRAME_SIZE in
  b ← get_bit s frame; Ret (b && (used_frames s <? frame)).

Definition reset_all_bits s : outcome PhysicalMemoryManager :=
  bits ← uadd (total_frames s) 63;
  s1 ← for_each 0 (bits / 64) (λ i s, write_word s i 0) s;
  Ret (with_reserved (with_used s1 0) 0).

Definition alloc_kernel_stack s : outcome (option Z * PhysicalMemoryManager) :=
  alloc_frames_contiguous s 2.
Definition free_kernel_stack s (addr : Z) : outcome PhysicalMemoryManager :=
  free_frames_contiguous s addr 2.

Definition is_bitmap_full s : outcome bool :=
  bits ← uadd (total_frames s) 63;
  fl ← for_range 0 (bits / 64) (λ i _,
    w ← read_word s i;
    if negb (w =? u64_max) then Ret (Done false) else Ret (Next tt)) tt;
  Ret (match fl with Done r => r | Next _ => true end).

Definition alloc_user_page s : outcome (option Z * PhysicalMemoryManager) := alloc_frame s.
Definition free_user_page s (addr : Z) : outcome PhysicalMemoryManager := free_frame s addr.

Definition get_bitmap_word s (index : Z) : outcome Z :=
  bits ← uadd (total_frames s) 63;
  if index <? bits / 64 then read_word s index else Ret 0.

Definition set_used_frames s (count : Z) : PhysicalMemoryManager := with_used s count.
Definition increment_used_frames s (count : Z) : PhysicalMemoryManager := used_add s count.
Definition decrement_used_frames s (count : Z) : PhysicalMemoryManager := used_sub s count.

(** [-delta] overflows for [isize::MIN]; the cast to [usize] reduces modulo 2^64. *)
Definition update_reservation s (delta : Z) : outcome PhysicalMemoryManager :=
  if 0 <? delta then Ret (reserved_add s delta)
  else if (delta =? - 2 ^ 63) && overflow_checks then Panic
  else Ret (reserved_sub s (- delta)).

Definition get_bitmap_size s : outcome Z :=
  bits ← uadd (total_frames s) 63; umul (bits / 64) 8.

Definition validate_and_alloc s (addr size : Z) : outcome (bool * PhysicalMemoryManager) :=
  end_frame ← end_frame_of addr size;
  take_exact s (addr / FRAME_SIZE) end_frame.

Definition alloc_page_table s : outcome (option Z * PhysicalMemoryManager) := alloc_frame s.
Definition free_page_table s (addr : Z) : outcome PhysicalMemoryManager := free_frame s addr.

Definition alloc_identity_map s (size : Z) : outcome (option Z * PhysicalMemoryManager) :=
  n ← frames_for size; alloc_frames_contiguous s n.

Definition get_fragmentation_info s : outcome (Z * Z) :=
  '(free_blocks, _) ← for_each 0 (total_frames s) (λ i '(free_blocks, is_in_free_block),
    b ← get_bit s i;
    if negb b then
      if negb is_in_free_block then n ← uadd free_blocks 1; Ret (n, true)
      else Ret (free_blocks, is_in_free_block)
    else Ret (free_blocks, false)) (0, false);
  free ← get_free_frames s;
  Ret (free_blocks, free).

End operations.
