(* ===== verification/PhysicalSpec.v ===== *)
(** * What the physical frame allocator guarantees

    Specification and proofs for [Physical]: the set of allocated frames as an
    abstract predicate, the well-formedness invariant, the accounting of the
    counters, and the behaviour of the allocation and release operations. *)

From S2P Require Import Prelude Physical.
Open Scope Z_scope.

(** ** The abstract view *)

(** The bit of frame [f], [false] outside the managed range. *)
Definition allocated (s : PhysicalMemoryManager) (f : Z) : bool :=
  (0 <=? f) && (f <? total_frames s) &&
  Z.testbit (default 0 (bitmap_words s !! Z.to_nat (f / 64))) (f mod 64).

(** A manager of a machine whose memory fits the address space, with a bitmap
    large enough for its frames. *)
Record wf (s : PhysicalMemoryManager) : Prop := {
  wf_total : 0 ≤ total_frames s < 2 ^ 52;
  wf_length : Z.of_nat (length (bitmap_words s)) = (total_frames s + 63) / 64;
  wf_words : Forall (in_u 64) (bitmap_words s);
  wf_used : in_u 64 (used_frames s);
  wf_reserved : in_u 64 (reserved_frames s);
  wf_max : in_u 64 (max_reserved_frame s)
}.

(** [s'] is [s] with other bitmap words. *)
Definition only_words (s s' : PhysicalMemoryManager) : Prop :=
  bitmap s' = bitmap s ∧ total_frames s' = total_frames s ∧ used_frames s' = used_frames s ∧
  reserved_frames s' = reserved_frames s ∧ max_reserved_frame s' = max_reserved_frame s.

(** The number of set bits among the managed frames. *)
Fixpoint countb (p : Z → bool) (l : list Z) : Z :=
  match l with [] => 0 | x :: l' => (if p x then 1 else 0) + countb p l' end.

Definition allocated_count (s : PhysicalMemoryManager) : Z :=
  countb (allocated s) (seqZ 0 (total_frames s)).

(** The counters add up to the set bits, modulo the width of the counters. *)
Definition accounting (s : PhysicalMemoryManager) : Prop :=
  wrap 64 (used_frames s + reserved_frames s) = allocated_count s.

(** ** Generic facts *)

Lemma countb_ext p q l : (∀ x, x ∈ l → p x = q x) → countb p l = countb q l.
Proof.
  induction l as [|x l IH]; intros Hpq; simpl; [done|].
  rewrite Hpq, IH; [done| |apply elem_of_cons; by left].
  intros y Hy. apply Hpq, elem_of_cons. by right.
Qed.

Lemma countb_bounds p l : 0 ≤ countb p l ≤ Z.of_nat (length l).
Proof. induction l; simpl; [lia|]. destruct (p a); lia. Qed.

Lemma countb_flip p q l f :
  NoDup l → f ∈ l → p f = false → q f = true → (∀ g, g ≠ f → q g = p g) →
  countb q l = countb p l + 1.
Proof.
  intros Hnd Hf Hp Hq Hpq. induction Hnd as [|x l Hx Hnd IH]; [set_solver|].
  simpl. destruct (decide (x = f)) as [->|Hne].
  - rewrite Hp, Hq, (countb_ext q p); [lia|].
    intros y Hy. apply Hpq. by intros ->.
  - rewrite IH by set_solver. rewrite Hpq by done. lia.
Qed.

Lemma countb_all p l : (∀ x, x ∈ l → p x = true) → countb p l = Z.of_nat (length l).
Proof.
  induction l as [|x l IH]; intros Hp; simpl; [done|].
  rewrite Hp, IH; [lia| |apply elem_of_cons; by left].
  intros y Hy. apply Hp, elem_of_cons. by right.
Qed.

Lemma countb_negb p l : countb (λ x, negb (p x)) l = Z.of_nat (length l) - countb p l.
Proof. induction l; simpl; [done|]. destruct (p a); simpl; lia. Qed.

Lemma elem_of_frames s f : f ∈ seqZ 0 (total_frames s) ↔ 0 ≤ f < total_frames s.
Proof. rewrite elem_of_seqZ. lia. Qed.

(** ** Reading and writing bits *)

Lemma word_index f : Z.shiftr f 6 = f / 64.
Proof. by rewrite Z.shiftr_div_pow2. Qed.

Lemma bit_index f : Z.land f 63 = f mod 64.
Proof. exact (land_mod f 6 ltac:(lia)). Qed.

Lemma allocated_range s f : allocated s f = true → 0 ≤ f < total_frames s.
Proof. unfold allocated. rewrite !andb_true_iff. lia. Qed.

Lemma allocated_out s f : ¬ (0 ≤ f < total_frames s) → allocated s f = false.
Proof. intros Hf. apply not_true_is_false. intros Ha. by apply Hf, allocated_range. Qed.

Lemma allocated_in s f :
  0 ≤ f < total_frames s →
  allocated s f = Z.testbit (default 0 (bitmap_words s !! Z.to_nat (f / 64))) (f mod 64).
Proof.
  intros [??]. unfold allocated.
  by rewrite (proj2 (Z.leb_le _ _)), (proj2 (Z.ltb_lt _ _)).
Qed.

Section specs.
Context {prof : Profile}.
Implicit Types (s : PhysicalMemoryManager).

Lemma read_word_ok s i :
  wf s → 0 ≤ i < (total_frames s + 63) / 64 →
  ∃ w, bitmap_words s !! Z.to_nat i = Some w ∧ read_word s i = Ret w ∧ in_u 64 w.
Proof.
  intros Hwf Hi. destruct (lookup_lt_is_Some_2 (bitmap_words s) (Z.to_nat i)) as [w Hw].
  { pose proof (wf_length s Hwf). lia. }
  exists w. unfold read_word. rewrite Hw. split; [done|]. split; [done|].
  by eapply Forall_lookup_1; [apply wf_words|].
Qed.

Lemma frame_word s f : 0 ≤ f < total_frames s → 0 ≤ f / 64 < (total_frames s + 63) / 64.
Proof.
  intros. split; [apply Z.div_pos; lia|].
  apply Z.div_lt_upper_bound; [lia|].
  pose proof (Z.mod_pos_bound (total_frames s + 63) 64).
  pose proof (Z.div_mod (total_frames s + 63) 64). lia.
Qed.

Lemma get_bit_ok s f : wf s → 0 ≤ f → get_bit s f = Ret (allocated s f).
Proof.
  intros Hwf Hf. unfold get_bit.
  destruct (Z.leb_spec (total_frames s) f).
  { by rewrite allocated_out by lia. }
  rewrite word_index, bit_index.
  destruct (read_word_ok s (f / 64) Hwf) as (w & Hw & -> & _); [by apply frame_word|].
  rewrite allocated_in, Hw by lia. simpl.
  rewrite has_bit_spec; [done|]. apply Z.mod_pos_bound. lia.
Qed.

(** Replacing the word of frame [f] by one that differs from it at most in the
    bit of [f] changes the allocation status of no other frame. *)
Lemma update_word_ok s f w w' b :
  wf s → 0 ≤ f < total_frames s →
  bitmap_words s !! Z.to_nat (f / 64) = Some w → in_u 64 w' →
  (∀ i, 0 ≤ i < 64 → Z.testbit w' i = if i =? f mod 64 then b else Z.testbit w i) →
  returns (write_word s (f / 64) w')
    (λ s', wf s' ∧ only_words s s' ∧
           ∀ g, allocated s' g = if g =? f then b else allocated s g).
Proof.
  intros Hwf Hf Hw Hw' Hbits. unfold write_word. rewrite Hw. simpl.
  split; [|split; [done|]].
  { destruct Hwf; split; simpl; try done.
    - by rewrite length_insert.
    - by apply Forall_insert. }
  intros g. destruct (decide (0 ≤ g < total_frames s)) as [Hg|Hg]; last first.
  { destruct (Z.eqb_spec g f) as [->|]; [lia|]. by rewrite !allocated_out. }
  rewrite !allocated_in by done. simpl.
  pose proof (Z.mod_pos_bound g 64 ltac:(lia)) as Hgm.
  destruct (decide (g / 64 = f / 64)) as [Heq|Hne].
  - rewrite Heq, list_lookup_insert_eq by (by eapply lookup_lt_Some). rewrite Hw. simpl.
    rewrite Hbits by done. pose proof (Z.div_mod g 64). pose proof (Z.div_mod f 64).
    destruct (Z.eqb_spec (g mod 64) (f mod 64)), (Z.eqb_spec g f); done || lia || congruence.
  - rewrite list_lookup_insert_ne.
    + by destruct (Z.eqb_spec g f) as [->|].
    + intros Hn. apply Hne. apply Z2Nat.inj in Hn; [done|apply Z.div_pos; lia..].
Qed.

Lemma set_bit_ok s f :
  wf s → 0 ≤ f < total_frames s →
  returns (set_bit s f)
    (λ s', wf s' ∧ only_words s s' ∧
           ∀ g, allocated s' g = if g =? f then true else allocated s g).
Proof.
  intros Hwf Hf. unfold set_bit. destruct (Z.leb_spec (total_frames s) f); [lia|].
  rewrite word_index, bit_index.
  destruct (read_word_ok s (f / 64) Hwf) as (w & Hw & -> & Hu); [by apply frame_word|].
  pose proof (Z.mod_pos_bound f 64 ltac:(lia)).
  apply (update_word_ok s f w); [done..| |].
  - apply lor_in_u; [done..|]. by apply bit_in_u.
  - intros i Hi. rewrite Z.lor_spec, bit_spec by lia.
    case_bool_decide; destruct (Z.eqb_spec i (f mod 64)); try lia; btauto.
Qed.

Lemma clear_bit_ok s f :
  wf s → 0 ≤ f < total_frames s →
  returns (clear_bit s f)
    (λ s', wf s' ∧ only_words s s' ∧
           ∀ g, allocated s' g = if g =? f then false else allocated s g).
Proof.
  intros Hwf Hf. unfold clear_bit. destruct (Z.leb_spec (total_frames s) f); [lia|].
  rewrite word_index, bit_index.
  destruct (read_word_ok s (f / 64) Hwf) as (w & Hw & -> & Hu); [by apply frame_word|].
  pose proof (Z.mod_pos_bound f 64 ltac:(lia)).
  apply (update_word_ok s f w); [done..| |].
  - apply land_in_u_r; [done|]. by apply wnot_in_u.
  - intros i Hi. rewrite Z.land_spec, wnot_spec, bit_spec by lia.
    rewrite (proj2 (Z.ltb_lt i 64)) by lia.
    case_bool_decide; destruct (Z.eqb_spec i (f mod 64)); try lia; btauto.
Qed.

(** ** Finding a free frame *)

Definition free_at s (f : Z) : bool := negb (allocated s f).

Lemma search_mask_spec w sb i :
  0 ≤ sb < 64 → 0 ≤ i →
  Z.testbit (Z.land (wnot 64 w) (wnot 64 (bit sb - 1))) i =
  (i <? 64) && negb (Z.testbit w i) && (sb <=? i).
Proof.
  intros Hsb Hi. unfold bit. rewrite Z.shiftl_1_l, Z.sub_1_r, <-Z.ones_equiv.
  rewrite Z.land_spec, !wnot_spec, Z.testbit_ones_nonneg by lia.
  rewrite Z.leb_antisym. btauto.
Qed.

(** One word of the search: either every frame from [start] on that the word
    describes is allocated, or the lowest free one is at the lowest bit set in
    the masked word. *)
Lemma search_word s start j w sb :
  wf s → 0 ≤ j → bitmap_words s !! Z.to_nat j = Some w → in_u 64 w → 0 ≤ sb < 64 →
  start ≤ j * 64 + sb → (sb = 0 ∨ start = j * 64 + sb) →
  let m := Z.land (wnot 64 w) (wnot 64 (bit sb - 1)) in
  let fr := j * 64 + trailing_zeros 64 m in
  (∀ g, start ≤ g < j * 64 → g < total_frames s → allocated s g = true) →
  if (m =? 0) || (total_frames s <=? fr)
  then ∀ g, start ≤ g < (j + 1) * 64 → g < total_frames s → allocated s g = true
  else start ≤ fr ∧ 0 ≤ trailing_zeros 64 m < 64 ∧ allocated s fr = false ∧
       ∀ g, start ≤ g < fr → allocated s g = true.
Proof.
  intros Hwf Hj Hw Hu Hsb Hst Hst' m fr Hprev.
  assert (Hms : ∀ i, 0 ≤ i → Z.testbit m i = (i <? 64) && negb (Z.testbit w i) && (sb <=? i)).
  { intros. by apply search_mask_spec. }
  assert (Hal : ∀ i, 0 ≤ i < 64 → j * 64 + i < total_frames s →
            allocated s (j * 64 + i) = Z.testbit w i).
  { intros i Hi Hlt. rewrite allocated_in by lia.
    replace ((j * 64 + i) / 64) with j by (rewrite Z.div_add_l, Z.div_small; lia).
    rewrite Hw. simpl. by rewrite Z.add_comm, Z.mod_add, Z.mod_small by lia. }
  assert (Hlow : ∀ k, 0 ≤ k ≤ 64 → (∀ i, 0 ≤ i < k → Z.testbit m i = false) →
            ∀ g, start ≤ g < j * 64 + k → g < total_frames s → allocated s g = true).
  { intros k Hk Hz g Hg Hgt. destruct (decide (g < j * 64)); [apply Hprev; lia|].
    specialize (Hz (g - j * 64) ltac:(lia)). rewrite Hms in Hz by lia.
    replace g with (j * 64 + (g - j * 64)) by lia. rewrite Hal by lia.
    destruct (Z.testbit w (g - j * 64)); [done|]. lia. }
  destruct (Z.eqb_spec m 0) as [Hm|Hm]; simpl.
  { intros g Hg. apply (Hlow 64); [lia| |lia]. intros i Hi. by rewrite Hm, Z.bits_0. }
  assert (Hmu : in_u 64 m) by (apply land_in_u_r; auto with masika).
  destruct (trailing_zeros_spec 64 m) as (Htz & Htrue & Hbelow); [done..|].
  destruct (Z.leb_spec (total_frames s) fr).
  { intros g Hg Hgt. apply (Hlow (trailing_zeros 64 m)); [lia| |lia|done].
    intros. apply Hbelow. lia. }
  rewrite Hms in Htrue by lia.
  split; [lia|]. split; [done|]. split.
  - unfold fr. rewrite Hal by lia. destruct (Z.testbit w _); [lia|done].
  - intros g Hg. apply (Hlow (trailing_zeros 64 m)); [lia| |lia|lia].
    intros. apply Hbelow. lia.
Qed.

Lemma search_mask_value j start :
  0 ≤ start mod 64 < 64 →
  (if j =? start / 64
   then m ← usub (bit (start mod 64)) 1; Ret (wnot 64 m)
   else Ret u64_max) =
  Ret (wnot 64 (bit (if j =? start / 64 then start mod 64 else 0) - 1)).
Proof.
  intros Hs. destruct (j =? start / 64); [|done].
  unfold usub. rewrite checked_ok; [done|].
  destruct (bit_in_u 64 (start mod 64)); [done|].
  unfold in_u, bit in *. rewrite Z.shiftl_1_l in *.
  pose proof (Z.pow_pos_nonneg 2 (start mod 64)). lia.
Qed.

Lemma ushl_word j : 0 ≤ j < 2 ^ 58 → ushl 64 j 6 = j * 64.
Proof.
  intros. unfold ushl. rewrite Z.shiftl_mul_pow2 by lia. change (2 ^ 6) with 64.
  apply wrap_small. unfold in_u. lia.
Qed.

Lemma find_first_ok s start :
  wf s → in_u 64 start →
  returns (find_first_free_frame_from s start)
    (first_in (free_at s) start (total_frames s)).
Proof.
  intros Hwf [Hs1 Hs2]. unfold find_first_free_frame_from.
  pose proof (wf_total s Hwf) as Ht.
  step1. apply returns_checked; [unfold in_u; lia|].
  rewrite !word_index, bit_index.
  pose proof (Z.mod_pos_bound start 64 ltac:(lia)) as Hsm.
  pose proof (Z.div_mod start 64 ltac:(lia)) as Hsd.
  destruct (decide (start / 64 ≤ (total_frames s + 63) / 64)) as [Hle|Hgt]; last first.
  { rewrite for_range_empty by lia. simpl. intros j Hj. exfalso.
    pose proof (Z.div_le_mono start (total_frames s + 63) 64). lia. }
  step1. eapply returns_mono.
  - apply (for_range_inv
      (λ j _, ∀ g, start ≤ g < j * 64 → g < total_frames s → allocated s g = true)
      (λ fr, first_in (free_at s) start (total_frames s) (Some fr))); [done|intros; lia|].
    intros j [] Hj Hprev. assert (0 ≤ start / 64) by (apply Z.div_pos; lia).
    destruct (read_word_ok s j Hwf) as (w & Hw & -> & Hu); [lia|]. step1. simpl.
    rewrite search_mask_value by done. simpl.
    set (sb := if j =? start / 64 then start mod 64 else 0).
    assert (Hsb : 0 ≤ sb < 64 ∧ start ≤ j * 64 + sb ∧ (sb = 0 ∨ start = j * 64 + sb)).
    { unfold sb. destruct (Z.eqb_spec j (start / 64)); lia. }
    destruct Hsb as (Hsb1 & Hsb2 & Hsb3).
    pose proof (search_word s start j w sb Hwf ltac:(lia) Hw Hu Hsb1 Hsb2 Hsb3 Hprev) as Hsw.
    simpl in Hsw. destruct (Z.eqb_spec (Z.land (wnot 64 w) (wnot 64 (bit sb - 1))) 0) as [Hz|Hnz];
      simpl in *; [done|].
    pose proof (Z.div_mod (total_frames s + 63) 64 ltac:(lia)) as Htd.
    pose proof (Z.mod_pos_bound (total_frames s + 63) 64 ltac:(lia)) as Htm.
    rewrite ushl_word by lia.
    destruct (trailing_zeros_spec 64 (Z.land (wnot 64 w) (wnot 64 (bit sb - 1)))) as (Htz & _);
      [lia|apply land_in_u_r; auto with masika|done|].
    step1. step1; [unfold in_u; lia|].
    rewrite Z.ltb_antisym. destruct (total_frames s <=? _) eqn:E; simpl; [done|].
    destruct Hsw as (? & _ & Hfree & Hall). apply Z.leb_gt in E.
    split; [lia|]. unfold free_at. rewrite Hfree. split; [done|].
    intros g Hg. by rewrite Hall.
  - intros [[]|fr]; simpl; [|done]. intros Hall g Hg. unfold free_at.
    pose proof (Z.div_mod (total_frames s + 63) 64 ltac:(lia)).
    pose proof (Z.mod_pos_bound (total_frames s + 63) 64 ltac:(lia)).
    rewrite Hall; [done|lia..].
Qed.

(** ** Taking and releasing frames *)

(** [s'] is [s] after taking the frames of [P], all free before, [n] of them. *)
Record took (P : Z → bool) (n : Z) (s s' : PhysicalMemoryManager) : Prop := {
  took_wf : wf s';
  took_total : total_frames s' = total_frames s;
  took_alloc : ∀ g, allocated s' g = allocated s g || P g;
  took_used : used_frames s' = wrap 64 (used_frames s + n);
  took_reserved : reserved_frames s' = reserved_frames s
}.

Lemma wf_used_add s n : wf s → wf (used_add s n).
Proof. intros []. split; simpl; try done. by apply wrap_in_u. Qed.

Lemma wf_used_sub s n : wf s → wf (used_sub s n).
Proof. intros []. split; simpl; try done. by apply wrap_in_u. Qed.

Lemma wf_reserved_add s n : wf s → wf (reserved_add s n).
Proof. intros []. split; simpl; try done. by apply wrap_in_u. Qed.

Lemma wf_raise_max s x : wf s → in_u 64 x → wf (raise_max s x).
Proof. intros [] ?. unfold raise_max. case_match; split; done. Qed.

Lemma raise_max_other s x :
  total_frames (raise_max s x) = total_frames s ∧
  bitmap_words (raise_max s x) = bitmap_words s ∧
  used_frames (raise_max s x) = used_frames s ∧
  reserved_frames (raise_max s x) = reserved_frames s ∧
  max_reserved_frame (raise_max s x) = Z.max (max_reserved_frame s) x.
Proof. unfold raise_max. case_match; simpl; repeat split; lia. Qed.

Lemma allocated_same s s' g :
  total_frames s' = total_frames s → bitmap_words s' = bitmap_words s →
  allocated s' g = allocated s g.
Proof. unfold allocated. by intros -> ->. Qed.

Lemma frame_addr_fits s f :
  wf s → 0 ≤ f ≤ total_frames s → in_u 64 (f * FRAME_SIZE).
Proof. intros Hwf ?. pose proof (wf_total s Hwf). unfold in_u, FRAME_SIZE, PAGE_SIZE. lia. Qed.

Lemma take_frame_ok s f :
  wf s → 0 ≤ f < total_frames s →
  returns (take_frame s f) (λ '(r, s'),
    r = Some (f * FRAME_SIZE) ∧ took (λ g, g =? f) 1 s s' ∧
    max_reserved_frame s' = Z.max (max_reserved_frame s) f).
Proof.
  intros Hwf Hf. unfold take_frame. step1.
  eapply returns_mono; [by apply set_bit_ok|].
  intros s1 (Hwf1 & (_ & Ht1 & Hu1 & Hr1 & Hm1) & Hal). simpl.
  step1. step1; [by apply (frame_addr_fits s); [|lia]|]. simpl.
  destruct (raise_max_other (used_add s1 1) f) as (Ht & Hws & Hu & Hr & Hm). simpl in *.
  split; [done|]. split; [|congruence]. split; [|congruence|intros g|congruence..].
  - apply wf_raise_max; [by apply wf_used_add|]. pose proof (wf_total s Hwf). unfold in_u. lia.
  - rewrite (allocated_same s1) by done. rewrite Hal. destruct (g =? f); btauto.
Qed.

(** The frame [alloc_frame] takes: the lowest free one at or above the hint,
    or, when there is none, the lowest free one of all. *)
Definition next_fit s (r : option Z) : Prop :=
  match r with
  | Some f => first_in (free_at s) (max_reserved_frame s) (total_frames s) (Some f) ∨
              first_in (free_at s) (max_reserved_frame s) (total_frames s) None ∧
              first_in (free_at s) 0 (total_frames s) (Some f)
  | None => first_in (free_at s) 0 (total_frames s) None
  end.

Definition alloc_post s (r : option Z) s' : Prop :=
  match r with
  | Some a => ∃ f, a = f * FRAME_SIZE ∧ 0 ≤ f < total_frames s ∧ next_fit s (Some f) ∧
                   allocated s f = false ∧ took (λ g, g =? f) 1 s s' ∧
                   max_reserved_frame s' = Z.max (max_reserved_frame s) f
  | None => s' = s ∧ next_fit s None
  end.

Lemma take_post s f :
  wf s → 0 ≤ f < total_frames s → next_fit s (Some f) → allocated s f = false →
  returns (take_frame s f) (λ '(r, s'), alloc_post s r s').
Proof.
  intros Hwf Hf Hnf Hfree. eapply returns_mono; [by apply take_frame_ok|].
  intros [r s'] (-> & ? & ?). simpl. eauto 10.
Qed.

Lemma alloc_frame_ok s :
  wf s → returns (alloc_frame s) (λ '(r, s'), alloc_post s r s').
Proof.
  intros Hwf. pose proof (wf_max s Hwf) as Hm. unfold alloc_frame. step1.
  eapply returns_mono; [by apply find_first_ok|]. intros [f|] Hfirst.
  { destruct Hfirst as (Hf & Hfree & Hmin). apply negb_true_iff in Hfree.
    apply take_post; [done|destruct Hm; lia| |done].
    left. split; [done|]. unfold free_at. by rewrite Hfree. }
  step1. eapply returns_mono.
  - apply (for_range_inv (λ f _, ∀ j, 0 ≤ j < f → free_at s j = false)
             (λ '(r, s'), alloc_post s r s')); [apply (wf_total s Hwf)|intros; lia|].
    intros f [] Hf Hall. rewrite get_bit_ok by (done || lia). simpl.
    destruct (allocated s f) eqn:Ha; simpl.
    + intros j Hj. destruct (decide (j = f)) as [->|]; [unfold free_at; by rewrite Ha|apply Hall; lia].
    + pose proof (take_post s f Hwf Hf) as Ht. unfold mret, outcome_ret in *.
      destruct (take_frame s f) as [[r s']| | |]; simpl in *; apply Ht; try done;
        right; (split; [done|]); simpl; unfold free_at; rewrite Ha; done.
  - intros [[]|[r s']]; simpl; [|done]. done.
Qed.

(** Releasing a frame by number: the bit is cleared and the counter goes down,
    exactly when the frame was allocated. *)
Definition release_post s (f : Z) s' : Prop :=
  wf s' ∧ total_frames s' = total_frames s ∧ reserved_frames s' = reserved_frames s ∧
  max_reserved_frame s' = max_reserved_frame s ∧
  (∀ g, allocated s' g = if g =? f then false else allocated s g) ∧
  used_frames s' = if allocated s f then wrap 64 (used_frames s - 1) else used_frames s.

Lemma release_frame_number_ok s f :
  wf s → 0 ≤ f → returns (release_frame_number s f) (release_post s f).
Proof.
  intros Hwf Hf. unfold release_frame_number, release_post.
  assert (Hsame : allocated s f = false →
            ∀ g, allocated s g = if g =? f then false else allocated s g).
  { intros Ha g. by destruct (Z.eqb_spec g f) as [->|]. }
  destruct (Z.ltb_spec f (total_frames s)); last first.
  { rewrite !allocated_out by lia. simpl. do 4 (split; [done|]).
    split; [|done]. apply Hsame, allocated_out. lia. }
  rewrite get_bit_ok by done. simpl. destruct (allocated s f) eqn:Ha; simpl.
  - step1. eapply returns_mono; [by apply clear_bit_ok|].
    intros s1 (Hwf1 & (_ & Ht & Hu & Hr & Hm) & Hal). simpl.
    split; [by apply wf_used_sub|]. do 3 (split; [done|]). split; [|by rewrite Hu].
    intros g. by rewrite (allocated_same s1).
  - do 4 (split; [done|]). split; [by apply Hsame|done].
Qed.

Lemma frame_of_nonneg addr : 0 ≤ addr → 0 ≤ addr / FRAME_SIZE.
Proof. intros. by apply Z.div_pos. Qed.

Lemma frame_of_addr f : f * FRAME_SIZE / FRAME_SIZE = f.
Proof. by apply Z.div_mul. Qed.

Lemma free_frame_ok s addr :
  wf s → 0 ≤ addr → returns (free_frame s addr) (release_post s (addr / FRAME_SIZE)).
Proof. intros. apply release_frame_number_ok; [done|]. by apply frame_of_nonneg. Qed.

Lemma reserve_frame_ok s addr :
  wf s → 0 ≤ addr →
  returns (reserve_frame s addr) (λ s',
    let f := addr / FRAME_SIZE in
    if (f <? total_frames s) && free_at s f
    then wf s' ∧ total_frames s' = total_frames s ∧ used_frames s' = used_frames s ∧
         reserved_frames s' = wrap 64 (reserved_frames s + 1) ∧
         ∀ g, allocated s' g = allocated s g || (g =? f)
    else s' = s).
Proof.
  intros Hwf Ha. unfold reserve_frame, free_at. set (f := addr / FRAME_SIZE).
  assert (0 ≤ f) by by apply frame_of_nonneg.
  destruct (Z.ltb_spec f (total_frames s)); simpl; [|done].
  rewrite get_bit_ok by done. simpl. destruct (allocated s f) eqn:Hal; simpl; [done|].
  step1. eapply returns_mono; [by apply set_bit_ok|].
  intros s1 (Hwf1 & (_ & Ht & Hu & Hr & Hm) & Hal1). simpl.
  destruct (raise_max_other (reserved_add s1 1) f) as (Ht' & Hws & Hu' & Hr' & _). simpl in *.
  split.
  { apply wf_raise_max; [by apply wf_reserved_add|]. pose proof (wf_total s Hwf). unfold in_u. lia. }
  do 3 (split; [congruence|]). intros g. rewrite (allocated_same s1) by done.
  rewrite Hal1. destruct (g =? f); btauto.
Qed.

(** ** Ranges *)

Definition in_range (start count g : Z) : bool := (start <=? g) && (g <? start + count).

Lemma in_range_true start count g : in_range start count g = true ↔ start ≤ g < start + count.
Proof. unfold in_range. lia. Qed.

Lemma in_range_0 start g : in_range start 0 g = false.
Proof. unfold in_range. lia. Qed.

Lemma in_range_succ start o g :
  0 ≤ o → in_range start (o + 1) g = (g =? start + o) || in_range start o g.
Proof. intros. unfold in_range. lia. Qed.

Lemma range_free_ok s start count :
  wf s → 0 ≤ start → 0 ≤ count → start + count ≤ 2 ^ 64 →
  returns (range_free s start count) (λ b,
    b = true ↔ ∀ g, start ≤ g < start + count → allocated s g = false).
Proof.
  intros Hwf Hs Hc Hmax. unfold range_free. step1. eapply returns_mono.
  - apply (for_range_inv (λ o _, ∀ g, start ≤ g < start + o → allocated s g = false)
      (λ b, b = false ∧ ∃ g, start ≤ g < start + count ∧ allocated s g = true));
      [done|intros; lia|].
    intros o [] Ho Hall. step1. step1; [unfold in_u; lia|].
    rewrite get_bit_ok by (done || lia). simpl.
    destruct (allocated s (start + o)) eqn:Ha; simpl.
    + split; [done|]. exists (start + o). split; [lia|done].
    + intros g Hg. destruct (decide (g = start + o)) as [->|]; [done|apply Hall; lia].
  - intros [[]|b]; simpl; [done|]. intros (-> & g & Hg & Ha). split; [done|].
    intros Hall. by rewrite Hall in Ha.
Qed.

Lemma set_range_ok s start count :
  wf s → 0 ≤ start → 0 ≤ count → start + count ≤ total_frames s →
  returns (set_range s start count) (λ s',
    wf s' ∧ only_words s s' ∧
    ∀ g, allocated s' g = allocated s g || in_range start count g).
Proof.
  intros Hwf Hs Hc Hmax. pose proof (wf_total s Hwf). unfold set_range.
  apply (for_each_inv (λ o s', wf s' ∧ only_words s s' ∧
           ∀ g, allocated s' g = allocated s g || in_range start o g)); [done| |].
  { split; [done|]. split; [done|]. intros g. by rewrite in_range_0, orb_false_r. }
  intros o s' Ho (Hwf' & Hw & Hal). step1. step1; [unfold in_u; lia|].
  destruct Hw as (? & Ht & ? & ? & ?).
  eapply returns_mono; [apply set_bit_ok; [done|lia]|].
  intros s2 (Hwf2 & (? & ? & ? & ? & ?) & Hal2). split; [done|].
  split; [repeat split; congruence|]. intros g. rewrite Hal2, Hal, in_range_succ by lia.
  destruct (g =? start + o); btauto.
Qed.

Lemma used_after_range s s1 start count :
  wf s1 → only_words s s1 → in_u 64 (start + count) →
  (∀ g, allocated s1 g = allocated s g || in_range start count g) →
  took (in_range start count) count s (raise_max (used_add s1 count) (start + count)).
Proof.
  intros Hwf1 (_ & Ht & Hu & Hr & Hm) Hin Hal.
  destruct (raise_max_other (used_add s1 count) (start + count)) as (Ht' & Hws & Hu' & Hr' & _).
  simpl in *. split; [|congruence| |congruence..].
  - apply wf_raise_max; [by apply wf_used_add|done].
  - intros g. by rewrite (allocated_same s1).
Qed.

(** A run of [count] free frames at [start] inside the managed range. *)
Definition free_run s (count start : Z) : Prop :=
  0 ≤ start ∧ start + count ≤ total_frames s ∧
  ∀ g, start ≤ g < start + count → allocated s g = false.

Definition contiguous_post s (count : Z) (r : option Z) s' : Prop :=
  match r with
  | Some a => ∃ f, a = f * FRAME_SIZE ∧ free_run s count f ∧
                   (∀ f', free_run s count f' → f ≤ f') ∧ took (in_range f count) count s s'
  | None => s' = s ∧ ∀ f, ¬ free_run s count f
  end.

Lemma alloc_contiguous_ok s count :
  wf s → 2 ≤ count ≤ total_frames s →
  returns (alloc_frames_contiguous s count) (λ '(r, s'), contiguous_post s count r s').
Proof.
  intros Hwf Hc. pose proof (wf_total s Hwf). unfold alloc_frames_contiguous.
  rewrite (proj2 (Z.eqb_neq count 0)), (proj2 (Z.eqb_neq count 1)) by lia.
  step1. step1; [unfold in_u; lia|]. step1. eapply returns_mono.
  - apply (for_range_inv (λ f _, ∀ f', 0 ≤ f' < f → ¬ free_run s count f')
      (λ '(r, s'), contiguous_post s count r s')); [lia|intros; lia|].
    intros f [] Hf Hall. step1. eapply returns_mono; [apply range_free_ok; [done|lia..]|].
    intros b Hb. destruct b.
    + assert (free_run s count f) as Hrun by (split; [lia|split; [lia|by apply Hb]]).
      step1. eapply returns_mono; [by apply set_range_ok; [done|lia..]|].
      intros s1 (Hwf1 & Hw & Hal). step1. step1; [unfold in_u; lia|]. step1.
      step1; [by apply (frame_addr_fits s); [|lia]|]. simpl. exists f. split; [done|].
      split; [done|]. split; [|by apply used_after_range; [..|unfold in_u; lia|]].
      intros f' Hf'. destruct (decide (f ≤ f')); [done|].
      exfalso. apply (Hall f'); [destruct Hf'; lia|done].
    + simpl. intros f' Hf' Hrun. destruct (decide (f' = f)) as [->|]; [|by apply (Hall f'); [lia|]].
      destruct Hrun as (_ & _ & Hrun). by apply Hb in Hrun.
  - intros [[]|[r s']]; simpl; [|done]. intros Hall. split; [done|].
    intros f Hrun. apply (Hall f); [destruct Hrun; lia|done].
Qed.

End specs.
