(* ===== verification/PhysicalTheorems.v ===== *)
(** * Theorems about the physical frame allocator

    The properties of src/memory/physical.rs proved from the specifications of
    [PhysicalSpec]: next-fit allocation, contiguous allocation and its relation
    to the largest free block, the accounting invariant over every sequence of
    operations, the allocate/free round trip, and two defects. *)

From S2P Require Import Prelude Physical PhysicalSpec.
Open Scope Z_scope.

(** ** Counting *)

Lemma countb_app p l k : countb p (l ++ k) = countb p l + countb p k.
Proof. induction l; simpl; [done|]. rewrite IHl. lia. Qed.

Lemma countb_none p l : (∀ x, x ∈ l → p x = false) → countb p l = 0.
Proof.
  induction l as [|x l IH]; intros Hp; simpl; [done|].
  rewrite Hp, IH; [done| |apply elem_of_cons; by left].
  intros y Hy. apply Hp, elem_of_cons. by right.
Qed.

Lemma countb_or p q l :
  (∀ x, x ∈ l → q x = true → p x = false) →
  countb (λ x, p x || q x) l = countb p l + countb q l.
Proof.
  induction l as [|x l IH]; intros Hpq; simpl; [done|].
  rewrite IH by (intros; apply Hpq; [by apply elem_of_cons; right|done]).
  pose proof (Hpq x ltac:(apply elem_of_cons; by left)).
  destruct (p x), (q x); simpl; naive_solver lia.
Qed.

Lemma countb_in_range n start count :
  0 ≤ start → 0 ≤ count → start + count ≤ n →
  countb (in_range start count) (seqZ 0 n) = count.
Proof.
  intros Hs Hc Hn. replace n with (start + (count + (n - start - count))) by lia.
  rewrite !seqZ_app by lia. rewrite !countb_app, Z.add_0_l.
  rewrite (countb_none _ (seqZ 0 start)), (countb_all _ (seqZ start count)),
    (countb_none _ (seqZ (start + count) _)).
  - rewrite length_seqZ. lia.
  - intros x Hx. apply elem_of_seqZ in Hx. unfold in_range. lia.
  - intros x Hx. apply elem_of_seqZ in Hx. unfold in_range. lia.
  - intros x Hx. apply elem_of_seqZ in Hx. unfold in_range. lia.
Qed.

Lemma allocated_count_bounds s : wf s → 0 ≤ allocated_count s < 2 ^ 52.
Proof.
  intros Hwf. pose proof (wf_total s Hwf). unfold allocated_count.
  pose proof (countb_bounds (allocated s) (seqZ 0 (total_frames s))) as Hb.
  rewrite length_seqZ in Hb. lia.
Qed.

(** Both sides of the accounting equation move by the same amount. *)
Lemma accounting_shift s s' d :
  wf s' → accounting s → allocated_count s' = allocated_count s + d →
  wrap 64 (used_frames s' + reserved_frames s') =
  wrap 64 (used_frames s + reserved_frames s + d) →
  accounting s'.
Proof.
  intros Hwf' Hacc Hcount Hw. unfold accounting. rewrite Hw, Hcount.
  unfold accounting, wrap in *. rewrite <-Zplus_mod_idemp_l, Hacc, <-Hcount.
  apply Z.mod_small. pose proof (allocated_count_bounds s' Hwf'). lia.
Qed.

Lemma wrap_add_l a b : wrap 64 (wrap 64 a + b) = wrap 64 (a + b).
Proof. apply Zplus_mod_idemp_l. Qed.

Lemma wrap_add_r a b : wrap 64 (a + wrap 64 b) = wrap 64 (a + b).
Proof. apply Zplus_mod_idemp_r. Qed.

Lemma took_accounting s s' start count P :
  took P count s s' → (∀ g, P g = in_range start count g) →
  free_run s count start → 0 ≤ count → accounting s → accounting s'.
Proof.
  intros [Hwf' Ht Hal Hu Hr] HP (Hs & Hm & Hfree) Hc Hacc.
  apply (accounting_shift s s' count); [done|done| |].
  - unfold allocated_count. rewrite Ht.
    rewrite (countb_ext _ (λ x, allocated s x || in_range start count x)).
    + rewrite countb_or, countb_in_range; [done|lia..|].
      intros x _ Hx. apply Hfree. by apply in_range_true.
    + intros x _. by rewrite Hal, HP.
  - rewrite Hu, Hr, wrap_add_l. f_equal. lia.
Qed.

Lemma release_accounting s s' f :
  release_post s f s' → accounting s → accounting s'.
Proof.
  intros (Hwf' & Ht & Hr & _ & Hal & Hu) Hacc.
  destruct (allocated s f) eqn:Ha.
  - apply (accounting_shift s s' (-1)); [done..| |].
    + unfold allocated_count. rewrite Ht.
      rewrite (countb_flip (allocated s') (allocated s) _ f); [lia| | | |done|].
      * apply NoDup_seqZ.
      * apply elem_of_frames. by apply allocated_range.
      * rewrite Hal. by rewrite Z.eqb_refl.
      * intros g Hg. rewrite Hal. by rewrite (proj2 (Z.eqb_neq g f)).
    + rewrite Hu, Hr, wrap_add_l. f_equal. lia.
  - apply (accounting_shift s s' 0); [done..| |by rewrite Hu, Hr, Z.add_0_r].
    unfold allocated_count. rewrite Ht, Z.add_0_r. apply countb_ext.
    intros g _. rewrite Hal. by destruct (Z.eqb_spec g f) as [->|].
Qed.

Section theorems.
Context {prof : Profile}.
Implicit Types (s : PhysicalMemoryManager).

Lemma single_range f g : (g =? f) = in_range f 1 g.
Proof. unfold in_range. lia. Qed.

Lemma free_run_single s f : 0 ≤ f < total_frames s → allocated s f = false → free_run s 1 f.
Proof.
  intros Hf Ha. split; [lia|]. split; [lia|]. intros g Hg. by replace g with f by lia.
Qed.

Lemma alloc_post_accounting s r s' :
  wf s → alloc_post s r s' → wf s' ∧ (accounting s → accounting s').
Proof.
  intros Hwf. destruct r as [a|]; [|by intros [-> _]].
  intros (f & -> & Hf & _ & Ha & Ht & _). split; [by apply Ht|].
  apply (took_accounting s s' f 1 (λ g, g =? f)); [done|apply single_range| |lia].
  by apply free_run_single.
Qed.

Lemma contiguous_accounting s count r s' :
  wf s → 0 ≤ count → contiguous_post s count r s' → wf s' ∧ (accounting s → accounting s').
Proof.
  intros Hwf Hc. destruct r as [a|]; [|by intros [-> _]].
  intros (f & -> & Hrun & _ & Ht). split; [by apply Ht|].
  by apply (took_accounting s s' f count (in_range f count)).
Qed.

(** ** The remaining operations that take or release frames *)

Lemma free_frames_contiguous_ok s addr count :
  wf s → 0 ≤ addr → 0 ≤ count → addr / FRAME_SIZE + count ≤ 2 ^ 64 →
  returns (free_frames_contiguous s addr count) (λ s',
    wf s' ∧ total_frames s' = total_frames s ∧ (accounting s → accounting s') ∧
    ∀ g, allocated s' g = allocated s g && negb (in_range (addr / FRAME_SIZE) count g)).
Proof.
  intros Hwf Ha Hc Hmax. unfold free_frames_contiguous.
  set (f := addr / FRAME_SIZE). assert (0 ≤ f) by by apply frame_of_nonneg.
  apply (for_each_inv (λ i s', wf s' ∧ total_frames s' = total_frames s ∧
    (accounting s → accounting s') ∧
    ∀ g, allocated s' g = allocated s g && negb (in_range f i g))); [done| |].
  { do 3 (split; [done|]). intros g. rewrite in_range_0. btauto. }
  intros i s' Hi (Hwf' & Ht & Hacc & Hal). step1. step1; [unfold in_u; lia|].
  eapply returns_mono; [apply release_frame_number_ok; [done|lia]|].
  intros s2 Hpost. pose proof (release_accounting _ _ _ Hpost).
  destruct Hpost as (? & ? & ? & ? & Hal2 & ?).
  split; [done|]. split; [congruence|]. split; [auto|].
  intros g. rewrite Hal2, Hal, in_range_succ by lia. destruct (g =? f + i); btauto.
Qed.

(** Every frame of [a..b) exists and is free. *)
Definition all_free s (a b : Z) : Prop :=
  ∀ g, a ≤ g < b → g < total_frames s ∧ allocated s g = false.

Lemma check_exact_ok s a b :
  wf s → 0 ≤ a ≤ b →
  returns (for_range a b (λ frame _,
    if total_frames s <=? frame then Ret (Done tt) else
    b ← get_bit s frame;
    if (b : bool) then Ret (Done tt) else Ret (Next tt)) tt)
  (λ fl, match fl with Next _ => all_free s a b | Done _ => ¬ all_free s a b end).
Proof.
  intros Hwf Hab. apply (for_range_inv (λ i _, all_free s a i) (λ _, ¬ all_free s a b));
    [lia|intros g; lia|].
  intros i [] Hi Hall. destruct (Z.leb_spec (total_frames s) i); simpl.
  { intros Hf. destruct (Hf i); lia. }
  rewrite get_bit_ok by (done || lia). simpl. destruct (allocated s i) eqn:Ha; simpl.
  - intros Hf. destruct (Hf i); [lia|congruence].
  - intros g Hg. destruct (decide (g = i)) as [->|]; [done|apply Hall; lia].
Qed.

Lemma set_exact_ok s a b :
  wf s → 0 ≤ a ≤ b → all_free s a b →
  returns (for_each a b (λ frame s, set_bit s frame) s) (λ s',
    wf s' ∧ only_words s s' ∧ ∀ g, allocated s' g = allocated s g || in_range a (b - a) g).
Proof.
  intros Hwf Hab Hfree.
  apply (for_each_inv (λ i s', wf s' ∧ only_words s s' ∧
    ∀ g, allocated s' g = allocated s g || in_range a (i - a) g)); [lia| |].
  { do 2 (split; [done|]). intros g. by rewrite Z.sub_diag, in_range_0, orb_false_r. }
  intros i s' Hi (Hwf' & (?&?&?&?&?) & Hal). destruct (Hfree i); [lia|].
  eapply returns_mono; [apply set_bit_ok; [done|lia]|].
  intros s2 (Hwf2 & (?&?&?&?&?) & Hal2).
  split; [done|]. split; [repeat split; congruence|].
  intros g. replace (i + 1 - a) with (i - a + 1) by lia.
  rewrite Hal2, Hal, in_range_succ by lia. replace (a + (i - a)) with i by lia.
  destruct (g =? i); btauto.
Qed.

Definition exact_post s (a b : Z) (ok : bool) s' : Prop :=
  if ok then all_free s a b ∧ took (in_range a (b - a)) (b - a) s s'
  else s' = s ∧ ¬ all_free s a b.

Lemma take_exact_ok s a b :
  wf s → 0 ≤ a ≤ b → b < 2 ^ 64 →
  returns (take_exact s a b) (λ '(ok, s'), exact_post s a b ok s').
Proof.
  intros Hwf Hab Hb. unfold take_exact. step1.
  eapply returns_mono; [by apply check_exact_ok|]. intros [[]|[]]; simpl; [|done].
  intros Hfree. step1. eapply returns_mono; [by apply set_exact_ok|].
  intros s1 (Hwf1 & (?&?&?&?&?) & Hal). step1. step1; [unfold in_u; lia|]. simpl.
  split; [done|]. split; simpl; [by apply wf_used_add|done| |congruence..].
  intros g. by rewrite (allocated_same s1).
Qed.

Lemma exact_accounting s a b ok s' :
  wf s → 0 ≤ a ≤ b → exact_post s a b ok s' → wf s' ∧ (accounting s → accounting s').
Proof.
  intros Hwf Hab. destruct ok; [|by intros [-> _]]. intros [Hfree Ht].
  split; [by apply Ht|]. destruct (decide (a = b)) as [<-|].
  - apply (took_accounting s s' 0 0 (in_range a (a - a))); [by rewrite Z.sub_diag in *| | |lia].
    + intros g. by rewrite Z.sub_diag, !in_range_0.
    + split; [lia|]. split; [pose proof (wf_total s Hwf); lia|]. intros; lia.
  - apply (took_accounting s s' a (b - a) (in_range a (b - a))); [done..| |lia].
    split; [lia|]. split.
    + destruct (Hfree (b - 1)); lia.
    + intros g Hg. apply Hfree. lia.
Qed.

Lemma alloc_specific_frame_ok s f :
  wf s → 0 ≤ f < 2 ^ 52 →
  returns (alloc_specific_frame s f) (λ '(ok, s'), exact_post s f (f + 1) ok s').
Proof.
  intros Hwf Hf. unfold alloc_specific_frame.
  destruct (Z.leb_spec (total_frames s) f); simpl.
  { split; [done|]. intros Hfree. destruct (Hfree f); lia. }
  rewrite get_bit_ok by (done || lia). simpl. destruct (allocated s f) eqn:Ha; simpl.
  { split; [done|]. intros Hfree. destruct (Hfree f); [lia|congruence]. }
  step1. eapply returns_mono; [apply set_bit_ok; [done|lia]|].
  intros s1 (Hwf1 & (?&?&?&?&?) & Hal). simpl. replace (f + 1 - f) with 1 by lia.
  split; [intros g Hg; replace g with f by lia; split; [lia|done]|].
  split; simpl; [by apply wf_used_add|done| |congruence..].
  intros g. rewrite (allocated_same s1), Hal, <-single_range by done.
  destruct (g =? f); btauto.
Qed.

Lemma alloc_at_specific s addr : alloc_at s addr = alloc_specific_frame s (addr / FRAME_SIZE).
Proof. done. Qed.

Lemma frames_for_ok size :
  0 ≤ size → size + FRAME_SIZE < 2 ^ 64 →
  frames_for size = Ret ((size + FRAME_SIZE - 1) / FRAME_SIZE).
Proof.
  intros ??. unfold frames_for, uadd, usub, FRAME_SIZE, PAGE_SIZE in *.
  rewrite checked_ok by (unfold in_u; lia). simpl.
  by rewrite checked_ok by (unfold in_u; lia).
Qed.

Lemma end_frame_ok base size :
  0 ≤ base → 0 ≤ size → base + size + FRAME_SIZE < 2 ^ 64 →
  end_frame_of base size = Ret ((base + size + FRAME_SIZE - 1) / FRAME_SIZE).
Proof.
  intros ???. unfold end_frame_of, uadd, usub, FRAME_SIZE, PAGE_SIZE in *.
  rewrite checked_ok by (unfold in_u; lia). simpl.
  rewrite checked_ok by (unfold in_u; lia). simpl.
  by rewrite checked_ok by (unfold in_u; lia).
Qed.

(** ** Sequences of operations *)

(** The calls that take or release frames, with their arguments. *)
Inductive op : Type :=
| OpAlloc
| OpAllocContiguous (count : Z)
| OpFree (addr : Z)
| OpFreeContiguous (addr count : Z)
| OpReserve (addr : Z)
| OpAllocAt (addr : Z)
| OpAllocRange (start_addr end_addr : Z)
| OpValidateAndAlloc (addr size : Z)
| OpAllocAndMap (size : Z) (vmm : Z → Z → bool)
| OpAllocDma
| OpAllocAligned (align size : Z)
| OpInitRegion (base size : Z)
| OpMarkUsed (base size : Z)
| OpReserveBoot (base size : Z)
| OpResetAll.

Definition run_op s (o : op) : outcome PhysicalMemoryManager :=
  match o with
  | OpAlloc => snd <$> alloc_frame s
  | OpAllocContiguous count => snd <$> alloc_frames_contiguous s count
  | OpFree addr => free_frame s addr
  | OpFreeContiguous addr count => free_frames_contiguous s addr count
  | OpReserve addr => reserve_frame s addr
  | OpAllocAt addr => snd <$> alloc_at s addr
  | OpAllocRange a b => snd <$> alloc_specific_range s a b
  | OpValidateAndAlloc addr size => snd <$> validate_and_alloc s addr size
  | OpAllocAndMap size vmm => snd <$> alloc_and_map s size vmm
  | OpAllocDma => snd <$> alloc_dma_capable_frame s
  | OpAllocAligned align size => snd <$> alloc_aligned s align size
  | OpInitRegion base size => init_region s base size
  | OpMarkUsed base size => mark_as_used s base size
  | OpReserveBoot base size => reserve_region_for_boot s base size
  | OpResetAll => reset_all_bits s
  end.

(** The frames of a region, the last one rounded up. *)
Definition region_start (base : Z) : Z := base / FRAME_SIZE.
Definition region_end (base size : Z) : Z := (base + size + FRAME_SIZE - 1) / FRAME_SIZE.
Definition region_ok (base size : Z) : Prop :=
  0 ≤ base ∧ 0 < size ∧ base + size + FRAME_SIZE < 2 ^ 64.

(** The arguments are machine integers for which the size computations do not
    overflow, and a contiguous request does not exceed the machine's memory.
    [mark_as_used] and [reserve_region_for_boot] get a region inside memory whose
    frames are all free, and [init_region] a region without allocated frames:
    the three functions do not look at the bits they change
    ([mark_counts_again], [init_region_forgets]). *)
Definition op_ok s (o : op) : Prop :=
  match o with
  | OpAlloc | OpAllocDma | OpResetAll => True
  | OpAllocContiguous count => 0 ≤ count ≤ total_frames s
  | OpFree addr | OpReserve addr | OpAllocAt addr => in_u 64 addr
  | OpFreeContiguous addr count => in_u 64 addr ∧ 0 ≤ count < 2 ^ 63
  | OpAllocRange a b => 0 ≤ a ≤ b ∧ b + FRAME_SIZE < 2 ^ 64
  | OpValidateAndAlloc addr size => 0 ≤ addr ∧ 0 ≤ size ∧ addr + size + FRAME_SIZE < 2 ^ 64
  | OpAllocAndMap size _ => 0 ≤ size ≤ total_frames s * FRAME_SIZE ∧ size + FRAME_SIZE < 2 ^ 64
  | OpAllocAligned align size => 0 ≤ align ∧ 0 ≤ size ∧ size + FRAME_SIZE < 2 ^ 64
  | OpInitRegion base size => region_ok base size ∧
      ∀ g, region_start base ≤ g < region_end base size → allocated s g = false
  | OpMarkUsed base size | OpReserveBoot base size => region_ok base size ∧
      all_free s (region_start base) (region_end base size)
  end.

Lemma frame_bound addr : in_u 64 addr → 0 ≤ addr / FRAME_SIZE < 2 ^ 52.
Proof.
  intros [??]. split; [by apply frame_of_nonneg|].
  apply Z.div_lt_upper_bound; [done|]. unfold FRAME_SIZE, PAGE_SIZE. lia.
Qed.

Lemma returns_snd {A} (m : outcome (A * PhysicalMemoryManager)) (P : PhysicalMemoryManager → Prop) :
  returns m (λ '(_, s'), P s') → returns (snd <$> m) P.
Proof. by destruct m as [[]| | |]. Qed.

(** Well-formedness and accounting, as one step of a run establishes them. *)
Definition keeps s s' : Prop :=
  wf s' ∧ total_frames s' = total_frames s ∧ (accounting s → accounting s').

Lemma keeps_refl s : wf s → keeps s s.
Proof. intros. by split_and!. Qed.

Lemma keeps_trans s1 s2 s3 : keeps s1 s2 → keeps s2 s3 → keeps s1 s3.
Proof. intros (?&?&?) (?&?&?). split_and!; [done|congruence|auto]. Qed.

Lemma alloc_keeps s r s' : wf s → alloc_post s r s' → keeps s s'.
Proof.
  intros Hwf Hp. destruct (alloc_post_accounting s r s' Hwf Hp). split_and!; [done| |done].
  destruct r; [|by destruct Hp as [-> _]]. destruct Hp as (? & ? & ? & ? & ? & Ht & ?). apply Ht.
Qed.

Lemma contiguous_keeps s count r s' :
  wf s → 0 ≤ count → contiguous_post s count r s' → keeps s s'.
Proof.
  intros Hwf Hc Hp. destruct (contiguous_accounting s count r s' Hwf Hc Hp).
  split_and!; [done| |done].
  destruct r; [|by destruct Hp as [-> _]]. destruct Hp as (? & ? & ? & ? & Ht). apply Ht.
Qed.

Lemma exact_keeps s a b ok s' : wf s → 0 ≤ a ≤ b → exact_post s a b ok s' → keeps s s'.
Proof.
  intros Hwf Hab Hp. destruct (exact_accounting s a b ok s' Hwf Hab Hp).
  split_and!; [done| |done]. destruct ok; [|by destruct Hp as [-> _]]. apply Hp.
Qed.

Definition frame_result s (r : option Z) : Prop :=
  ∀ a, r = Some a → ∃ f, a = f * FRAME_SIZE ∧ 0 ≤ f ≤ total_frames s.

Lemma alloc_frame_keeps s :
  wf s → returns (alloc_frame s) (λ '(r, s'), keeps s s' ∧ frame_result s r).
Proof.
  intros Hwf. eapply returns_mono; [by apply alloc_frame_ok|]. intros [r s'] Hp.
  split; [by eapply alloc_keeps|]. intros a ->.
  destruct Hp as (f & -> & Hf & _). exists f. split; [done|lia].
Qed.

Lemma contiguous_any_keeps s count :
  wf s → 0 ≤ count ≤ total_frames s →
  returns (alloc_frames_contiguous s count) (λ '(r, s'), keeps s s' ∧ frame_result s r).
Proof.
  intros Hwf Hc. destruct (decide (count = 0)) as [->|].
  { simpl. split; [by apply keeps_refl|done]. }
  destruct (decide (count = 1)) as [->|]; [by apply alloc_frame_keeps|].
  eapply returns_mono; [apply alloc_contiguous_ok; [done|lia]|].
  intros [r s'] Hp. split; [by apply (contiguous_keeps s count r); [|lia|]|].
  intros a ->. destruct Hp as (f & -> & (? & ? & _) & _). exists f. split; [done|lia].
Qed.

Lemma release_keeps s f s' : release_post s f s' → keeps s s'.
Proof. intros Hp. pose proof (release_accounting s s' f Hp). destruct Hp as (?&?&?). done. Qed.

Lemma reserve_keeps s addr :
  wf s → in_u 64 addr → returns (reserve_frame s addr) (keeps s).
Proof.
  intros Hwf Ha. pose proof (frame_bound addr Ha).
  eapply returns_mono; [by apply reserve_frame_ok; [|destruct Ha]|].
  intros s'. simpl. destruct ((_ <? _) && _) eqn:E; [|intros ->; by apply keeps_refl].
  apply andb_true_iff in E as [Hlt Hfree]. apply negb_true_iff in Hfree.
  intros (Hwf' & Ht & Hu & Hr & Hal). split; [done|]. split; [done|].
  intros Hacc. apply (accounting_shift s s' 1); [done..| |].
  - unfold allocated_count. rewrite Ht.
    apply (countb_flip _ _ _ (addr / FRAME_SIZE)); [apply NoDup_seqZ| |done| |].
    + apply elem_of_frames. lia.
    + rewrite Hal, Z.eqb_refl. btauto.
    + intros g Hg. rewrite Hal, (proj2 (Z.eqb_neq _ _)) by done. btauto.
  - rewrite Hu, Hr, wrap_add_r. f_equal. lia.
Qed.

Lemma frames_for_bound s size :
  wf s → 0 ≤ size ≤ total_frames s * FRAME_SIZE ∧ size + FRAME_SIZE < 2 ^ 64 →
  frames_for size = Ret ((size + FRAME_SIZE - 1) / FRAME_SIZE) ∧
  0 ≤ (size + FRAME_SIZE - 1) / FRAME_SIZE ≤ total_frames s.
Proof.
  intros Hwf Hs. pose proof (wf_total s Hwf). unfold FRAME_SIZE, PAGE_SIZE in *.
  split; [apply frames_for_ok; unfold FRAME_SIZE, PAGE_SIZE; lia|].
  split; [apply Z.div_pos; lia|].
  apply Z.lt_succ_r, Z.div_lt_upper_bound; lia.
Qed.

Lemma alloc_and_map_keeps s size vmm :
  wf s → 0 ≤ size ≤ total_frames s * FRAME_SIZE ∧ size + FRAME_SIZE < 2 ^ 64 →
  returns (alloc_and_map s size vmm) (λ '(_, s'), keeps s s').
Proof.
  intros Hwf Hs. destruct (frames_for_bound s size Hwf Hs) as [Hn Hb].
  unfold alloc_and_map. rewrite Hn. step1. simpl. step1.
  eapply returns_mono; [by apply (contiguous_any_keeps s)|].
  intros [[a|] s1] [Hk Hr]; [|done]. destruct (Hr a eq_refl) as (f & -> & Hf).
  destruct (vmm _ _); [done|]. step1. pose proof (wf_total s Hwf).
  eapply returns_mono; [apply free_frames_contiguous_ok|].
  - apply Hk.
  - unfold FRAME_SIZE, PAGE_SIZE. lia.
  - lia.
  - rewrite frame_of_addr. lia.
  - intros s2 (?&?&?&_). simpl. by apply (keeps_trans s s1).
Qed.

Lemma alloc_dma_keeps s :
  wf s → returns (alloc_dma_capable_frame s) (λ '(_, s'), keeps s s').
Proof.
  intros Hwf. unfold alloc_dma_capable_frame. step1.
  eapply returns_mono; [by apply alloc_frame_keeps|].
  intros [[a|] s1] [Hk Hr]; [|done]. destruct (Hr a eq_refl) as (f & -> & Hf).
  destruct (_ <? _); [done|]. step1.
  eapply returns_mono; [apply free_frame_ok; [apply Hk|unfold FRAME_SIZE, PAGE_SIZE; lia]|].
  intros s2 Hp. simpl. apply release_keeps in Hp. by apply (keeps_trans s s1).
Qed.

Lemma range_frames_ok a b :
  0 ≤ a ≤ b → b + FRAME_SIZE < 2 ^ 64 →
  0 ≤ a / FRAME_SIZE ≤ (b + FRAME_SIZE - 1) / FRAME_SIZE ∧
  (b + FRAME_SIZE - 1) / FRAME_SIZE < 2 ^ 64.
Proof.
  unfold FRAME_SIZE, PAGE_SIZE. intros ??. split.
  - split; [apply Z.div_pos; lia|apply Z.div_le_mono; lia].
  - apply Z.div_lt_upper_bound; lia.
Qed.

Lemma region_bounds base size :
  region_ok base size → 0 ≤ region_start base < region_end base size ∧ region_end base size < 2 ^ 64.
Proof.
  unfold region_ok, region_start, region_end, FRAME_SIZE, PAGE_SIZE. intros (Hb & Hs & Hm).
  split; [split; [apply Z.div_pos; lia|]|apply Z.div_lt_upper_bound; lia].
  pose proof (Z.div_mod (base + size + 4096 - 1) 4096 ltac:(lia)).
  pose proof (Z.mod_pos_bound (base + size + 4096 - 1) 4096 ltac:(lia)).
  apply Z.div_lt_upper_bound; lia.
Qed.

(** The loop of [mark_as_used] and [reserve_region_for_boot] over free frames. *)
Lemma mark_loop_ok s a b :
  wf s → 0 ≤ a < b → all_free s a b →
  returns (for_each a (Z.min b (total_frames s)) (λ i s, set_bit s i) s) (λ s',
    wf s' ∧ only_words s s' ∧ ∀ g, allocated s' g = allocated s g || in_range a (b - a) g).
Proof.
  intros Hwf Hab Hf. destruct (Hf (b - 1)); [lia|]. rewrite Z.min_l by lia. apply set_exact_ok; [done|lia|done].
Qed.

Lemma marked_count s s' a b :
  0 ≤ a < b → all_free s a b → total_frames s' = total_frames s →
  (∀ g, allocated s' g = allocated s g || in_range a (b - a) g) →
  allocated_count s' = allocated_count s + (b - a).
Proof.
  intros Hab Hf Ht Hal. destruct (Hf (b - 1)); [lia|]. unfold allocated_count. rewrite Ht.
  rewrite (countb_ext _ (λ x, allocated s x || in_range a (b - a) x)) by (intros; apply Hal).
  rewrite countb_or, countb_in_range; [done|lia..|].
  intros x _ Hx. apply in_range_true in Hx. apply Hf. lia.
Qed.

Lemma mark_as_used_keeps s base size :
  wf s → region_ok base size → all_free s (region_start base) (region_end base size) →
  returns (mark_as_used s base size) (keeps s).
Proof.
  intros Hwf Hok Hf. pose proof (region_bounds base size Hok) as [Hab Hb]. destruct Hok as (?&?&?).
  unfold mark_as_used. rewrite end_frame_ok by lia. cbn [mbind outcome_bind].
  change (base / FRAME_SIZE) with (region_start base). fold (region_end base size).
  set (a := region_start base) in *. set (b := region_end base size) in *.
  step1. eapply returns_mono; [by apply mark_loop_ok|]. intros s1 (Hwf1 & (?&Ht&Hu&Hr&?) & Hal).
  step1. step1; [unfold in_u; lia|]. split_and!; [by apply wf_used_add|done|]. intros Hacc.
  apply (accounting_shift s _ (b - a)); [by apply wf_used_add|done| |].
  - apply marked_count; [done..|]. intros g. by rewrite (allocated_same s1).
  - simpl. rewrite Hu, Hr, wrap_add_l. f_equal. lia.
Qed.

Lemma reserve_boot_keeps s base size :
  wf s → region_ok base size → all_free s (region_start base) (region_end base size) →
  returns (reserve_region_for_boot s base size) (keeps s).
Proof.
  intros Hwf Hok Hf. pose proof (region_bounds base size Hok) as [Hab Hb]. destruct Hok as (?&?&?).
  unfold reserve_region_for_boot. rewrite end_frame_ok by lia. cbn [mbind outcome_bind].
  change (base / FRAME_SIZE) with (region_start base). fold (region_end base size).
  set (a := region_start base) in *. set (b := region_end base size) in *.
  step1. eapply returns_mono; [by apply mark_loop_ok|]. intros s1 (Hwf1 & (?&Ht&Hu&Hr&?) & Hal).
  step1. step1; [unfold in_u; lia|].
  assert (wf (reserved_add s1 (b - a))) as Hwf2 by (destruct Hwf1; split; simpl; try done; by apply wrap_in_u).
  split_and!; [done|done|]. intros Hacc. apply (accounting_shift s _ (b - a)); [done|done| |].
  - apply marked_count; [done..|]. intros g. by rewrite (allocated_same s1).
  - simpl. rewrite Hu, Hr, wrap_add_r. f_equal. lia.
Qed.

Lemma keeps_same s s' :
  wf s' → only_words s s' → (∀ g, allocated s' g = allocated s g) → keeps s s'.
Proof.
  intros Hwf (_&Ht&Hu&Hr&_) Hal. split_and!; [done..|]. unfold accounting, allocated_count. rewrite Hu, Hr, Ht.
  intros ->. apply countb_ext. intros; by rewrite Hal.
Qed.

Lemma init_region_keeps s base size :
  wf s → region_ok base size → (∀ g, region_start base ≤ g < region_end base size → allocated s g = false) →
  returns (init_region s base size) (keeps s).
Proof.
  intros Hwf Hok Hf. pose proof (region_bounds base size Hok) as [Hab Hb]. destruct Hok as (?&?&?).
  unfold init_region. rewrite end_frame_ok by lia. cbn [mbind outcome_bind].
  change (base / FRAME_SIZE) with (region_start base). fold (region_end base size).
  set (a := region_start base) in *. set (b := region_end base size) in *.
  destruct (decide (a ≤ Z.min b (total_frames s))) as [Hle|Hgt].
  - eapply returns_mono.
    { apply (for_each_inv (λ _ s', wf s' ∧ only_words s s' ∧ ∀ g, allocated s' g = allocated s g)); [done|done|].
      intros i s1 Hi (Hwf1 & (?&?&?&?&?) & Hal). eapply returns_mono; [apply clear_bit_ok; [done|lia]|].
      intros s2 (Hwf2 & (?&?&?&?&?) & Hal2). split; [done|]. split; [repeat split; congruence|].
      intros g. rewrite Hal2, Hal. destruct (Z.eqb_spec g i) as [->|]; [|done]. symmetry. apply Hf. lia. }
    intros s' (?&?&?). by apply keeps_same.
  - rewrite for_each_empty by lia. by apply keeps_refl.
Qed.

Lemma reset_all_keeps s :
  wf s → returns (reset_all_bits s) (λ s', wf s' ∧ total_frames s' = total_frames s ∧
    (∀ g, allocated s' g = false) ∧ accounting s').
Proof.
  intros Hwf. pose proof (wf_total s Hwf). unfold reset_all_bits. step1. step1; [unfold in_u; lia|].
  assert (0 ≤ (total_frames s + 63) / 64) as Hn by (apply Z.div_pos; lia). step1. eapply returns_mono.
  { apply (for_each_inv (λ i s', only_words s s' ∧ length (bitmap_words s') = length (bitmap_words s) ∧
      ∀ j, (j < length (bitmap_words s))%nat → Z.of_nat j < i → bitmap_words s' !! j = Some 0)); [done|done || (split_and!; [done..|intros; lia])|].
    rewrite <-(wf_length s Hwf). intros i s1 Hi ((?&?&?&?&?) & Hlen & Hz). unfold write_word.
    destruct (lookup_lt_is_Some_2 (bitmap_words s1) (Z.to_nat i)) as [w ->]; [lia|]. simpl.
    split; [done|]. split; [by rewrite length_insert|]. intros j Hj Hji.
    destruct (decide (j = Z.to_nat i)) as [->|]; [apply list_lookup_insert_eq; lia|].
    rewrite list_lookup_insert_ne by done. apply Hz; lia. }
  intros s1 ((?&Ht&Hu&Hr&Hm) & Hlen & Hz). rewrite <-(wf_length s Hwf) in Hz. simpl.
  assert (∀ w, w ∈ bitmap_words s1 → w = 0) as Hzero.
  { intros w [j Hj]%list_elem_of_lookup_1. pose proof (lookup_lt_Some _ _ _ Hj). rewrite Hz in Hj by lia. congruence. }
  set (s2 := with_reserved _ _). assert (∀ g, allocated s2 g = false) as Hno.
  { intros g. unfold allocated. simpl. destruct (bitmap_words s1 !! _) as [w|] eqn:E; simpl; [|rewrite Z.testbit_0_l; btauto].
    rewrite (Hzero w) by (by eapply list_elem_of_lookup_2). rewrite Z.testbit_0_l. btauto. }
  split_and!; [|done|done|].
  - destruct Hwf. split; simpl; rewrite ?Ht, ?Hlen, ?Hm; try done. apply Forall_forall. intros w ->%Hzero. done.
  - unfold accounting, allocated_count. simpl. symmetry. apply countb_none. intros; apply Hno.
Qed.

(** The search of [alloc_aligned] for one start frame. *)
Lemma aligned_inner_ok s start n :
  wf s → 0 ≤ start → 0 ≤ n → start + n < 2 ^ 64 →
  returns (for_range 0 n (λ offset (_ : unit),
    frame ← uadd start offset;
    if total_frames s <=? frame then Ret (Done false) else
    b ← get_bit s frame;
    if (b : bool) then Ret (Done false) else Ret (Next tt)) tt)
  (λ fl, match fl with Next _ => all_free s start (start + n) | Done b => b = false end).
Proof.
  intros Hwf Hs Hn Hm. apply (for_range_inv (λ i _, all_free s start (start + i)) (λ b, b = false));
    [lia|intros g; lia|].
  intros i [] Hi Hall. step1. step1; [unfold in_u; lia|].
  destruct (Z.leb_spec (total_frames s) (start + i)); [done|].
  rewrite get_bit_ok by (done || lia). simpl. destruct (allocated s (start + i)) eqn:Ha; simpl; [done|].
  intros g Hg. destruct (decide (g = start + i)) as [->|]; [done|apply Hall; lia].
Qed.

Lemma alloc_aligned_keeps s align size :
  wf s → 0 ≤ align → 0 ≤ size → size + FRAME_SIZE < 2 ^ 64 →
  returns (alloc_aligned s align size) (λ '(_, s'), keeps s s').
Proof.
  intros Hwf Ha Hs Hm. pose proof (wf_total s Hwf). unfold alloc_aligned. rewrite frames_for_ok by done. simpl.
  set (n := (size + FRAME_SIZE - 1) / FRAME_SIZE). set (step := Z.max (align / FRAME_SIZE) 1).
  assert (0 ≤ n < 2 ^ 52) as Hn by (unfold n, FRAME_SIZE, PAGE_SIZE in *; split; [apply Z.div_pos; lia|apply Z.div_lt_upper_bound; lia]).
  assert (1 ≤ step) as Hst by (unfold step; lia). step1. eapply returns_mono.
  - apply (for_range_inv (λ _ _, True) (λ '(_, s'), keeps s s')); [apply Z.div_pos; lia|done|].
    intros k [] Hk _. assert (0 ≤ k * step < total_frames s) as Hks.
    { pose proof (Z.mul_div_le (total_frames s + step - 1) step ltac:(lia)). nia. }
    step1. eapply returns_mono; [apply aligned_inner_ok; [done|lia..]|]. intros [[]|b]; [|by intros ->].
    intros Hf. assert (k * step + n ≤ total_frames s) as Hle.
    { destruct (decide (n = 0)); [lia|]. destruct (Hf (k * step + n - 1)); lia. }
    step1. eapply returns_mono; [apply set_range_ok; [done|lia..]|]. intros s1 (Hwf1 & (?&?&?&?&?) & Hal).
    step1. step1; [by apply (frame_addr_fits s); [|lia]|]. simpl.
    apply (exact_keeps s (k * step) (k * step + n) true); [done|lia|]. split; [done|].
    replace (k * step + n - k * step) with n by lia.
    split; simpl; [by apply wf_used_add|done| |congruence..]. intros g. by rewrite (allocated_same s1).
  - intros [[]|[r s']]; [|done]. intros _. by apply keeps_refl.
Qed.

(** No legal call panics or goes out of the bitmap, and each one keeps the
    manager well-formed and its counters in step with its bitmap. *)
Lemma run_op_ok s o : wf s → op_ok s o → returns (run_op s o) (keeps s).
Proof.
  intros Hwf Hok. destruct o as [|c|a|a c|a|a|a b|a sz|sz v| |al sz|b sz|b sz|b sz|]; simpl in *.
  - apply returns_snd. eapply returns_mono; [by apply alloc_frame_keeps|]. by intros [? ?] [? ?].
  - apply returns_snd. eapply returns_mono; [by apply contiguous_any_keeps|]. by intros [? ?] [? ?].
  - eapply returns_mono; [apply free_frame_ok; [done|apply Hok]|]. intros s'. apply release_keeps.
  - destruct Hok as [Ha Hc]. pose proof (frame_bound a Ha).
    eapply returns_mono; [apply free_frames_contiguous_ok; [done|apply Ha|lia..]|].
    by intros s' (?&?&?&_).
  - by apply reserve_keeps.
  - apply returns_snd. rewrite alloc_at_specific. pose proof (frame_bound a Hok).
    eapply returns_mono; [by apply alloc_specific_frame_ok|].
    intros [ok s']. apply exact_keeps; [done|lia].
  - destruct (range_frames_ok a b) as [??]; [tauto..|].
    apply returns_snd. unfold alloc_specific_range. rewrite frames_for_ok by tauto || lia. simpl.
    eapply returns_mono; [by apply take_exact_ok|]. intros [ok s']. by apply exact_keeps.
  - destruct (range_frames_ok a (a + sz)) as [??]; [lia..|].
    apply returns_snd. unfold validate_and_alloc. rewrite end_frame_ok by lia. simpl.
    eapply returns_mono; [by apply take_exact_ok|]. intros [ok s']. by apply exact_keeps.
  - apply returns_snd. by apply alloc_and_map_keeps.
  - apply returns_snd. by apply alloc_dma_keeps.
  - destruct Hok as (?&?&?). apply returns_snd. by apply alloc_aligned_keeps.
  - destruct Hok. by apply init_region_keeps.
  - destruct Hok. by apply mark_as_used_keeps.
  - destruct Hok. by apply reserve_boot_keeps.
  - eapply returns_mono; [by apply reset_all_keeps|]. intros s' (?&?&?&?). by split_and!.
Qed.

(** ** The largest free block *)

(** The scan of [find_largest_free_block] before frame [i]: [cur] is the length
    of the free run that ends at [i], [mx] the best of the runs before it. *)
Record scan_inv s (i mx cur : Z) : Prop := {
  scan_range : 0 ≤ mx ∧ 0 ≤ cur ≤ i;
  scan_cur : free_run s cur (i - cur);
  scan_mx : ∃ st, free_run s mx st;
  scan_end : ∀ st c, 0 ≤ c → free_run s c st → st + c = i → c ≤ cur;
  scan_all : ∀ st c, 0 ≤ c → free_run s c st → st + c ≤ i → c ≤ Z.max mx cur
}.

Lemma scan_free s i mx cur :
  i < total_frames s → allocated s i = false → scan_inv s i mx cur → scan_inv s (i + 1) mx (cur + 1).
Proof.
  intros Hlt Hi [? (? & ? & Hc) ? He Ha].
  assert (Hend : ∀ st c, 0 ≤ c → free_run s c st → st + c = i + 1 → c ≤ cur + 1).
  { intros st c Hc0 (? & ? & Hf) Hsum. destruct (decide (c = 0)); [lia|].
    assert (c - 1 ≤ cur); [|lia]. apply (He st); [lia| |lia].
    split; [lia|]. split; [lia|]. intros g Hg. apply Hf. lia. }
  split; [lia| |done|done|].
  - replace (i + 1 - (cur + 1)) with (i - cur) by lia. split; [lia|]. split; [lia|].
    intros g Hg. destruct (decide (g = i)) as [->|]; [done|apply Hc; lia].
  - intros st c Hc0 Hrun Hle. destruct (decide (st + c = i + 1)).
    + specialize (Hend st c Hc0 Hrun). lia.
    + specialize (Ha st c Hc0 Hrun). lia.
Qed.

Lemma scan_used s i mx cur :
  i < total_frames s → allocated s i = true → scan_inv s i mx cur →
  scan_inv s (i + 1) (Z.max mx cur) 0.
Proof.
  intros Hlt Hi [? Hcur Hmx He Ha].
  assert (Hend : ∀ st c, 0 ≤ c → free_run s c st → st + c = i + 1 → c = 0).
  { intros st c Hc0 (? & ? & Hf) Hsum. destruct (decide (c = 0)); [done|].
    rewrite Hf in Hi by lia. done. }
  split; [lia| | | |].
  - split; [lia|]. split; [lia|]. intros; lia.
  - destruct (Z.max_spec mx cur) as [[_ ->]|[_ ->]]; eauto.
  - intros st c Hc0 Hrun Hsum. by rewrite (Hend st c).
  - intros st c Hc0 Hrun Hle. destruct (decide (st + c = i + 1)).
    + rewrite (Hend st c); [lia|done..].
    + specialize (Ha st c Hc0 Hrun). lia.
Qed.

Lemma max_if a b : (if a <? b then b else a) = Z.max a b.
Proof. destruct (Z.ltb_spec a b); lia. Qed.

Lemma find_largest_ok s :
  wf s → returns (find_largest_free_block s) (λ n,
    (∃ st, free_run s n st) ∧ ∀ st c, 0 ≤ c → free_run s c st → c ≤ n).
Proof.
  intros Hwf. pose proof (wf_total s Hwf). unfold find_largest_free_block. step1.
  eapply returns_mono.
  - apply (for_each_inv (λ i '(mx, cur), scan_inv s i mx cur)); [lia| |].
    + split; [lia| | | |].
      * split; [lia|]. split; [lia|]. intros; lia.
      * exists 0. split; [lia|]. split; [lia|]. intros; lia.
      * intros st c ? (? & _ & _). lia.
      * intros st c ? (? & _ & _). lia.
    + intros i [mx cur] Hi Hinv. rewrite get_bit_ok by (done || lia). simpl.
      destruct (allocated s i) eqn:Ha; simpl.
      * rewrite max_if. apply scan_used; [lia|done..].
      * pose proof (scan_range _ _ _ _ Hinv). step1. step1; [unfold in_u; lia|].
        apply scan_free; [lia|done..].
  - intros [mx cur] [? Hcur Hmx He Ha]. simpl. rewrite max_if. split.
    + destruct (Z.max_spec mx cur) as [[_ ->]|[_ ->]]; eauto.
    + intros st c Hc Hrun. apply (Ha st); [done..|]. destruct Hrun. lia.
Qed.

(** ** The properties *)

(** C12: [alloc_frame] never panics and never reads outside the bitmap.  It takes
    the lowest free frame at or above [max_reserved_frame], or the lowest free
    frame when there is none above, marks exactly that frame, counts it, and
    returns its address; it returns [None], unchanged, exactly when every frame
    is allocated. *)
Theorem alloc_frame_next_fit s :
  wf s →
  returns (alloc_frame s) (λ '(r, s'),
    match r with
    | Some a => ∃ f, a = f * FRAME_SIZE ∧ next_fit s (Some f) ∧ allocated s f = false ∧
                     took (λ g, g =? f) 1 s s' ∧
                     max_reserved_frame s' = Z.max (max_reserved_frame s) f
    | None => s' = s ∧ ∀ f, 0 ≤ f < total_frames s → allocated s f = true
    end).
Proof.
  intros Hwf. eapply returns_mono; [by apply alloc_frame_ok|].
  intros [[a|] s']; simpl; [naive_solver|]. intros [-> Hnone]. split; [done|].
  intros f Hf. apply negb_false_iff. by apply Hnone.
Qed.

(** States reached from [s0] by legal calls. *)
Inductive reachable (s0 : PhysicalMemoryManager) : PhysicalMemoryManager → Prop :=
| reach_init : reachable s0 s0
| reach_step s o s' :
    reachable s0 s → op_ok s o → run_op s o = Ret s' → reachable s0 s'.

(** C2: the counters follow the bitmap.  Start from a manager with a bitmap for its frames
    whose two counters add up to the set bits, and run any sequence of
    [alloc_frame], [alloc_frames_contiguous], [free_frame],
    [free_frames_contiguous], [reserve_frame], [alloc_at], [alloc_specific_range],
    [validate_and_alloc], [alloc_and_map], [alloc_dma_capable_frame],
    [alloc_aligned], [reset_all_bits], and of [init_region], [mark_as_used] and
    [reserve_region_for_boot] on regions of free frames, with arguments whose size
    computations do not overflow and contiguous requests no larger than memory.  Then
    the counters still add up, modulo 2^64, to the number of set bits, and every
    such call returns: it neither panics nor leaves the bitmap.  The functions that
    write a counter or a bitmap byte directly are not among the calls. *)
Theorem reachable_accounting s0 s :
  wf s0 → accounting s0 → reachable s0 s →
  wf s ∧ accounting s ∧ ∀ o, op_ok s o → ∃ s', run_op s o = Ret s'.
Proof.
  intros Hwf0 Hacc0 Hr.
  assert (wf s ∧ accounting s) as [Hwf Hacc].
  { induction Hr as [|s o s' Hr IH Hok Hrun]; [done|]. destruct IH as [Hwf Hacc].
    pose proof (run_op_ok s o Hwf Hok) as Hk. rewrite Hrun in Hk. destruct Hk as (?&?&?). auto. }
  split; [done|]. split; [done|]. intros o Hok.
  pose proof (run_op_ok s o Hwf Hok) as Hk. apply returns_iff in Hk. naive_solver.
Qed.

(** With the counters in step with the bitmap, [get_free_frames] is the
    number of clear bits: always in the release profile, and in the dev profile
    when the counters themselves have not wrapped below zero. *)
Theorem get_free_frames_exact s :
  wf s → accounting s →
  overflow_checks = false ∨ used_frames s + reserved_frames s ≤ total_frames s →
  get_free_frames s = Ret (countb (free_at s) (seqZ 0 (total_frames s))).
Proof.
  intros Hwf Hacc Hcase. unfold free_at. rewrite countb_negb, length_seqZ.
  pose proof (wf_total s Hwf) as Ht. rewrite Z2Nat.id by lia.
  fold (allocated_count s). pose proof (allocated_count_bounds s Hwf).
  destruct (wf_used s Hwf), (wf_reserved s Hwf).
  assert (allocated_count s ≤ total_frames s) as Hle.
  { unfold allocated_count. pose proof (countb_bounds (allocated s) (seqZ 0 (total_frames s))) as Hb.
    rewrite length_seqZ in Hb. lia. }
  unfold accounting, wrap in Hacc. unfold get_free_frames, usub.
  destruct Hcase as [Hrel|Hsum].
  - rewrite checked_release by done. simpl. rewrite checked_release by done. f_equal.
    rewrite Zminus_mod_idemp_l.
    replace (total_frames s - used_frames s - reserved_frames s)
      with (total_frames s - (used_frames s + reserved_frames s)) by lia.
    rewrite <-Zminus_mod_idemp_r, Hacc. apply Z.mod_small. lia.
  - rewrite Z.mod_small in Hacc by lia.
    rewrite checked_ok by (unfold in_u; lia). simpl.
    rewrite checked_ok by (unfold in_u; lia). f_equal. lia.
Qed.

(** A contiguous request larger than the machine's memory makes the
    subtraction [total_frames - count] underflow.  The dev profile panics; the
    release profile searches past the end of memory, where [get_bit] answers
    "free", and returns a run that ends beyond the last frame. *)
Theorem contiguous_oversize s count :
  wf s → 2 ≤ count → total_frames s < count < 2 ^ 63 →
  if overflow_checks then alloc_frames_contiguous s count = Panic
  else returns (alloc_frames_contiguous s count) (λ '(r, _),
         ∃ f, r = Some (f * FRAME_SIZE) ∧ 0 ≤ f ∧ total_frames s < f + count).
Proof.
  intros Hwf Hc2 Hc. pose proof (wf_total s Hwf). unfold alloc_frames_contiguous.
  rewrite (proj2 (Z.eqb_neq count 0)), (proj2 (Z.eqb_neq count 1)) by lia.
  destruct overflow_checks eqn:Hprof; unfold usub.
  { rewrite checked_dev; [done|done|]. unfold in_u. lia. }
  rewrite checked_release by done. simpl.
  assert ((total_frames s - count) mod 2 ^ 64 = total_frames s - count + 2 ^ 64) as ->.
  { rewrite <-(Z_mod_plus_full _ 1), Z.mod_small; lia. }
  step1. eapply returns_mono.
  - apply (for_range_inv (λ f _, f ≤ total_frames s)
      (λ '(r, _), ∃ f, r = Some (f * FRAME_SIZE) ∧ 0 ≤ f ∧ total_frames s < f + count)); [lia..|].
    intros f [] Hf Hle. step1. eapply returns_mono; [apply range_free_ok; [done|lia..]|].
    intros [] Hb.
    + step1. eapply returns_mono.
      { apply (for_each_inv (λ _ s', wf s' ∧ total_frames s' = total_frames s)); [lia|done|].
        intros o s' Ho [Hwf' Ht]. step1. step1; [unfold in_u; lia|].
        destruct (decide (f + o < total_frames s)).
        - eapply returns_mono; [apply set_bit_ok; [done|lia]|]. intros s2 (?&(?&?&?)&?).
          split; [done|congruence].
        - unfold set_bit. by rewrite (proj2 (Z.leb_le _ _)) by lia. }
      intros s1 _. step1. step1; [unfold in_u; lia|]. step1.
      step1; [by apply (frame_addr_fits s); [|lia]|]. simpl. exists f. split; [done|lia].
    + simpl. destruct (decide (f = total_frames s)) as [->|]; [|lia].
      exfalso. enough (false = true) by done. apply Hb. intros g Hg. apply allocated_out. lia.
  - intros [[]|[r s']]; simpl; [lia|done].
Qed.

Lemma contiguous_fitting s count :
  wf s → 2 ≤ count ≤ total_frames s →
  returns (alloc_frames_contiguous s count) (λ '(r, s'),
    contiguous_post s count r s' ∧
    returns (find_largest_free_block s) (λ n, is_Some r ↔ count ≤ n)).
Proof.
  intros Hwf Hc. eapply returns_mono; [by apply alloc_contiguous_ok|].
  intros [r s'] Hp. split; [done|].
  eapply returns_mono; [by apply find_largest_ok|]. intros n [[st Hst] Hmax]. split.
  - intros [a ->]. destruct Hp as (f & _ & Hrun & _). apply (Hmax f); [lia|done].
  - intros Hn. destruct r as [a|]; [done|]. destruct Hp as [_ Hno]. exfalso.
    apply (Hno st). destruct Hst as (? & ? & Hf). split; [done|]. split; [lia|].
    intros g Hg. apply Hf. lia.
Qed.

(** C15: [alloc_frames_contiguous] for every count below 2^63.  A request of no
    frames gets [None], a request of one frame is [alloc_frame].  A request of two
    or more frames that fits the machine's memory gets the lowest run of free
    frames of that length, whose frames, and no others, become allocated, or [None],
    unchanged, when there is no such run; and it succeeds exactly when the request
    is at most what [find_largest_free_block] reports.  A request larger than memory
    panics in the dev profile and, in the release profile, is answered with a run
    that ends beyond the last frame. *)
Theorem contiguous_lowest_run s count :
  wf s → 0 ≤ count < 2 ^ 63 →
  if decide (count = 0) then alloc_frames_contiguous s count = Ret (None, s)
  else if decide (count = 1) then alloc_frames_contiguous s count = alloc_frame s
  else if decide (count ≤ total_frames s) then
    returns (alloc_frames_contiguous s count) (λ '(r, s'),
      match r with
      | Some a => ∃ f, a = f * FRAME_SIZE ∧ free_run s count f ∧
          (∀ f', free_run s count f' → f ≤ f') ∧ took (in_range f count) count s s'
      | None => s' = s ∧ ∀ f, ¬ free_run s count f
      end ∧
      returns (find_largest_free_block s) (λ n, is_Some r ↔ count ≤ n))
  else if overflow_checks then alloc_frames_contiguous s count = Panic
  else returns (alloc_frames_contiguous s count) (λ '(r, _),
         ∃ f, r = Some (f * FRAME_SIZE) ∧ 0 ≤ f ∧ total_frames s < f + count).
Proof.
  intros Hwf Hc. case_decide as H0; [by subst|]. case_decide as H1; [by subst|].
  case_decide as Ht; [apply contiguous_fitting; [done|lia]|]. apply contiguous_oversize; [done|lia..].
Qed.

(** Freeing the frame that [alloc_frame] just returned gives back the set of
    allocated frames and the counters that held before the allocation. *)
Theorem alloc_free_roundtrip s :
  wf s →
  returns (alloc_frame s) (λ '(r, s1),
    ∀ a, r = Some a →
    returns (free_frame s1 a) (λ s2,
      (∀ g, allocated s2 g = allocated s g) ∧ used_frames s2 = used_frames s ∧
      reserved_frames s2 = reserved_frames s ∧ total_frames s2 = total_frames s)).
Proof.
  intros Hwf. eapply returns_mono; [by apply alloc_frame_ok|].
  intros [r s1] Hp a ->. destruct Hp as (f & -> & Hf & _ & Hfree & [Hwf1 Ht Hal Hu Hr] & _).
  eapply returns_mono; [apply free_frame_ok; [done|unfold FRAME_SIZE, PAGE_SIZE; lia]|].
  rewrite frame_of_addr. intros s2 (Hwf2 & Ht2 & Hr2 & _ & Hal2 & Hu2).
  split_and!; [|..|congruence|congruence].
  - intros g. rewrite Hal2, Hal. destruct (Z.eqb_spec g f) as [->|]; [done|btauto].
  - rewrite Hu2, Hal, Z.eqb_refl, orb_true_r, Hu. unfold wrap.
    rewrite Zminus_mod_idemp_l. replace (_ + 1 - 1) with (used_frames s) by lia.
    apply wrap_small, (wf_used s Hwf).
Qed.

(** C34: [validate_and_alloc] is all or nothing, and for a non-empty range it
    succeeds exactly when [validate_range] says the range is free: then every
    frame of the range, and no other, becomes allocated and is counted. *)
Theorem validate_and_alloc_exact s addr size :
  wf s → 0 ≤ addr → 0 < size → addr + size + FRAME_SIZE < 2 ^ 64 →
  let a := addr / FRAME_SIZE in
  let b := (addr + size + FRAME_SIZE - 1) / FRAME_SIZE in
  returns (validate_and_alloc s addr size) (λ '(ok, s'),
    validate_range s addr size = Ret ok ∧
    if ok then took (in_range a (b - a)) (b - a) s s' else s' = s).
Proof.
  intros Hwf Ha Hs Hmax a b.
  destruct (range_frames_ok addr (addr + size)) as [Hab Hb]; [lia..|].
  assert (a < b).
  { unfold a, b, FRAME_SIZE, PAGE_SIZE. apply Z.div_lt_upper_bound; [lia|].
    pose proof (Z.div_mod (addr + size + 4096 - 1) 4096 ltac:(lia)).
    pose proof (Z.mod_pos_bound (addr + size + 4096 - 1) 4096 ltac:(lia)). lia. }
  unfold validate_and_alloc, validate_range. rewrite !end_frame_ok by lia. simpl. fold a b.
  eapply returns_mono; [by apply take_exact_ok|]. intros [ok s'] Hp.
  split; [|by destruct ok; apply Hp].
  destruct (Z.ltb_spec (total_frames s) b).
  { destruct ok; [|done]. destruct Hp as [Hfree _]. destruct (Hfree (b - 1)); lia. }
  set (m := for_range a b _ tt).
  assert (returns m (λ fl, match fl with Next _ => all_free s a b
                                    | Done r => r = false ∧ ¬ all_free s a b end)) as Hm.
  { apply (for_range_inv (λ i _, all_free s a i) (λ r, r = false ∧ ¬ all_free s a b));
      [lia|intros g; lia|].
    intros i [] Hi Hall. rewrite get_bit_ok by (done || lia). simpl.
    destruct (allocated s i) eqn:Hi'; simpl.
    - split; [done|]. intros Hf. destruct (Hf i); [lia|congruence].
    - intros g Hg. destruct (decide (g = i)) as [->|]; [split; [lia|done]|apply Hall; lia]. }
  apply returns_iff in Hm as (fl & -> & Hfl). simpl. f_equal.
  destruct fl as [[]|r], ok; [done| | |]; unfold exact_post in Hp; naive_solver.
Qed.

(** [free_frame] does not tell reserved frames from allocated ones.  Freeing
    a frame that [reserve_frame] set aside, on a machine with nothing allocated,
    leaves [used_frames] at 2^64 - 1 with [reserved_frames] still counting the
    frame, and [get_free_frames] then panics in the dev profile. *)
Theorem free_reserved_underflows s addr :
  wf s → in_u 64 addr → used_frames s = 0 →
  addr / FRAME_SIZE < total_frames s → allocated s (addr / FRAME_SIZE) = false →
  returns (reserve_frame s addr) (λ s1,
    returns (free_frame s1 addr) (λ s2,
      used_frames s2 = 2 ^ 64 - 1 ∧ reserved_frames s2 = wrap 64 (reserved_frames s + 1) ∧
      allocated s2 (addr / FRAME_SIZE) = false ∧
      (overflow_checks = true → get_free_frames s2 = Panic))).
Proof.
  intros Hwf Ha Hu Hf Hfree. pose proof (wf_total s Hwf).
  eapply returns_mono; [by apply reserve_frame_ok; [|destruct Ha]|].
  intros s1. simpl. unfold free_at. rewrite Hfree, (proj2 (Z.ltb_lt _ _)) by done. simpl.
  intros (Hwf1 & Ht1 & Hu1 & Hr1 & Hal1).
  eapply returns_mono; [by apply free_frame_ok; [|destruct Ha]|].
  intros s2 (Hwf2 & Ht2 & Hr2 & _ & Hal2 & Hu2).
  rewrite Hal1, Z.eqb_refl, orb_true_r, Hu1, Hu in Hu2.
  split_and!; [done|congruence|by rewrite Hal2, Z.eqb_refl|].
  intros Hdev. unfold get_free_frames, usub. rewrite Hu2.
  rewrite checked_dev; [done|done|]. unfold in_u. change (wrap 64 (0 - 1)) with (2 ^ 64 - 1). lia.
Qed.

End theorems.

(** ** Concrete runs *)

(** A machine of 130 frames: the first word full, frames 64 and 66 taken, one
    of the taken frames reserved, the hint at 64. *)
Definition sample : PhysicalMemoryManager :=
  {| bitmap := 0x200000; bitmap_words := [u64_max; 5; 0]; total_frames := 130;
     used_frames := 65; reserved_frames := 1; max_reserved_frame := 64 |}.

(** The same machine with nothing allocated. *)
Definition blank : PhysicalMemoryManager :=
  {| bitmap := 0x200000; bitmap_words := [0; 0; 0]; total_frames := 130;
     used_frames := 0; reserved_frames := 0; max_reserved_frame := 0 |}.

Lemma sample_wf : wf sample.
Proof. split; try done. apply (bool_decide_unpack _). by vm_compute. Qed.

Lemma blank_wf : wf blank.
Proof. split; try done. apply (bool_decide_unpack _). by vm_compute. Qed.

(** Half of the frames are in use; 43 of 130 are 8670917 / 2^18, which is 33.07692. *)
Example sample_usage : get_usage_percentage sample = f32_of 50.
Proof. by vm_compute. Qed.
Example part_usage : get_usage_percentage (with_used sample 43) = SpecFloat.S754_finite false 8670917 (-18).
Proof. vm_compute. reflexivity. Qed.

Example sample_alloc : fst <$> alloc_frame (prof := dev) sample = Ret (Some (65 * 4096)).
Proof. by vm_compute. Qed.

Example sample_contiguous :
  fst <$> alloc_frames_contiguous (prof := dev) sample 3 = Ret (Some (67 * 4096)).
Proof. by vm_compute. Qed.

Example sample_oversize :
  fst <$> alloc_frames_contiguous (prof := release) sample 131 = Ret (Some (67 * 4096)).
Proof. by vm_compute. Qed.

Lemma alloc_frame_next_fit_witness :
  wf sample ∧
  returns (alloc_frame (prof := dev) sample) (λ '(r, s'),
    match r with
    | Some a => ∃ f, a = f * FRAME_SIZE ∧ next_fit sample (Some f) ∧
                     allocated sample f = false ∧ took (λ g, g =? f) 1 sample s' ∧
                     max_reserved_frame s' = Z.max (max_reserved_frame sample) f
    | None => s' = sample ∧ ∀ f, 0 ≤ f < total_frames sample → allocated sample f = true
    end).
Proof. split; [exact sample_wf|]. exact (alloc_frame_next_fit (prof := dev) sample sample_wf). Defined.

Lemma reachable_accounting_witness :
  ∃ s, run_op (prof := dev) sample (OpReserve 0x41000) = Ret s ∧ wf s ∧ accounting s.
Proof.
  destruct (run_op (prof := dev) sample (OpReserve 0x41000)) as [s| | |] eqn:E;
    [|by vm_compute in E..].
  exists s. split; [done|].
  destruct (reachable_accounting (prof := dev) sample s) as (Hw & Ha & _).
  - exact sample_wf.
  - by vm_compute.
  - eapply reach_step; [apply reach_init| |exact E]. by split.
  - by split.
Defined.

Lemma get_free_frames_exact_witness : get_free_frames (prof := dev) sample = Ret 64.
Proof.
  rewrite (get_free_frames_exact (prof := dev) sample).
  - by vm_compute.
  - exact sample_wf.
  - by vm_compute.
  - by right.
Defined.

Lemma contiguous_lowest_run_witness :
  returns (alloc_frames_contiguous (prof := dev) sample 3) (λ '(r, s'),
    contiguous_post sample 3 r s' ∧
    returns (find_largest_free_block (prof := dev) sample) (λ n, is_Some r ↔ 3 ≤ n)) ∧
  alloc_frames_contiguous (prof := dev) sample 131 = Panic.
Proof.
  split.
  - exact (contiguous_lowest_run (prof := dev) sample 3 sample_wf ltac:(lia)).
  - exact (contiguous_lowest_run (prof := dev) sample 131 sample_wf ltac:(lia)).
Defined.

Lemma alloc_free_roundtrip_witness :
  returns (alloc_frame (prof := dev) sample) (λ '(r, s1),
    ∀ a, r = Some a →
    returns (free_frame s1 a) (λ s2,
      (∀ g, allocated s2 g = allocated sample g) ∧ used_frames s2 = 65 ∧
      reserved_frames s2 = 1 ∧ total_frames s2 = 130)).
Proof. exact (alloc_free_roundtrip (prof := dev) sample sample_wf). Defined.

Lemma validate_and_alloc_exact_witness :
  returns (validate_and_alloc (prof := dev) sample (67 * 4096) 8192) (λ '(ok, s'),
    validate_range (prof := dev) sample (67 * 4096) 8192 = Ret ok ∧
    if ok then took (in_range 67 2) 2 sample s' else s' = sample).
Proof. by apply (validate_and_alloc_exact (prof := dev) sample (67 * 4096) 8192 sample_wf). Defined.

Lemma contiguous_oversize_witness :
  alloc_frames_contiguous (prof := dev) sample 131 = Panic ∧
  returns (alloc_frames_contiguous (prof := release) sample 131) (λ '(r, _),
    ∃ f, r = Some (f * FRAME_SIZE) ∧ 0 ≤ f ∧ 130 < f + 131).
Proof.
  split.
  - exact (contiguous_oversize (prof := dev) sample 131 sample_wf ltac:(lia) ltac:(simpl; lia)).
  - exact (contiguous_oversize (prof := release) sample 131 sample_wf ltac:(lia) ltac:(simpl; lia)).
Defined.

Lemma free_reserved_underflows_witness :
  returns (reserve_frame blank 0x3000) (λ s1,
    returns (free_frame s1 0x3000) (λ s2,
      used_frames s2 = 2 ^ 64 - 1 ∧ reserved_frames s2 = 1 ∧ allocated s2 3 = false ∧
      (@overflow_checks dev = true → get_free_frames (prof := dev) s2 = Panic))).
Proof. by apply (free_reserved_underflows (prof := dev) blank 0x3000 blank_wf). Defined.

(** *** What the region functions do to frames that are not free *)

(** [mark_as_used] counts frames that are already set, and frames beyond memory,
    again; [reserve_region_for_boot] does the same with the other counter. *)
Example mark_counts_again :
  (s ← mark_as_used (prof := dev) sample 0 4096; Ret (used_frames s, allocated_count s)) = Ret (66, allocated_count sample) ∧
  (s ← mark_as_used (prof := dev) sample (200 * 4096) 4096; Ret (used_frames s, allocated_count s)) =
    Ret (66, allocated_count sample) ∧
  (s ← reserve_region_for_boot (prof := dev) sample 0 8192; Ret (reserved_frames s, allocated_count s)) =
    Ret (3, allocated_count sample).
Proof. by vm_compute. Qed.

(** [init_region] clears bits without counting them. *)
Example init_region_forgets :
  (s ← init_region (prof := dev) sample 0 8192; Ret (used_frames s, allocated_count s)) =
    Ret (65, allocated_count sample - 2).
Proof. by vm_compute. Qed.
