(* ===== verification/PageIndex.v ===== *)
(** * Indices and pages of virtual addresses

    Both page table managers, arch/paging.rs and memory/virtual.rs, split a
    virtual address into four 9-bit indices and a page offset.  This file has the
    indices, the page number they make up, and the lemmas on consecutive pages. *)

From S2P Require Import Prelude.
Open Scope Z_scope.

(** The index a virtual address has in a table of level [k]: 4 is the PML4, 1
    the page table. *)
Definition idx (k : nat) (v : Z) : Z :=
  Z.land (Z.shiftr v (12 + 9 * (Z.of_nat k - 1))) 0x1FF.

Lemma idx_range k v : 0 ≤ idx k v < 512.
Proof.
  unfold idx. change 0x1FF with (2 ^ 9 - 1). rewrite land_mod by lia.
  by apply Z.mod_pos_bound.
Qed.

Lemma idx_nat_inj k j v v' : Z.to_nat (idx k v) = Z.to_nat (idx j v') → idx k v = idx j v'.
Proof. pose proof (idx_range k v). pose proof (idx_range j v'). lia. Qed.

Lemma idx_spec k v i :
  (1 ≤ k)%nat → 0 ≤ i → Z.testbit (idx k v) i = Z.testbit v (i + (12 + 9 * (Z.of_nat k - 1))) && (i <? 9).
Proof.
  intros. unfold idx. change 0x1FF with (Z.ones 9).
  rewrite Z.land_spec, Z.shiftr_spec, Z.testbit_ones by lia.
  destruct (Z.leb_spec 0 i); [done|lia].
Qed.

(** The 36-bit number of the page of [v] in the 48-bit address space. *)
Definition page_of (v : Z) : Z := Z.land (Z.shiftr v 12) (2 ^ 36 - 1).

Lemma page_of_spec v i : 0 ≤ i → Z.testbit (page_of v) i = Z.testbit v (i + 12) && (i <? 36).
Proof.
  intros. unfold page_of. change (2 ^ 36 - 1) with (Z.ones 36).
  rewrite Z.land_spec, Z.shiftr_spec, Z.testbit_ones by lia.
  destruct (Z.leb_spec 0 i); [done|lia].
Qed.

(** Two addresses are on the same page iff they have the same indices. *)
Lemma page_of_idx v v' :
  page_of v = page_of v' ↔ ∀ k, (1 ≤ k ≤ 4)%nat → idx k v = idx k v'.
Proof.
  split.
  - intros Hp k Hk. apply Z.bits_inj'. intros i Hi. rewrite !idx_spec by lia.
    destruct (Z.ltb_spec i 9); [|btauto]. f_equal.
    assert (Z.testbit (page_of v) (i + 9 * (Z.of_nat k - 1))
            = Z.testbit (page_of v') (i + 9 * (Z.of_nat k - 1))) as Hb by congruence.
    rewrite !page_of_spec in Hb by lia.
    rewrite (proj2 (Z.ltb_lt (i + 9 * (Z.of_nat k - 1)) 36)) in Hb by lia.
    rewrite !andb_true_r in Hb.
    by replace (i + (12 + 9 * (Z.of_nat k - 1))) with (i + 9 * (Z.of_nat k - 1) + 12) by lia.
  - intros Hk. apply Z.bits_inj'. intros i Hi. rewrite !page_of_spec by lia.
    destruct (Z.ltb_spec i 36); [|btauto]. f_equal.
    pose proof (Z.div_mod i 9 ltac:(lia)). pose proof (Z.mod_pos_bound i 9 ltac:(lia)).
    assert (0 ≤ i / 9 < 4) by (split; [apply Z.div_pos|apply Z.div_lt_upper_bound]; lia).
    pose proof (Hk (Z.to_nat (i / 9) + 1)%nat ltac:(lia)) as He.
    apply (f_equal (λ z, Z.testbit z (i mod 9))) in He. rewrite !idx_spec in He by lia.
    rewrite (proj2 (Z.ltb_lt (i mod 9) 9)), !andb_true_r in He by lia.
    replace (i mod 9 + (12 + 9 * (Z.of_nat (Z.to_nat (i / 9) + 1) - 1))) with (i + 12) in He by lia.
    done.
Qed.

(** Consecutive pages, and that fewer than [2^36] of them are different. *)
Lemma page_of_step v0 i : 0 ≤ v0 → page_of (v0 + i * 4096) = (v0 / 4096 + i) mod 2 ^ 36.
Proof.
  intros. unfold page_of. rewrite land_mod, Z.shiftr_div_pow2 by lia.
  f_equal. change (2 ^ 12) with 4096. by rewrite Z.div_add by lia.
Qed.

Lemma page_of_step_inj v0 i j :
  0 ≤ v0 → 0 ≤ i < 2 ^ 36 → 0 ≤ j < 2 ^ 36 →
  page_of (v0 + i * 4096) = page_of (v0 + j * 4096) → i = j.
Proof.
  intros Hv Hi Hj. rewrite !page_of_step by done. intros Heq.
  set (a := v0 / 4096) in *.
  pose proof (Z.div_mod (a + i) (2 ^ 36) ltac:(lia)).
  pose proof (Z.div_mod (a + j) (2 ^ 36) ltac:(lia)). lia.
Qed.

(** Rounding down to the page boundary stays on the page. *)
Lemma page_of_align v : page_of (Z.land v (wnot 64 0xFFF)) = page_of v.
Proof.
  apply Z.bits_inj'. intros i Hi. rewrite !page_of_spec by done.
  destruct (Z.ltb_spec i 36); [|btauto]. f_equal. change 0xFFF with (Z.ones 12).
  rewrite Z.land_spec, wnot_spec, Z.ones_spec_high by lia.
  rewrite (proj2 (Z.ltb_lt (i + 12) 64)) by lia. apply andb_true_r.
Qed.
