(* ===== verification/Paging.v ===== *)
(** * Four-level page tables (src/arch/paging.rs)

    Page table entries are 64-bit words; page tables are objects of 512 entries,
    found through their address.  The machine state of this file is the set of
    page tables, the control registers the code writes, and the addresses whose
    translation was invalidated.  Following an entry to an address where there
    is no page table is undefined behaviour ([Undef]). *)

From S2P Require Import Prelude.
Open Scope Z_scope.

Module Entry.

(** The constant [0x000FFFF_FFFFFFF0] of [addr] and [set_addr]. *)
Definition ADDR_MASK : Z := 0x000FFFFFFFFFFF0.

Definition empty : Z := 0.
Definition test (e m : Z) : bool := negb (Z.land e m =? 0).
Definition present (e : Z) : bool := test e 1.
Definition writable (e : Z) : bool := test e 2.
Definition user_accessible (e : Z) : bool := test e 4.
Definition write_through (e : Z) : bool := test e 8.
Definition cache_disabled (e : Z) : bool := test e 16.
Definition accessed (e : Z) : bool := test e 32.
Definition dirty (e : Z) : bool := test e 64.
Definition huge_page (e : Z) : bool := test e 128.
Definition global (e : Z) : bool := test e 256.

Definition addr (e : Z) : Z := Z.land e ADDR_MASK.
Definition set_addr (e a : Z) : Z :=
  Z.lor (Z.land e (wnot 64 ADDR_MASK)) (Z.land a ADDR_MASK).

(** [(self.0 & !(1 << k)) | ((b as u64) << k)]. *)
Definition put_bit (e k : Z) (b : bool) : Z :=
  Z.lor (Z.land e (wnot 64 (bit k))) (Z.shiftl (Z.b2z b) k).
Definition set_present (e : Z) (b : bool) : Z := put_bit e 0 b.
Definition set_writable (e : Z) (b : bool) : Z := put_bit e 1 b.
Definition set_user (e : Z) (b : bool) : Z := put_bit e 2 b.
Definition set_write_through (e : Z) (b : bool) : Z := put_bit e 3 b.
Definition set_cache_disabled (e : Z) (b : bool) : Z := put_bit e 4 b.
Definition set_accessed (e : Z) (b : bool) : Z := put_bit e 5 b.
Definition set_dirty (e : Z) (b : bool) : Z := put_bit e 6 b.
Definition set_huge (e : Z) (b : bool) : Z := put_bit e 7 b.
Definition set_global (e : Z) (b : bool) : Z := put_bit e 8 b.

Definition flags (e : Z) : Z := Z.land e 0xFFF.
Definition set_flags (e f : Z) : Z := Z.lor (Z.land e (wnot 64 0xFFF)) (Z.land f 0xFFF).

End Entry.

Definition PAGE_SIZE : Z := 4096.
Definition ENTRY_COUNT : Z := 512.

Module PageTable.
(** [[PageTableEntry; 512]]. *)
Definition new : list Z := replicate 512 Entry.empty.
Definition get_entry (p : list Z) (index : Z) : option Z := p !! Z.to_nat index.
Definition set_entry (p : list Z) (index e : Z) : list Z := <[Z.to_nat index := e]> p.
End PageTable.

Record Paging := {
  tables : gmap Z (list Z);
  cr0 : Z;
  cr3 : Z;
  cr4 : Z;
  efer : Z;
  invalidated : list Z
}.

Definition with_tables (s : Paging) (ts : gmap Z (list Z)) : Paging :=
  {| tables := ts; cr0 := cr0 s; cr3 := cr3 s; cr4 := cr4 s; efer := efer s;
     invalidated := invalidated s |}.
Definition with_cr0 (s : Paging) (v : Z) : Paging :=
  {| tables := tables s; cr0 := v; cr3 := cr3 s; cr4 := cr4 s; efer := efer s;
     invalidated := invalidated s |}.
Definition with_cr3 (s : Paging) (v : Z) : Paging :=
  {| tables := tables s; cr0 := cr0 s; cr3 := v; cr4 := cr4 s; efer := efer s;
     invalidated := invalidated s |}.
Definition with_cr4 (s : Paging) (v : Z) : Paging :=
  {| tables := tables s; cr0 := cr0 s; cr3 := cr3 s; cr4 := v; efer := efer s;
     invalidated := invalidated s |}.
Definition with_efer (s : Paging) (v : Z) : Paging :=
  {| tables := tables s; cr0 := cr0 s; cr3 := cr3 s; cr4 := cr4 s; efer := v;
     invalidated := invalidated s |}.

(** [invlpg]: the translation of [a] leaves the TLB. *)
Definition flush_tlb_single (s : Paging) (a : Z) : Paging :=
  {| tables := tables s; cr0 := cr0 s; cr3 := cr3 s; cr4 := cr4 s; efer := efer s;
     invalidated := a :: invalidated s |}.

(** Entry [i] of the table at [t], read and written.  The indices are masked with [0x1FF]
    or run over [0..512], so the array bound check is the [Panic] case. *)
Definition read_entry (s : Paging) (t i : Z) : outcome Z :=
  match tables s !! t with
  | Some es => match es !! Z.to_nat i with Some e => Ret e | None => Panic end
  | None => Undef
  end.

Definition write_entry (s : Paging) (t i e : Z) : outcome Paging :=
  match tables s !! t with
  | Some es =>
      match es !! Z.to_nat i with
      | Some _ => Ret (with_tables s (<[t := <[Z.to_nat i := e]> es]> (tables s)))
      | None => Panic
      end
  | None => Undef
  end.

(** What the code needs from the global allocator: [box_new] is the address
    [Box::new(PageTable::new())] returns when the tables of the argument are
    live; [None] stands for an allocation failure, which aborts. *)
Class BoxAlloc := box_new : gmap Z (list Z) → option Z.

Section paging.
Context {prof : Profile} {box : BoxAlloc}.
(** The link-time address of the static [KERNEL_PML4]. *)
Context (kernel_pml4 : Z).
Implicit Types (s : Paging).

Definition alloc_table s : outcome (Z * Paging) :=
  match box_new (tables s) with
  | Some a => Ret (a, with_tables s (<[a := PageTable.new]> (tables s)))
  | None => Panic
  end.

Definition pml4_index (virt : Z) : Z := Z.land (Z.shiftr virt 39) 0x1FF.
Definition pdpt_index (virt : Z) : Z := Z.land (Z.shiftr virt 30) 0x1FF.
Definition pd_index (virt : Z) : Z := Z.land (Z.shiftr virt 21) 0x1FF.
Definition pt_index (virt : Z) : Z := Z.land (Z.shiftr virt 12) 0x1FF.

(** One level of [map_page]: follow entry [i] of table [t], first allocating an
    empty table behind it when it is not present. *)
Definition next_table s (t i : Z) : outcome (Z * Paging) :=
  e ← read_entry s t i;
  if Entry.present e then Ret (Entry.addr e, s) else
  '(a, s1) ← alloc_table s;
  let e1 := Entry.set_writable (Entry.set_present (Entry.set_addr e a) true) true in
  s2 ← write_entry s1 t i e1;
  Ret (Entry.addr e1, s2).

Definition map_page s (virt phys flags : Z) : outcome Paging :=
  '(pdpt, s1) ← next_table s kernel_pml4 (pml4_index virt);
  '(pd, s2) ← next_table s1 pdpt (pdpt_index virt);
  '(pt, s3) ← next_table s2 pd (pd_index virt);
  e ← read_entry s3 pt (pt_index virt);
  write_entry s3 pt (pt_index virt) (Entry.set_flags (Entry.set_addr e phys) flags).

(** The descent shared by the functions that look a mapping up without creating
    tables: the page table of the last level, or [None] when an entry on the
    way is not present. *)
Definition walk s (virt : Z) : outcome (option Z) :=
  e4 ← read_entry s kernel_pml4 (pml4_index virt);
  if negb (Entry.present e4) then Ret None else
  e3 ← read_entry s (Entry.addr e4) (pdpt_index virt);
  if negb (Entry.present e3) then Ret None else
  e2 ← read_entry s (Entry.addr e3) (pd_index virt);
  if negb (Entry.present e2) then Ret None else
  Ret (Some (Entry.addr e2)).

Definition unmap_page s (virt : Z) : outcome Paging :=
  w ← walk s virt;
  match w with
  | None => Ret s
  | Some pt =>
      e ← read_entry s pt (pt_index virt);
      s1 ← write_entry s pt (pt_index virt) (Entry.set_flags e 0);
      Ret (flush_tlb_single s1 virt)
  end.

Definition translate_virt_to_phys s (virt : Z) : outcome (option Z) :=
  w ← walk s virt;
  match w with
  | None => Ret None
  | Some pt =>
      e ← read_entry s pt (pt_index virt);
      if negb (Entry.present e) then Ret None
      else Ret (Some (Z.lor (Z.land (Entry.addr e) (wnot 64 0xFFF)) (Z.land virt 0xFFF)))
  end.

(** [flush_tlb] and [set_kernel_page_table] reload [cr3]. *)
Definition flush_tlb s : Paging := with_cr3 s (cr3 s).
Definition set_kernel_page_table s : Paging := with_cr3 s kernel_pml4.
Definition get_current_pml4 s : Z := cr3 s.
Definition switch_page_table s (pml4_addr : Z) : Paging := with_cr3 s pml4_addr.

(** [rdmsr] leaves the low half of EFER in the variable, so the [wrmsr] that
    follows writes a zero high half. *)
Definition enable_nxe_bit s : Paging :=
  let v := Z.lor (Z.land (efer s) 0xFFFFFFFF) (bit 11) in
  with_efer s (Z.lor (Z.land v 0xFFFFFFFF) (Z.shiftl (Z.shiftr v 32) 32)).
Definition enable_write_protect s : Paging := with_cr0 s (Z.lor (cr0 s) (bit 16)).

Definition init_paging s : Paging :=
  enable_write_protect (enable_nxe_bit (with_cr3 s kernel_pml4)).

Definition enable_4gb_paging s : Paging := with_cr4 s (Z.lor (cr4 s) (bit 7)).
Definition disable_4gb_paging s : Paging := with_cr4 s (Z.land (cr4 s) (wnot 64 (bit 7))).

Definition pages_of (size : Z) : outcome Z :=
  a ← uadd size PAGE_SIZE; b ← usub a 1; Ret (b / PAGE_SIZE).

Definition map_range s (virt_start phys_start size flags : Z) : outcome Paging :=
  pages ← pages_of size;
  for_each 0 pages (λ i s,
    o ← umul i PAGE_SIZE;
    v ← uadd virt_start o;
    p ← uadd phys_start o;
    map_page s v p flags) s.

Definition unmap_range s (virt_start size : Z) : outcome Paging :=
  pages ← pages_of size;
  for_each 0 pages (λ i s,
    o ← umul i PAGE_SIZE;
    v ← uadd virt_start o;
    unmap_page s v) s.

Definition is_page_mapped s (virt : Z) : outcome bool :=
  r ← translate_virt_to_phys s virt; Ret (bool_decide (is_Some r)).

Definition get_page_flags s (virt : Z) : outcome (option Z) :=
  w ← walk s virt;
  match w with
  | None => Ret None
  | Some pt =>
      e ← read_entry s pt (pt_index virt);
      if negb (Entry.present e) then Ret None else Ret (Some (Entry.flags e))
  end.

(** [set_page_flags], [mark_page_accessed] and [mark_page_dirty] update a
    present leaf entry and do nothing otherwise. *)
Definition update_leaf s (virt : Z) (f : Z → Z) : outcome (option Paging) :=
  w ← walk s virt;
  match w with
  | None => Ret None
  | Some pt =>
      e ← read_entry s pt (pt_index virt);
      if negb (Entry.present e) then Ret None
      else Some <$> write_entry s pt (pt_index virt) (f e)
  end.

Definition set_page_flags s (virt flags : Z) : outcome Paging :=
  r ← update_leaf s virt (λ e, Entry.set_flags e flags);
  Ret (match r with Some s1 => flush_tlb_single s1 virt | None => s end).

Definition mark_page_accessed s (virt : Z) : outcome Paging :=
  r ← update_leaf s virt (λ e, Entry.set_accessed e true); Ret (default s r).

Definition mark_page_dirty s (virt : Z) : outcome Paging :=
  r ← update_leaf s virt (λ e, Entry.set_dirty e true); Ret (default s r).

Definition identity_map_frame s (phys : Z) : outcome Paging := map_page s phys phys 3.

(** [while addr < end { map_page(addr, addr, flags); addr += PAGE_SIZE }], one
    unit of fuel per iteration; running out of fuel is [None]. *)
Fixpoint map_kernel_loop (fuel : nat) s (addr end_ flags : Z) : outcome (option Paging) :=
  if addr <? end_ then
    match fuel with
    | O => Ret None
    | S fuel' =>
        s1 ← map_page s addr addr flags;
        a ← uadd addr PAGE_SIZE;
        map_kernel_loop fuel' s1 a end_ flags
    end
  else Ret (Some s).

Definition remap_page s (virt new_phys flags : Z) : outcome Paging :=
  s1 ← unmap_page s virt; map_page s1 virt new_phys flags.

(** [copy_page] on a byte store: both pages must be mapped. *)
Definition copy_page s (ram : Z → Z) (src_virt dst_virt : Z) : outcome (Z → Z) :=
  src ← translate_virt_to_phys s src_virt;
  dst ← translate_virt_to_phys s dst_virt;
  Ret (match src, dst with
       | Some sp, Some dp =>
           λ a, if (dp <=? a) && (a <? dp + PAGE_SIZE) then ram (sp + (a - dp)) else ram a
       | _, _ => ram
       end).

Definition is_page_dirty s (virt : Z) : outcome bool :=
  r ← get_page_flags s virt;
  Ret (match r with Some f => negb (Z.land f 64 =? 0) | None => false end).

Definition is_page_accessed s (virt : Z) : outcome bool :=
  r ← get_page_flags s virt;
  Ret (match r with Some f => negb (Z.land f 32 =? 0) | None => false end).

Definition protect_page s (virt : Z) (writable : bool) : outcome Paging :=
  set_page_flags s virt (if writable then 3 else 1).

Definition get_page_directory_addr s (virt : Z) : outcome (option Z) :=
  e ← read_entry s kernel_pml4 (pml4_index virt);
  Ret (if negb (Entry.present e) then None else Some (Entry.addr e)).

Definition get_page_table_addr s (virt : Z) : outcome (option Z) :=
  e4 ← read_entry s kernel_pml4 (pml4_index virt);
  if negb (Entry.present e4) then Ret None else
  e3 ← read_entry s (Entry.addr e4) (pdpt_index virt);
  Ret (if negb (Entry.present e3) then None else Some (Entry.addr e3)).

(** [clone_pt_or_pd]: copy one table and build the entry that points to it. *)
Definition clone_pt_or_pd s (old_addr : Z) : outcome (Z * Paging) :=
  '(new_pt, s1) ← alloc_table s;
  s2 ← for_each 0 ENTRY_COUNT (λ j s,
    e ← read_entry s old_addr j; write_entry s new_pt j e) s1;
  e0 ← read_entry s2 old_addr 0;
  let n1 := Entry.set_addr 0 new_pt in
  let n2 := Entry.set_present n1 (Entry.present e0) in
  let n3 := Entry.set_writable n2 (Entry.writable e0) in
  let n4 := Entry.set_user n3 (Entry.user_accessible e0) in
  Ret (n4, s2).

Definition clone_page_table s : outcome (Z * Paging) :=
  let old_pml4 := get_current_pml4 s in
  '(new_pml4, s1) ← alloc_table s;
  s2 ← for_each 0 ENTRY_COUNT (λ i s,
    e ← read_entry s old_pml4 i;
    if Entry.present e && negb (Entry.huge_page e) then
      '(c, s') ← clone_pt_or_pd s (Entry.addr e);
      write_entry s' new_pml4 i c
    else write_entry s new_pml4 i e) s1;
  Ret (new_pml4, s2).

(** The frame source of the allocating mappers,
    [crate::memory::physical::allocate_frame], is the argument [frame]: the
    frame it hands out, or [None]. *)
Definition alloc_and_map_kernel_page s (frame : option Z) (virt flags : Z) :
    outcome (option Z * Paging) :=
  match frame with
  | None => Ret (None, s)
  | Some phys => s1 ← map_page s virt phys flags; Ret (Some phys, s1)
  end.

Definition alloc_and_map_user_page s (frame : option Z) (virt flags : Z) :
    outcome (option Z * Paging) :=
  match frame with
  | None => Ret (None, s)
  | Some phys =>
      let user_flags := Z.lor flags 4 in
      s1 ← map_page s virt phys user_flags; Ret (Some phys, s1)
  end.

Definition ensure_page_mapped s (frame : option Z) (virt flags : Z) : outcome (bool * Paging) :=
  m ← is_page_mapped s virt;
  if (m : bool) then Ret (true, s) else
  '(r, s1) ← alloc_and_map_kernel_page s frame virt flags;
  Ret (bool_decide (is_Some r), s1).

End paging.
