(* ===== verification/PagingSpec.v ===== *)
(** * What the page tables guarantee

    The specification of [Paging]: the bits of an entry, the tree of page tables
    below [KERNEL_PML4] as an invariant on the table store, the address space it
    represents as a function from virtual addresses to leaf entries, and how
    creating a table or writing a leaf changes that function. *)

From S2P Require Import Prelude PageIndex Paging.
Open Scope Z_scope.

(** ** Bits of an entry *)

Lemma ADDR_MASK_spec i : Z.testbit Entry.ADDR_MASK i = (4 <=? i) && (i <? 48).
Proof.
  change Entry.ADDR_MASK with (Z.shiftl (Z.ones 44) 4).
  destruct (Z.leb_spec 0 i); [|rewrite Z.testbit_neg_r by lia; lia].
  rewrite Z.shiftl_spec, Z.testbit_ones by lia. lia.
Qed.

Lemma low12_spec i : Z.testbit 0xFFF i = (0 <=? i) && (i <? 12).
Proof. change 0xFFF with (Z.ones 12). by rewrite Z.testbit_ones by lia. Qed.

Lemma test_spec e k : 0 ≤ k → Entry.test e (2 ^ k) = Z.testbit e k.
Proof.
  intros. unfold Entry.test. rewrite <-Z.shiftl_1_l. change (Z.shiftl 1 k) with (bit k).
  by apply has_bit_spec.
Qed.

Lemma put_bit_spec e k b i :
  0 ≤ k < 64 → 0 ≤ i →
  Z.testbit (Entry.put_bit e k b) i =
  if i =? k then b else (i <? 64) && Z.testbit e i.
Proof.
  intros Hk Hi. unfold Entry.put_bit.
  rewrite Z.lor_spec, Z.land_spec, wnot_spec, bit_spec, Z.shiftl_spec by lia.
  assert (Z.testbit (Z.b2z b) (i - k) = (i =? k) && b) as ->.
  { destruct (Z.eqb_spec i k) as [->|]; [rewrite Z.sub_diag; by destruct b|].
    destruct (decide (i < k)); [by rewrite Z.testbit_neg_r by lia|].
    destruct b; [|by rewrite Z.bits_0]. by apply Z.bits_above_log2; simpl; lia. }
  destruct (Z.eqb_spec i k) as [->|].
  - rewrite bool_decide_true by done. btauto.
  - rewrite bool_decide_false by lia. btauto.
Qed.

(** Goals about single bits of an entry. *)
Ltac entry_bits :=
  repeat first
    [ rewrite Z.lor_spec | rewrite Z.land_spec | rewrite ADDR_MASK_spec
    | rewrite low12_spec | rewrite wnot_spec by lia | rewrite put_bit_spec by lia ].
Ltac bit_cases :=
  repeat match goal with
  | |- context [?a <=? ?b] => destruct (Z.leb_spec a b); try lia
  | |- context [?a <? ?b] => destruct (Z.ltb_spec a b); try lia
  | |- context [?a =? ?b] => destruct (Z.eqb_spec a b); try lia
  end; simpl; btauto.

Lemma addr_set_addr e a : Entry.addr (Entry.set_addr e a) = Z.land a Entry.ADDR_MASK.
Proof.
  unfold Entry.addr, Entry.set_addr. apply Z.bits_inj'. intros i Hi. entry_bits.
  bit_cases.
Qed.

Lemma addr_put_bit e k b : 0 ≤ k < 4 → Entry.addr (Entry.put_bit e k b) = Entry.addr e.
Proof.
  intros. unfold Entry.addr. apply Z.bits_inj'. intros i Hi. entry_bits.
  bit_cases.
Qed.

Lemma present_bit e : Entry.present e = Z.testbit e 0.
Proof. apply (test_spec e 0). lia. Qed.

Lemma present_set_flags e f : Entry.present (Entry.set_flags e f) = Entry.present f.
Proof. rewrite !present_bit. unfold Entry.set_flags. entry_bits. bit_cases. Qed.

Lemma flags_set_flags e f : Entry.flags (Entry.set_flags e f) = Z.land f 0xFFF.
Proof.
  unfold Entry.flags, Entry.set_flags. apply Z.bits_inj'. intros i Hi. entry_bits.
  bit_cases.
Qed.

(** The frame a leaf entry points to: the part of [addr] the translation uses. *)
Definition frame_of (e : Z) : Z := Z.land (Entry.addr e) (wnot 64 0xFFF).

(** The physical page frame bits, 12 to 47. *)
Definition FRAME_MASK : Z := 0xFFFFFFFFF000.

Lemma FRAME_MASK_spec i : Z.testbit FRAME_MASK i = (12 <=? i) && (i <? 48).
Proof.
  change FRAME_MASK with (Z.shiftl (Z.ones 36) 12).
  destruct (Z.leb_spec 0 i); [|rewrite Z.testbit_neg_r by lia; lia].
  rewrite Z.shiftl_spec, Z.testbit_ones by lia. lia.
Qed.

Lemma frame_of_mask e : frame_of e = Z.land e FRAME_MASK.
Proof.
  unfold frame_of, Entry.addr. apply Z.bits_inj'. intros i Hi. entry_bits.
  rewrite FRAME_MASK_spec.
  bit_cases.
Qed.

Lemma frame_of_leaf e p f :
  frame_of (Entry.set_flags (Entry.set_addr e p) f) = Z.land p FRAME_MASK.
Proof.
  rewrite frame_of_mask. unfold Entry.set_flags, Entry.set_addr.
  apply Z.bits_inj'. intros i Hi. entry_bits. rewrite FRAME_MASK_spec.
  bit_cases.
Qed.

Lemma frame_of_set_flags e f : frame_of (Entry.set_flags e f) = frame_of e.
Proof.
  rewrite !frame_of_mask. unfold Entry.set_flags.
  apply Z.bits_inj'. intros i Hi. entry_bits. rewrite FRAME_MASK_spec.
  bit_cases.
Qed.

(** The entry [next_table] writes above a fresh table at [a]. *)
Lemma branch_entry e a :
  Z.land a Entry.ADDR_MASK = a →
  let e1 := Entry.set_writable (Entry.set_present (Entry.set_addr e a) true) true in
  Entry.addr e1 = a ∧ Entry.present e1 = true.
Proof.
  intros Ha e1. split.
  - unfold e1, Entry.set_writable, Entry.set_present.
    rewrite !addr_put_bit by lia. by rewrite addr_set_addr.
  - rewrite present_bit. unfold e1, Entry.set_writable, Entry.set_present.
    rewrite put_bit_spec by lia. change (0 =? 1) with false. cbv iota.
    by rewrite put_bit_spec by lia.
Qed.

(** ** The tree of page tables *)

(** The entry at [i] in the table at [t]. *)
Definition entry (s : Paging) (t i : Z) : option Z :=
  es ← tables s !! t; es !! Z.to_nat i.

(** [lv] gives the level of every table of the tree.  A present entry above the
    last level points to a table one level down, and no two present entries
    above the last level point to the same table. *)
Record tree (root : Z) (lv : gmap Z nat) (s : Paging) : Prop := {
  tree_root : lv !! root = Some 4%nat;
  tree_level : ∀ t k, lv !! t = Some k → (1 ≤ k)%nat;
  tree_table : ∀ t k, lv !! t = Some k →
    ∃ es, tables s !! t = Some es ∧ length es = 512%nat;
  tree_down : ∀ t k i e, lv !! t = Some (S (S k)) → entry s t i = Some e →
    Entry.present e = true → lv !! Entry.addr e = Some (S k);
  tree_inj : ∀ t k i e t' k' i' e',
    lv !! t = Some (S (S k)) → entry s t i = Some e → Entry.present e = true →
    lv !! t' = Some (S (S k')) → entry s t' i' = Some e' → Entry.present e' = true →
    Entry.addr e = Entry.addr e' → t = t' ∧ Z.to_nat i = Z.to_nat i'
}.

(** The present leaf entry that translates [v], from a table [t] of level [k]. *)
Fixpoint mapping (s : Paging) (k : nat) (t v : Z) : option Z :=
  e ← entry s t (idx k v);
  if Entry.present e then
    match k with
    | S (S _ as k') => mapping s k' (Entry.addr e) v
    | _ => Some e
    end
  else None.

(** The last-level table on the way of [v]. *)
Fixpoint leaf_table (s : Paging) (k : nat) (t v : Z) : option Z :=
  match k with
  | S (S _ as k') =>
      e ← entry s t (idx k v);
      if Entry.present e then leaf_table s k' (Entry.addr e) v else None
  | _ => Some t
  end.

(** The address space: frame and flags of the page of [v]. *)
Definition address_space (root : Z) (s : Paging) (v : Z) : option (Z * Z) :=
  (λ e, (frame_of e, Entry.flags e)) <$> mapping s 4 root v.

(** A state with a page table tree. *)
Definition paged (root : Z) (s : Paging) : Prop := ∃ lv, tree root lv s.

Section tree.
Context (root : Z).
Implicit Types (s : Paging) (lv : gmap Z nat).

(** The tree is a property of the tables alone. *)
Lemma tree_ext lv s s' : tables s' = tables s → tree root lv s → tree root lv s'.
Proof.
  intros Heq [H1 H2 H3 H4 H5].
  assert (∀ t i, entry s' t i = entry s t i) as He by (intros; unfold entry; by rewrite Heq).
  split; [done|done|by rewrite Heq| |].
  - intros t k i e. rewrite He. apply H4.
  - intros t k i e t' k' i' e'. rewrite !He. apply H5.
Qed.

Lemma paged_ext s s' : tables s' = tables s → paged root s → paged root s'.
Proof. intros Heq [lv Ht]. exists lv. by apply (tree_ext lv s). Qed.

Lemma tree_entry lv s t k i :
  tree root lv s → lv !! t = Some k → 0 ≤ i < 512 → ∃ e, entry s t i = Some e.
Proof.
  intros Ht Hk Hi. destruct (tree_table _ _ _ Ht t k Hk) as (es & Hes & Hl).
  unfold entry. rewrite Hes. simpl. apply lookup_lt_is_Some. lia.
Qed.

Lemma read_entry_eq s t i e : entry s t i = Some e → read_entry s t i = Ret e.
Proof.
  unfold entry, read_entry. destruct (tables s !! t) as [es|]; [simpl|done].
  by intros ->.
Qed.

(** What a write to an existing slot does to the entries. *)
Lemma write_entry_eq s t i e0 e :
  entry s t i = Some e0 →
  ∃ s', write_entry s t i e = Ret s' ∧
    entry s' t i = Some e ∧
    (∀ t' i', (t', Z.to_nat i') ≠ (t, Z.to_nat i) → entry s' t' i' = entry s t' i') ∧
    (∀ t' es', tables s !! t' = Some es' →
       ∃ es'', tables s' !! t' = Some es'' ∧ length es'' = length es') ∧
    dom (tables s') = dom (tables s) ∧ invalidated s' = invalidated s ∧
    cr3 s' = cr3 s.
Proof.
  unfold entry, write_entry. destruct (tables s !! t) as [es|] eqn:Ht; [simpl|done].
  intros He. rewrite He. eexists. split; [done|]. simpl. split_and!.
  - rewrite lookup_insert. rewrite decide_True by done. simpl.
    apply list_lookup_insert_eq. by eapply lookup_lt_Some.
  - intros t' i' Hne. rewrite lookup_insert. case_decide as Htt; [subst t'|done].
    rewrite Ht. simpl. apply list_lookup_insert_ne. congruence.
  - intros t' es' Hes'. rewrite lookup_insert. case_decide as Htt; [subst t'|by eauto].
    simplify_eq. eexists. split; [done|]. apply length_insert.
  - apply dom_insert_lookup_L. by eexists.
  - done.
  - done.
Qed.

(** Two tables from which two addresses reach the same last-level table are the
    same, and the addresses agree on the indices on the way. *)
Lemma leaf_table_inj lv s k t t' v v' pt :
  tree root lv s → lv !! t = Some (S k) → lv !! t' = Some (S k) →
  leaf_table s (S k) t v = Some pt → leaf_table s (S k) t' v' = Some pt →
  t = t' ∧ ∀ j, (2 ≤ j ≤ S k)%nat → idx j v = idx j v'.
Proof.
  intros Htree. revert t t'. induction k as [|k IH]; intros t t' Ht Ht' Hl Hl'.
  { simpl in *. simplify_eq. split; [done|lia]. }
  cbn [leaf_table] in Hl, Hl'.
  destruct (entry s t _) as [e|] eqn:He; [|done].
  destruct (entry s t' _) as [e'|] eqn:He'; [|done].
  simpl in Hl, Hl'. destruct (Entry.present e) eqn:Hp; [|done].
  destruct (Entry.present e') eqn:Hp'; [|done].
  destruct (IH (Entry.addr e) (Entry.addr e')) as [Ha Hj];
    [apply (tree_down _ _ _ Htree _ _ _ _ Ht He Hp)
    |apply (tree_down _ _ _ Htree _ _ _ _ Ht' He' Hp')|done|done|].
  destruct (tree_inj _ _ _ Htree _ _ _ _ _ _ _ _ Ht He Hp Ht' He' Hp' Ha) as [-> Hi].
  split; [done|]. intros j Hjk. destruct (decide (j = S (S k))) as [->|].
  - by apply idx_nat_inj.
  - apply Hj. lia.
Qed.

Lemma leaf_table_level lv s k t v pt :
  tree root lv s → lv !! t = Some (S k) → leaf_table s (S k) t v = Some pt →
  lv !! pt = Some 1%nat.
Proof.
  intros Htree. revert t. induction k as [|k IH]; intros t Ht Hl.
  { simpl in Hl. by simplify_eq. }
  cbn [leaf_table] in Hl. destruct (entry s t _) as [e|] eqn:He; [|done]. simpl in Hl.
  destruct (Entry.present e) eqn:Hp; [|done].
  eapply IH; [|done]. by eapply tree_down.
Qed.

(** A mapping is a present entry of the last-level table. *)
Lemma mapping_leaf s k t v :
  mapping s (S k) t v =
  (pt ← leaf_table s (S k) t v; e ← entry s pt (idx 1 v);
   if Entry.present e then Some e else None).
Proof.
  revert t. induction k as [|k IH]; intros t; [done|].
  cbn [mapping leaf_table]. destruct (entry s t _) as [e|]; [simpl|done].
  destruct (Entry.present e); [|done]. apply IH.
Qed.

(** *** Writing a leaf *)

(** [s'] differs from [s] in entry [i] of the last-level table [pt] only. *)
Definition leaf_write (s s' : Paging) (pt i e : Z) : Prop :=
  entry s' pt i = Some e ∧
  (∀ t' i', (t', Z.to_nat i') ≠ (pt, Z.to_nat i) → entry s' t' i' = entry s t' i') ∧
  (∀ t' es', tables s !! t' = Some es' →
     ∃ es'', tables s' !! t' = Some es'' ∧ length es'' = length es').

Lemma leaf_write_above lv s s' pt i e t k j :
  leaf_write s s' pt i e → lv !! pt = Some 1%nat → lv !! t = Some (S (S k)) →
  entry s' t j = entry s t j.
Proof. intros (_&Hw&_) Hpt Ht. apply Hw. intros [= -> _]. congruence. Qed.

Lemma leaf_write_tree lv s s' pt i e :
  tree root lv s → lv !! pt = Some 1%nat → leaf_write s s' pt i e → tree root lv s'.
Proof.
  intros Htree Hpt Hw. split.
  - apply Htree.
  - apply Htree.
  - intros t k Ht. destruct (tree_table _ _ _ Htree t k Ht) as (es & Hes & Hl).
    destruct Hw as (_&_&Hlen). destruct (Hlen _ _ Hes) as (es' & ? & ?).
    exists es'. split; [done|congruence].
  - intros t k j e' Ht He. erewrite leaf_write_above in He by done.
    by apply (tree_down _ _ _ Htree _ _ _ _ Ht He).
  - intros t k j e1 t' k' j' e2 Ht He1 ? Ht' He2.
    erewrite leaf_write_above in He1 by done. erewrite leaf_write_above in He2 by done.
    by eapply (tree_inj _ _ _ Htree).
Qed.

Lemma leaf_write_leaf_table lv s s' pt i e k t v :
  tree root lv s → lv !! pt = Some 1%nat → leaf_write s s' pt i e → lv !! t = Some (S k) →
  leaf_table s' (S k) t v = leaf_table s (S k) t v.
Proof.
  intros Htree Hpt Hw. revert t. induction k as [|k IH]; intros t Ht; [done|].
  cbn [leaf_table]. erewrite leaf_write_above by done.
  destruct (entry s t _) as [e'|] eqn:He; [simpl|done].
  destruct (Entry.present e') eqn:Hp; [|done]. apply IH. by eapply tree_down.
Qed.

(** A leaf write changes the mapping of the pages of one page only. *)
Lemma leaf_write_mapping lv s s' pt v e :
  tree root lv s → leaf_table s 4 root v = Some pt → leaf_write s s' pt (idx 1 v) e →
  ∀ v', mapping s' 4 root v' =
    if decide (page_of v' = page_of v)
    then (if Entry.present e then Some e else None) else mapping s 4 root v'.
Proof.
  intros Htree Hl Hw v'.
  pose proof (tree_root _ _ _ Htree) as Hroot.
  assert (lv !! pt = Some 1%nat) as Hpt by by eapply leaf_table_level.
  rewrite !mapping_leaf, (leaf_write_leaf_table lv s s' pt (idx 1 v) e) by done.
  case_decide as Hpage.
  - rewrite page_of_idx in Hpage.
    assert (leaf_table s 4 root v' = Some pt) as ->.
    { rewrite <-Hl. cbn [leaf_table]. by rewrite !Hpage by lia. }
    simpl. rewrite Hpage by lia. destruct Hw as (->&_). done.
  - destruct (leaf_table s 4 root v') as [pt'|] eqn:Hl'; [simpl|done].
    destruct Hw as (_&Hw&_). rewrite Hw; [done|].
    intros [= -> Hi]. apply Hpage, page_of_idx. intros k Hk.
    apply idx_nat_inj in Hi. destruct (decide (k = 1%nat)) as [->|]; [done|].
    destruct (leaf_table_inj lv s 3 root root v' v pt) as [_ Hj]; [done..|]. apply Hj. lia.
Qed.

(** *** Creating a table *)

(** [s'] has a new empty table [a] behind the absent entry [i] of table [t]. *)
Definition table_added (lv : gmap Z nat) (s s' : Paging) (t i a : Z) : Prop :=
  (∃ k e0 e1, lv !! t = Some (S (S k)) ∧ lv !! a = None ∧
     entry s t i = Some e0 ∧ Entry.present e0 = false ∧
     entry s' t i = Some e1 ∧ Entry.present e1 = true ∧ Entry.addr e1 = a) ∧
  (∀ t' i', t' ≠ a → (t', Z.to_nat i') ≠ (t, Z.to_nat i) → entry s' t' i' = entry s t' i') ∧
  tables s' !! a = Some PageTable.new ∧
  (∀ t' es', tables s !! t' = Some es' → t' ≠ a →
     ∃ es'', tables s' !! t' = Some es'' ∧ length es'' = length es').

Lemma new_entry s a i : tables s !! a = Some PageTable.new → 0 ≤ i < 512 → entry s a i = Some 0.
Proof.
  intros Ha Hi. unfold entry. rewrite Ha. simpl. apply lookup_replicate_2. lia.
Qed.

Lemma new_entry_inv s a i e : tables s !! a = Some PageTable.new → entry s a i = Some e → e = 0.
Proof.
  intros Ha. unfold entry. rewrite Ha. simpl. intros He.
  by apply lookup_replicate in He as [-> _].
Qed.

Lemma table_added_mapping lv s s' t i a k t0 v :
  tree root lv s → table_added lv s s' t i a → lv !! t0 = Some (S k) →
  mapping s' (S k) t0 v = mapping s (S k) t0 v.
Proof.
  intros Htree ((k0&e0&e1&Ht&Ha&He0&Hp0&He1&Hp1&Ha1)&Hsame&Hnew&_).
  revert t0. induction k as [|k IH]; intros t0 Ht0.
  { cbn [mapping]. rewrite Hsame; [done|congruence|]. intros [= -> _]. congruence. }
  cbn [mapping]. destruct (decide ((t0, Z.to_nat (idx (S (S k)) v)) = (t, Z.to_nat i)))
    as [[= -> Hi]|Hne].
  - assert (∀ u, entry u t (idx (S (S k)) v) = entry u t i) as Hi' by (intros; unfold entry; by rewrite Hi).
    rewrite !Hi', He0, He1. simpl. rewrite Hp0, Hp1, Ha1.
    assert (Z.to_nat i = Z.to_nat (idx (S (S k)) v)) by done.
    destruct k; cbn [mapping]; rewrite (new_entry s' a) by (done || apply idx_range); done.
  - rewrite Hsame by (congruence || done).
    destruct (entry s t0 _) as [e'|] eqn:He; [simpl|done].
    destruct (Entry.present e') eqn:Hp; [|done]. apply IH. by eapply tree_down.
Qed.

Lemma table_added_tree lv s s' t i a k :
  tree root lv s → table_added lv s s' t i a → lv !! t = Some (S (S k)) →
  tree root (<[a := S k]> lv) s'.
Proof.
  intros Htree Hadd Ht.
  destruct Hadd as ((k0&e0&e1&Ht1&Ha&He0&Hp0&He1&Hp1&Ha1)&Hsame&Hnew&Hlen).
  assert (k0 = k) as -> by congruence.
  (* a present entry of a table above the last level is the new one or an old one *)
  assert (∀ u j e m, <[a := S k]> lv !! u = Some (S (S m)) → entry s' u j = Some e →
    Entry.present e = true →
    (u = t ∧ Z.to_nat j = Z.to_nat i ∧ m = k ∧ Entry.addr e = a) ∨
    (lv !! u = Some (S (S m)) ∧ entry s u j = Some e ∧ Entry.addr e ≠ a)) as Hcase.
  { intros u j e m Hu He Hp. rewrite lookup_insert in Hu. case_decide as Hua.
    { subst u. apply new_entry_inv in He; [|done]. by subst e. }
    destruct (decide ((u, Z.to_nat j) = (t, Z.to_nat i))) as [[= -> Hj]|Hne].
    - left. unfold entry in He, He1. rewrite Hj in He. split_and!; congruence.
    - right. rewrite Hsame in He by done. split_and!; [done..|]. intros Hea.
      pose proof (tree_down _ _ _ Htree _ _ _ _ Hu He Hp). congruence. }
  split.
  - rewrite lookup_insert_ne; [apply Htree|]. intros ->. rewrite (tree_root _ _ _ Htree) in Ha. done.
  - intros u m. rewrite lookup_insert. case_decide; [intros [= <-]; lia|apply (tree_level _ _ _ Htree)].
  - intros u m. rewrite lookup_insert. case_decide as Hua.
    + subst u. intros _. eexists. split; [done|]. apply length_replicate.
    + intros Hu. destruct (tree_table _ _ _ Htree u m Hu) as (es & Hes & Hl).
      destruct (Hlen u es Hes) as (es' & ? & ?); [done|]. exists es'. split; [done|congruence].
  - intros u m j e Hu He Hp. destruct (Hcase u j e m Hu He Hp) as [(->&Hj&->&->)|(Hu'&He'&Hne)].
    + by rewrite lookup_insert_eq.
    + rewrite lookup_insert_ne by done. by eapply tree_down.
  - intros u m j e u' m' j' e' Hu He Hp Hu' He' Hp' Haddr.
    destruct (Hcase u j e m Hu He Hp) as [(->&Hj&->&Hea)|(Hu1&He2&Hne)],
      (Hcase u' j' e' m' Hu' He' Hp') as [(->&Hj'&->&Hea')|(Hu1'&He2'&Hne')]; try congruence.
    + split; [done|]. congruence.
    + by eapply (tree_inj _ _ _ Htree).
Qed.

End tree.
