(* ===== verification/PagingTheorems.v ===== *)
(** * Correctness of the page table operations

    Every operation of [Paging] against the address space of [PagingSpec]:
    mapping a page is a one-point update, unmapping a one-point deletion, lookup
    functions read the address space, and ranges are sequences of these. *)

From S2P Require Import Prelude PageIndex Paging PagingSpec.
Open Scope Z_scope.

(** What the code relies on from the global allocator: while fewer than
    [box_capacity] tables are live, [Box::new] returns an address where there is
    no table, and which [set_addr] keeps: below [2^48] and a multiple of 16
    ([entry_keeps_address]).  The second half is a condition under which the
    theorems hold, not a fact of the repository: [PageTable] is aligned to 8 bytes only,
    and main.rs places the kernel heap at 0xFFFF800010000000, whose upper bits the
    entry loses ([high_heap_loses_tables]). *)
Class BoxLaws (box : BoxAlloc) := {
  box_capacity : nat;
  box_fresh : ∀ ts : gmap Z (list Z), (size ts < box_capacity)%nat →
    ∃ a, box_new ts = Some a ∧ ts !! a = None ∧ Z.land a Entry.ADDR_MASK = a
}.

Section paging_theorems.
Context {prof : Profile} {box : BoxAlloc} {laws : BoxLaws box} (root : Z).
Implicit Types (s : Paging) (lv : gmap Z nat).

Definition room (n : nat) (s : Paging) : Prop := (size (tables s) + n ≤ box_capacity)%nat.

#[global] Instance room_dec n s : Decision (room n s).
Proof. unfold room. apply _. Defined.

(** [s'] has at most [n] more tables than [s], and maps the same pages. *)
Record grown (n : nat) (lv : gmap Z nat) (s : Paging) (lv' : gmap Z nat) (s' : Paging) : Prop := {
  grown_tree : tree root lv' s';
  grown_levels : lv ⊆ lv';
  grown_size : (size (tables s') ≤ size (tables s) + n)%nat;
  grown_mapping : ∀ v, mapping s' 4 root v = mapping s 4 root v;
  grown_entry : ∀ t k i e, lv !! t = Some k → entry s t i = Some e →
    Entry.present e = true → entry s' t i = Some e;
  grown_invalidated : invalidated s' = invalidated s;
  grown_cr3 : cr3 s' = cr3 s
}.

Lemma grown_refl n lv s : tree root lv s → grown n lv s lv s.
Proof. intros. split; try done. lia. Qed.

Lemma grown_trans n m lv s lv1 s1 lv2 s2 :
  grown n lv s lv1 s1 → grown m lv1 s1 lv2 s2 → grown (n + m) lv s lv2 s2.
Proof.
  intros [??????] [??????]. split; [done|by etrans|lia|congruence| |congruence|congruence].
  intros t k i e Ht He Hp. eauto using lookup_weaken.
Qed.

Lemma next_table_ok lv s t k i :
  tree root lv s → lv !! t = Some (S (S k)) → 0 ≤ i < 512 → room 1 s →
  returns (next_table s t i) (λ '(a, s'), ∃ lv',
    grown 1 lv s lv' s' ∧ lv' !! a = Some (S k) ∧
    ∃ e, entry s' t i = Some e ∧ Entry.present e = true ∧ Entry.addr e = a).
Proof.
  intros Htree Ht Hi Hroom. unfold next_table.
  destruct (tree_entry root lv s t _ i Htree Ht Hi) as [e He].
  rewrite (read_entry_eq s t i e He). simpl.
  destruct (Entry.present e) eqn:Hp.
  { simpl. exists lv. split; [by apply grown_refl|]. split; [|by eauto].
    by apply (tree_down _ _ _ Htree _ _ _ _ Ht He). }
  destruct (box_fresh (tables s)) as (a & Ha & Hfresh & Hmask); [unfold room in Hroom; lia|].
  unfold alloc_table. rewrite Ha. simpl.
  set (s1 := with_tables s (<[a:=PageTable.new]> (tables s))).
  assert (t ≠ a) as Hta.
  { intros ->. destruct (tree_table _ _ _ Htree _ _ Ht) as (?&?&?). congruence. }
  assert (lv !! a = None) as Hlva.
  { apply eq_None_not_Some. intros [k' Hk'].
    destruct (tree_table _ _ _ Htree _ _ Hk') as (?&?&?). congruence. }
  assert (∀ t' j, t' ≠ a → entry s1 t' j = entry s t' j) as Hs1.
  { intros t' j Hne. unfold entry, s1. simpl. by rewrite lookup_insert_ne. }
  destruct (branch_entry e a Hmask) as [Hea Hep].
  set (e1 := Entry.set_writable _ _) in *.
  destruct (write_entry_eq s1 t i e e1) as (s2 & Hs2 & Hent & Hsame & Hlen & Hdom & Hinv & Hcr);
    [by rewrite Hs1|].
  rewrite Hs2. simpl.
  assert (table_added lv s s2 t i a) as Hadd.
  { split; [by exists k, e, e1|]. split; [|split].
    - intros t' i' Hne Hne'. rewrite Hsame by done. by apply Hs1.
    - destruct (tables s2 !! a) as [es|] eqn:E.
      + f_equal. apply list_eq. intros j.
        assert (entry s2 a (Z.of_nat j) = entry s1 a (Z.of_nat j)) as H by (apply Hsame; congruence).
        unfold entry in H. rewrite E in H. unfold s1 in H. simpl in H.
        rewrite lookup_insert_eq in H. simpl in H. by rewrite Nat2Z.id in H.
      + exfalso. apply not_elem_of_dom in E. apply E. rewrite Hdom.
        apply elem_of_dom. unfold s1. simpl. rewrite lookup_insert_eq. eauto.
    - intros t' es' Hes' Hne. apply Hlen. unfold s1. simpl. by rewrite lookup_insert_ne. }
  exists (<[a := S k]> lv). split; [|split; [|rewrite Hea; by eauto]].
  - split.
    + by eapply table_added_tree.
    + by apply insert_subseteq.
    + rewrite <-!(size_dom (D := gset Z)), Hdom, !size_dom. unfold s1. simpl.
      rewrite map_size_insert_None by done. lia.
    + intros v. eapply table_added_mapping; [done..|apply Htree].
    + intros t' k' i' e' Ht' He' Hp'. destruct Hadd as (_&Hadd&_). rewrite Hadd; [done|congruence|].
      intros [= -> Hj]. unfold entry in He, He'. rewrite Hj in He'. congruence.
    + done.
    + done.
  - rewrite Hea. by rewrite lookup_insert_eq.
Qed.

(** The three descents of [map_page], as one. *)
Definition descend s (virt : Z) : outcome (Z * Paging) :=
  '(pdpt, s1) ← next_table s root (pml4_index virt);
  '(pd, s2) ← next_table s1 pdpt (pdpt_index virt);
  next_table s2 pd (pd_index virt).

Lemma map_page_descend s virt phys flags :
  map_page root s virt phys flags =
  ('(pt, s3) ← descend s virt;
   e ← read_entry s3 pt (pt_index virt);
   write_entry s3 pt (pt_index virt) (Entry.set_flags (Entry.set_addr e phys) flags)).
Proof.
  unfold map_page, descend.
  destruct (next_table s root _) as [[pdpt s1]| | |]; [simpl|done..].
  destruct (next_table s1 pdpt _) as [[pd s2]| | |]; [simpl|done..]. done.
Qed.

Lemma descend_ok lv s virt :
  tree root lv s → room 3 s →
  returns (descend s virt) (λ '(pt, s'), ∃ lv',
    grown 3 lv s lv' s' ∧ leaf_table s' 4 root virt = Some pt).
Proof.
  intros Htree Hroom. unfold descend, room in *.
  apply returns_bind. eapply returns_mono.
  { apply (next_table_ok lv s root 2 (idx 4 virt)); [done|apply Htree|apply idx_range|unfold room; lia]. }
  intros [pdpt s1] (lv1 & Hg1 & Hl1 & e4 & He4 & Hp4 & Ha4).
  pose proof (grown_size _ _ _ _ _ Hg1).
  apply returns_bind. eapply returns_mono.
  { apply (next_table_ok lv1 s1 pdpt 1 (idx 3 virt)); [apply Hg1|done|apply idx_range|unfold room; lia]. }
  intros [pd s2] (lv2 & Hg2 & Hl2 & e3 & He3 & Hp3 & Ha3).
  pose proof (grown_size _ _ _ _ _ Hg2).
  eapply returns_mono.
  { apply (next_table_ok lv2 s2 pd 0 (idx 2 virt)); [apply Hg2|done|apply idx_range|unfold room; lia]. }
  intros [pt s3] (lv3 & Hg3 & Hl3 & e2 & He2 & Hp2 & Ha2).
  exists lv3. split; [exact (grown_trans 2 1 _ _ _ _ _ _ (grown_trans 1 1 _ _ _ _ _ _ Hg1 Hg2) Hg3)|].
  assert (lv1 !! root = Some 4%nat) as Hr1 by apply Hg1.
  assert (entry s3 root (idx 4 virt) = Some e4) as E4.
  { eapply (grown_entry 2); [exact (grown_trans 1 1 _ _ _ _ _ _ Hg2 Hg3)|done..]. }
  assert (entry s3 pdpt (idx 3 virt) = Some e3) as E3.
  { eapply grown_entry; [exact Hg3| |done..]. by eapply lookup_weaken, grown_levels. }
  cbn [leaf_table]. rewrite E4. simpl. rewrite Hp4, Ha4, E3. simpl. rewrite Hp3, Ha3, He2. simpl.
  by rewrite Hp2, Ha2.
Qed.

(** *** [map_page] *)

(** The one-point update of an address space. *)
Definition upd_page (m : Z → option (Z * Z)) (v : Z) (x : option (Z * Z)) : Z → option (Z * Z) :=
  λ v', if decide (page_of v' = page_of v) then x else m v'.

(** What a page maps to after [map_page _ phys flags]. *)
Definition leaf_of (phys flags : Z) : option (Z * Z) :=
  if Entry.present flags then Some (Z.land phys FRAME_MASK, Z.land flags 0xFFF) else None.

Lemma leaf_entry_present lv s virt pt :
  tree root lv s → leaf_table s 4 root virt = Some pt → ∃ e, entry s pt (idx 1 virt) = Some e.
Proof.
  intros Htree Hl. apply (tree_entry root lv s pt 1); [done| |apply idx_range].
  by eapply (leaf_table_level root lv s 3); [|apply Htree|].
Qed.

Lemma write_leaf_ok lv s virt pt e :
  tree root lv s → leaf_table s 4 root virt = Some pt →
  returns (write_entry s pt (idx 1 virt) e) (λ s',
    tree root lv s' ∧ size (tables s') = size (tables s) ∧
    invalidated s' = invalidated s ∧ cr3 s' = cr3 s ∧
    ∀ v, address_space root s' v =
      upd_page (address_space root s) virt
        (if Entry.present e then Some (frame_of e, Entry.flags e) else None) v).
Proof.
  intros Htree Hl. destruct (leaf_entry_present lv s virt pt Htree Hl) as [e0 He0].
  assert (lv !! pt = Some 1%nat) as Hpt by (eapply (leaf_table_level root lv s 3); [|apply Htree|]; done).
  destruct (write_entry_eq s pt (idx 1 virt) e0 e He0)
    as (s' & -> & Hent & Hsame & Hlen & Hdom & Hinv & Hcr). simpl.
  assert (leaf_write s s' pt (idx 1 virt) e) as Hw by done.
  split_and!.
  - by eapply leaf_write_tree.
  - by rewrite <-!(size_dom (D := gset Z)), Hdom.
  - done.
  - done.
  - intros v. unfold address_space, upd_page. rewrite (leaf_write_mapping root lv s s' pt virt e) by done.
    case_decide; [by destruct (Entry.present e)|done].
Qed.

Lemma map_page_ok s virt phys flags :
  paged root s → room 3 s →
  returns (map_page root s virt phys flags) (λ s',
    paged root s' ∧ (size (tables s') ≤ size (tables s) + 3)%nat ∧
    ∀ v, address_space root s' v =
         upd_page (address_space root s) virt (leaf_of phys flags) v).
Proof.
  intros [lv Htree] Hroom. rewrite map_page_descend. apply returns_bind.
  eapply returns_mono; [by apply descend_ok|].
  intros [pt s3] (lv3 & Hg & Hl). pose proof (grown_tree _ _ _ _ _ Hg) as Ht3.
  destruct (leaf_entry_present lv3 s3 virt pt Ht3 Hl) as [e He].
  change (pt_index virt) with (idx 1 virt). rewrite (read_entry_eq _ _ _ _ He). simpl.
  eapply returns_mono; [by apply (write_leaf_ok lv3)|].
  intros s' (Ht' & Hsz & _ & _ & Hmap). split; [by exists lv3|].
  split; [rewrite Hsz; apply Hg|]. intros v. rewrite Hmap. unfold upd_page, leaf_of.
  rewrite present_set_flags, frame_of_leaf, flags_set_flags.
  case_decide; [done|]. unfold address_space. by rewrite (grown_mapping _ _ _ _ _ Hg).
Qed.

(** *** Lookups *)

Lemma walk_ok lv s virt :
  tree root lv s → walk root s virt = Ret (leaf_table s 4 root virt).
Proof.
  intros Htree. unfold walk. pose proof (tree_root _ _ _ Htree) as H4.
  change (pml4_index virt) with (idx 4 virt). change (pdpt_index virt) with (idx 3 virt).
  change (pd_index virt) with (idx 2 virt). cbn [leaf_table].
  destruct (tree_entry root lv s root 4 (idx 4 virt) Htree H4 (idx_range _ _)) as [e4 He4].
  rewrite He4, (read_entry_eq _ _ _ _ He4). simpl. destruct (Entry.present e4) eqn:P4; [simpl|done].
  pose proof (tree_down _ _ _ Htree _ _ _ _ H4 He4 P4) as H3.
  destruct (tree_entry root lv s _ 3 (idx 3 virt) Htree H3 (idx_range _ _)) as [e3 He3].
  rewrite He3, (read_entry_eq _ _ _ _ He3). simpl. destruct (Entry.present e3) eqn:P3; [simpl|done].
  pose proof (tree_down _ _ _ Htree _ _ _ _ H3 He3 P3) as H2.
  destruct (tree_entry root lv s _ 2 (idx 2 virt) Htree H2 (idx_range _ _)) as [e2 He2].
  rewrite He2, (read_entry_eq _ _ _ _ He2). simpl. by destruct (Entry.present e2).
Qed.

(** The continuation every lookup runs on the leaf entry. *)
Lemma walk_leaf {A} lv s virt (none : outcome A) (k : Z → Z → outcome A) :
  tree root lv s →
  (w ← walk root s virt;
   match w with
   | None => none
   | Some pt => e ← read_entry s pt (pt_index virt); k pt e
   end) =
  match leaf_table s 4 root virt with
  | None => none
  | Some pt => match entry s pt (idx 1 virt) with Some e => k pt e | None => none end
  end.
Proof.
  intros Htree. rewrite (walk_ok lv) by done. cbn [mbind outcome_bind].
  destruct (leaf_table s 4 root virt) as [pt|] eqn:Hl; [|done].
  destruct (leaf_entry_present lv s virt pt Htree Hl) as [e He].
  change (pt_index virt) with (idx 1 virt).
  by rewrite (read_entry_eq _ _ _ _ He), He.
Qed.

Lemma translate_ok s virt :
  paged root s →
  translate_virt_to_phys root s virt =
  Ret ((λ '(f, _), Z.lor f (Z.land virt 0xFFF)) <$> address_space root s virt).
Proof.
  intros [lv Htree]. unfold translate_virt_to_phys. rewrite (walk_leaf lv) by done.
  unfold address_space. rewrite mapping_leaf.
  destruct (leaf_table s 4 root virt) as [pt|]; [cbn [mbind option_bind]|done].
  destruct (entry s pt _) as [e|]; [simpl|done]. by destruct (Entry.present e).
Qed.

Lemma get_page_flags_ok s virt :
  paged root s → get_page_flags root s virt = Ret (snd <$> address_space root s virt).
Proof.
  intros [lv Htree]. unfold get_page_flags. rewrite (walk_leaf lv) by done.
  unfold address_space. rewrite mapping_leaf.
  destruct (leaf_table s 4 root virt) as [pt|]; [cbn [mbind option_bind]|done].
  destruct (entry s pt _) as [e|]; [simpl|done]. by destruct (Entry.present e).
Qed.

(** *** Updates of an existing leaf *)

Lemma unmap_page_ok s virt :
  paged root s →
  returns (unmap_page root s virt) (λ s',
    paged root s' ∧ size (tables s') = size (tables s) ∧
    ∀ v, address_space root s' v = upd_page (address_space root s) virt None v).
Proof.
  intros [lv Htree]. unfold unmap_page. rewrite (walk_leaf lv) by done.
  destruct (leaf_table s 4 root virt) as [pt|] eqn:Hl.
  - destruct (leaf_entry_present lv s virt pt Htree Hl) as [e He]. rewrite He.
    change (pt_index virt) with (idx 1 virt). apply returns_bind.
    eapply returns_mono; [by apply (write_leaf_ok lv)|].
    intros s' (Ht' & Hsz & _ & _ & Hmap). simpl. split_and!; [by apply (paged_ext root s'); [|exists lv]|done|].
    intros v. change (address_space root s' v = upd_page (address_space root s) virt None v).
    rewrite Hmap. by rewrite present_set_flags.
  - simpl. split_and!; [by exists lv|done|]. intros v. unfold upd_page. case_decide as Hp; [|done].
    unfold address_space. rewrite mapping_leaf.
    assert (leaf_table s 4 root v = leaf_table s 4 root virt) as ->; [|by rewrite Hl].
    cbn [leaf_table]. rewrite page_of_idx in Hp. by rewrite !Hp by lia.
Qed.

(** Updating a present leaf with [f] is a one-point update with [f] applied to
    the entry; a page that is not mapped is left alone. *)
Lemma update_leaf_ok s virt f :
  paged root s →
  returns (update_leaf root s virt f) (λ r,
    match mapping s 4 root virt with
    | None => r = None
    | Some e => ∃ s', r = Some s' ∧ paged root s' ∧ size (tables s') = size (tables s) ∧
        ∀ v, address_space root s' v =
          upd_page (address_space root s) virt
            (if Entry.present (f e) then Some (frame_of (f e), Entry.flags (f e)) else None) v
    end).
Proof.
  intros [lv Htree]. unfold update_leaf. rewrite (walk_leaf lv) by done. rewrite mapping_leaf.
  destruct (leaf_table s 4 root virt) as [pt|] eqn:Hl; [cbn [mbind option_bind]|done].
  destruct (leaf_entry_present lv s virt pt Htree Hl) as [e He]. rewrite He.
  cbn [mbind option_bind]. destruct (Entry.present e) eqn:Hp; [|done]. cbn [negb].
  change (pt_index virt) with (idx 1 virt).
  pose proof (write_leaf_ok lv s virt pt (f e) Htree Hl) as Hw.
  destruct (write_entry s pt (idx 1 virt) (f e)) as [s'| | |]; [|done..].
  destruct Hw as (Ht' & Hsz & _ & _ & Hmap). exists s'. split; [done|]. by split; [exists lv|].
Qed.

Lemma set_page_flags_ok s virt flags :
  paged root s →
  returns (set_page_flags root s virt flags) (λ s',
    paged root s' ∧ size (tables s') = size (tables s) ∧
    ∀ v, address_space root s' v =
      match address_space root s virt with
      | Some (fr, _) => upd_page (address_space root s) virt
          (if Entry.present flags then Some (fr, Z.land flags 0xFFF) else None) v
      | None => address_space root s v
      end).
Proof.
  intros Hs. unfold set_page_flags. apply returns_bind.
  eapply returns_mono; [by apply update_leaf_ok|].
  intros r. destruct (mapping s 4 root virt) as [e|] eqn:Hm.
  - intros (s' & -> & Hs' & Hsz & Hmap). simpl. split; [by apply (paged_ext root s')|]. split; [done|]. intros v.
    assert (address_space root s virt = Some (frame_of e, Entry.flags e)) as Ha
      by (unfold address_space; by rewrite Hm).
    rewrite Ha. etrans; [apply Hmap|].
    by rewrite present_set_flags, frame_of_set_flags, flags_set_flags.
  - intros ->. simpl. split; [done|]. split; [done|]. intros v.
    assert (address_space root s virt = None) as -> by (unfold address_space; by rewrite Hm).
    done.
Qed.

(** *** Ranges *)

(** Pages [0..n] from [v0] mapped to consecutive frames, as a fold of updates. *)
Fixpoint upd_range (n : nat) (v0 p0 flags : Z) (m : Z → option (Z * Z)) : Z → option (Z * Z) :=
  match n with
  | O => m
  | S n' => upd_page (upd_range n' v0 p0 flags m) (v0 + Z.of_nat n' * PAGE_SIZE)
              (leaf_of (p0 + Z.of_nat n' * PAGE_SIZE) flags)
  end.

Lemma map_range_ok s v0 p0 sz flags :
  paged root s → 0 ≤ v0 → 0 ≤ p0 → 0 ≤ sz → v0 + sz + PAGE_SIZE < 2 ^ 64 →
  p0 + sz + PAGE_SIZE < 2 ^ 64 →
  let n := Z.to_nat ((sz + PAGE_SIZE - 1) / PAGE_SIZE) in
  room (3 * n) s →
  returns (map_range root s v0 p0 sz flags) (λ s',
    paged root s' ∧ (size (tables s') ≤ size (tables s) + 3 * n)%nat ∧
    ∀ v, address_space root s' v = upd_range n v0 p0 flags (address_space root s) v).
Proof.
  intros Hs Hv Hp Hsz Hv' Hp' n Hroom. unfold map_range, pages_of, PAGE_SIZE in *.
  set (pages := (sz + 4096 - 1) / 4096) in *.
  assert (0 ≤ pages ∧ pages * 4096 ≤ sz + 4095) as [Hpg Hpg'].
  { unfold pages. split; [apply Z.div_pos; lia|].
    pose proof (Z.mul_div_le (sz + 4096 - 1) 4096). lia. }
  assert (in_u 64 (sz + 4096) ∧ in_u 64 (sz + 4096 - 1)) as [??] by (unfold in_u; lia).
  apply returns_bind. repeat step1; [done..|].
  eapply returns_mono.
  { apply (for_each_inv (λ i s', paged root s' ∧ (size (tables s') ≤ size (tables s) + 3 * Z.to_nat i)%nat ∧
      ∀ v, address_space root s' v = upd_range (Z.to_nat i) v0 p0 flags (address_space root s) v)).
    - done.
    - split; [done|]. split; [lia|done].
    - intros i s1 Hi (Hs1 & Hsize & Hm).
      assert (i * 4096 + 4096 ≤ sz + 4095) by nia.
      repeat step1; [unfold in_u; lia..|].
      eapply returns_mono.
      { apply map_page_ok; [done|]. unfold room in *. lia. }
      intros s2 (Hs2 & Hsize2 & Hm2). split; [done|]. split; [lia|]. intros v.
      rewrite Hm2. replace (Z.to_nat (i + 1)) with (S (Z.to_nat i)) by lia.
      cbn [upd_range]. change PAGE_SIZE with 4096. rewrite Z2Nat.id by lia. unfold upd_page. case_decide; [done|apply Hm]. }
  intros s' (Hs' & Hsize & Hm). done.
Qed.

Lemma upd_range_hit n v0 p0 flags m i :
  0 ≤ v0 → 0 ≤ i < Z.of_nat n → Z.of_nat n ≤ 2 ^ 36 →
  upd_range n v0 p0 flags m (v0 + i * PAGE_SIZE) = leaf_of (p0 + i * PAGE_SIZE) flags.
Proof.
  intros Hv. revert i. induction n as [|n IH]; intros i Hi Hn; [lia|].
  cbn [upd_range]. unfold upd_page. case_decide as Hp.
  - apply page_of_step_inj in Hp; [by subst i|lia..].
  - apply IH; [|lia]. assert (i ≠ Z.of_nat n) by congruence. lia.
Qed.

Lemma upd_range_miss n v0 p0 flags m v :
  (∀ i, 0 ≤ i < Z.of_nat n → page_of v ≠ page_of (v0 + i * PAGE_SIZE)) →
  upd_range n v0 p0 flags m v = m v.
Proof.
  induction n as [|n IH]; intros Hv; [done|]. cbn [upd_range]. unfold upd_page.
  rewrite decide_False by (apply Hv; lia). apply IH. intros i Hi. apply Hv. lia.
Qed.

(** *** [map_kernel_space] *)

Lemma map_kernel_loop_ok fuel s addr end_ flags :
  paged root s → 0 ≤ addr → end_ + PAGE_SIZE < 2 ^ 64 →
  end_ ≤ addr + Z.of_nat fuel * PAGE_SIZE → room (3 * fuel) s →
  returns (map_kernel_loop root fuel s addr end_ flags) (λ r, ∃ s', r = Some s' ∧ paged root s').
Proof.
  revert s addr. induction fuel as [|fuel IH]; intros s addr Hs Ha He Hf Hroom; cbn [map_kernel_loop].
  - destruct (Z.ltb_spec addr end_); [lia|]. simpl. eauto.
  - destruct (Z.ltb_spec addr end_); [|simpl; by eauto].
    apply returns_bind. eapply returns_mono; [apply map_page_ok; [done|unfold room in *; lia]|].
    intros s1 (Hs1 & Hsz & _). unfold PAGE_SIZE in *. step1. step1; [unfold in_u; lia|].
    apply IH; [done|lia..|]. unfold room in *. lia.
Qed.

(** *** Copying a table *)

Lemma clone_pt_or_pd_ok lv s old k :
  tree root lv s → lv !! old = Some k → room 1 s →
  returns (clone_pt_or_pd s old) (λ '(n, s'), ∃ new,
    lv !! new = None ∧ Entry.addr n = new ∧
    (∀ j, 0 ≤ j < 512 → entry s' new j = entry s old j) ∧
    (∀ t j, t ≠ new → entry s' t j = entry s t j) ∧
    ∃ e0, entry s old 0 = Some e0 ∧ Entry.present n = Entry.present e0 ∧
          Entry.writable n = Entry.writable e0 ∧
          Entry.user_accessible n = Entry.user_accessible e0).
Proof.
  intros Htree Hold Hroom. unfold clone_pt_or_pd, alloc_table.
  destruct (box_fresh (tables s)) as (a & Ha & Hfresh & Hmask); [unfold room in Hroom; lia|].
  rewrite Ha. cbn [mbind outcome_bind].
  assert (lv !! a = None) as Hlva.
  { apply eq_None_not_Some. intros [k' Hk'].
    destruct (tree_table _ _ _ Htree _ _ Hk') as (?&?&?). congruence. }
  assert (old ≠ a) by congruence.
  set (s1 := with_tables s _).
  apply returns_bind. eapply returns_mono.
  { apply (for_each_inv (λ i s', (∀ t j, t ≠ a → entry s' t j = entry s t j) ∧
      (∀ j, 0 ≤ j < 512 → entry s' a j = if j <? i then entry s old j else Some 0))).
    - done.
    - split; [intros t j Hne; unfold entry, s1; simpl; by rewrite lookup_insert_ne|].
      intros j Hj. destruct (Z.ltb_spec j 0); [lia|].
      apply new_entry; [|done]. unfold s1. simpl. by rewrite lookup_insert_eq.
    - unfold ENTRY_COUNT. intros i s2 Hi (Hoth & Hnew).
      destruct (tree_entry root lv s old k i Htree Hold Hi) as [e He].
      rewrite (read_entry_eq s2 old i e) by (by rewrite Hoth). cbn [mbind outcome_bind].
      destruct (write_entry_eq s2 a i 0 e) as (s3 & -> & Hent & Hsame & _).
      { rewrite Hnew by done. by destruct (Z.ltb_spec i i); [lia|]. }
      simpl. split; [intros t j Hne; rewrite Hsame by congruence; by apply Hoth|].
      intros j Hj. destruct (decide (j = i)) as [->|Hne].
      + destruct (Z.ltb_spec i (i + 1)); [by rewrite Hent|lia].
      + rewrite Hsame by (intros [= ?]; lia). rewrite Hnew by done.
        by destruct (Z.ltb_spec j i), (Z.ltb_spec j (i + 1)); try lia. }
  intros s2 (Hoth & Hnew).
  destruct (tree_entry root lv s old k 0 Htree Hold ltac:(lia)) as [e0 He0].
  rewrite (read_entry_eq s2 old 0 e0) by (by rewrite Hoth). simpl.
  exists a. unfold Entry.set_user, Entry.set_writable, Entry.set_present.
  split_and!; [done| | |done|].
  - rewrite !addr_put_bit by lia. by rewrite addr_set_addr.
  - intros j Hj. rewrite Hnew by done. by destruct (Z.ltb_spec j ENTRY_COUNT); [|unfold ENTRY_COUNT in *; lia].
  - exists e0. split; [done|]. rewrite !present_bit.
    unfold Entry.writable, Entry.user_accessible.
    change 2 with (2 ^ 1). change 4 with (2 ^ 2). rewrite !test_spec by lia.
    rewrite !put_bit_spec by lia. done.
Qed.

Lemma addr_set_accessed e :
  Entry.addr e mod 4096 = 0 → Entry.addr (Entry.set_accessed e true) = Entry.addr e + 32.
Proof.
  intros Hal.
  assert (Z.land (Entry.addr e) 32 = 0) as Hz.
  { apply Z.bits_inj'. intros i Hi. change 32 with (2 ^ 5).
    rewrite Z.land_spec, Z.bits_0, Z.pow2_bits_eqb by lia.
    destruct (Z.eqb_spec 5 i) as [<-|]; [|btauto].
    rewrite <-(Z.mod_pow2_bits_low _ 12) by lia. change (2 ^ 12) with 4096.
    by rewrite Hal, Z.bits_0. }
  rewrite Z.add_nocarry_lxor, Z.lxor_lor by done.
  apply Z.bits_inj'. intros i Hi. unfold Entry.addr, Entry.set_accessed.
  change 32 with (2 ^ 5). entry_bits. rewrite Z.pow2_bits_eqb by lia. bit_cases.
Qed.

(** ** Claims *)

(** [map_page] is a one-point update of the address space: it returns, keeps
    the tables a tree, maps the page of [virt] to the frame bits of [phys] with
    [flags] (or unmaps it when [flags] lacks the present bit) and leaves every
    other page as it was, creating at most three tables. *)
Theorem map_page_updates s virt phys flags :
  paged root s → room 3 s →
  returns (map_page root s virt phys flags) (λ s',
    paged root s' ∧ (size (tables s') ≤ size (tables s) + 3)%nat ∧
    ∀ v, address_space root s' v =
         if decide (page_of v = page_of virt) then leaf_of phys flags
         else address_space root s v).
Proof. apply map_page_ok. Qed.

(** After mapping a page with the present bit, every address of the page
    translates to the same offset in the frame, and every address of another
    page translates as before. *)
Theorem map_translate_roundtrip s virt phys flags :
  paged root s → room 3 s → Entry.present flags = true →
  returns (map_page root s virt phys flags) (λ s', ∀ v,
    translate_virt_to_phys root s' v =
    if decide (page_of v = page_of virt)
    then Ret (Some (Z.lor (Z.land phys FRAME_MASK) (Z.land v 0xFFF)))
    else translate_virt_to_phys root s v).
Proof.
  intros Hs Hroom Hp. eapply returns_mono; [by apply map_page_ok|].
  intros s' (Hs' & _ & Hm) v. rewrite !translate_ok by done. rewrite Hm.
  unfold upd_page, leaf_of. rewrite Hp. by case_decide.
Qed.

(** [unmap_page] is a one-point deletion: afterwards the page of [virt] is
    not mapped, all lookups say so, and every other page is untouched. *)
Theorem unmap_page_deletes s virt :
  paged root s →
  returns (unmap_page root s virt) (λ s',
    paged root s' ∧ translate_virt_to_phys root s' virt = Ret None ∧
    is_page_mapped root s' virt = Ret false ∧ get_page_flags root s' virt = Ret None ∧
    ∀ v, page_of v ≠ page_of virt → address_space root s' v = address_space root s v).
Proof.
  intros Hs. eapply returns_mono; [by apply unmap_page_ok|].
  intros s' (Hs' & _ & Hm).
  assert (address_space root s' virt = None) as Hn
    by (rewrite Hm; unfold upd_page; by rewrite decide_True).
  unfold is_page_mapped. rewrite translate_ok, get_page_flags_ok, Hn by done.
  split_and!; [done..|]. intros v Hv. rewrite Hm. unfold upd_page. by rewrite decide_False.
Qed.

(** For a range of at most 2^36 pages whose addresses do not overflow,
    [map_range] maps page [i] of the virtual range to frame [i] of the physical
    range, for every [i], and leaves every page outside the range unchanged. *)
Theorem map_range_exact s v0 p0 sz flags :
  paged root s → 0 ≤ v0 → 0 ≤ p0 → 0 ≤ sz →
  v0 + sz + PAGE_SIZE < 2 ^ 64 → p0 + sz + PAGE_SIZE < 2 ^ 64 →
  let n := (sz + PAGE_SIZE - 1) / PAGE_SIZE in
  n ≤ 2 ^ 36 → room (3 * Z.to_nat n) s →
  returns (map_range root s v0 p0 sz flags) (λ s',
    paged root s' ∧
    (∀ i, 0 ≤ i < n →
       address_space root s' (v0 + i * PAGE_SIZE) = leaf_of (p0 + i * PAGE_SIZE) flags) ∧
    ∀ v, (∀ i, 0 ≤ i < n → page_of v ≠ page_of (v0 + i * PAGE_SIZE)) →
         address_space root s' v = address_space root s v).
Proof.
  intros Hs Hv Hp Hsz Hv' Hp' n Hn Hroom.
  eapply returns_mono; [by apply map_range_ok|].
  intros s' (Hs' & _ & Hm). split; [done|].
  assert (0 ≤ n) by (unfold n, PAGE_SIZE; apply Z.div_pos; lia).
  split; intros; rewrite Hm.
  - by apply upd_range_hit; try lia.
  - apply upd_range_miss. intros i Hi. apply H0. unfold n in *. lia.
Qed.

(** [set_page_flags] replaces the flags of a mapped page and keeps its frame
    (a page given flags without the present bit becomes unmapped); on a page that
    is not mapped it changes nothing. *)
Theorem set_page_flags_keeps_frame s virt flags :
  paged root s →
  returns (set_page_flags root s virt flags) (λ s',
    paged root s' ∧
    ∀ v, address_space root s' v =
      match address_space root s virt with
      | Some (fr, _) =>
          if decide (page_of v = page_of virt)
          then (if Entry.present flags then Some (fr, Z.land flags 0xFFF) else None)
          else address_space root s v
      | None => address_space root s v
      end).
Proof.
  intros Hs. eapply returns_mono; [by apply set_page_flags_ok|]. by intros s' (? & _ & ?).
Qed.

(** [map_kernel_space] terminates: one unit of fuel per page of the range is
    enough for the loop to run to its end, when the addresses do not overflow. *)
Lemma map_kernel_space_terminates s start end_ flags :
  paged root s → 0 ≤ start → end_ + PAGE_SIZE < 2 ^ 64 →
  let fuel := Z.to_nat ((end_ - start + PAGE_SIZE - 1) / PAGE_SIZE) in
  room (3 * fuel) s →
  returns (map_kernel_loop root fuel s start end_ flags)
    (λ r, ∃ s', r = Some s' ∧ paged root s').
Proof.
  intros Hs Ha He fuel Hroom. apply map_kernel_loop_ok; try done.
  unfold fuel, PAGE_SIZE.
  pose proof (Z.div_mod (end_ - start + 4096 - 1) 4096 ltac:(lia)).
  pose proof (Z.mod_pos_bound (end_ - start + 4096 - 1) 4096 ltac:(lia)). lia.
Qed.

(** [clone_pt_or_pd] copies the table entry by entry, but takes the present,
    writable and user bits of the entry it returns from entry 0 of the copied
    table, not from the entry that pointed to it: a table whose entry 0 is not
    present is cloned behind an entry that is not present. *)
Theorem clone_takes_flags_of_entry_zero lv s old k :
  tree root lv s → lv !! old = Some k → room 1 s →
  returns (clone_pt_or_pd s old) (λ '(n, s'), ∃ new e0,
    entry s old 0 = Some e0 ∧ Entry.addr n = new ∧
    (∀ j, 0 ≤ j < 512 → entry s' new j = entry s old j) ∧
    Entry.present n = Entry.present e0 ∧ Entry.writable n = Entry.writable e0 ∧
    Entry.user_accessible n = Entry.user_accessible e0).
Proof.
  intros Ht Ho Hr. eapply returns_mono; [by eapply clone_pt_or_pd_ok|].
  intros [n s'] (new & _ & ? & ? & _ & e0 & ? & ? & ? & ?). by exists new, e0.
Qed.

(** [addr] keeps bits 4 to 11 of an entry, which are flags.  Once the MMU
    sets the accessed bit (bit 5) in the PML4 entry of a page-aligned table,
    [translate_virt_to_phys] follows a pointer 32 bytes into that table. *)
Theorem accessed_bit_breaks_walk s virt e es :
  tables s !! root = Some es → es !! Z.to_nat (pml4_index virt) = Some e →
  Entry.present e = true → Entry.addr e mod 4096 = 0 →
  tables s !! (Entry.addr e + 32) = None → Entry.addr e + 32 ≠ root →
  returns (write_entry s root (pml4_index virt) (Entry.set_accessed e true)) (λ s',
    translate_virt_to_phys root s' virt = Undef).
Proof.
  intros Hr He Hp Hal Hno Hne. unfold write_entry. rewrite Hr, He.
  set (e' := Entry.set_accessed e true). cbn [returns].
  assert (Entry.present e' = true) as Hp'.
  { rewrite present_bit in *. unfold e', Entry.set_accessed. by rewrite put_bit_spec by lia. }
  assert (Entry.addr e' = Entry.addr e + 32) as Ha by by apply addr_set_accessed.
  clearbody e'. unfold translate_virt_to_phys, walk, read_entry. cbn [tables with_tables].
  rewrite lookup_insert_eq, list_lookup_insert_eq by (by eapply lookup_lt_Some).
  cbn [mbind outcome_bind]. rewrite Hp'. cbn [negb].
  by rewrite Ha, lookup_insert_ne, Hno.
Qed.

End paging_theorems.

(** ** Concrete instances *)

(** The state at boot: one empty table at the root. *)
Lemma boot_paged root s : tables s !! root = Some PageTable.new → paged root s.
Proof.
  intros Hr. exists {[root := 4%nat]}. split.
  - apply lookup_singleton_eq.
  - intros t k Ht. apply lookup_singleton_Some in Ht as [_ <-]. lia.
  - intros t k Ht. apply lookup_singleton_Some in Ht as [<- _]. eexists. split; [done|].
    apply length_replicate.
  - intros t k i e Ht He Hp. apply lookup_singleton_Some in Ht as [<- _].
    apply new_entry_inv in He; [|done]. by subst e.
  - intros t k i e t' k' i' e' Ht He Hp. apply lookup_singleton_Some in Ht as [<- _].
    apply new_entry_inv in He; [|done]. by subst e.
Qed.

(** An allocator that hands out the lowest free page of an arena. *)
Definition arena : list Z := (λ k, 0x100000 + 4096 * k) <$> seqZ 0 64.
Definition arena_box : BoxAlloc := λ ts, head (filter (λ a, ts !! a = None) arena).

Lemma arena_ok a : a ∈ arena → Z.land a Entry.ADDR_MASK = a.
Proof.
  assert (forallb (λ a, Z.land a Entry.ADDR_MASK =? a) arena = true) as H by (by vm_compute).
  rewrite forallb_forall in H. intros Ha. apply Z.eqb_eq, H. by apply list_elem_of_In.
Qed.

Lemma arena_fresh (ts : gmap Z (list Z)) :
  (size ts < 64)%nat →
  ∃ a, arena_box ts = Some a ∧ ts !! a = None ∧ Z.land a Entry.ADDR_MASK = a.
Proof.
  intros Hs. unfold arena_box.
  destruct (filter (λ a, ts !! a = None) arena) as [|a l] eqn:E.
  - exfalso. assert (list_to_set arena ⊆ dom ts) as Hsub.
    { intros a Ha. rewrite elem_of_list_to_set in Ha. apply elem_of_dom, not_eq_None_Some.
      intros Hn. assert (a ∈ filter (λ a, ts !! a = None) arena) as Hin
        by (by apply list_elem_of_filter). rewrite E in Hin. by apply not_elem_of_nil in Hin. }
    apply (subseteq_size (C := gset Z)) in Hsub. rewrite size_dom in Hsub.
    rewrite size_list_to_set in Hsub; [by change (length arena) with 64%nat in Hsub; lia|].
    apply NoDup_fmap_2; [|apply NoDup_seqZ]. intros x y ?. lia.
  - assert (a ∈ filter (λ a, ts !! a = None) arena) as Ha by (rewrite E; by left).
    apply list_elem_of_filter in Ha as [Hn Ha]. exists a. split; [done|].
    split; [done|]. by apply arena_ok.
Qed.

#[export] Instance arena_laws : BoxLaws arena_box := {| box_capacity := 64; box_fresh := arena_fresh |}.

Definition boot : Paging :=
  {| tables := {[0x1000 := PageTable.new]}; cr0 := 0; cr3 := 0x1000; cr4 := 0; efer := 0;
     invalidated := [] |}.

Lemma boot_ok : paged 0x1000 boot.
Proof. apply boot_paged. by vm_compute. Qed.

(** The root's tables after mapping one page. *)
Definition boot1 : Paging :=
  match map_page (box := arena_box) 0x1000 boot 0xFFFF800000200000 0x5000 3 with
  | Ret s => s | _ => boot
  end.

Lemma boot1_ok : paged 0x1000 boot1.
Proof.
  pose proof (map_page_ok (box := arena_box) 0x1000 boot 0xFFFF800000200000 0x5000 3 boot_ok) as H.
  unfold boot1. destruct (map_page _ _ _ _ _) as [s| | |]; [|apply boot_ok..]. apply H.
  apply (bool_decide_unpack _). by vm_compute.
Qed.

Example boot1_translates :
  translate_virt_to_phys 0x1000 boot1 0xFFFF800000200ABC = Ret (Some 0x5ABC).
Proof. by vm_compute. Qed.

Lemma map_page_updates_witness :
  returns (map_page (box := arena_box) 0x1000 boot 0x200000 0x7000 3) (λ s',
    paged 0x1000 s' ∧ (size (tables s') ≤ size (tables boot) + 3)%nat ∧
    ∀ v, address_space 0x1000 s' v =
         if decide (page_of v = page_of 0x200000) then leaf_of 0x7000 3
         else address_space 0x1000 boot v).
Proof.
  apply (map_page_updates (box := arena_box) 0x1000 boot 0x200000 0x7000 3).
  - exact boot_ok.
  - apply (bool_decide_unpack _). by vm_compute.
Defined.

Lemma map_translate_roundtrip_witness :
  returns (map_page (box := arena_box) 0x1000 boot 0x200000 0x7000 3) (λ s', ∀ v,
    translate_virt_to_phys 0x1000 s' v =
    if decide (page_of v = page_of 0x200000)
    then Ret (Some (Z.lor (Z.land 0x7000 FRAME_MASK) (Z.land v 0xFFF)))
    else translate_virt_to_phys 0x1000 boot v).
Proof.
  apply (map_translate_roundtrip (box := arena_box) 0x1000 boot 0x200000 0x7000 3).
  - exact boot_ok.
  - apply (bool_decide_unpack _). by vm_compute.
  - by vm_compute.
Defined.

Lemma unmap_page_deletes_witness :
  returns (unmap_page 0x1000 boot1 0xFFFF800000200000) (λ s',
    paged 0x1000 s' ∧ translate_virt_to_phys 0x1000 s' 0xFFFF800000200000 = Ret None ∧
    is_page_mapped 0x1000 s' 0xFFFF800000200000 = Ret false ∧
    get_page_flags 0x1000 s' 0xFFFF800000200000 = Ret None ∧
    ∀ v, page_of v ≠ page_of 0xFFFF800000200000 →
         address_space 0x1000 s' v = address_space 0x1000 boot1 v).
Proof. apply (unmap_page_deletes 0x1000 boot1 0xFFFF800000200000). exact boot1_ok. Defined.

Lemma map_range_exact_witness :
  returns (map_range (prof := dev) (box := arena_box) 0x1000 boot 0x200000 0x7000 8192 3) (λ s',
    paged 0x1000 s' ∧
    (∀ i, 0 ≤ i < 2 → address_space 0x1000 s' (0x200000 + i * PAGE_SIZE) =
                      leaf_of (0x7000 + i * PAGE_SIZE) 3) ∧
    ∀ v, (∀ i, 0 ≤ i < 2 → page_of v ≠ page_of (0x200000 + i * PAGE_SIZE)) →
         address_space 0x1000 s' v = address_space 0x1000 boot v).
Proof.
  apply (map_range_exact (prof := dev) (box := arena_box) 0x1000 boot 0x200000 0x7000 8192 3).
  - exact boot_ok.
  - lia.
  - lia.
  - lia.
  - by vm_compute.
  - by vm_compute.
  - by vm_compute.
  - apply (bool_decide_unpack _). by vm_compute.
Defined.

Lemma set_page_flags_keeps_frame_witness :
  returns (set_page_flags 0x1000 boot1 0xFFFF800000200000 1) (λ s',
    paged 0x1000 s' ∧
    ∀ v, address_space 0x1000 s' v =
      match address_space 0x1000 boot1 0xFFFF800000200000 with
      | Some (fr, _) =>
          if decide (page_of v = page_of 0xFFFF800000200000)
          then (if Entry.present 1 then Some (fr, Z.land 1 0xFFF) else None)
          else address_space 0x1000 boot1 v
      | None => address_space 0x1000 boot1 v
      end).
Proof. apply (set_page_flags_keeps_frame 0x1000 boot1 0xFFFF800000200000 1). exact boot1_ok. Defined.

Lemma clone_takes_flags_of_entry_zero_witness :
  returns (clone_pt_or_pd (box := arena_box) boot 0x1000) (λ '(n, s'), ∃ new e0,
    entry boot 0x1000 0 = Some e0 ∧ Entry.addr n = new ∧
    (∀ j, 0 ≤ j < 512 → entry s' new j = entry boot 0x1000 j) ∧
    Entry.present n = Entry.present e0 ∧ Entry.writable n = Entry.writable e0 ∧
    Entry.user_accessible n = Entry.user_accessible e0).
Proof.
  destruct boot_ok as [lv Hlv].
  apply (clone_takes_flags_of_entry_zero (box := arena_box) 0x1000 lv boot 0x1000 4).
  - exact Hlv.
  - exact (tree_root _ _ _ Hlv).
  - apply (bool_decide_unpack _). by vm_compute.
Defined.

Lemma accessed_bit_breaks_walk_witness :
  returns (write_entry boot1 0x1000 256 (Entry.set_accessed 0x100003 true)) (λ s',
    translate_virt_to_phys 0x1000 s' 0xFFFF800000200000 = Undef).
Proof.
  apply (accessed_bit_breaks_walk 0x1000 boot1 0xFFFF800000200000 0x100003
           (default [] (tables boot1 !! 0x1000))); by vm_compute.
Defined.
