(* ===== verification/PagingSequence.v ===== *)
(** * Sequences of page-table operations

    An address space on its own: a partial function from addresses to a frame and
    flags.  Every operation of arch/paging.rs that changes the kernel tables has a
    counterpart on it, and for any sequence of calls the four levels of tables stay a
    tree and show exactly what the sequence of counterparts computes. *)

From S2P Require Import Prelude PageIndex Paging PagingSpec PagingTheorems.
Open Scope Z_scope.

Inductive pop :=
| MapPage (virt phys flags : Z)
| UnmapPage (virt : Z)
| SetPageFlags (virt flags : Z)
| ProtectPage (virt : Z) (writable : bool)
| MarkAccessed (virt : Z)
| MarkDirty (virt : Z)
| RemapPage (virt phys flags : Z)
| IdentityMap (phys : Z)
| MapRange (virt phys size flags : Z)
| UnmapRange (virt size : Z)
| MapKernel (frame : option Z) (virt flags : Z)
| MapUser (frame : option Z) (virt flags : Z)
| Ensure (frame : option Z) (virt flags : Z)
| MapKernelSpace (start end_ flags : Z).

(** ** On the tables *)

Section run.
Context {prof : Profile} {box : BoxAlloc} (root : Z).

(** [map_kernel_space] with one unit of fuel for each page of the range. *)
Definition map_kernel_space (s : Paging) (start end_ flags : Z) : outcome Paging :=
  r ← map_kernel_loop root (Z.to_nat ((end_ - start + PAGE_SIZE - 1) / PAGE_SIZE)) s start end_ flags;
  match r with Some s' => Ret s' | None => Diverge end.

Definition run_pop (o : pop) (s : Paging) : outcome Paging :=
  match o with
  | MapPage v p f => map_page root s v p f
  | UnmapPage v => unmap_page root s v
  | SetPageFlags v f => set_page_flags root s v f
  | ProtectPage v w => protect_page root s v w
  | MarkAccessed v => mark_page_accessed root s v
  | MarkDirty v => mark_page_dirty root s v
  | RemapPage v p f => remap_page root s v p f
  | IdentityMap p => identity_map_frame root s p
  | MapRange v p sz f => map_range root s v p sz f
  | UnmapRange v sz => unmap_range root s v sz
  | MapKernel fr v f => snd <$> alloc_and_map_kernel_page root s fr v f
  | MapUser fr v f => snd <$> alloc_and_map_user_page root s fr v f
  | Ensure fr v f => snd <$> ensure_page_mapped root s fr v f
  | MapKernelSpace a b f => map_kernel_space s a b f
  end.

Fixpoint run_pops (os : list pop) (s : Paging) : outcome Paging :=
  match os with [] => Ret s | o :: os => s' ← run_pop o s; run_pops os s' end.
End run.

(** ** On the address space *)

Definition aspace : Type := Z → option (Z * Z).

Definition pages_in (sz : Z) : Z := (sz + PAGE_SIZE - 1) / PAGE_SIZE.

Definition with_flags (m : aspace) (v : Z) (g : Z → Z → option (Z * Z)) : aspace :=
  match m v with Some (fr, fl) => upd_page m v (g fr fl) | None => m end.

Definition flags_or_none (f fr : Z) : option (Z * Z) :=
  if Entry.present f then Some (fr, Z.land f 0xFFF) else None.

Fixpoint del_range (n : nat) (v : Z) (m : aspace) : aspace :=
  match n with O => m | S n' => upd_page (del_range n' v m) (v + Z.of_nat n' * PAGE_SIZE) None end.

Definition abs_pop (o : pop) (m : aspace) : aspace :=
  match o with
  | MapPage v p f => upd_page m v (leaf_of p f)
  | UnmapPage v => upd_page m v None
  | SetPageFlags v f => with_flags m v (λ fr _, flags_or_none f fr)
  | ProtectPage v w => with_flags m v (λ fr _, Some (fr, if w then 3 else 1))
  | MarkAccessed v => with_flags m v (λ fr fl, Some (fr, Z.lor fl 32))
  | MarkDirty v => with_flags m v (λ fr fl, Some (fr, Z.lor fl 64))
  | RemapPage v p f => upd_page m v (leaf_of p f)
  | IdentityMap p => upd_page m p (leaf_of p 3)
  | MapRange v p sz f => upd_range (Z.to_nat (pages_in sz)) v p f m
  | UnmapRange v sz => del_range (Z.to_nat (pages_in sz)) v m
  | MapKernel (Some p) v f => upd_page m v (leaf_of p f)
  | MapUser (Some p) v f => upd_page m v (leaf_of p (Z.lor f 4))
  | Ensure (Some p) v f => if m v is None then upd_page m v (leaf_of p f) else m
  | MapKernelSpace a b f => upd_range (Z.to_nat (pages_in (b - a))) a a f m
  | _ => m
  end.

Definition abs_pops (os : list pop) (m : aspace) : aspace := foldl (λ m o, abs_pop o m) m os.

(** How many tables an operation may need. *)
Definition tables_for (o : pop) : nat :=
  match o with
  | MapPage _ _ _ | RemapPage _ _ _ | IdentityMap _ => 3
  | MapKernel _ _ _ | MapUser _ _ _ | Ensure _ _ _ => 3
  | MapRange _ _ sz _ => 3 * Z.to_nat (pages_in sz)
  | MapKernelSpace a b _ => 3 * Z.to_nat (pages_in (b - a))
  | _ => 0
  end.

(** Ranges whose last address does not overflow. *)
Definition legal_pop (o : pop) : Prop :=
  match o with
  | MapRange v p sz _ => 0 ≤ v ∧ 0 ≤ p ∧ 0 ≤ sz ∧ v + sz + PAGE_SIZE < 2 ^ 64 ∧ p + sz + PAGE_SIZE < 2 ^ 64
  | UnmapRange v sz => 0 ≤ v ∧ 0 ≤ sz ∧ v + sz + PAGE_SIZE < 2 ^ 64
  | MapKernelSpace a b _ => 0 ≤ a ∧ b + PAGE_SIZE < 2 ^ 64
  | _ => True
  end.

(** *** Address spaces up to pointwise equality *)

#[local] Notation "m ≡ₐ m'" := (pointwise_relation Z eq m m') (at level 70).

#[export] Instance upd_page_proper : Proper (pointwise_relation Z eq ==> eq ==> eq ==> pointwise_relation Z eq) upd_page.
Proof. intros m m' Hm v ? <- x ? <- w. unfold upd_page. by case_decide. Qed.

#[export] Instance upd_one_proper v x : Proper (pointwise_relation Z eq ==> pointwise_relation Z eq) (λ m, upd_page m v x).
Proof. intros m m' Hm. by rewrite Hm. Qed.

#[export] Instance upd_range_proper n v p f :
  Proper (pointwise_relation Z eq ==> pointwise_relation Z eq) (upd_range n v p f).
Proof. intros m m' Hm. induction n as [|n IH]; simpl; [done|]. by rewrite IH. Qed.

#[export] Instance del_range_proper n v : Proper (pointwise_relation Z eq ==> pointwise_relation Z eq) (del_range n v).
Proof. intros m m' Hm. induction n as [|n IH]; simpl; [done|]. by rewrite IH. Qed.

#[export] Instance abs_pop_proper o : Proper (pointwise_relation Z eq ==> pointwise_relation Z eq) (abs_pop o).
Proof.
  intros m m' Hm. destruct o as [| | | | | | | | | |[]|[]|[]|]; simpl; unfold with_flags; rewrite <-?Hm;
    repeat case_match; by rewrite ?Hm.
Qed.

#[export] Instance abs_pops_proper os : Proper (pointwise_relation Z eq ==> pointwise_relation Z eq) (abs_pops os).
Proof. induction os as [|o os IH]; intros m m' Hm; simpl; [done|]. apply IH. by rewrite Hm. Qed.

(** ** Marking an entry *)

Lemma frame_of_put_bit e k b : 0 ≤ k < 12 → frame_of (Entry.put_bit e k b) = frame_of e.
Proof.
  intros Hk. rewrite !frame_of_mask. apply Z.bits_inj'. intros i Hi.
  rewrite !Z.land_spec, FRAME_MASK_spec, put_bit_spec by lia. bit_cases.
Qed.

Lemma present_put_bit e k b : 0 < k < 64 → Entry.present (Entry.put_bit e k b) = Entry.present e.
Proof. intros Hk. rewrite !present_bit, put_bit_spec by lia. bit_cases. Qed.

Lemma flags_put_bit e k : 0 ≤ k < 12 → Entry.flags (Entry.put_bit e k true) = Z.lor (Entry.flags e) (2 ^ k).
Proof.
  intros Hk. unfold Entry.flags. apply Z.bits_inj'. intros i Hi. entry_bits.
  rewrite Z.pow2_bits_eqb by lia. bit_cases.
Qed.

Lemma mapping_present s k t v e : mapping s k t v = Some e → Entry.present e = true.
Proof.
  revert t. induction k as [|k IH]; intros t; cbn [mapping];
    (destruct (entry s t _) as [e'|]; [cbn [mbind option_bind]|done]);
    (destruct (Entry.present e') eqn:Hp; [|done]).
  - by intros [= <-].
  - destruct k; [by intros [= <-]|apply IH].
Qed.

(** ** The simulation *)

Section simulation.
Context {prof : Profile} {box : BoxAlloc} {laws : BoxLaws box} (root : Z).
Implicit Types (s : Paging).

(** One step of the tables against one step of the address space. *)
Definition simulates s (n : nat) (m : aspace) s' : Prop :=
  paged root s' ∧ (size (tables s') ≤ size (tables s) + n)%nat ∧ address_space root s' ≡ₐ m.

Lemma simulates_refl s : paged root s → simulates s 0 (address_space root s) s.
Proof. intros Hs. split; [done|]. split; [lia|done]. Qed.

Lemma simulates_weaken s n n' m s' : (n ≤ n')%nat → simulates s n m s' → simulates s n' m s'.
Proof. intros Hn (Hs & Hz & Hm). split; [done|]. split; [lia|done]. Qed.

Lemma simulates_trans s1 s2 s3 n n' m m' (f : aspace → aspace) :
  Proper (pointwise_relation Z eq ==> pointwise_relation Z eq) f →
  simulates s1 n m s2 → simulates s2 n' (f (address_space root s2)) s3 → m' ≡ₐ f m →
  simulates s1 (n + n') m' s3.
Proof.
  intros Hf (_ & Hz2 & Hm2) (H3 & Hz3 & Hm3) Hm'. split; [done|]. split; [lia|]. by rewrite Hm3, Hm2, Hm'.
Qed.

Lemma map_page_sim s v p f :
  paged root s → room 3 s →
  returns (map_page root s v p f) (simulates s 3 (upd_page (address_space root s) v (leaf_of p f))).
Proof. apply map_page_ok. Qed.

Lemma unmap_page_sim s v :
  paged root s → returns (unmap_page root s v) (simulates s 0 (upd_page (address_space root s) v None)).
Proof.
  intros Hs. eapply returns_mono; [by apply unmap_page_ok|]. intros s' (Hs' & Hz & Hm).
  split; [done|]. split; [lia|done].
Qed.

Lemma set_flags_sim s v f :
  paged root s →
  returns (set_page_flags root s v f) (simulates s 0 (with_flags (address_space root s) v (λ fr _, flags_or_none f fr))).
Proof.
  intros Hs. eapply returns_mono; [by apply set_page_flags_ok|]. intros s' (Hs' & Hz & Hm).
  split; [done|]. split; [lia|]. intros w. rewrite Hm. unfold with_flags.
  by destruct (address_space root s v) as [[fr fl]|].
Qed.

(** [mark_page_accessed] and [mark_page_dirty]. *)
Lemma mark_sim s v k :
  paged root s → 0 < k < 12 →
  returns (r ← update_leaf root s v (λ e, Entry.put_bit e k true); Ret (default s r))
    (simulates s 0 (with_flags (address_space root s) v (λ fr fl, Some (fr, Z.lor fl (2 ^ k))))).
Proof.
  intros Hs Hk. step1. eapply returns_mono; [by apply update_leaf_ok|]. intros r. unfold with_flags.
  assert (address_space root s v = (λ e, (frame_of e, Entry.flags e)) <$> mapping s 4 root v) as -> by done.
  destruct (mapping s 4 root v) as [e|] eqn:Hm.
  - intros (s' & -> & Hs' & Hz & Hm'). split; [done|]. split; [simpl; lia|]. intros w. etrans; [apply Hm'|].
    rewrite present_put_bit, frame_of_put_bit, flags_put_bit by lia.
    by rewrite (mapping_present s 4 root v e Hm).
  - intros ->. by apply simulates_refl.
Qed.

Lemma unmap_range_sim s v sz :
  paged root s → 0 ≤ v → 0 ≤ sz → v + sz + PAGE_SIZE < 2 ^ 64 →
  returns (unmap_range root s v sz) (simulates s 0 (del_range (Z.to_nat (pages_in sz)) v (address_space root s))).
Proof.
  intros Hs Hv Hsz Hov. unfold unmap_range, pages_of, pages_in, PAGE_SIZE in *.
  set (pages := (sz + 4096 - 1) / 4096) in *.
  assert (0 ≤ pages ∧ pages * 4096 ≤ sz + 4095) as [Hpg Hpg'] by (unfold pages; Z.to_euclidean_division_equations; lia).
  assert (in_u 64 (sz + 4096) ∧ in_u 64 (sz + 4096 - 1)) as [??] by (unfold in_u; lia).
  step1. repeat step1; [done..|].
  apply (for_each_inv (λ i s', simulates s 0 (del_range (Z.to_nat i) v (address_space root s)) s')); [done|by apply simulates_refl|].
  intros i s1 Hi Hs1. assert (i * 4096 + 4096 ≤ sz + 4095) by nia. repeat step1; [unfold in_u; lia..|].
  eapply returns_mono; [apply unmap_page_sim, Hs1|]. intros s2 Hs2.
  apply (simulates_trans s s1 s2 0 0 _ _ (λ m, upd_page m (v + i * 4096) None) _ Hs1 Hs2).
  replace (Z.to_nat (i + 1)) with (S (Z.to_nat i)) by lia. cbn [del_range]. change PAGE_SIZE with 4096.
  by rewrite Z2Nat.id by lia.
Qed.

(** The loop of [map_kernel_space] with the first [i] of [n] pages mapped. *)
Lemma kernel_loop_sim s start end_ f n fuel s1 (i : Z) :
  paged root s → room (3 * n) s → 0 ≤ start → end_ + PAGE_SIZE < 2 ^ 64 →
  end_ - start ≤ Z.of_nat n * PAGE_SIZE ∧ (0 < Z.of_nat n → (Z.of_nat n - 1) * PAGE_SIZE < end_ - start) →
  0 ≤ i → Z.of_nat n = i + Z.of_nat fuel →
  simulates s (3 * Z.to_nat i) (upd_range (Z.to_nat i) start start f (address_space root s)) s1 →
  returns (map_kernel_loop root fuel s1 (start + i * PAGE_SIZE) end_ f)
    (λ r, ∃ s', r = Some s' ∧ simulates s (3 * n) (upd_range n start start f (address_space root s)) s').
Proof.
  unfold PAGE_SIZE. intros Hs Hr Ha Hb Hn. revert s1 i.
  induction fuel as [|fuel IH]; intros s1 i Hi Hni Hs1; cbn [map_kernel_loop].
  - rewrite (proj2 (Z.ltb_ge _ _)) by lia. exists s1. split; [done|]. by replace n with (Z.to_nat i) by lia.
  - rewrite (proj2 (Z.ltb_lt _ _)) by lia. step1. pose proof Hs1 as (Hp1 & Hz1 & _).
    eapply returns_mono; [apply map_page_sim; [done|unfold room in *; lia]|]. intros s2 Hs2.
    unfold PAGE_SIZE. step1. step1; [unfold in_u; lia|].
    replace (start + i * 4096 + 4096) with (start + (i + 1) * 4096) by lia. apply IH; [lia|lia|].
    apply (simulates_weaken s (3 * Z.to_nat i + 3)); [lia|].
    apply (simulates_trans s s1 s2 _ 3 _ _ (λ m, upd_page m (start + i * 4096) (leaf_of (start + i * 4096) f)) _ Hs1 Hs2).
    replace (Z.to_nat (i + 1)) with (S (Z.to_nat i)) by lia. cbn [upd_range]. change PAGE_SIZE with 4096.
    by rewrite Z2Nat.id by lia.
Qed.

Lemma map_kernel_space_sim s start end_ f :
  paged root s → 0 ≤ start → end_ + PAGE_SIZE < 2 ^ 64 → room (3 * Z.to_nat (pages_in (end_ - start))) s →
  returns (map_kernel_space root s start end_ f) (simulates s (3 * Z.to_nat (pages_in (end_ - start)))
    (upd_range (Z.to_nat (pages_in (end_ - start))) start start f (address_space root s))).
Proof.
  intros Hs Ha Hb Hr. unfold map_kernel_space. fold (pages_in (end_ - start)). step1.
  set (n := Z.to_nat (pages_in (end_ - start))) in *. eapply returns_mono.
  { rewrite <-(Z.add_0_r start) at 1. apply (kernel_loop_sim s start end_ f n n s 0); [done..| |lia|lia|by apply simulates_refl].
    unfold n, pages_in, PAGE_SIZE. Z.to_euclidean_division_equations; lia. }
  by intros r (s' & -> & Hs').
Qed.

Lemma map_frame_sim s (fr : option Z) v f :
  paged root s → room 3 s →
  returns (alloc_and_map_kernel_page root s fr v f) (λ '(r, s'), r = fr ∧
    simulates s 3 (if fr is Some p then upd_page (address_space root s) v (leaf_of p f) else address_space root s) s').
Proof.
  intros Hs Hr. unfold alloc_and_map_kernel_page. destruct fr as [p|].
  - step1. eapply returns_mono; [by apply map_page_sim|]. done.
  - split; [done|]. by eapply simulates_weaken, simulates_refl; [lia|].
Qed.

Lemma ensure_sim s (fr : option Z) v f :
  paged root s → room 3 s →
  returns (ensure_page_mapped root s fr v f) (λ '(_, s'), simulates s 3 (abs_pop (Ensure fr v f) (address_space root s)) s').
Proof.
  intros Hs Hr. unfold ensure_page_mapped, is_page_mapped. rewrite translate_ok by done. simpl.
  destruct (address_space root s v) as [[a fl]|] eqn:Ha; simpl.
  - destruct fr; (eapply simulates_weaken, simulates_refl; [lia|done]).
  - step1. eapply returns_mono; [by apply map_frame_sim|]. intros [r s'] [-> Hs']. by destruct fr.
Qed.

Lemma snd_returns {A B} (m : outcome (A * B)) (Q : B → Prop) : returns m (λ '(_, b), Q b) → returns (snd <$> m) Q.
Proof. by destruct m as [[]| | |]. Qed.

Lemma run_pop_sim o s :
  paged root s → room (tables_for o) s → legal_pop o →
  returns (run_pop root o s) (simulates s (tables_for o) (abs_pop o (address_space root s))).
Proof.
  intros Hs Hr Hl. destruct o; simpl in *.
  - by apply map_page_sim.
  - by apply unmap_page_sim.
  - by apply set_flags_sim.
  - unfold protect_page. eapply returns_mono; [by apply set_flags_sim|]. by destruct writable.
  - by apply (mark_sim s virt 5).
  - by apply (mark_sim s virt 6).
  - unfold remap_page. step1. eapply returns_mono; [by apply unmap_page_sim|]. intros s1 H1.
    eapply returns_mono; [apply map_page_sim; [apply H1|]|].
    { destruct H1 as (_ & Hz & _). unfold room in *. lia. }
    intros s2 H2. apply (simulates_trans s s1 s2 0 3 _ _ (λ m, upd_page m virt (leaf_of phys flags)) _ H1 H2).
    intros w. unfold upd_page. by case_decide.
  - by apply map_page_sim.
  - destruct Hl as (?&?&?&?&?). eapply returns_mono; [by apply map_range_ok|]. done.
  - apply unmap_range_sim; tauto.
  - apply snd_returns. eapply returns_mono; [by apply map_frame_sim|]. intros [r s'] [_ Hs']. by destruct frame.
  - apply snd_returns. unfold alloc_and_map_user_page. destruct frame as [p|].
    + step1. eapply returns_mono; [by apply map_page_sim|]. done.
    + by eapply simulates_weaken, simulates_refl; [lia|].
  - by apply snd_returns, ensure_sim.
  - apply map_kernel_space_sim; tauto.
Qed.

Fixpoint tables_total (os : list pop) : nat :=
  match os with [] => 0 | o :: os => tables_for o + tables_total os end.

Lemma run_pops_sim os s :
  paged root s → room (tables_total os) s → Forall legal_pop os →
  returns (run_pops root os s) (simulates s (tables_total os) (abs_pops os (address_space root s))).
Proof.
  intros Hs Hr Hos. revert s Hs Hr.
  induction Hos as [|o os Ho Hos IH]; intros s Hs Hr; simpl in *; [by apply simulates_refl|].
  step1. eapply returns_mono; [apply run_pop_sim; [done|unfold room in *; lia|done]|]. intros s1 H1.
  eapply returns_mono; [apply IH; [apply H1|]|].
  { destruct H1 as (_ & Hz & _). unfold room in *. lia. }
  intros s2 H2. by apply (simulates_trans s s1 s2 _ _ _ _ (abs_pops os) _ H1 H2).
Qed.

(** C3: The four levels of page tables implement one partial function.  Let any
    sequence of the operations that change the kernel tables run: [map_page],
    [unmap_page], [set_page_flags], [protect_page], the accessed and dirty marks,
    [remap_page], [identity_map_frame], [map_range], [unmap_range],
    [map_kernel_space], the allocating mappers and [ensure_page_mapped].  Ranges do
    not overflow, and the global allocator has memory for the tables they may need and places
    every table where an entry can point to it, below 2^48 and at a multiple of 16
    ([BoxLaws]; the heap addresses of main.rs are not such).  Then
    every call returns, the tables are a tree again, and every lookup of an address
    and of its flags answers what the same sequence computes on a plain function
    from pages to frames and flags. *)
Theorem paging_refines_map os s :
  paged root s → room (tables_total os) s → Forall legal_pop os →
  returns (run_pops root os s) (λ s', paged root s' ∧ ∀ v,
    let m := abs_pops os (address_space root s) in
    translate_virt_to_phys root s' v = Ret ((λ '(f, _), Z.lor f (Z.land v 0xFFF)) <$> m v) ∧
    get_page_flags root s' v = Ret (snd <$> m v) ∧
    is_page_mapped root s' v = Ret (bool_decide (is_Some (m v)))).
Proof.
  intros Hs Hr Hos. eapply returns_mono; [by apply run_pops_sim|]. intros s' (Hs' & _ & Hm).
  split; [done|]. intros v m. unfold is_page_mapped. rewrite translate_ok, get_page_flags_ok by done.
  rewrite (Hm v). fold m. split; [done|]. split; [done|]. simpl. f_equal.
  apply bool_decide_ext. by rewrite fmap_is_Some.
Qed.
End simulation.

(** ** A kernel range, one page of it taken out and the rest made read-only *)

#[local] Existing Instance dev.

Definition demo_ops : list pop :=
  [MapRange 0x200000 0x7000 0x3000 3; UnmapPage 0x201000; ProtectPage 0x202123 false; MarkDirty 0x202000;
   MapUser (Some 0x9000) 0x400000 3; Ensure (Some 0xA000) 0x200000 3; IdentityMap 0xB8000;
   MapKernelSpace 0x100000 0x102001 3].

Example demo_lookups :
  (λ v, abs_pops demo_ops (address_space 0x1000 boot) v) <$>
    [0x200abc; 0x201000; 0x202fff; 0x400010; 0xB8000; 0x102000; 0x103000] =
  [Some (0x7000, 3); None; Some (0x9000, 0x41); Some (0x9000, 7); Some (0xB8000, 3); Some (0x102000, 3); None].
Proof. vm_compute. reflexivity. Qed.

Lemma demo_room : room (box := arena_box) (tables_total demo_ops) boot.
Proof. apply (bool_decide_unpack _). vm_compute. reflexivity. Qed.

Lemma demo_legal : Forall legal_pop demo_ops.
Proof. repeat (apply Forall_cons; split; [done|]). by apply Forall_nil. Qed.

Lemma paging_refines_map_witness :
  ∃ s', run_pops (box := arena_box) 0x1000 demo_ops boot = Ret s' ∧
    translate_virt_to_phys 0x1000 s' 0x202fff = Ret (Some 0x9fff).
Proof.
  pose proof (paging_refines_map (box := arena_box) 0x1000 demo_ops boot boot_ok demo_room demo_legal) as H.
  destruct (run_pops (box := arena_box) 0x1000 demo_ops boot) as [s'| | |]; [|destruct H..].
  destruct H as [_ H]. exists s'. split; [reflexivity|]. destruct (H 0x202fff) as [E _]. rewrite E.
  vm_compute. reflexivity.
Defined.

(** ** Where a table may lie *)

(** An entry gives back the address of a table exactly when it is a multiple of 16
    below 2^48. *)
Lemma entry_keeps_address e a :
  Entry.addr (Entry.set_addr e a) = a ↔ 0 ≤ a < 2 ^ 48 ∧ a mod 16 = 0.
Proof.
  rewrite addr_set_addr. assert (Z.land a Entry.ADDR_MASK = (a / 16) mod 2 ^ 44 * 16) as ->.
  { change 16 with (2 ^ 4). rewrite <-Z.shiftl_mul_pow2, <-Z.shiftr_div_pow2, <-Z.land_ones by lia.
    apply Z.bits_inj'. intros i Hi. rewrite Z.land_spec, ADDR_MASK_spec.
    destruct (Z.leb_spec 4 i); [|by rewrite Z.shiftl_spec_low, andb_false_r by lia].
    rewrite Z.shiftl_spec, Z.land_spec, Z.shiftr_spec, Z.ones_spec by lia.
    replace (i - 4 + 4) with i by lia. case_bool_decide; bit_cases. }
  pose proof (Z.mod_pos_bound (a / 16) (2 ^ 44) ltac:(lia)). split.
  - intros <-. split; [lia|]. by apply Z.mod_mul.
  - intros [Ha Hm]. rewrite Z.mod_small by (Z.to_euclidean_division_equations; lia).
    Z.to_euclidean_division_equations; lia.
Qed.

(** With the kernel heap where main.rs puts it, the first mapping that needs a table
    follows a truncated address. *)
Example high_heap_loses_tables :
  map_page (box := λ _, Some 0xFFFF800010000000) 0x1000 boot 0x200000 0x7000 3 = Undef ∧
  Entry.addr (Entry.set_addr 0 0xFFFF800010000000) = 0x0000800010000000.
Proof. by vm_compute. Qed.
