(* ===== verification/Scheduler.v ===== *)
(** * The round-robin scheduler (src/scheduler/scheduler.rs)

    The run queue and [CURRENT_TASK] hold references to process control blocks,
    and the same block is usually reachable from both, so the model keeps the
    blocks in a store and the queue as an array of references into it: writing
    through one reference is seen through the other. *)

From S2P Require Import Prelude.
Open Scope Z_scope.

Definition MAX_TASKS : Z := 1024.

(** The states the scheduler names.  The module imports [TaskState] from [pcb],
    which declares the first six of them as [ProcessState]; [Invalid] is what
    [get_current_task_state] returns without a current task. *)
Inductive TaskState := Running | Ready | Blocked | Zombie | Sleeping | Idle | Invalid.
#[export] Instance TaskState_eq_dec : EqDecision TaskState.
Proof. solve_decision. Defined.

(** The fields of a [ProcessControlBlock] the scheduler reads and writes.  The
    block of [pcb.rs] (file [Pcb]) does not have all of them under these names. *)
Record Task := {
  id : Z;
  state : TaskState;
  regs : Z;
  tick_count : Z;
  time_slice : Z;
  priority : Z;
  execution_time : Z;
  wake_time : Z;
  last_schedule_tick : Z;
  exit_code : Z
}.

Definition set_state (t : Task) (v : TaskState) : Task :=
  {| id := id t; state := v; regs := regs t; tick_count := tick_count t;
     time_slice := time_slice t; priority := priority t; execution_time := execution_time t;
     wake_time := wake_time t; last_schedule_tick := last_schedule_tick t;
     exit_code := exit_code t |}.
Definition set_regs (t : Task) (v : Z) : Task :=
  {| id := id t; state := state t; regs := v; tick_count := tick_count t;
     time_slice := time_slice t; priority := priority t; execution_time := execution_time t;
     wake_time := wake_time t; last_schedule_tick := last_schedule_tick t;
     exit_code := exit_code t |}.
Definition set_tick_count (t : Task) (v : Z) : Task :=
  {| id := id t; state := state t; regs := regs t; tick_count := v;
     time_slice := time_slice t; priority := priority t; execution_time := execution_time t;
     wake_time := wake_time t; last_schedule_tick := last_schedule_tick t;
     exit_code := exit_code t |}.
Definition set_time_slice (t : Task) (v : Z) : Task :=
  {| id := id t; state := state t; regs := regs t; tick_count := tick_count t;
     time_slice := v; priority := priority t; execution_time := execution_time t;
     wake_time := wake_time t; last_schedule_tick := last_schedule_tick t;
     exit_code := exit_code t |}.
Definition set_priority (t : Task) (v : Z) : Task :=
  {| id := id t; state := state t; regs := regs t; tick_count := tick_count t;
     time_slice := time_slice t; priority := v; execution_time := execution_time t;
     wake_time := wake_time t; last_schedule_tick := last_schedule_tick t;
     exit_code := exit_code t |}.
Definition set_execution_time (t : Task) (v : Z) : Task :=
  {| id := id t; state := state t; regs := regs t; tick_count := tick_count t;
     time_slice := time_slice t; priority := priority t; execution_time := v;
     wake_time := wake_time t; last_schedule_tick := last_schedule_tick t;
     exit_code := exit_code t |}.
Definition set_wake_time (t : Task) (v : Z) : Task :=
  {| id := id t; state := state t; regs := regs t; tick_count := tick_count t;
     time_slice := time_slice t; priority := priority t; execution_time := execution_time t;
     wake_time := v; last_schedule_tick := last_schedule_tick t;
     exit_code := exit_code t |}.
Definition set_last_schedule_tick (t : Task) (v : Z) : Task :=
  {| id := id t; state := state t; regs := regs t; tick_count := tick_count t;
     time_slice := time_slice t; priority := priority t; execution_time := execution_time t;
     wake_time := wake_time t; last_schedule_tick := v; exit_code := exit_code t |}.
Definition set_exit_code (t : Task) (v : Z) : Task :=
  {| id := id t; state := state t; regs := regs t; tick_count := tick_count t;
     time_slice := time_slice t; priority := priority t; execution_time := execution_time t;
     wake_time := wake_time t; last_schedule_tick := last_schedule_tick t; exit_code := v |}.

(** The statics of the module, the store of control blocks, the stack pointer
    and the number of [hlt] instructions executed. *)
Record Sched := {
  pcbs : gmap Z Task;
  runqueue : list (option Z);
  current : option Z;
  task_count : Z;
  sched_lock : bool;
  next_task_id : Z;
  idle_pcb : option Z;
  rsp : Z;
  halts : nat
}.

Definition with_pcbs (s : Sched) (m : gmap Z Task) : Sched :=
  {| pcbs := m; runqueue := runqueue s; current := current s; task_count := task_count s;
     sched_lock := sched_lock s; next_task_id := next_task_id s; idle_pcb := idle_pcb s;
     rsp := rsp s; halts := halts s |}.
Definition with_queue (s : Sched) (q : list (option Z)) (n : Z) : Sched :=
  {| pcbs := pcbs s; runqueue := q; current := current s; task_count := n;
     sched_lock := sched_lock s; next_task_id := next_task_id s; idle_pcb := idle_pcb s;
     rsp := rsp s; halts := halts s |}.
Definition with_current (s : Sched) (c : option Z) : Sched :=
  {| pcbs := pcbs s; runqueue := runqueue s; current := c; task_count := task_count s;
     sched_lock := sched_lock s; next_task_id := next_task_id s; idle_pcb := idle_pcb s;
     rsp := rsp s; halts := halts s |}.
Definition with_lock (s : Sched) (b : bool) : Sched :=
  {| pcbs := pcbs s; runqueue := runqueue s; current := current s; task_count := task_count s;
     sched_lock := b; next_task_id := next_task_id s; idle_pcb := idle_pcb s;
     rsp := rsp s; halts := halts s |}.
Definition with_next_id (s : Sched) (n : Z) : Sched :=
  {| pcbs := pcbs s; runqueue := runqueue s; current := current s; task_count := task_count s;
     sched_lock := sched_lock s; next_task_id := n; idle_pcb := idle_pcb s;
     rsp := rsp s; halts := halts s |}.
Definition with_idle (s : Sched) (i : option Z) : Sched :=
  {| pcbs := pcbs s; runqueue := runqueue s; current := current s; task_count := task_count s;
     sched_lock := sched_lock s; next_task_id := next_task_id s; idle_pcb := i;
     rsp := rsp s; halts := halts s |}.
Definition with_rsp (s : Sched) (v : Z) : Sched :=
  {| pcbs := pcbs s; runqueue := runqueue s; current := current s; task_count := task_count s;
     sched_lock := sched_lock s; next_task_id := next_task_id s; idle_pcb := idle_pcb s;
     rsp := v; halts := halts s |}.
(** [cpu::halt]. *)
Definition halt (s : Sched) : Sched :=
  {| pcbs := pcbs s; runqueue := runqueue s; current := current s; task_count := task_count s;
     sched_lock := sched_lock s; next_task_id := next_task_id s; idle_pcb := idle_pcb s;
     rsp := rsp s; halts := S (halts s) |}.

(** Following a reference, and writing through it. *)
Definition deref (s : Sched) (r : Z) : outcome Task :=
  match pcbs s !! r with Some t => Ret t | None => Undef end.
Definition put (s : Sched) (r : Z) (t : Task) : Sched := with_pcbs s (<[r := t]> (pcbs s)).
Definition modify (s : Sched) (r : Z) (f : Task → Task) : outcome Sched :=
  t ← deref s r; Ret (put s r (f t)).

(** [RUNQUEUE[i]], bounds checked, and the block behind it. *)
Definition queue_get (s : Sched) (i : Z) : outcome (option Z) :=
  match runqueue s !! Z.to_nat i with Some o => Ret o | None => Panic end.
Definition queue_task (s : Sched) (i : Z) : outcome (option (Z * Task)) :=
  o ← queue_get s i;
  match o with
  | None => Ret None
  | Some r => t ← deref s r; Ret (Some (r, t))
  end.

(** The loop most functions of the module start with,
    [for i in 0..MAX_TASKS { if let Some(task) = RUNQUEUE[i] { if p(task) ...: the
    first slot whose task satisfies [p]. *)
Definition scan (s : Sched) (p : Task → bool) : outcome (option (Z * Z * Task)) :=
  fl ← for_range 0 MAX_TASKS (λ i (_ : unit),
    o ← queue_task s i;
    Ret (match o with
         | Some (r, t) => if p t then Done (i, r, t) else Next ()
         | None => Next ()
         end)) ();
  Ret (match fl with Done x => Some x | Next _ => None end).
Definition by_id (task_id : Z) (t : Task) : bool := id t =? task_id.
Definition in_state (st : TaskState) (t : Task) : bool := bool_decide (state t = st).

(** A mutation of the first task with a given id, if there is one. *)
Definition modify_task (s : Sched) (task_id : Z) (f : Task → Task) : outcome Sched :=
  r ← scan s (by_id task_id);
  Ret (match r with Some (_, ref, t) => put s ref (f t) | None => s end).
Definition read_task {A} (s : Sched) (task_id : Z) (f : Task → A) : outcome (option A) :=
  r ← scan s (by_id task_id);
  Ret (match r with Some (_, _, t) => Some (f t) | None => None end).

(** A mutation and a read of the current task, if there is one. *)
Definition modify_current (s : Sched) (f : Task → Task) : outcome Sched :=
  match current s with None => Ret s | Some c => modify s c f end.
Definition read_current {A} (s : Sched) (none : A) (f : Task → A) : outcome A :=
  match current s with None => Ret none | Some c => f <$> deref s c end.

Section scheduler.
Context {prof : Profile}.
(** [ProcessControlBlock::new] as the scheduler calls it, with the id, the entry
    point and the stack of the new task.  The constructor of [pcb.rs] (line 169)
    takes [kernel_stack], [user_stack] and [entry_point] and draws the process id
    from its own counter, and the block it returns lacks the fields [id], [regs],
    [tick_count] and [time_slice], so what the call yields is a parameter and
    nothing is assumed of it here. *)
Context (pcb_new : Z → Z → Z → Task).
Implicit Types (s : Sched).

(** The search for the next task: slots [(id % 1024) + 1], and on around the
    array; [-1] when no slot holds a ready task. *)
Definition find_next_task s : outcome Z :=
  match current s with
  | None => Panic
  | Some c =>
      t ← deref s c;
      let start := id t mod MAX_TASKS + 1 in
      fl ← for_range 0 MAX_TASKS (λ i (_ : unit),
        let idx := (start + i) mod MAX_TASKS in
        o ← queue_task s idx;
        Ret (match o with
             | Some (_, t) => if in_state Ready t then Done idx else Next ()
             | None => Next ()
             end)) ();
      Ret (match fl with Done idx => idx | Next _ => -1 end)
  end.

(** [context_switch]: fourteen registers are pushed, the stack pointer is saved
    in [prev], the one of [next] loaded, and fourteen registers popped. *)
Definition context_switch s (prev next : Z) : outcome Sched :=
  let sp := wrap 64 (rsp s - 14 * 8) in
  s1 ← modify s prev (λ t, set_regs t sp);
  n ← deref s1 next;
  Ret (with_rsp s1 (wrap 64 (regs n + 14 * 8))).

(** In [schedule] and [schedule_with_policy] the variable [current] is a
    reference to the payload of [CURRENT_TASK] itself
    ([CURRENT_TASK.as_mut().unwrap()] is a [&mut &'static mut
    ProcessControlBlock]).  When [context_switch(current, next)] dereferences it,
    [CURRENT_TASK] has been overwritten: it reads what the slot holds then. *)
Definition current_ref s : outcome Z :=
  match current s with Some c => Ret c | None => Panic end.

Definition schedule s : outcome Sched :=
  if sched_lock s then Ret s else
  let s0 := with_lock s true in
  match current s0 with
  | None => Panic
  | Some c =>
      ct ← deref s0 c;
      let s1 := if in_state Running ct then put s0 c (set_state ct Ready) else s0 in
      next_idx ← find_next_task s1;
      if next_idx =? -1 then Ret (halt (with_lock s1 false)) else
      o ← queue_get s1 next_idx;
      match o with
      | None => Panic
      | Some n =>
          nt ← deref s1 n;
          ct' ← deref s1 c;
          if negb (id nt =? id ct') then
            let s2 := put s1 n (set_state nt Running) in
            let s3 := with_current s2 (Some n) in
            prev ← current_ref s3;
            s4 ← context_switch s3 prev n;
            Ret (with_lock s4 false)
          else Ret (with_lock s1 false)
      end
  end.

(** The search for a free slot in [add_task] and [create_task]. *)
Definition free_slot s : outcome (option Z) :=
  fl ← for_range 0 MAX_TASKS (λ i (_ : unit),
    o ← queue_get s i;
    Ret (match o with None => Done i | Some _ => Next () end)) ();
  Ret (match fl with Done i => Some i | Next _ => None end).

Definition enqueue s (i r : Z) : outcome Sched :=
  n ← uadd (task_count s) 1;
  Ret (with_queue s (<[Z.to_nat i := Some r]> (runqueue s)) n).

Definition add_task s (r : Z) : outcome Sched :=
  if MAX_TASKS <=? task_count s then Ret s else
  o ← free_slot s;
  match o with
  | Some i => enqueue s i r
  | None => Ret s
  end.

Definition tick s : outcome Sched :=
  match current s with
  | Some c =>
      t ← deref s c;
      n ← checked 32 (tick_count t + 1);
      let s1 := put s c (set_tick_count t n) in
      if time_slice t <=? n then
        s2 ← modify s1 c (λ t, set_tick_count t 0);
        schedule s2
      else Ret s1
  | None => schedule s
  end.
Definition handle_timer_interrupt s : outcome Sched := tick s.
Definition yield_cpu s : outcome Sched := schedule s.

(** One iteration of [idle_loop]. *)
Definition idle_step s : outcome Sched :=
  if 1 <? task_count s then schedule s else Ret (halt s).

(** [idle_loop] never returns; [fuel] is the number of iterations looked at. *)
Fixpoint idle_loop (fuel : nat) s : outcome Sched :=
  match fuel with O => Diverge | S fuel' => s1 ← idle_step s; idle_loop fuel' s1 end.

Definition init_scheduler s (first_task : Z) : outcome Sched :=
  let s1 := with_current s (Some first_task) in
  s2 ← modify s1 first_task (λ t, set_state t Running);
  add_task s2 first_task.

Definition dequeue s (i : Z) : outcome Sched :=
  n ← usub (task_count s) 1;
  Ret (with_queue s (<[Z.to_nat i := None]> (runqueue s)) n).

Definition remove_current_task s : outcome Sched :=
  match current s with
  | None => Ret s
  | Some c =>
      let s1 := with_current s None in
      t ← deref s1 c;
      r ← scan s1 (by_id (id t));
      match r with
      | Some (i, _, _) => dequeue s1 i
      | None => Ret s1
      end
  end.

Definition get_current_task_id s : outcome Z := read_current s 0 id.
Definition set_task_ready s (task_id : Z) : outcome Sched :=
  modify_task s task_id (λ t, set_state t Ready).
Definition set_task_blocked s (task_id : Z) : outcome Sched :=
  modify_task s task_id (λ t, set_state t Blocked).
Definition mark_task_as_zombie s (task_id : Z) : outcome Sched :=
  modify_task s task_id (λ t, set_state t Zombie).
Definition set_task_quantum s (task_id quantum : Z) : outcome Sched :=
  modify_task s task_id (λ t, set_time_slice t quantum).
Definition set_task_exit_code s (task_id code : Z) : outcome Sched :=
  modify_task s task_id (λ t, set_exit_code t code).
Definition get_task_state s (task_id : Z) : outcome (option TaskState) := read_task s task_id state.
Definition get_task_quantum s (task_id : Z) : outcome (option Z) := read_task s task_id time_slice.
Definition get_task_priority s (task_id : Z) : outcome (option Z) := read_task s task_id priority.
Definition get_task_exit_code s (task_id : Z) : outcome (option Z) := read_task s task_id exit_code.
Definition get_last_schedule_tick s (task_id : Z) : outcome (option Z) :=
  read_task s task_id last_schedule_tick.
Definition get_task_by_id s (task_id : Z) : outcome (option Z) :=
  r ← scan s (by_id task_id); Ret (match r with Some (_, ref, _) => Some ref | None => None end).

Definition preempt_disable s : Sched := with_lock s true.
Definition preempt_enable s : Sched := with_lock s false.
Definition disable_scheduler s : Sched := with_lock s true.
Definition enable_scheduler s : Sched := with_lock s false.
Definition is_preemptible s : bool := negb (sched_lock s).
Definition is_scheduler_enabled s : bool := negb (sched_lock s).

(** A new block is an object of its own: its reference is fresh.  The source stores
    [Some(pcb)] of a local value in an array of [&'static mut]; the model takes the
    block as living from then on, so it says nothing about its lifetime. *)
Definition create_task s (entry stack_top : Z) : outcome (option Z * Sched) :=
  if MAX_TASKS <=? task_count s then Ret (None, s) else
  let task_id := next_task_id s in
  n ← uadd (next_task_id s) 1;
  let s1 := with_next_id s n in
  o ← free_slot s1;
  match o with
  | Some i =>
      let r := fresh (dom (pcbs s1)) in
      s2 ← enqueue (put s1 r (pcb_new task_id entry stack_top)) i r;
      Ret (Some task_id, s2)
  | None => Ret (None, s1)
  end.

Definition get_runqueue_size s : Z := task_count s.
Definition get_total_tasks s : Z := task_count s.
Definition get_task_count s : Z := task_count s.
Definition is_scheduler_locked s : bool := sched_lock s.
Definition get_scheduler_lock_status s : bool := sched_lock s.
Definition get_current_task s : option Z := current s.
Definition get_current_task_mut s : option Z := current s.
Definition get_next_task_id s : Z := next_task_id s.

Definition reschedule_if_needed s : outcome Sched :=
  if sched_lock s then Ret s else
  match current s with
  | Some c =>
      t ← deref s c;
      if negb (in_state Running t) && negb (in_state Idle t) then schedule s else Ret s
  | None => Ret s
  end.

Definition reset_scheduler s : outcome Sched :=
  s1 ← for_each 0 MAX_TASKS (λ i s,
    _ ← queue_get s i;
    Ret (with_queue s (<[Z.to_nat i := None]> (runqueue s)) (task_count s))) s;
  Ret (with_next_id (with_lock (with_queue (with_current s1 None) (runqueue s1) 0) false) 1).

Definition force_context_switch s : outcome Sched :=
  s1 ← match current s with
       | Some c =>
           t ← deref s c;
           Ret (if in_state Running t then put s c (set_state t Ready) else s)
       | None => Ret s
       end;
  schedule s1.

Definition update_current_task_priority s (p : Z) : outcome Sched :=
  modify_current s (λ t, set_priority t p).

(** The scan keeps the best priority so far and the id of its task; id 0 stands
    for "none". *)
Definition get_highest_priority_ready_task s : outcome (option Z) :=
  '(_, target) ← for_each 0 MAX_TASKS (λ i '(highest, target),
    o ← queue_task s i;
    Ret (match o with
         | Some (_, t) =>
             if in_state Ready t && (priority t <? highest) then (priority t, id t)
             else (highest, target)
         | None => (highest, target)
         end)) (255, 0);
  Ret (if negb (target =? 0) then Some target else None).

Definition schedule_with_policy s : outcome Sched :=
  h ← get_highest_priority_ready_task s;
  match h, current s with
  | Some next_id, Some c =>
      ct ← deref s c;
      if negb (id ct =? next_id) then
        r ← scan s (by_id next_id);
        match r with
        | Some (_, n, nt) =>
            let s1 := with_current (put s n (set_state nt Running)) (Some n) in
            prev ← current_ref s1;
            context_switch s1 prev n
        | None => Ret s
        end
      else Ret s
  | _, _ => Ret s
  end.

Definition increment_current_task_time s : outcome Sched :=
  match current s with
  | None => Ret s
  | Some c =>
      t ← deref s c;
      n ← uadd (execution_time t) 1;
      Ret (put s c (set_execution_time t n))
  end.
Definition get_current_execution_time s : outcome Z := read_current s 0 execution_time.

Definition get_idle_task s : outcome (Z * Sched) :=
  match idle_pcb s with
  | Some r => Ret (r, s)
  | None =>
      let r := fresh (dom (pcbs s)) in
      Ret (r, with_idle (put s r (set_state (pcb_new 0 0 0) Idle)) (Some r))
  end.

Definition set_current_task_state s (st : TaskState) : outcome Sched :=
  modify_current s (λ t, set_state t st).
Definition get_current_task_state s : outcome TaskState := read_current s Invalid state.
Definition get_current_task_priority s : outcome Z := read_current s 128 priority.
Definition check_preemption_conditions s : outcome bool :=
  read_current s true (λ t, (time_slice t <=? tick_count t) || negb (in_state Running t)).
Definition get_current_remaining_quantum s : outcome Z :=
  read_current s 0 (λ t, if tick_count t <? time_slice t then time_slice t - tick_count t else 0).

Definition wake_up_tasks s : outcome Sched :=
  for_each 0 MAX_TASKS (λ i s,
    o ← queue_task s i;
    match o with
    | Some (r, t) =>
        if in_state Sleeping t then
          now ← get_current_execution_time s;
          Ret (if wake_time t <=? now then put s r (set_state t Ready) else s)
        else Ret s
    | None => Ret s
    end) s.

Definition sleep_current_task s (duration : Z) : outcome Sched :=
  match current s with
  | None => Ret s
  | Some c =>
      now ← get_current_execution_time s;
      w ← uadd now duration;
      s1 ← modify s c (λ t, set_state (set_wake_time t w) Sleeping);
      schedule s1
  end.

Definition set_global_time_slice s (slice : Z) : outcome Sched :=
  for_each 0 MAX_TASKS (λ i s,
    o ← queue_task s i;
    Ret (match o with Some (r, t) => put s r (set_time_slice t slice) | None => s end)) s.

Definition update_task_statistics s (task_id : Z) : outcome Sched :=
  r ← scan s (by_id task_id);
  match r with
  | Some (_, ref, t) =>
      now ← get_current_execution_time s;
      Ret (put s ref (set_last_schedule_tick t now))
  | None => Ret s
  end.

Definition force_schedule s : outcome Sched := schedule (with_lock s false).

Definition is_task_running s (task_id : Z) : outcome bool :=
  r ← scan s (λ t, by_id task_id t && in_state Running t);
  Ret (match r with Some _ => true | None => false end).
Definition is_any_task_ready s : outcome bool :=
  r ← scan s (in_state Ready); Ret (match r with Some _ => true | None => false end).
Definition get_next_scheduled_task_id s : outcome (option Z) :=
  h ← get_highest_priority_ready_task s;
  match h with
  | Some i => Ret (Some i)
  | None => r ← scan s (in_state Ready); Ret (match r with Some (_, _, t) => Some (id t) | None => None end)
  end.

Definition cleanup_zombie_tasks s : outcome Sched :=
  for_each 0 MAX_TASKS (λ i s,
    o ← queue_task s i;
    match o with
    | Some (_, t) => if in_state Zombie t then dequeue s i else Ret s
    | None => Ret s
    end) s.

End scheduler.
