(* ===== verification/SchedulerSpec.v ===== *)
(** * What the scheduler guarantees: invariant and search lemmas

    The well-formedness of the scheduler's state, the view of the run queue as
    an array of tasks, and the loops of [Scheduler] as searches over that view. *)

From S2P Require Import Prelude Scheduler.
Open Scope Z_scope.

(** ** The run queue as an array of tasks *)

(** The number of occupied slots. *)
Fixpoint occupied (q : list (option Z)) : Z :=
  match q with
  | [] => 0
  | o :: q' => (match o with Some _ => 1 | None => 0 end) + occupied q'
  end.

(** The reference and the task in slot [i]. *)
Definition slot_ref (s : Sched) (i : Z) : option Z := mjoin (runqueue s !! Z.to_nat i).
Definition slot (s : Sched) (i : Z) : option (Z * Task) :=
  r ← slot_ref s i; t ← pcbs s !! r; Some (r, t).

(** No dangling reference, a full-size queue, and a counter that counts. *)
Record wf (s : Sched) : Prop := {
  wf_length : length (runqueue s) = 1024%nat;
  wf_refs : ∀ r, Some r ∈ runqueue s → is_Some (pcbs s !! r);
  wf_current : ∀ c, current s = Some c → is_Some (pcbs s !! c);
  wf_idle : ∀ c, idle_pcb s = Some c → is_Some (pcbs s !! c);
  wf_count : task_count s = occupied (runqueue s)
}.

Lemma occupied_bounds q : 0 ≤ occupied q ≤ Z.of_nat (length q).
Proof. induction q as [|[]]; simpl; lia. Qed.

Lemma occupied_insert q i o o' :
  q !! i = Some o →
  occupied (<[i := o']> q) =
  occupied q - (match o with Some _ => 1 | None => 0 end) + (match o' with Some _ => 1 | None => 0 end).
Proof.
  revert i. induction q as [|x q IH]; intros i Hi; [done|].
  destruct i as [|i]; simpl in *.
  - simplify_eq. lia.
  - rewrite (IH i) by done. lia.
Qed.

Lemma occupied_full q : occupied q = Z.of_nat (length q) → ∀ i o, q !! i = Some o → is_Some o.
Proof.
  induction q as [|x q IH]; [done|]. simpl. intros Ho i o Hi.
  pose proof (occupied_bounds q). destruct x as [r|]; [|lia].
  destruct i as [|i]; simpl in *; [simplify_eq; eauto|]. eapply IH; [lia|done].
Qed.

Lemma occupied_free q : occupied q < Z.of_nat (length q) → ∃ i, q !! i = Some None.
Proof.
  induction q as [|x q IH]; simpl; [lia|]. intros Ho. destruct x as [r|]; [|by exists O].
  destruct IH as [i Hi]; [lia|]. by exists (S i).
Qed.

Section sched.
Implicit Types (s : Sched).

Lemma queue_get_ok s i :
  wf s → 0 ≤ i < 1024 → queue_get s i = Ret (slot_ref s i) ∧
  runqueue s !! Z.to_nat i = Some (slot_ref s i).
Proof.
  intros Hwf Hi. unfold queue_get, slot_ref.
  destruct (lookup_lt_is_Some_2 (runqueue s) (Z.to_nat i)) as [o Ho].
  { rewrite (wf_length s Hwf). lia. }
  by rewrite Ho.
Qed.

Lemma slot_ref_pcb s i r : wf s → slot_ref s i = Some r → is_Some (pcbs s !! r).
Proof.
  unfold slot_ref. intros Hwf Hr. apply (wf_refs s Hwf).
  destruct (runqueue s !! Z.to_nat i) as [o|] eqn:E; [|done]. simpl in Hr. subst o.
  by eapply list_elem_of_lookup_2.
Qed.

Lemma slot_ref_task s i r : wf s → slot_ref s i = Some r → ∃ t, slot s i = Some (r, t) ∧ pcbs s !! r = Some t.
Proof.
  intros Hwf Hr. destruct (slot_ref_pcb s i r Hwf Hr) as [t Ht].
  exists t. unfold slot. rewrite Hr. simpl. by rewrite Ht.
Qed.

Lemma slot_Some s i r t : slot s i = Some (r, t) → slot_ref s i = Some r ∧ pcbs s !! r = Some t.
Proof.
  unfold slot. destruct (slot_ref s i) as [r'|]; [simpl|done].
  destruct (pcbs s !! r') as [t'|] eqn:E; [simpl|done]. intros [= -> ->]. done.
Qed.

Lemma queue_task_ok s i : wf s → 0 ≤ i < 1024 → queue_task s i = Ret (slot s i).
Proof.
  intros Hwf Hi. unfold queue_task. destruct (queue_get_ok s i Hwf Hi) as [-> _]. simpl.
  destruct (slot_ref s i) as [r|] eqn:Hr.
  - destruct (slot_ref_task s i r Hwf Hr) as (t & -> & Ht). unfold deref. by rewrite Ht.
  - unfold slot. by rewrite Hr.
Qed.

(** What a search sees at slot [i]. *)
Definition hit s (p : Task → bool) (i : Z) : option (Z * Z * Task) :=
  '(r, t) ← slot s i; if p t then Some (i, r, t) else None.

Lemma hit_Some s p i i' r t :
  hit s p i = Some (i', r, t) → i' = i ∧ slot s i = Some (r, t) ∧ p t = true.
Proof.
  unfold hit. destruct (slot s i) as [[r' t']|]; [simpl|done].
  destruct (p t') eqn:E; [|done]. intros [= -> -> ->]. done.
Qed.

Lemma scan_ok s p : wf s → returns (scan s p) (found (hit s p) 0 1024).
Proof.
  intros Hwf. unfold scan. apply returns_bind. eapply returns_mono.
  { apply (for_range_find (hit s p)); [unfold MAX_TASKS; lia|].
    unfold MAX_TASKS. intros i Hi. rewrite queue_task_ok by done. simpl. unfold hit.
    destruct (slot s i) as [[r t]|]; [simpl|done]. by destruct (p t). }
  by intros [[]|x].
Qed.

(** The slot a search stopped at. *)
Lemma found_hit s p i r t :
  found (hit s p) 0 1024 (Some (i, r, t)) →
  0 ≤ i < 1024 ∧ slot s i = Some (r, t) ∧ p t = true ∧
  ∀ j r' t', 0 ≤ j < i → slot s j = Some (r', t') → p t' = false.
Proof.
  intros (k & Hk & Hh & Hb). apply hit_Some in Hh as (-> & Hs & Hp). split_and!; [lia|lia|done..|].
  intros j r' t' Hj Hs'. specialize (Hb j Hj). unfold hit in Hb. rewrite Hs' in Hb. simpl in Hb.
  by destruct (p t').
Qed.

Lemma found_miss s p :
  found (hit s p) 0 1024 None → ∀ j r t, 0 ≤ j < 1024 → slot s j = Some (r, t) → p t = false.
Proof.
  intros Hn j r t Hj Hs. specialize (Hn j Hj). unfold hit in Hn. rewrite Hs in Hn. simpl in Hn.
  by destruct (p t).
Qed.

(** ** Updates that keep the state well-formed *)

Lemma pcbs_put_is_Some s r t r' :
  is_Some (pcbs s !! r') → is_Some (pcbs (put s r t) !! r').
Proof. intros H. simpl. rewrite lookup_insert. case_decide; [eauto|done]. Qed.

Lemma put_wf s r t : wf s → wf (put s r t).
Proof.
  intros [Hl Hr Hc Hi Hn]. split; simpl; [done| | | |done].
  - intros r' Hr'. by apply pcbs_put_is_Some, Hr.
  - intros c Hc'. by apply pcbs_put_is_Some, Hc.
  - intros c Hc'. by apply pcbs_put_is_Some, Hi.
Qed.

Lemma with_lock_wf s b : wf s → wf (with_lock s b).
Proof. by intros [????]. Qed.
Lemma with_rsp_wf s v : wf s → wf (with_rsp s v).
Proof. by intros [????]. Qed.
Lemma with_next_id_wf s v : wf s → wf (with_next_id s v).
Proof. by intros [????]. Qed.
Lemma halt_wf s : wf s → wf (halt s).
Proof. by intros [????]. Qed.

Lemma with_current_wf s c :
  wf s → (∀ r, c = Some r → is_Some (pcbs s !! r)) → wf (with_current s c).
Proof. by intros [????] ?. Qed.

Lemma slot_put_ref s r t i : slot_ref (put s r t) i = slot_ref s i.
Proof. done. Qed.

Lemma deref_eq s r t : pcbs s !! r = Some t → deref s r = Ret t.
Proof. unfold deref. by intros ->. Qed.

Lemma deref_ok s r (P : Task → Prop) :
  is_Some (pcbs s !! r) → (∀ t, pcbs s !! r = Some t → P t) → returns (deref s r) P.
Proof. unfold deref. intros [t ->] HP. by apply HP. Qed.

Lemma modify_wf s r f : wf s → is_Some (pcbs s !! r) → returns (modify s r f) wf.
Proof.
  intros Hwf Hr. unfold modify. apply returns_bind. apply deref_ok; [done|].
  intros t Ht. simpl. by apply put_wf.
Qed.

Lemma modify_task_wf s i f : wf s → returns (modify_task s i f) wf.
Proof.
  intros Hwf. unfold modify_task. apply returns_bind. eapply returns_mono; [by apply scan_ok|].
  intros [[[j r] t]|] _; simpl; [by apply put_wf|done].
Qed.

Lemma modify_current_wf s f : wf s → returns (modify_current s f) wf.
Proof.
  intros Hwf. unfold modify_current. destruct (current s) as [c|] eqn:E; [|done].
  apply modify_wf; [done|]. by apply (wf_current s Hwf).
Qed.

Lemma read_current_ok {A} s (d : A) f : wf s → returns (read_current s d f) (λ _, True).
Proof.
  intros Hwf. unfold read_current. destruct (current s) as [c|] eqn:E; [|done].
  destruct (wf_current s Hwf c E) as [t Ht]. unfold deref. by rewrite Ht.
Qed.

Lemma free_slot_ok s :
  wf s → returns (free_slot s) (found (λ i, match slot_ref s i with None => Some i | _ => None end) 0 1024).
Proof.
  intros Hwf. unfold free_slot. apply returns_bind. eapply returns_mono.
  { apply (for_range_find (λ i, match slot_ref s i with None => Some i | _ => None end));
      [unfold MAX_TASKS; lia|].
    unfold MAX_TASKS. intros i Hi. destruct (queue_get_ok s i Hwf Hi) as [-> _]. simpl.
    by destruct (slot_ref s i). }
  by intros [[]|x].
Qed.

Lemma free_slot_found s r :
  wf s → found (λ i, match slot_ref s i with None => Some i | _ => None end) 0 1024 r →
  match r with
  | Some i => 0 ≤ i < 1024 ∧ runqueue s !! Z.to_nat i = Some None ∧
              ∀ j, 0 ≤ j < i → is_Some (slot_ref s j)
  | None => task_count s = 1024
  end.
Proof.
  intros Hwf. destruct r as [i|]; simpl.
  - intros (k & Hk & Hg & Hb). destruct (slot_ref s k) eqn:E; [done|]. simplify_eq.
    destruct (queue_get_ok s i Hwf Hk) as [_ Hq]. split_and!; [lia|lia|congruence|].
    intros j Hj. specialize (Hb j Hj). destruct (slot_ref s j); [by eauto|done].
  - intros Hall. rewrite (wf_count s Hwf). pose proof (wf_length s Hwf) as Hl.
    pose proof (occupied_bounds (runqueue s)) as Hb. rewrite Hl in Hb.
    destruct (decide (occupied (runqueue s) = 1024)) as [|Hne]; [done|].
    destruct (occupied_free (runqueue s)) as [i Hi]; [lia|].
    assert (i < 1024)%nat by (apply lookup_lt_Some in Hi; lia).
    specialize (Hall (Z.of_nat i) ltac:(lia)). unfold slot_ref in Hall.
    by rewrite Nat2Z.id, Hi in Hall.
Qed.

Section counted.
Context {prof : Profile}.

Lemma enqueue_ok s i r :
  wf s → is_Some (pcbs s !! r) → 0 ≤ i < 1024 → runqueue s !! Z.to_nat i = Some None →
  returns (enqueue s i r) (λ s',
    s' = with_queue s (<[Z.to_nat i := Some r]> (runqueue s)) (task_count s + 1) ∧ wf s').
Proof.
  intros Hwf Hr Hi Hq. unfold enqueue.
  pose proof (occupied_bounds (runqueue s)) as Hb. rewrite (wf_length s Hwf) in Hb.
  pose proof (wf_count s Hwf) as Hc. step1. step1; [unfold in_u; lia|]. simpl. split; [done|].
  destruct Hwf as [Hl Hrefs Hcur Hidle Hn]. split; simpl; [by rewrite length_insert| |done|done|].
  - intros r' Hr'. apply list_elem_of_lookup_1 in Hr' as [j Hj].
    apply list_lookup_insert_Some in Hj as [(_&[= <-]&_)|[_ Hj]]; [done|].
    apply Hrefs. by eapply list_elem_of_lookup_2.
  - rewrite (occupied_insert _ _ None) by done. lia.
Qed.

Lemma dequeue_ok s i r :
  wf s → 0 ≤ i < 1024 → slot_ref s i = Some r →
  returns (dequeue s i) (λ s',
    s' = with_queue s (<[Z.to_nat i := None]> (runqueue s)) (task_count s - 1) ∧ wf s').
Proof.
  intros Hwf Hi Hr. unfold dequeue. destruct (queue_get_ok s i Hwf Hi) as [_ Hq]. rewrite Hr in Hq.
  pose proof (occupied_insert _ _ _ None Hq) as Hins. simpl in Hins.
  pose proof (occupied_bounds (runqueue s)) as Hb. rewrite (wf_length s Hwf) in Hb.
  pose proof (occupied_bounds (<[Z.to_nat i:=None]> (runqueue s))) as Hb'.
  pose proof (wf_count s Hwf) as Hc. step1. step1; [unfold in_u; lia|]. simpl. split; [done|].
  destruct Hwf as [Hl Hrefs Hcur Hidle Hn]. split; simpl; [by rewrite length_insert| |done|done|lia].
  intros r' Hr'. apply list_elem_of_lookup_1 in Hr' as [j Hj].
  apply list_lookup_insert_Some in Hj as [(_&[=]&_)|[_ Hj]].
  apply Hrefs. by eapply list_elem_of_lookup_2.
Qed.

End counted.

(** ** The search for the next task *)

(** Slot [i] holds a ready task. *)
Definition ready_at s (i : Z) : bool :=
  match slot s i with Some (_, t) => in_state Ready t | None => false end.

(** [r] is the first ready slot in cyclic order from [start], or [-1]. *)
Definition cyclic_first s (start r : Z) : Prop :=
  (r = -1 ∧ ∀ i, 0 ≤ i < 1024 → ready_at s i = false) ∨
  (∃ k, 0 ≤ k < 1024 ∧ r = (start + k) mod 1024 ∧ ready_at s r = true ∧
        ∀ j, 0 ≤ j < k → ready_at s ((start + j) mod 1024) = false).

Lemma find_next_task_ok s c t :
  wf s → current s = Some c → pcbs s !! c = Some t →
  returns (find_next_task s) (cyclic_first s (id t mod 1024 + 1)).
Proof.
  intros Hwf Hc Ht. unfold find_next_task. rewrite Hc. unfold deref. rewrite Ht. cbn [mbind outcome_bind].
  set (start := id t mod MAX_TASKS + 1).
  change (id t mod 1024 + 1) with start. clearbody start.
  set (g := λ i : Z, if ready_at s ((start + i) mod 1024) then Some ((start + i) mod 1024) else None).
  apply returns_bind. eapply returns_mono.
  { apply (for_range_find g); [unfold MAX_TASKS; lia|].
    unfold MAX_TASKS. intros i Hi. cbv zeta.
    rewrite queue_task_ok by (done || apply Z.mod_pos_bound; lia). simpl. unfold g, ready_at.
    destruct (slot s _) as [[r' t']|]; [|done]. by destruct (in_state Ready t'). }
  unfold MAX_TASKS. intros [[]|x]; simpl.
  - intros Hn. left. split; [done|]. intros i Hi.
    specialize (Hn ((i - start) mod 1024) ltac:(apply Z.mod_pos_bound; lia)). unfold g in Hn.
    rewrite Z.add_mod_idemp_r in Hn by lia. replace (start + (i - start)) with i in Hn by lia.
    rewrite Z.mod_small in Hn by lia. by destruct (ready_at s i).
  - intros (k & Hk & Hg & Hb). right. exists k. unfold g in *.
    destruct (ready_at s ((start + k) mod 1024)) eqn:E; [|done]. simplify_eq.
    split_and!; [lia|lia|done|done|]. intros j Hj. specialize (Hb j Hj).
    by destruct (ready_at s ((start + j) mod 1024)).
Qed.

End sched.
