(* ===== verification/SchedulerTheorems.v ===== *)
(** * Correctness of the scheduler

    The behaviour of [schedule] on every branch, the invariant over every
    sequence of scheduler calls, and what the slot arithmetic and the aliasing
    of [CURRENT_TASK] do to fairness and to the context switch. *)

From S2P Require Import Prelude Scheduler SchedulerSpec.
Open Scope Z_scope.

(** The calls that keep the state well-formed, for the proof over all calls. *)
Create HintDb sched_safe.

Section sched_theorems.
Context {prof : Profile}.
Implicit Types (s : Sched).

(** ** [schedule] *)

(** The state in which the next task is searched: the lock taken and a running
    current task made ready. *)
Definition demoted s (c : Z) (ct : Task) : Sched :=
  let s0 := with_lock s true in
  if in_state Running ct then put s0 c (set_state ct Ready) else s0.

Lemma demoted_wf s c ct : wf s → wf (demoted s c ct).
Proof.
  intros Hwf. unfold demoted. destruct (in_state Running ct); [apply put_wf|]; by apply with_lock_wf.
Qed.

Lemma demoted_current s c ct :
  pcbs s !! c = Some ct →
  ∃ ct', pcbs (demoted s c ct) !! c = Some ct' ∧ id ct' = id ct.
Proof.
  intros Hc. unfold demoted. destruct (in_state Running ct); simpl.
  - rewrite lookup_insert_eq. by eexists.
  - by eexists.
Qed.

(** What the branches of [schedule] leave behind. *)
Definition after_schedule s (c : Z) (ct : Task) s' : Prop :=
  let s1 := demoted s c ct in
  wf s' ∧ sched_lock s' = false ∧ runqueue s' = runqueue s ∧ task_count s' = task_count s ∧
  ∃ r, cyclic_first s1 (id ct mod 1024 + 1) r ∧
    if r =? -1 then pcbs s' = pcbs s1 ∧ current s' = Some c ∧ halts s' = S (halts s) ∧ rsp s' = rsp s
    else ∃ n nt, slot s1 r = Some (n, nt) ∧ halts s' = halts s ∧
      if id nt =? id ct then pcbs s' = pcbs s1 ∧ current s' = Some c ∧ rsp s' = rsp s
      else current s' = Some n ∧
           pcbs s' = <[n := set_regs (set_state nt Running) (wrap 64 (rsp s - 112))]> (pcbs s1) ∧
           rsp s' = wrap 64 (wrap 64 (rsp s - 112) + 112).

Lemma schedule_ok s c ct :
  wf s → sched_lock s = false → current s = Some c → pcbs s !! c = Some ct →
  returns (schedule s) (after_schedule s c ct).
Proof.
  intros Hwf Hlock Hc Hct. unfold schedule. rewrite Hlock. cbv zeta. simpl current. rewrite Hc.
  rewrite (deref_eq _ c ct) by done. cbn [mbind outcome_bind]. fold (demoted s c ct).
  pose proof (demoted_wf s c ct Hwf) as Hwf1.
  destruct (demoted_current s c ct Hct) as (ct' & Hct' & Hid).
  assert (current (demoted s c ct) = Some c) as Hc1
    by (unfold demoted; by destruct (in_state Running ct)).
  assert (runqueue (demoted s c ct) = runqueue s ∧ task_count (demoted s c ct) = task_count s ∧
    halts (demoted s c ct) = halts s ∧ rsp (demoted s c ct) = rsp s) as (Hq & Htc & Hh & Hrsp)
    by (unfold demoted; by destruct (in_state Running ct)).
  unfold after_schedule. set (s1 := demoted s c ct) in *. clearbody s1.
  apply returns_bind. eapply returns_mono; [by eapply find_next_task_ok|].
  rewrite Hid. intros r Hr. destruct (r =? -1) eqn:Hm.
  { simpl. split_and!; [by apply halt_wf, with_lock_wf|done..|].
    exists r. split; [done|]. rewrite Hm. split_and!; [done|done|by rewrite Hh|done]. }
  assert (0 ≤ r < 1024 ∧ ready_at s1 r = true) as [Hr1 Hr2].
  { destruct Hr as [[-> _]|(k & Hk & -> & ? & _)]; [done|]. split; [apply Z.mod_pos_bound; lia|done]. }
  destruct (queue_get_ok s1 r Hwf1 Hr1) as [-> _].
  unfold ready_at in Hr2. destruct (slot s1 r) as [[n nt]|] eqn:Hs; [|done].
  apply slot_Some in Hs as Hs'. destruct Hs' as [Href Hn]. rewrite Href. cbn [mbind outcome_bind].
  rewrite (deref_eq _ n nt) by done. cbn [mbind outcome_bind].
  rewrite (deref_eq _ c ct') by done. cbn [mbind outcome_bind]. rewrite Hid.
  destruct (id nt =? id ct) eqn:Heq; cbn [negb].
  { simpl. split_and!; [by apply with_lock_wf|done..|].
    exists r. split; [done|]. rewrite Hm. exists n, nt. rewrite Heq. by split_and!. }
  unfold current_ref, context_switch, modify, deref. simpl. rewrite !lookup_insert_eq. simpl.
  rewrite !lookup_insert_eq. simpl. split_and!; [|done..|].
  - apply with_lock_wf, with_rsp_wf. apply put_wf. apply with_current_wf; [by apply put_wf|].
    intros r' [= <-]. simpl. rewrite lookup_insert_eq. eauto.
  - exists r. split; [done|]. rewrite Hm. exists n, nt. rewrite Heq, Hrsp, insert_insert_eq.
    by split_and!.
Qed.

Lemma schedule_safe s : wf s → safely (schedule s) wf.
Proof.
  intros Hwf. destruct (sched_lock s) eqn:Hl; [unfold schedule; by rewrite Hl|].
  destruct (current s) as [c|] eqn:Hc.
  - destruct (wf_current s Hwf c Hc) as [ct Hct].
    apply returns_safely. eapply returns_mono; [by apply (schedule_ok s c ct)|]. by intros s' [? _].
  - unfold schedule. rewrite Hl. simpl. by rewrite Hc.
Qed.

(** ** Every other call keeps the state well-formed *)

Lemma add_task_ok s r :
  wf s → is_Some (pcbs s !! r) → returns (add_task s r) wf.
Proof.
  intros Hwf Hr. unfold add_task. destruct (MAX_TASKS <=? task_count s); [done|].
  apply returns_bind. eapply returns_mono; [by apply free_slot_ok|].
  intros o Ho. apply free_slot_found in Ho; [|done]. destruct o as [i|]; [|done].
  destruct Ho as (Hi & Hq & _). eapply returns_mono; [by apply enqueue_ok|]. by intros s' [_ ?].
Qed.

Lemma remove_current_ok s :
  wf s → returns (remove_current_task s) (λ s', wf s' ∧ current s' = None ∧ sched_lock s' = sched_lock s).
Proof.
  intros Hwf. unfold remove_current_task. destruct (current s) as [c|] eqn:Hc; [|done].
  destruct (wf_current s Hwf c Hc) as [t Ht].
  assert (wf (with_current s None)) as Hwf1 by (by apply with_current_wf).
  rewrite (deref_eq _ c t) by done. cbn [mbind outcome_bind].
  apply returns_bind. eapply returns_mono; [by apply scan_ok|].
  intros [[[i r] t']|] Hf; [|done]. apply found_hit in Hf as (Hi & Hs & _ & _).
  apply slot_Some in Hs as [Hs _].
  eapply returns_mono; [by eapply dequeue_ok|]. by intros s' [-> ?].
Qed.

Lemma fresh_pcb s : pcbs s !! fresh (dom (pcbs s)) = None.
Proof. apply not_elem_of_dom, is_fresh. Qed.

Lemma create_task_ok new s e st :
  wf s → in_u 64 (next_task_id s + 1) →
  returns (create_task new s e st) (λ '(r, s'),
    wf s' ∧
    match r with
    | None => task_count s = 1024 ∧ s' = s
    | Some i => i = next_task_id s ∧ next_task_id s' = next_task_id s + 1 ∧
        task_count s' = task_count s + 1 ∧
        ∃ k ref, 0 ≤ k < 1024 ∧ slot_ref s k = None ∧ (∀ j, 0 ≤ j < k → is_Some (slot_ref s j)) ∧
          pcbs s !! ref = None ∧ pcbs s' = <[ref := new i e st]> (pcbs s) ∧
          runqueue s' = <[Z.to_nat k := Some ref]> (runqueue s)
    end).
Proof.
  intros Hwf Hid. unfold create_task.
  pose proof (occupied_bounds (runqueue s)) as Hb. rewrite (wf_length s Hwf) in Hb.
  pose proof (wf_count s Hwf) as Hc. unfold MAX_TASKS.
  destruct (Z.leb_spec 1024 (task_count s)); [simpl; split; [done|]; split; [lia|done]|].
  step1. step1; [done|]. assert (wf (with_next_id s (next_task_id s + 1))) as Hwf1 by by apply with_next_id_wf.
  apply returns_bind. eapply returns_mono; [by apply free_slot_ok|].
  intros o Ho. apply free_slot_found in Ho; [|done]. destruct o as [i|]; simpl in Ho; [|lia].
  destruct Ho as (Hi & Hq & Hbelow). set (ref := fresh _).
  assert (pcbs s !! ref = None) as Hf by exact (fresh_pcb s).
  apply returns_bind. eapply returns_mono.
  { apply enqueue_ok; [by apply put_wf|simpl; rewrite lookup_insert_eq; eauto|done|done]. }
  intros s' [-> Hwf']. simpl. split; [done|]. split_and!; [done..|].
  exists i, ref. split_and!; [lia|lia| |done..]. unfold slot_ref. by rewrite Hq.
Qed.

Lemma cleanup_ok s : wf s → returns (cleanup_zombie_tasks s) wf.
Proof.
  intros Hwf. unfold cleanup_zombie_tasks. apply (for_each_inv (λ _, wf)); [done..|].
  unfold MAX_TASKS. intros i s1 Hi Hwf1. rewrite queue_task_ok by done. simpl.
  destruct (slot s1 i) as [[r t]|] eqn:Hs; [|done]. destruct (in_state Zombie t); [|done].
  apply slot_Some in Hs as [Hs _].
  eapply returns_mono; [by eapply dequeue_ok|]. by intros s' [_ ?].
Qed.

(** It empties exactly the slots of the tasks in state [Zombie]. *)
Definition without_zombie (o : option (Z * Task)) : option (Z * Task) :=
  match o with Some (r, t) => if in_state Zombie t then None else Some (r, t) | None => None end.

Lemma slot_emptied s i n j :
  wf s → 0 ≤ i < 1024 → 0 ≤ j →
  slot (with_queue s (<[Z.to_nat i := None]> (runqueue s)) n) j = if decide (j = i) then None else slot s j.
Proof.
  intros Hwf Hi Hj. unfold slot, slot_ref. simpl. case_decide as E.
  - subst j. by rewrite list_lookup_insert_eq by (rewrite (wf_length s Hwf); lia).
  - by rewrite list_lookup_insert_ne by lia.
Qed.

Lemma cleanup_exact s :
  wf s → returns (cleanup_zombie_tasks s) (λ s', wf s' ∧ ∀ j, 0 ≤ j < 1024 → slot s' j = without_zombie (slot s j)).
Proof.
  intros Hwf. unfold cleanup_zombie_tasks. eapply returns_mono.
  { apply (for_each_inv (λ i s', wf s' ∧ ∀ j, 0 ≤ j < 1024 →
      slot s' j = if decide (j < i) then without_zombie (slot s j) else slot s j)); [done| |].
    - split; [done|]. intros j Hj. by rewrite decide_False by lia.
    - unfold MAX_TASKS. intros i s1 Hi [Hwf1 Hs1]. rewrite queue_task_ok by done. cbn [mbind outcome_bind].
      pose proof (Hs1 i Hi) as Hsi. rewrite decide_False in Hsi by lia.
      assert (∀ s2, wf s2 → slot s2 i = without_zombie (slot s i) → (∀ j, 0 ≤ j < 1024 → j ≠ i → slot s2 j = slot s1 j) →
        wf s2 ∧ ∀ j, 0 ≤ j < 1024 → slot s2 j = if decide (j < i + 1) then without_zombie (slot s j) else slot s j) as Hnext.
      { intros s2 Hwf2 Hi2 Hj2. split; [done|]. intros j Hj. destruct (decide (j = i)) as [->|Hne].
        - by rewrite decide_True by lia.
        - rewrite Hj2, Hs1 by done. repeat case_decide; done || lia. }
      rewrite Hsi. destruct (slot s i) as [[r t]|] eqn:Hs; [|by apply Hnext]. simpl in Hnext.
      destruct (in_state Zombie t); [|by apply Hnext]. pose proof Hsi as [Href _]%slot_Some.
      eapply returns_mono; [by eapply dequeue_ok|]. intros s2 [-> Hwf2]. apply Hnext; [done|..].
      + by rewrite slot_emptied, decide_True by (done || lia).
      + intros j Hj Hne. by rewrite slot_emptied, decide_False by (done || lia). }
  intros s' [Hwf' Hs']. split; [done|]. intros j Hj. rewrite Hs', decide_True by (unfold MAX_TASKS; lia). done.
Qed.

Lemma wake_up_ok s : wf s → returns (wake_up_tasks s) wf.
Proof.
  intros Hwf. unfold wake_up_tasks. apply (for_each_inv (λ _, wf)); [done..|].
  unfold MAX_TASKS. intros i s1 Hi Hwf1. rewrite queue_task_ok by done. simpl.
  destruct (slot s1 i) as [[r t]|] eqn:Hs; [|done]. destruct (in_state Sleeping t); [|done].
  apply returns_bind. eapply returns_mono; [by apply read_current_ok|].
  intros now _. simpl. destruct (wake_time t <=? now); [by apply put_wf|done].
Qed.

Lemma set_global_time_slice_ok s v : wf s → returns (set_global_time_slice s v) wf.
Proof.
  intros Hwf. unfold set_global_time_slice. apply (for_each_inv (λ _, wf)); [done..|].
  unfold MAX_TASKS. intros i s1 Hi Hwf1. rewrite queue_task_ok by done. simpl.
  destruct (slot s1 i) as [[r t]|]; [by apply put_wf|done].
Qed.

Lemma reset_ok s : wf s → returns (reset_scheduler s) (λ s', wf s' ∧ task_count s' = 0 ∧ current s' = None).
Proof.
  intros Hwf. unfold reset_scheduler. apply returns_bind. eapply returns_mono.
  { apply (for_each_inv (λ i s', pcbs s' = pcbs s ∧ idle_pcb s' = idle_pcb s ∧ length (runqueue s') = 1024%nat ∧
      ∀ j, (j < Z.to_nat i)%nat → runqueue s' !! j = Some None)).
    - done.
    - split_and!; [done|done|by apply wf_length|]. intros j Hj. simpl in Hj. lia.
    - unfold MAX_TASKS. intros i s1 Hi (Hp & Hid & Hl & Hn).
      destruct (lookup_lt_is_Some_2 (runqueue s1) (Z.to_nat i)) as [o Ho]; [lia|].
      unfold queue_get. rewrite Ho. simpl. rewrite length_insert. split_and!; [done..|].
      intros j Hj. destruct (decide (j = Z.to_nat i)) as [->|].
      + apply list_lookup_insert_eq. by eapply lookup_lt_Some.
      + rewrite list_lookup_insert_ne by done. apply Hn. lia. }
  intros s1 (Hp & Hid & Hl & Hn). simpl. split_and!; [|done..].
  assert (runqueue s1 = replicate 1024 None) as Hq.
  { apply list_eq. intros j. destruct (decide (j < 1024)%nat).
    - rewrite Hn by (unfold MAX_TASKS; lia). symmetry. by apply lookup_replicate_2.
    - rewrite !lookup_ge_None_2; [done|rewrite length_replicate; lia|lia]. }
  split; simpl.
  - done.
  - rewrite Hq. intros r Hr. by apply elem_of_replicate in Hr as [? _].
  - done.
  - rewrite Hp, Hid. apply (wf_idle s Hwf).
  - by rewrite Hq.
Qed.

Lemma tick_safe s : wf s → safely (tick s) wf.
Proof.
  intros Hwf. unfold tick. destruct (current s) as [c|] eqn:Hc; [|by apply schedule_safe].
  destruct (wf_current s Hwf c Hc) as [t Ht]. unfold deref. rewrite Ht. cbn [mbind outcome_bind].
  apply safely_bind, safely_checked; [done|]. intros n Hn.
  destruct (time_slice t <=? n); [|simpl; by apply put_wf].
  apply safely_bind, returns_safely. eapply returns_mono; [apply modify_wf; [by apply put_wf|]|].
  { simpl. rewrite lookup_insert_eq. eauto. }
  intros s'. apply schedule_safe.
Qed.

Lemma sleep_safe s d : wf s → safely (sleep_current_task s d) wf.
Proof.
  intros Hwf. unfold sleep_current_task. destruct (current s) as [c|] eqn:Hc; [|done].
  apply safely_bind, returns_safely. eapply returns_mono; [by apply read_current_ok|].
  intros now _. apply safely_bind, safely_checked; [done|]. intros w Hw.
  apply safely_bind, returns_safely.
  eapply returns_mono; [apply modify_wf; [done|by apply (wf_current s Hwf)]|]. apply schedule_safe.
Qed.

Lemma highest_returns s : wf s → returns (get_highest_priority_ready_task s) (λ _, True).
Proof.
  intros Hwf. unfold get_highest_priority_ready_task. apply returns_bind. eapply returns_mono.
  { apply (for_each_inv (λ _ _, True)); [done..|]. unfold MAX_TASKS. intros i [h x] Hi _.
    by rewrite queue_task_ok by done. }
  by intros [h x] _.
Qed.

(** The policy switch: the task of the given id becomes current and running. *)
Lemma policy_ok s c ct :
  wf s → current s = Some c → pcbs s !! c = Some ct →
  returns (schedule_with_policy s) (λ s', wf s' ∧
    (s' = s ∨ ∃ n nt, id nt ≠ id ct ∧ pcbs s !! n = Some nt ∧ current s' = Some n ∧
       pcbs s' = <[n := set_regs (set_state nt Running) (wrap 64 (rsp s - 112))]> (pcbs s))).
Proof.
  intros Hwf Hc Hct. unfold schedule_with_policy. apply returns_bind.
  eapply returns_mono; [by apply highest_returns|]. intros [x|] _; [|by split; [|left]].
  rewrite Hc. unfold deref at 1. rewrite Hct. cbn [mbind outcome_bind].
  destruct (Z.eqb_spec (id ct) x) as [|Hne]; [by split; [|left]|]. cbn [negb].
  apply returns_bind. eapply returns_mono; [by apply scan_ok|].
  intros [[[i n] nt]|] Hf; [|by split; [|left]].
  apply found_hit in Hf as (Hi & Hs & Hid & _). apply slot_Some in Hs as [_ Hn].
  unfold by_id in Hid. apply Z.eqb_eq in Hid.
  unfold current_ref, context_switch, modify, deref. simpl. rewrite !lookup_insert_eq. simpl.
  rewrite !lookup_insert_eq. simpl. split.
  - apply with_rsp_wf. apply put_wf. apply with_current_wf; [by apply put_wf|].
    intros r' [= <-]. simpl. rewrite lookup_insert_eq. eauto.
  - right. exists n, nt. rewrite insert_insert_eq. split_and!; [congruence|done..].
Qed.

Lemma policy_safe s : wf s → safely (schedule_with_policy s) wf.
Proof.
  intros Hwf. apply returns_safely. destruct (current s) as [c|] eqn:Hc.
  - destruct (wf_current s Hwf c Hc) as [ct Hct].
    eapply returns_mono; [by eapply policy_ok|]. by intros s' [? _].
  - unfold schedule_with_policy. apply returns_bind. eapply returns_mono; [by apply highest_returns|].
    intros [x|] _; [|done]. by rewrite Hc.
Qed.

(** ** Sequences of scheduler calls *)

(** The calls that change the scheduler's state. *)
Inductive op :=
| OpSchedule | OpTick | OpForceSchedule | OpForceSwitch | OpPolicy | OpReschedule
| OpAdd (r : Z) | OpInit (r : Z) | OpRemove | OpCreate (entry stack : Z) | OpIdle
| OpReady (i : Z) | OpBlock (i : Z) | OpKill (i : Z) | OpQuantum (i q : Z) | OpExit (i c : Z)
| OpState (st : TaskState) | OpPriority (p : Z) | OpCpuTime | OpSleep (d : Z) | OpWake
| OpSlice (v : Z) | OpStats (i : Z) | OpCleanup | OpReset | OpLock (b : bool).

Definition run_op (new : Z → Z → Z → Task) s (o : op) : outcome Sched :=
  match o with
  | OpSchedule => schedule s
  | OpTick => tick s
  | OpForceSchedule => force_schedule s
  | OpForceSwitch => force_context_switch s
  | OpPolicy => schedule_with_policy s
  | OpReschedule => reschedule_if_needed s
  | OpAdd r => add_task s r
  | OpInit r => init_scheduler s r
  | OpRemove => remove_current_task s
  | OpCreate e st => snd <$> create_task new s e st
  | OpIdle => snd <$> get_idle_task new s
  | OpReady i => set_task_ready s i
  | OpBlock i => set_task_blocked s i
  | OpKill i => mark_task_as_zombie s i
  | OpQuantum i q => set_task_quantum s i q
  | OpExit i c => set_task_exit_code s i c
  | OpState st => set_current_task_state s st
  | OpPriority p => update_current_task_priority s p
  | OpCpuTime => increment_current_task_time s
  | OpSleep d => sleep_current_task s d
  | OpWake => wake_up_tasks s
  | OpSlice v => set_global_time_slice s v
  | OpStats i => update_task_statistics s i
  | OpCleanup => cleanup_zombie_tasks s
  | OpReset => reset_scheduler s
  | OpLock b => Ret (if b then preempt_disable s else preempt_enable s)
  end.

(** A caller hands in references to live control blocks only. *)
Definition op_ok s (o : op) : Prop :=
  match o with OpAdd r | OpInit r => is_Some (pcbs s !! r) | _ => True end.

Inductive reachable (new : Z → Z → Z → Task) (s0 : Sched) : Sched → Prop :=
| reach_init : reachable new s0 s0
| reach_step s o s' :
    reachable new s0 s → op_ok s o → run_op new s o = Ret s' → reachable new s0 s'.

Lemma create_task_safe new s e st : wf s → safely (create_task new s e st) (λ '(_, s'), wf s').
Proof.
  intros Hwf. unfold create_task. destruct (MAX_TASKS <=? task_count s); [done|].
  apply safely_bind, safely_checked; [done|]. intros n _.
  assert (wf (with_next_id s n)) as Hwf1 by by apply with_next_id_wf.
  apply safely_bind, returns_safely. eapply returns_mono; [by apply free_slot_ok|].
  intros o Ho. apply free_slot_found in Ho; [|done]. destruct o as [i|]; [|done].
  destruct Ho as (Hi & Hq & _). apply returns_safely, returns_bind. eapply returns_mono.
  { apply enqueue_ok; [by apply put_wf|simpl; rewrite lookup_insert_eq; eauto|done|done]. }
  by intros s' [_ ?].
Qed.

Lemma init_scheduler_safe s r : wf s → is_Some (pcbs s !! r) → safely (init_scheduler s r) wf.
Proof.
  intros Hwf Hr. unfold init_scheduler, modify. destruct Hr as [t Ht].
  rewrite (deref_eq _ r t) by done. simpl. apply returns_safely, add_task_ok.
  - apply put_wf, with_current_wf; [done|]. intros r' [= <-]. eauto.
  - simpl. rewrite lookup_insert_eq. eauto.
Qed.

Lemma idle_safe new s : wf s → safely (get_idle_task new s) (λ '(_, s'), wf s').
Proof.
  intros Hwf. unfold get_idle_task. destruct (idle_pcb s) as [r|]; [done|]. simpl.
  pose proof (put_wf s (fresh (dom (pcbs s))) (set_state (new 0 0 0) Idle) Hwf) as [????].
  split; try done. intros c [= <-]. simpl. rewrite lookup_insert_eq. eauto.
Qed.

Lemma force_switch_safe s : wf s → safely (force_context_switch s) wf.
Proof.
  intros Hwf. unfold force_context_switch. destruct (current s) as [c|] eqn:Hc.
  - destruct (wf_current s Hwf c Hc) as [t Ht]. rewrite (deref_eq _ c t) by done. simpl.
    apply schedule_safe. destruct (in_state Running t); [by apply put_wf|done].
  - simpl. by apply schedule_safe.
Qed.

Lemma reschedule_safe s : wf s → safely (reschedule_if_needed s) wf.
Proof.
  intros Hwf. unfold reschedule_if_needed. destruct (sched_lock s); [done|].
  destruct (current s) as [c|] eqn:Hc; [|done].
  destruct (wf_current s Hwf c Hc) as [t Ht]. rewrite (deref_eq _ c t) by done. simpl.
  destruct (negb _ && negb _); [by apply schedule_safe|done].
Qed.

Lemma increment_safe s : wf s → safely (increment_current_task_time s) wf.
Proof.
  intros Hwf. unfold increment_current_task_time. destruct (current s) as [c|] eqn:Hc; [|done].
  destruct (wf_current s Hwf c Hc) as [t Ht]. rewrite (deref_eq _ c t) by done. simpl.
  apply safely_bind, safely_checked; [done|]. intros n _. simpl. by apply put_wf.
Qed.

Lemma stats_safe s i : wf s → safely (update_task_statistics s i) wf.
Proof.
  intros Hwf. unfold update_task_statistics. apply returns_safely, returns_bind.
  eapply returns_mono; [by apply scan_ok|]. intros [[[j r] t]|] _; [|done].
  apply returns_bind. eapply returns_mono; [by apply read_current_ok|].
  intros now _. simpl. by apply put_wf.
Qed.

Lemma fmap_snd_safe {A} (m : outcome (A * Sched)) :
  safely m (λ '(_, s'), wf s') → safely (snd <$> m) wf.
Proof. by destruct m as [[]| | |]. Qed.

#[local] Hint Resolve schedule_safe tick_safe policy_safe reschedule_safe force_switch_safe
  init_scheduler_safe create_task_safe idle_safe increment_safe sleep_safe stats_safe
  fmap_snd_safe with_lock_wf : sched_safe.
#[local] Hint Extern 1 (safely (modify_task _ _ _) _) => apply returns_safely, modify_task_wf : sched_safe.
#[local] Hint Extern 1 (safely (modify_current _ _) _) => apply returns_safely, modify_current_wf : sched_safe.

Lemma run_op_safe new s o : wf s → op_ok s o → safely (run_op new s o) wf.
Proof.
  intros Hwf Hok. destruct o; cbn [run_op op_ok] in *;
    unfold set_task_ready, set_task_blocked, mark_task_as_zombie, set_task_quantum,
      set_task_exit_code, set_current_task_state, update_current_task_priority,
      force_schedule, preempt_disable, preempt_enable;
    auto with nocore sched_safe.
  - by apply returns_safely, add_task_ok.
  - apply returns_safely. eapply returns_mono; [by apply remove_current_ok|]. by intros ? [? _].
  - by apply returns_safely, wake_up_ok.
  - by apply returns_safely, set_global_time_slice_ok.
  - by apply returns_safely, cleanup_ok.
  - apply returns_safely. eapply returns_mono; [by apply reset_ok|]. by intros ? [? _].
  - destruct b; by apply with_lock_wf.
Qed.

(** ** The slot arithmetic *)

(** The first [m] slots hold tasks with ids 1 to [m] in order, as consecutive
    calls of [create_task] on an empty queue leave them when the id of the new block
    is the number passed to it; the others are empty;
    the current task is in an even slot, and every other task is ready. *)
Definition consecutive (m : Z) s : Prop :=
  wf s ∧ sched_lock s = false ∧ 0 < m ≤ 1024 ∧
  (∀ i, 0 ≤ i < m → ∃ r t, slot s i = Some (r, t) ∧ id t = i + 1 ∧
     (state t = Ready ∨ (current s = Some r ∧ state t = Running))) ∧
  (∀ i, m ≤ i < 1024 → slot s i = None) ∧
  ∃ k, 0 ≤ k < m ∧ Z.even k = true ∧ current s = slot_ref s k.

Lemma demoted_slot s c ct i r t :
  pcbs s !! c = Some ct → slot s i = Some (r, t) →
  slot (demoted s c ct) i =
    Some (r, if decide (r = c) then (if in_state Running ct then set_state ct Ready else ct) else t).
Proof.
  intros Hc Hs. apply slot_Some in Hs as [Hr Ht]. unfold slot, demoted.
  destruct (in_state Running ct); unfold slot_ref in *; simpl; rewrite Hr; simpl.
  - rewrite lookup_insert. case_decide as Hrc.
    + subst r. rewrite decide_True by done. by simplify_eq.
    + rewrite decide_False by congruence. by rewrite Ht.
  - rewrite Ht. simpl. case_decide as Hrc; [subst; congruence|done].
Qed.

Lemma demoted_slot_none s c ct i : wf s → slot s i = None → slot (demoted s c ct) i = None.
Proof.
  intros Hwf Hs. unfold slot, demoted in *.
  destruct (in_state Running ct); unfold slot_ref in *; simpl; [|done].
  destruct (mjoin (runqueue s !! Z.to_nat i)) as [r|] eqn:E; [simpl in *|done].
  exfalso. destruct (slot_ref_pcb s i r Hwf E) as [t Ht]. by rewrite Ht in Hs.
Qed.

(** In such a queue every slot of the first [m] is ready once the current task
    is demoted, so the search stops at the first slot it looks at inside it. *)
Lemma consecutive_ready m s c ct i :
  consecutive m s → current s = Some c → pcbs s !! c = Some ct → 0 ≤ i < 1024 →
  ready_at (demoted s c ct) i = bool_decide (i < m).
Proof.
  intros (Hwf & _ & Hm & Htasks & Hempty & _) Hc Hct Hi. unfold ready_at.
  case_bool_decide as Him.
  - destruct (Htasks i ltac:(lia)) as (r & t & Hs & Hid & Hst).
    rewrite (demoted_slot s c ct i r t) by done.
    apply slot_Some in Hs as [_ Ht]. unfold in_state. case_decide as Hrc.
    + subst r. simplify_eq. destruct Hst as [Hst|[_ Hst]]; rewrite Hst; simpl; by rewrite ?Hst.
    + destruct Hst as [Hst|[Hc' _]]; [by rewrite Hst|congruence].
  - rewrite demoted_slot_none; [done..|]. apply Hempty. lia.
Qed.

(** From an even slot, the search stops two slots on, or at slot 0 when no task
    is there. *)
Definition next_slot (m k : Z) : Z := if decide (k + 2 < m) then k + 2 else 0.
Lemma next_slot_ok m k :
  0 ≤ k < m → Z.even k = true → 0 ≤ next_slot m k < m ∧ Z.even (next_slot m k) = true.
Proof.
  intros Hk Hev. unfold next_slot. case_decide; [|split; [lia|done]].
  split; [lia|]. by rewrite Z.even_add, Hev.
Qed.

(** The search when exactly the first [m] slots are ready. *)
Lemma cyclic_first_prefix m s st r :
  (∀ i, 0 ≤ i < 1024 → ready_at s i = bool_decide (i < m)) → 0 < m ≤ 1024 → 0 ≤ st ≤ 1024 →
  cyclic_first s st r → r = if decide (st < m) then st else 0.
Proof.
  intros Hready Hm Hst Hr. destruct Hr as [[_ Hnone]|(j & Hj & -> & Hrdy & Hbefore)].
  { specialize (Hnone 0 ltac:(lia)). rewrite Hready in Hnone by lia.
    by rewrite bool_decide_true in Hnone by lia. }
  pose proof (Z.mod_pos_bound (st + j) 1024 ltac:(lia)) as Hb.
  rewrite Hready in Hrdy by lia. apply bool_decide_eq_true in Hrdy. case_decide as Hin.
  - assert (j = 0) as ->; [|rewrite Z.mod_small; lia].
    destruct (decide (j = 0)); [done|]. specialize (Hbefore 0 ltac:(lia)).
    rewrite (Z.mod_small (st + 0)), Hready in Hbefore by lia. by rewrite bool_decide_true in Hbefore by lia.
  - assert (j = 1024 - st) as ->; [|by replace (st + (1024 - st)) with 1024 by lia].
    destruct (Z.lt_trichotomy j (1024 - st)) as [Hlt|[|Hgt]]; [|done|].
    + rewrite (Z.mod_small (st + j)) in Hrdy by lia. lia.
    + specialize (Hbefore (1024 - st) ltac:(lia)).
      replace (st + (1024 - st)) with 1024 in Hbefore by lia.
      rewrite Z.mod_same, Hready in Hbefore by lia. by rewrite bool_decide_true in Hbefore by lia.
Qed.

Lemma consecutive_pick m s c ct k r :
  consecutive m s → current s = Some c → pcbs s !! c = Some ct →
  0 ≤ k < m → Z.even k = true → id ct = k + 1 →
  cyclic_first (demoted s c ct) (id ct mod 1024 + 1) r → r = next_slot m k.
Proof.
  intros Hcons Hcur Hct Hk Hev Hid Hr. pose proof Hcons as (_ & _ & Hm & _).
  assert (k + 2 ≤ 1024) as Hk2 by (destruct (decide (k = 1023)) as [->|]; [done|lia]).
  rewrite Hid, (Z.mod_small (k + 1)) in Hr by lia. replace (k + 1 + 1) with (k + 2) in Hr by lia.
  apply (cyclic_first_prefix m) in Hr; [done| |lia|lia]. intros; by apply consecutive_ready.
Qed.

(** The tasks of the first [m] slots once the current one is demoted. *)
Lemma consecutive_demoted m s c ct i :
  consecutive m s → current s = Some c → pcbs s !! c = Some ct → 0 ≤ i < m →
  ∃ r t, slot_ref s i = Some r ∧ pcbs (demoted s c ct) !! r = Some t ∧ id t = i + 1 ∧ state t = Ready.
Proof.
  intros Hcons Hcur Hct Hi. pose proof Hcons as (_ & _ & Hm & Htasks & _).
  destruct (Htasks i Hi) as (r & t & Hs & Hid & _). exists r.
  pose proof (demoted_slot s c ct i r t Hct Hs) as Hd.
  pose proof (consecutive_ready m s c ct i Hcons Hcur Hct ltac:(lia)) as Hrd.
  rewrite bool_decide_true in Hrd by lia. unfold ready_at in Hrd. rewrite Hd in Hrd.
  apply bool_decide_eq_true in Hrd. apply slot_Some in Hd as [_ Hd].
  apply slot_Some in Hs as [Hr Ht]. eexists. split_and!; [done..| |done].
  case_decide; [|done]. subst r. simplify_eq. by destruct (in_state Running ct).
Qed.

Lemma slot_intro s i r t : slot_ref s i = Some r → pcbs s !! r = Some t → slot s i = Some (r, t).
Proof. unfold slot. intros ->. simpl. by intros ->. Qed.

Lemma consecutive_step m s : consecutive m s → returns (schedule s) (consecutive m).
Proof.
  intros Hcons. pose proof Hcons as (Hwf & Hlock & Hm & Htasks & Hempty & k & Hk & Hev & Hcur).
  destruct (Htasks k Hk) as (c & ct & Hs & Hid & _). apply slot_Some in Hs as [Href Hct].
  rewrite Href in Hcur. eapply returns_mono; [by apply (schedule_ok s c ct)|].
  intros s' (Hwf' & Hlock' & Hq & _ & r & Hr & Hcase).
  apply (consecutive_pick m s c ct k r) in Hr as ->; [|done..].
  destruct (next_slot_ok m k Hk Hev) as [Hrm Hre]. set (r := next_slot m k) in *.
  rewrite (proj2 (Z.eqb_neq r (-1))) in Hcase by lia.
  destruct Hcase as (n & nt & Hsn & _ & Hcase).
  assert (∀ i, slot_ref s' i = slot_ref s i) as Href' by (intros; unfold slot_ref; by rewrite Hq).
  assert (slot_ref s r = Some n ∧ pcbs (demoted s c ct) !! n = Some nt) as [Hrn Hnt].
  { apply slot_Some in Hsn as [Hsn ?]. split; [|done]. revert Hsn. unfold demoted.
    by destruct (in_state Running ct). }
  split_and!; [done|done|lia|lia| | |].
  - intros i Hi. destruct (consecutive_demoted m s c ct i) as (r' & t' & Hr' & Ht' & Hid' & Hst'); [done..|].
    destruct (id nt =? id ct) eqn:Heq.
    + destruct Hcase as (Hp & _). exists r', t'. split; [apply slot_intro; congruence|]. auto.
    + destruct Hcase as (Hc' & Hp & _). destruct (decide (r' = n)) as [->|Hne].
      * exists n. eexists. split; [apply slot_intro; [congruence|by rewrite Hp, lookup_insert_eq]|].
        simplify_eq. split; [done|by right].
      * exists r', t'. split; [apply slot_intro; [congruence|by rewrite Hp, lookup_insert_ne]|]. auto.
  - intros i Hi. destruct (slot_ref s i) as [r'|] eqn:E.
    + destruct (slot_ref_task s i r' Hwf E) as (t' & Ht' & _). by rewrite Hempty in Ht'.
    + unfold slot. by rewrite Href', E.
  - destruct (id nt =? id ct).
    + destruct Hcase as (_ & Hc' & _). exists k. by rewrite Href', Href.
    + destruct Hcase as (Hc' & _). exists r. by rewrite Href', Hrn.
Qed.

(** ** Priorities *)

(** Task [t] in slot [j] is ready with a priority below 255 and is the first of
    the best among the slots before [hi]. *)
Definition best_before s (hi j : Z) (t : Task) : Prop :=
  0 ≤ j < hi ∧ (∃ r, slot s j = Some (r, t)) ∧ state t = Ready ∧ priority t < 255 ∧
  ∀ j' r' t', 0 ≤ j' < hi → slot s j' = Some (r', t') → state t' = Ready →
    priority t ≤ priority t' ∧ (j' < j → priority t < priority t').

Definition none_before s (hi : Z) : Prop :=
  ∀ j r t, 0 ≤ j < hi → slot s j = Some (r, t) → state t = Ready → 255 ≤ priority t.

(** What the loop knows before slot [i]. *)
Definition highest_inv s (i : Z) (hx : Z * Z) : Prop :=
  (none_before s i ∧ hx = (255, 0)) ∨ (∃ j b, best_before s i j b ∧ hx = (priority b, id b)).

Lemma highest_take s i h x r t :
  0 ≤ i → slot s i = Some (r, t) → highest_inv s i (h, x) →
  state t = Ready → priority t < h → highest_inv s (i + 1) (priority t, id t).
Proof.
  intros Hi Hs Hcase Hst Hlt. right. exists i, t. split; [|done].
  split; [lia|]. split; [by eauto|]. split; [done|].
  assert (priority t < 255) as H255.
  { destruct Hcase as [(_&[= -> _])|(j&b&(_&_&_&?&_)&[= -> _])]; lia. }
  split; [done|]. intros j' r' t' Hj' Hs' Hst'. destruct (decide (j' = i)) as [->|].
  - simplify_eq. lia.
  - destruct Hcase as [(Hn&[= -> _])|(j&b&(_&_&_&_&Hb)&[= -> _])].
    + specialize (Hn j' r' t' ltac:(lia) Hs' Hst'). lia.
    + specialize (Hb j' r' t' ltac:(lia) Hs' Hst'). lia.
Qed.

Lemma highest_skip s i h x :
  0 ≤ i → highest_inv s i (h, x) →
  (∀ r t, slot s i = Some (r, t) → state t = Ready → h ≤ priority t) →
  highest_inv s (i + 1) (h, x).
Proof.
  intros Hi [(Hn&[= -> ->])|(j&b&(Hj&Hb1&Hb2&Hb3&Hb)&[= -> ->])] Hskip; [left|right].
  - split; [|done]. intros j r t Hj Hs Hst. destruct (decide (j = i)) as [->|]; [by eauto|].
    eapply Hn; [|done..]. lia.
  - exists j, b. split; [|done]. split_and!; [lia|lia|done..|].
    intros j' r' t' Hj' Hs' Hst'. destruct (decide (j' = i)) as [->|].
    + specialize (Hskip _ _ Hs' Hst'). lia.
    + eapply Hb; [|done..]. lia.
Qed.

Lemma highest_ok s :
  wf s →
  returns (get_highest_priority_ready_task s) (λ res,
    ∃ x, res = (if negb (x =? 0) then Some x else None) ∧
    ((none_before s 1024 ∧ x = 0) ∨ ∃ j t, best_before s 1024 j t ∧ x = id t)).
Proof.
  intros Hwf. unfold get_highest_priority_ready_task. apply returns_bind. eapply returns_mono.
  { apply (for_each_inv (highest_inv s)); [done| |].
    - left. split; [|done]. intros j r t Hj. lia.
    - unfold MAX_TASKS. intros i [h x] Hi Hinv. rewrite queue_task_ok by done. simpl.
      destruct (slot s i) as [[r t]|] eqn:Hs; [|apply highest_skip; [lia|done|congruence]].
      unfold in_state. destruct (bool_decide_reflect (state t = Ready)) as [Hst|Hst]; simpl.
      + destruct (Z.ltb_spec (priority t) h); [by eapply highest_take; [lia|..]|].
        apply highest_skip; [lia|done|]. intros r' t' Hs' _. by simplify_eq.
      + apply highest_skip; [lia|done|]. intros r' t' Hs' ?. by simplify_eq. }
  intros [h x] Hinv. simpl. exists x. split; [done|].
  destruct Hinv as [(Hn&[= _ ->])|(j&b&Hb&[= _ ->])]; [by left|right]. by exists j, b.
Qed.

(** ** Claims *)

(** C14: [schedule] on every branch, in a state whose run queue has 1024 slots and
    whose references are live.  With the lock held it does nothing.  With the lock
    free and no current task it panics in [unwrap], after [SCHED_LOCK = true] was
    executed.  With the lock free and a current task it releases the lock, keeps
    the run queue and the counter, and either halts when no task is ready, keeps
    the current task when the search finds its own id, or makes the task found
    current and running. *)
Theorem schedule_branches s :
  wf s →
  (sched_lock s = true → schedule s = Ret s) ∧
  (sched_lock s = false → current s = None → schedule s = Panic) ∧
  ∀ c ct, sched_lock s = false → current s = Some c → pcbs s !! c = Some ct →
  let s1 := demoted s c ct in
  returns (schedule s) (λ s',
    wf s' ∧ sched_lock s' = false ∧ runqueue s' = runqueue s ∧ task_count s' = task_count s ∧
    ∃ r, cyclic_first s1 (id ct mod 1024 + 1) r ∧
      if r =? -1 then pcbs s' = pcbs s1 ∧ current s' = Some c ∧ halts s' = S (halts s) ∧ rsp s' = rsp s
      else ∃ n nt, slot s1 r = Some (n, nt) ∧ halts s' = halts s ∧
        if id nt =? id ct then pcbs s' = pcbs s1 ∧ current s' = Some c ∧ rsp s' = rsp s
        else current s' = Some n ∧
             pcbs s' = <[n := set_regs (set_state nt Running) (wrap 64 (rsp s - 112))]> (pcbs s1) ∧
             rsp s' = wrap 64 (wrap 64 (rsp s - 112) + 112)).
Proof.
  intros Hwf. split_and!.
  - intros Hl. unfold schedule. by rewrite Hl.
  - intros Hl Hc. unfold schedule. rewrite Hl. simpl. by rewrite Hc.
  - intros c ct Hl Hc Hct. by apply schedule_ok.
Qed.

(** C5: the counter of the run queue.  In every state reached by any sequence of the
    calls of the module that change its state, where [add_task] and
    [init_scheduler] are given references to existing control blocks,
    [TASK_COUNT] is the number of occupied slots of the 1024.  So the
    decrements never underflow: [remove_current_task], [cleanup_zombie_tasks] and
    [reset_scheduler] return; the first leaves no current task, the second empties
    exactly the slots of the zombies and the third all of them. *)
Theorem scheduler_reachable new s0 s :
  wf s0 → reachable new s0 s →
  length (runqueue s) = 1024%nat ∧ task_count s = occupied (runqueue s) ∧ 0 ≤ task_count s ≤ 1024 ∧
  returns (remove_current_task s) (λ s', current s' = None ∧ task_count s' = occupied (runqueue s')) ∧
  returns (cleanup_zombie_tasks s) (λ s', task_count s' = occupied (runqueue s') ∧
    ∀ j, 0 ≤ j < 1024 → slot s' j = match slot s j with
      | Some (r, t) => if decide (state t = Zombie) then None else Some (r, t)
      | None => None
      end) ∧
  returns (reset_scheduler s) (λ s', task_count s' = 0 ∧ occupied (runqueue s') = 0).
Proof.
  intros Hwf0 Hr. assert (wf s) as Hwf.
  { induction Hr as [|s o s' _ IH Hok Hrun]; [done|].
    pose proof (run_op_safe new s o IH Hok) as Hs. by rewrite Hrun in Hs. }
  pose proof (occupied_bounds (runqueue s)) as Hb. rewrite (wf_length s Hwf), <-(wf_count s Hwf) in Hb.
  split_and!; [by apply wf_length|by apply wf_count|lia|lia|..].
  - eapply returns_mono; [by apply remove_current_ok|]. intros s' (Hw & Hc & _). split; [done|by apply wf_count].
  - eapply returns_mono; [by apply cleanup_exact|]. intros s' [Hw Hs]. split; [by apply wf_count|].
    intros j Hj. rewrite Hs by done. unfold without_zombie, in_state. destruct (slot s j) as [[r t]|]; [|done].
    by case_bool_decide; case_decide.
  - eapply returns_mono; [by apply reset_ok|]. intros s' (Hw & Hz & _). split; [done|].
    by rewrite <-(wf_count s' Hw).
Qed.

(** [create_task] gives the new task the next id and the lowest free slot,
    counts it, and touches no other slot or block; it fails, without effect,
    exactly when all 1024 slots are taken. *)
Theorem create_task_lowest_slot new s e st :
  wf s → in_u 64 (next_task_id s + 1) →
  returns (create_task new s e st) (λ '(r, s'),
    wf s' ∧
    match r with
    | None => task_count s = 1024 ∧ s' = s
    | Some i => i = next_task_id s ∧ next_task_id s' = next_task_id s + 1 ∧
        task_count s' = task_count s + 1 ∧
        ∃ k ref, 0 ≤ k < 1024 ∧ slot_ref s k = None ∧ (∀ j, 0 ≤ j < k → is_Some (slot_ref s j)) ∧
          pcbs s !! ref = None ∧ pcbs s' = <[ref := new i e st]> (pcbs s) ∧
          runqueue s' = <[Z.to_nat k := Some ref]> (runqueue s)
    end).
Proof. apply create_task_ok. Qed.

(** [get_highest_priority_ready_task] returns the id of the ready task with
    the numerically smallest priority, the first in slot order among equals, when
    ids are not zero; it returns [None] exactly when every ready task has priority
    255, which the search never selects. *)
Theorem highest_priority_first_minimum s :
  wf s → (∀ j r t, slot s j = Some (r, t) → id t ≠ 0) →
  returns (get_highest_priority_ready_task s) (λ res,
    match res with
    | Some x => ∃ j t, best_before s 1024 j t ∧ x = id t
    | None => ∀ j r t, 0 ≤ j < 1024 → slot s j = Some (r, t) → state t = Ready → 255 ≤ priority t
    end).
Proof.
  intros Hwf Hids. eapply returns_mono; [by apply highest_ok|].
  intros res (x & -> & [(Hn&->)|(j&t&Hb&->)]); [exact Hn|].
  pose proof Hb as (_&[r Hs]&_). rewrite (proj2 (Z.eqb_neq (id t) 0)) by (by eapply Hids).
  by exists j, t.
Qed.

(** Round robin starves every second task when slot [i] holds id [i + 1], as
    [create_task] calls on an empty queue leave it (after [reset_scheduler], or when no task with
    id 0 was given to [init_scheduler] first).  The search starts at slot
    [id % 1024 + 1], so from slot [i] it starts at slot [i + 2]: whatever the number of
    [schedule] calls, a current task in an even slot is only ever followed by a
    task in an even slot, and the ready tasks in odd slots never run. *)
Theorem odd_slots_starve m s n :
  consecutive m s → 0 ≤ n →
  returns (for_each 0 n (λ _, schedule) s) (λ s',
    (∃ k, 0 ≤ k < m ∧ Z.even k = true ∧ current s' = slot_ref s' k) ∧
    ∀ i, 0 ≤ i < m → Z.even i = false →
      ∃ r t, slot s' i = Some (r, t) ∧ state t = Ready ∧ current s' ≠ Some r).
Proof.
  intros Hc Hn. eapply returns_mono.
  { apply (for_each_inv (λ _, consecutive m)); [done..|]. intros i s1 _. apply consecutive_step. }
  intros s' (_ & _ & _ & Htasks & _ & k & Hk & Hev & Hcur). split; [by exists k|].
  intros i Hi Hodd. destruct (Htasks i Hi) as (r & t & Hs & Hid & Hst). exists r, t.
  assert (current s' ≠ Some r) as Hne.
  { intros Hcr. destruct (Htasks k Hk) as (r' & t' & Hs' & Hid' & _).
    apply slot_Some in Hs as [_ Ht]. apply slot_Some in Hs' as [Hr' Ht'].
    assert (r' = r) as -> by congruence. assert (i = k) as -> by (simplify_eq; lia). congruence. }
  split; [done|]. split; [|done]. by destruct Hst as [|[? _]].
Qed.

(** [schedule] never changes stacks.  [current] refers to the payload of
    [CURRENT_TASK], which is overwritten before [context_switch] reads it, so the
    incoming task is passed as both tasks: its saved stack pointer is replaced by
    the one in use and then loaded again. *)
Theorem schedule_keeps_stack s c ct :
  wf s → sched_lock s = false → current s = Some c → pcbs s !! c = Some ct → in_u 64 (rsp s) →
  returns (schedule s) (λ s',
    rsp s' = rsp s ∧
    ∀ n, current s' = Some n → n ≠ c →
      ∃ t, pcbs s' !! n = Some t ∧ regs t = wrap 64 (rsp s - 112)).
Proof.
  intros Hwf Hl Hc Hct Hu. eapply returns_mono; [by apply (schedule_ok s c ct)|].
  intros s' (_ & _ & _ & _ & r & _ & Hcase).
  destruct (r =? -1).
  { destruct Hcase as (_ & -> & _ & ->). split; [done|]. by intros n [= <-] ?. }
  destruct Hcase as (n & nt & _ & _ & Hcase). destruct (id nt =? id ct).
  { destruct Hcase as (_ & -> & ->). split; [done|]. by intros n' [= <-] ?. }
  destruct Hcase as (-> & -> & ->). split.
  - unfold wrap. rewrite Z.add_mod_idemp_l by done. replace (rsp s - 112 + 112) with (rsp s) by lia.
    by apply Z.mod_small.
  - intros n' [= <-] _. rewrite lookup_insert_eq. by eexists.
Qed.

(** After [remove_current_task] the next timer tick panics: [schedule]
    unwraps the empty [CURRENT_TASK] (with the scheduler lock already taken). *)
Theorem remove_then_tick_panics s :
  wf s → sched_lock s = false →
  returns (remove_current_task s) (λ s', wf s' ∧ tick s' = Panic ∧ schedule s' = Panic).
Proof.
  intros Hwf Hl. eapply returns_mono; [by apply remove_current_ok|].
  intros s' (Hwf' & Hc & Hl'). split; [done|].
  unfold tick. rewrite Hc. unfold schedule. rewrite Hl', Hl. simpl. by rewrite Hc.
Qed.

(** [schedule_with_policy] does not demote the task it switches away from:
    when it switches from a running task, two tasks are in state [Running]. *)
Lemma policy_leaves_two_running s c ct :
  wf s → current s = Some c → pcbs s !! c = Some ct → state ct = Running →
  returns (schedule_with_policy s) (λ s', ∀ n,
    current s' = Some n → n ≠ c →
    (∃ t, pcbs s' !! c = Some t ∧ state t = Running) ∧
    (∃ t, pcbs s' !! n = Some t ∧ state t = Running)).
Proof.
  intros Hwf Hc Hct Hst. eapply returns_mono; [by eapply policy_ok|].
  intros s' (_ & [->|(n & nt & Hid & Hn & -> & ->)]) n'; [congruence|].
  intros [= <-] Hne. rewrite lookup_insert_eq, lookup_insert_ne by done. split; [by exists ct|by eexists].
Qed.

End sched_theorems.

(** ** Concrete instances *)

Definition empty_sched : Sched :=
  {| pcbs := ∅; runqueue := replicate 1024 None; current := None; task_count := 0;
     sched_lock := false; next_task_id := 1; idle_pcb := None; rsp := 0x9000; halts := 0 |}.

Definition sample_new (i entry stack : Z) : Task :=
  {| id := i; state := Ready; regs := stack; tick_count := 0; time_slice := 10; priority := 10;
     execution_time := 0; wake_time := 0; last_schedule_tick := 0; exit_code := 0 |}.

(** The invariants, as tests on concrete states. *)
Definition live s (o : option Z) : bool :=
  match o with Some r => match pcbs s !! r with Some _ => true | None => false end | None => true end.
Definition wfb s : bool :=
  (length (runqueue s) =? 1024)%nat && forallb (live s) (runqueue s) &&
  live s (current s) && live s (idle_pcb s) && (task_count s =? occupied (runqueue s)).

Lemma live_Some s r : live s (Some r) = true → is_Some (pcbs s !! r).
Proof. simpl. destruct (pcbs s !! r); [eauto|done]. Qed.

Lemma wfb_ok s : wfb s = true → wf s.
Proof.
  unfold wfb. rewrite !andb_true_iff, Nat.eqb_eq, Z.eqb_eq, forallb_forall.
  intros ((((Hl & Hr) & Hc) & Hi) & Hn). split; [done| | | |done].
  - intros r Hin. apply live_Some, Hr. by apply list_elem_of_In.
  - intros c Hc'. rewrite Hc' in Hc. by apply live_Some.
  - intros c Hc'. rewrite Hc' in Hi. by apply live_Some.
Qed.

Definition task_ready (i : Z) s : bool :=
  match slot s i with
  | Some (r, t) => (id t =? i + 1) && (in_state Ready t ||
                     (bool_decide (current s = Some r) && in_state Running t))
  | None => false
  end.
Definition consecutiveb (m k : Z) s : bool :=
  wfb s && negb (sched_lock s) && (0 <? m) && (m <=? 1024) &&
  forallb (λ i, task_ready i s) (seqZ 0 m) &&
  forallb (λ i, match slot s i with None => true | Some _ => false end) (seqZ m (1024 - m)) &&
  (0 <=? k) && (k <? m) && Z.even k && bool_decide (current s = slot_ref s k).

Lemma consecutiveb_ok m k s : consecutiveb m k s = true → consecutive m s.
Proof.
  unfold consecutiveb. rewrite !andb_true_iff, !forallb_forall, !Z.ltb_lt, !Z.leb_le, negb_true_iff,
    bool_decide_eq_true.
  intros (((((((((Hwf & Hl) & Hm0) & Hm) & Ht) & He) & Hk0) & Hk) & Hev) & Hc).
  split; [by apply wfb_ok|]. split; [done|]. split; [done|]. split; [|split; [|by exists k]].
  - intros i Hi. specialize (Ht i). unfold task_ready in Ht.
    rewrite <-list_elem_of_In, elem_of_seqZ in Ht. specialize (Ht ltac:(lia)).
    destruct (slot s i) as [[r t]|]; [|done]. exists r, t.
    apply andb_true_iff in Ht as [Hid Hst]. apply Z.eqb_eq in Hid. split; [done|]. split; [done|].
    unfold in_state in Hst. apply orb_true_iff in Hst as [Hst|Hst]; [left; by apply bool_decide_eq_true in Hst|].
    right. apply andb_true_iff in Hst as [H1 H2]. by apply bool_decide_eq_true in H1, H2.
  - intros i Hi. specialize (He i). rewrite <-list_elem_of_In, elem_of_seqZ in He.
    specialize (He ltac:(lia)). by destruct (slot s i).
Qed.

Lemma empty_sched_wf : wf empty_sched.
Proof. apply wfb_ok. by vm_compute. Qed.

(** Four tasks created in a row, the first one running. *)
Definition four_tasks : outcome Sched :=
  '(_, s1) ← create_task (prof := dev) sample_new empty_sched 0 0x1000;
  '(_, s2) ← create_task (prof := dev) sample_new s1 0 0x2000;
  '(_, s3) ← create_task (prof := dev) sample_new s2 0 0x3000;
  '(_, s4) ← create_task (prof := dev) sample_new s3 0 0x4000;
  modify (with_current s4 (slot_ref s4 0)) (default 0 (slot_ref s4 0)) (λ t, set_state t Running).
Definition four : Sched := match four_tasks with Ret s => s | _ => empty_sched end.

Lemma four_wf : wf four.
Proof. apply wfb_ok. by vm_compute. Qed.

Lemma four_consecutive : consecutive 4 four.
Proof. apply (consecutiveb_ok 4 0). by vm_compute. Qed.

Definition four_cur : Z := default 0 (current four).
Definition four_task : Task := default (sample_new 0 0 0) (pcbs four !! four_cur).

(** After one [schedule] the task in slot 2 runs; after two, slot 0 again. *)
Example four_schedule :
  (s ← schedule four; get_current_task_id s) = Ret 3 ∧
  (s ← schedule four; s ← schedule s; get_current_task_id s) = Ret 1.
Proof. by vm_compute. Qed.

Lemma schedule_branches_witness :
  returns (schedule four) (λ s', wf s' ∧ sched_lock s' = false ∧ current s' ≠ current four) ∧
  schedule (with_lock four true) = Ret (with_lock four true) ∧
  schedule empty_sched = Panic.
Proof.
  split; [|split].
  - assert ((s ← schedule four; Ret (bool_decide (current s = current four))) = Ret false) as Hne by by vm_compute.
    destruct (schedule_branches four four_wf) as (_ & _ & H).
    specialize (H four_cur four_task ltac:(by vm_compute) ltac:(by vm_compute) ltac:(by vm_compute)). cbv zeta in H.
    destruct (schedule four) as [s'| | |]; [|destruct H..].
    destruct H as (H1 & H2 & _). split; [exact H1|]. split; [exact H2|].
    intros Heq. cbn in Hne. rewrite Heq, bool_decide_true in Hne; done.
  - destruct (schedule_branches (with_lock four true)) as (H & _); [apply with_lock_wf, four_wf|]. by apply H.
  - destruct (schedule_branches empty_sched empty_sched_wf) as (_ & H & _). by apply H.
Defined.

(** From the statics as they are initialised: one [create_task], then the clean-up. *)
Lemma scheduler_reachable_witness :
  ∃ s, run_op (prof := dev) sample_new empty_sched (OpCreate 0 0x1000) = Ret s ∧
    task_count s = occupied (runqueue s) ∧ task_count s = 1 ∧
    returns (cleanup_zombie_tasks (prof := dev) s) (λ s', task_count s' = occupied (runqueue s')).
Proof.
  assert (task_count <$> run_op (prof := dev) sample_new empty_sched (OpCreate 0 0x1000) = Ret 1) as E
    by (vm_compute; reflexivity).
  destruct (run_op (prof := dev) sample_new empty_sched (OpCreate 0 0x1000)) as [s| | |] eqn:Es; [|discriminate E..].
  injection E as E. exists s. split; [reflexivity|].
  destruct (scheduler_reachable (prof := dev) sample_new empty_sched s empty_sched_wf
    (reach_step _ _ empty_sched (OpCreate 0 0x1000) s (reach_init _ _) I Es)) as (_ & H1 & _ & _ & H2 & _).
  split; [exact H1|]. split; [exact E|]. eapply returns_mono; [exact H2|]. intros s' [H _]. exact H.
Defined.

Lemma create_task_lowest_slot_witness :
  returns (create_task (prof := dev) sample_new four 0 0x5000) (λ '(r, s'),
    wf s' ∧
    match r with
    | None => task_count four = 1024 ∧ s' = four
    | Some i => i = next_task_id four ∧ next_task_id s' = next_task_id four + 1 ∧
        task_count s' = task_count four + 1 ∧
        ∃ k ref, 0 ≤ k < 1024 ∧ slot_ref four k = None ∧
          (∀ j, 0 ≤ j < k → is_Some (slot_ref four j)) ∧
          pcbs four !! ref = None ∧ pcbs s' = <[ref := sample_new i 0 0x5000]> (pcbs four) ∧
          runqueue s' = <[Z.to_nat k := Some ref]> (runqueue four)
    end).
Proof.
  apply (create_task_lowest_slot (prof := dev) sample_new four 0 0x5000); [exact four_wf|].
  apply (bool_decide_unpack _). by vm_compute.
Defined.

Lemma highest_priority_first_minimum_witness :
  returns (get_highest_priority_ready_task four) (λ res,
    match res with
    | Some x => ∃ j t, best_before four 1024 j t ∧ x = id t
    | None => ∀ j r t, 0 ≤ j < 1024 → slot four j = Some (r, t) → state t = Ready → 255 ≤ priority t
    end).
Proof.
  apply (highest_priority_first_minimum four); [exact four_wf|].
  intros j r t Hs. apply slot_Some in Hs as [_ Ht].
  assert (map_Forall (λ _ t, id t ≠ 0) (pcbs four)) as Hall by (apply (bool_decide_unpack _); by vm_compute).
  exact (Hall r t Ht).
Defined.

Lemma odd_slots_starve_witness :
  returns (for_each 0 1000 (λ _, schedule) four) (λ s',
    (∃ k, 0 ≤ k < 4 ∧ Z.even k = true ∧ current s' = slot_ref s' k) ∧
    ∀ i, 0 ≤ i < 4 → Z.even i = false →
      ∃ r t, slot s' i = Some (r, t) ∧ state t = Ready ∧ current s' ≠ Some r).
Proof. apply (odd_slots_starve 4 four 1000); [exact four_consecutive|lia]. Defined.

Lemma schedule_keeps_stack_witness :
  returns (schedule four) (λ s',
    rsp s' = rsp four ∧
    ∀ n, current s' = Some n → n ≠ four_cur →
      ∃ t, pcbs s' !! n = Some t ∧ regs t = wrap 64 (rsp four - 112)).
Proof.
  apply (schedule_keeps_stack four four_cur four_task); [exact four_wf|by vm_compute..|].
  apply (bool_decide_unpack _). by vm_compute.
Defined.

Lemma remove_then_tick_panics_witness :
  returns (remove_current_task (prof := dev) four) (λ s',
    wf s' ∧ tick (prof := dev) s' = Panic ∧ schedule s' = Panic).
Proof. apply (remove_then_tick_panics (prof := dev) four); [exact four_wf|by vm_compute]. Defined.

(** The policy switch leaves the current task of the example. *)
Example four_policy : (s ← schedule_with_policy four; get_current_task_id s) = Ret 2.
Proof. by vm_compute. Qed.
