(* ===== verification/SchedulerStates.v ===== *)
(** * Which task is running

    At most one task of the run queue is in state [Running], and it is the current
    one; task ids are unique.  The invariant holds over the sequences of scheduler
    calls that respect [op_fair], which excludes [schedule_with_policy] (it leaves two
    tasks running) and a second [init_scheduler] while a task runs ([second_init]). *)

From S2P Require Import Prelude Scheduler SchedulerSpec SchedulerTheorems.
Open Scope Z_scope.

Section states.
Context {prof : Profile}.
Implicit Types (s : Sched).

Record orderly s : Prop := {
  or_wf : wf s;
  or_unique i j r r' t t' : 0 ≤ i < 1024 → 0 ≤ j < 1024 →
    slot s i = Some (r, t) → slot s j = Some (r', t') → id t = id t' → i = j;
  or_running i r t : 0 ≤ i < 1024 → slot s i = Some (r, t) → state t = Running → current s = Some r
}.

(** Calls that add no task: every task was there before, with its id, and runs only
    if it is the current one. *)
Record calm s s' : Prop := {
  cm_wf : wf s';
  cm_slot i r t' : 0 ≤ i < 1024 → slot s' i = Some (r, t') →
    ∃ t, slot s i = Some (r, t) ∧ id t' = id t ∧ (state t' = Running → current s' = Some r)
}.

Lemma calm_orderly s s' : orderly s → calm s s' → orderly s'.
Proof.
  intros [H1 H2 H4] [C1 C3]. split; [done|..].
  - intros i j r r' t t' Hi Hj Ht Ht' He.
    destruct (C3 i r t Hi Ht) as (u & Hu & Eu & _), (C3 j r' t' Hj Ht') as (u' & Hu' & Eu' & _).
    apply (H2 i j r r' u u'); congruence.
  - intros i r t Hi Ht. by destruct (C3 i r t Hi Ht) as (u & _ & _ & ?).
Qed.

Lemma calm_refl s : orderly s → calm s s.
Proof. intros Ho. split; [apply Ho|]. intros i r t Hi Ht. exists t. split_and!; [done..|]. by eapply or_running. Qed.

Lemma calm_trans s1 s2 s3 : calm s1 s2 → calm s2 s3 → calm s1 s3.
Proof.
  intros [A1 A3] [B1 B3]. split; [done|]. intros i r t Hi Ht.
  destruct (B3 i r t Hi Ht) as (u & Hu & Eu & Hr). destruct (A3 i r u Hi Hu) as (w & Hw & Ew & _).
  exists w. split_and!; [done|congruence|done].
Qed.

(** No task is new or changed, and the current one is the same. *)
Lemma calm_sub s s' :
  orderly s → wf s' → current s' = current s →
  (∀ i x, 0 ≤ i < 1024 → slot s' i = Some x → slot s i = Some x) → calm s s'.
Proof.
  intros Ho Hwf Hc Hs. split; [done..|]. intros i r t Hi Ht%Hs; [|done]. exists t. split_and!; [done..|].
  rewrite Hc. by eapply or_running.
Qed.

Lemma slot_put s r t' i x : slot (put s r t') i = Some x →
  (x.1 = r ∧ x.2 = t' ∧ slot_ref s i = Some r) ∨ (x.1 ≠ r ∧ slot s i = Some x).
Proof.
  unfold slot. rewrite slot_put_ref. destruct (slot_ref s i) as [r'|]; [simpl|done].
  rewrite lookup_insert. case_decide as Hr; simpl.
  - intros [= <-]. left. by subst.
  - destruct (pcbs s !! r') as [t|]; [simpl|done]. intros [= <-]. right. done.
Qed.

(** Replacing a control block by one with the same id. *)
Lemma put_calm s r t t' :
  orderly s → pcbs s !! r = Some t → id t' = id t →
  (state t' = Running → state t = Running ∨ current s = Some r) → calm s (put s r t').
Proof.
  intros Ho Ht Hid Hst. split; [by apply put_wf, Ho|]. intros i r0 t0 Hi [(?&?&Href)|[Hne Hs]]%slot_put; simpl in *.
  - subst r0 t0. assert (slot s i = Some (r, t)) as Hs by (unfold slot; rewrite Href; simpl; by rewrite Ht).
    exists t. split_and!; [done..|]. intros [Hr|Hr]%Hst; [by eapply or_running|done].
  - exists t0. split_and!; [done..|]. by eapply or_running.
Qed.

Lemma slot_calm s i r t t' :
  orderly s → slot s i = Some (r, t) → id t' = id t → (state t' = Running → state t = Running) → calm s (put s r t').
Proof. intros Ho [_ Ht]%slot_Some Hid Hst. eapply put_calm; [done..|]. by left; apply Hst. Qed.

Lemma modify_task_calm s i f :
  orderly s → (∀ t, id (f t) = id t ∧ (state (f t) = Running → state t = Running)) →
  returns (modify_task s i f) (calm s).
Proof.
  intros Ho Hf. unfold modify_task. step1. eapply returns_mono; [apply scan_ok, Ho|].
  intros [[[j r] t]|] H; simpl; [|by apply calm_refl]. apply found_hit in H as (_ & Hs & _ & _).
  destruct (Hf t). by eapply slot_calm.
Qed.

Lemma modify_current_calm s f :
  orderly s → (∀ t, id (f t) = id t) → returns (modify_current s f) (calm s).
Proof.
  intros Ho Hf. unfold modify_current, modify. destruct (current s) as [c|] eqn:Hc; [|by apply calm_refl].
  destruct (wf_current s (or_wf _ Ho) c Hc) as [t Ht]. rewrite (deref_eq _ c t) by done. simpl.
  eapply put_calm; [done..|by apply Hf|by right].
Qed.

(** A loop over the slots whose body is calm. *)
Lemma loop_calm s (body : Z → Sched → outcome Sched) :
  orderly s → (∀ i s1, 0 ≤ i < 1024 → orderly s1 → returns (body i s1) (calm s1)) →
  returns (for_each 0 MAX_TASKS body s) (calm s).
Proof.
  intros Ho Hb. apply (for_each_inv (λ _ s', calm s s')); [done|by apply calm_refl|].
  unfold MAX_TASKS. intros i s1 Hi Hc. eapply returns_mono; [by apply Hb; [|eapply calm_orderly]|].
  intros s2. by apply calm_trans.
Qed.

(** Emptying a slot. *)
Lemma slot_clear s i n j r t :
  slot (with_queue s (<[Z.to_nat i := None]> (runqueue s)) n) j = Some (r, t) → 0 ≤ i → 0 ≤ j →
  slot s j = Some (r, t) ∧ j ≠ i.
Proof.
  unfold slot, slot_ref. simpl. intros Hs Hi Hj. destruct (decide (j = i)) as [->|Hne].
  - exfalso. destruct (decide (Z.to_nat i < length (runqueue s))%nat).
    + by rewrite list_lookup_insert_eq in Hs.
    + rewrite list_insert_ge, (proj2 (lookup_ge_None _ _)) in Hs by lia. done.
  - by rewrite list_lookup_insert_ne in Hs by lia.
Qed.

Lemma dequeue_calm s i r :
  orderly s → 0 ≤ i < 1024 → slot_ref s i = Some r → returns (dequeue s i) (calm s).
Proof.
  intros Ho Hi Hr. eapply returns_mono; [by eapply dequeue_ok; [apply Ho|..]|]. intros s' [-> Hwf].
  apply calm_sub; [done..|]. by intros j [r' t] Hj [Hs _]%slot_clear; [|lia..].
Qed.

(** *** [schedule] *)

Lemma demoted_not_running s c ct i r t :
  orderly s → current s = Some c → pcbs s !! c = Some ct → 0 ≤ i < 1024 → slot (demoted s c ct) i = Some (r, t) →
  ∃ t0, slot s i = Some (r, t0) ∧ id t = id t0 ∧ state t ≠ Running.
Proof.
  intros Ho Hc Hct Hi. unfold demoted, in_state. case_bool_decide as Hst.
  - intros [(?&?&Href)|[Hne Hs]]%slot_put; simpl in *.
    + subst r t. exists ct. split; [|done]. unfold slot. change (slot_ref s i = Some c) in Href.
      rewrite Href. simpl. by rewrite Hct.
    + change (slot s i = Some (r, t)) in Hs. exists t. split_and!; [done..|]. intros Hr.
      pose proof (or_running _ Ho i r t Hi Hs Hr). congruence.
  - intros Hs. change (slot s i = Some (r, t)) in Hs. exists t. split_and!; [done..|]. intros Hr.
    pose proof (or_running _ Ho i r t Hi Hs Hr). apply slot_Some in Hs as [_ ?]. congruence.
Qed.

Lemma schedule_calm s : orderly s → safely (schedule s) (calm s).
Proof.
  intros Ho. pose proof (or_wf _ Ho) as Hwf.
  destruct (sched_lock s) eqn:Hl; [unfold schedule; rewrite Hl; by apply calm_refl|].
  destruct (current s) as [c|] eqn:Hc; [|unfold schedule; rewrite Hl; simpl; by rewrite Hc].
  destruct (wf_current s Hwf c Hc) as [ct Hct].
  destruct (proj1 (returns_iff _ _) (schedule_ok s c ct Hwf Hl Hc Hct)) as (s' & E & Hwf' & _ & Hq & _ & k & _ & Hr).
  rewrite E. simpl.
  assert (∀ i, slot_ref s' i = slot_ref (demoted s c ct) i) as Href.
  { intros i. unfold slot_ref. rewrite Hq. unfold demoted. by destruct (in_state Running ct). }
  assert (pcbs s' = pcbs (demoted s c ct) → calm s s') as Hsame.
  { intros Hp. split; [done..|]. intros i r t Hi. unfold slot. rewrite Href, Hp.
    fold (slot (demoted s c ct) i). intros Hs.
    destruct (demoted_not_running s c ct i r t Ho Hc Hct Hi Hs) as (t0 & ? & ? & ?). exists t0. naive_solver. }
  destruct (k =? -1); [destruct Hr as [Hr _]; by apply Hsame|]. destruct Hr as (n & nt & Hs & _ & Hr).
  destruct (id nt =? id ct); [destruct Hr as [Hr _]; by apply Hsame|]. destruct Hr as (Hcur & Hp & _).
  split; [done..|]. intros i r t Hi Hsl.
  assert (slot (put (demoted s c ct) n (set_regs (set_state nt Running) (wrap 64 (rsp s - 112)))) i = Some (r, t)) as Hput.
  { unfold slot in *. rewrite slot_put_ref, <-Href. simpl. by rewrite <-Hp. }
  apply slot_put in Hput as [(?&?&Hrn)|[Hne Hso]]; simpl in *.
  - subst r t. assert (slot (demoted s c ct) i = Some (n, nt)) as Hd.
    { unfold slot. rewrite Hrn. simpl. apply slot_Some in Hs as [_ Hs]. by rewrite Hs. }
    destruct (demoted_not_running s c ct i n nt Ho Hc Hct Hi Hd) as (t0 & ? & ? & _). by exists t0.
  - destruct (demoted_not_running s c ct i r t Ho Hc Hct Hi Hso) as (t0 & ? & ? & ?). exists t0. naive_solver.
Qed.

(** *** Calls that go through [schedule] *)

Lemma safely_calm_trans s s1 (m : outcome Sched) : calm s s1 → safely m (calm s1) → safely m (calm s).
Proof. intros H1 Hm. eapply safely_mono; [exact Hm|]. intros s2. by apply calm_trans. Qed.

Lemma schedule_after s s1 : orderly s → calm s s1 → safely (schedule s1) (calm s).
Proof. intros Ho Hc. eapply safely_calm_trans; [done|]. by eapply schedule_calm, calm_orderly. Qed.

Lemma lock_calm s b : orderly s → calm s (with_lock s b).
Proof. intros Ho. apply calm_sub; try done. apply with_lock_wf, Ho. Qed.

Lemma tick_calm s : orderly s → safely (tick s) (calm s).
Proof.
  intros Ho. unfold tick. destruct (current s) as [c|] eqn:Hc; [|by apply schedule_calm].
  destruct (wf_current s (or_wf _ Ho) c Hc) as [t Ht]. rewrite (deref_eq _ c t) by done. cbn [mbind outcome_bind].
  apply safely_bind, safely_checked; [done|]. intros n _.
  assert (calm s (put s c (set_tick_count t n))) as H1 by (eapply put_calm; [done..|by right]).
  destruct (time_slice t <=? n); [|done]. unfold modify. unfold deref. simpl. rewrite lookup_insert_eq. simpl.
  apply schedule_after; [done|]. eapply calm_trans; [exact H1|].
  eapply put_calm; [by eapply calm_orderly|simpl; by rewrite lookup_insert_eq|done|by right].
Qed.

Lemma force_switch_calm s : orderly s → safely (force_context_switch s) (calm s).
Proof.
  intros Ho. unfold force_context_switch. destruct (current s) as [c|] eqn:Hc; simpl; [|by apply schedule_calm].
  destruct (wf_current s (or_wf _ Ho) c Hc) as [t Ht]. rewrite (deref_eq _ c t) by done. simpl.
  apply schedule_after; [done|]. case_match; [|by apply calm_refl]. by eapply put_calm.
Qed.

Lemma reschedule_calm s : orderly s → safely (reschedule_if_needed s) (calm s).
Proof.
  intros Ho. unfold reschedule_if_needed. destruct (sched_lock s); [by apply calm_refl|].
  destruct (current s) as [c|] eqn:Hc; [|by apply calm_refl].
  destruct (wf_current s (or_wf _ Ho) c Hc) as [t Ht]. rewrite (deref_eq _ c t) by done. simpl.
  case_match; [by apply schedule_calm|by apply calm_refl].
Qed.

Lemma sleep_calm s d : orderly s → safely (sleep_current_task s d) (calm s).
Proof.
  intros Ho. unfold sleep_current_task. destruct (current s) as [c|] eqn:Hc; [|by apply calm_refl].
  apply safely_bind, returns_safely. eapply returns_mono; [apply read_current_ok, Ho|]. intros now _.
  apply safely_bind, safely_checked; [done|]. intros w _.
  destruct (wf_current s (or_wf _ Ho) c Hc) as [t Ht]. unfold modify. rewrite (deref_eq _ c t) by done. simpl.
  apply schedule_after; [done|]. by eapply put_calm.
Qed.

(** *** The other calm calls *)

Lemma increment_calm s : orderly s → safely (increment_current_task_time s) (calm s).
Proof.
  intros Ho. unfold increment_current_task_time. destruct (current s) as [c|] eqn:Hc; [|by apply calm_refl].
  destruct (wf_current s (or_wf _ Ho) c Hc) as [t Ht]. rewrite (deref_eq _ c t) by done. simpl.
  apply safely_bind, safely_checked; [done|]. intros n _. eapply put_calm; [done..|by right].
Qed.

Lemma stats_calm s i : orderly s → safely (update_task_statistics s i) (calm s).
Proof.
  intros Ho. unfold update_task_statistics. apply returns_safely. step1. eapply returns_mono; [apply scan_ok, Ho|].
  intros [[[j r] t]|] H; [|by apply calm_refl]. apply found_hit in H as (_ & Hs & _ & _).
  step1. eapply returns_mono; [apply read_current_ok, Ho|]. intros now _. by eapply slot_calm.
Qed.

Lemma wake_up_calm s : orderly s → returns (wake_up_tasks s) (calm s).
Proof.
  intros Ho. apply loop_calm; [done|]. intros i s1 Hi Ho1. rewrite queue_task_ok by (apply Ho1 || done). simpl.
  destruct (slot s1 i) as [[r t]|] eqn:Hs; [|by apply calm_refl]. destruct (in_state Sleeping t); [|by apply calm_refl].
  step1. eapply returns_mono; [apply read_current_ok, Ho1|]. intros now _. simpl.
  case_match; [by eapply slot_calm|by apply calm_refl].
Qed.

Lemma slice_calm s v : orderly s → returns (set_global_time_slice s v) (calm s).
Proof.
  intros Ho. apply loop_calm; [done|]. intros i s1 Hi Ho1. rewrite queue_task_ok by (apply Ho1 || done). simpl.
  destruct (slot s1 i) as [[r t]|] eqn:Hs; [by eapply slot_calm|by apply calm_refl].
Qed.

Lemma cleanup_calm s : orderly s → returns (cleanup_zombie_tasks s) (calm s).
Proof.
  intros Ho. apply loop_calm; [done|]. intros i s1 Hi Ho1. rewrite queue_task_ok by (apply Ho1 || done). simpl.
  destruct (slot s1 i) as [[r t]|] eqn:Hs; [|by apply calm_refl]. destruct (in_state Zombie t); [|by apply calm_refl].
  apply slot_Some in Hs as [Hs _]. by eapply dequeue_calm.
Qed.

(** *** Adding and removing tasks *)

(** The tasks are the same. *)
Lemma orderly_ext s s' :
  orderly s → wf s' → current s' = current s →
  (∀ i, 0 ≤ i < 1024 → slot s' i = slot s i) → orderly s'.
Proof.
  intros [H1 H2 H4] Hwf Hc Hs. split; [done|..].
  - intros i j r r' t t' Hi Hj. rewrite !Hs by done. by apply H2.
  - intros i r t Hi. rewrite Hs, Hc by done. by apply H4.
Qed.

(** A control block no slot refers to. *)
Lemma put_fresh_slot s r t i : wf s → pcbs s !! r = None → slot (put s r t) i = slot s i.
Proof.
  intros Hwf Hr. unfold slot. rewrite slot_put_ref. destruct (slot_ref s i) as [r'|] eqn:E; [simpl|done].
  rewrite lookup_insert_ne; [done|]. intros ->. destruct (slot_ref_pcb s i r' Hwf E) as [? ?]. congruence.
Qed.

Lemma enqueue_orderly s i r t :
  orderly s → pcbs s !! r = Some t → 0 ≤ i < 1024 → runqueue s !! Z.to_nat i = Some None →
  (∀ j r' t', 0 ≤ j < 1024 → slot s j = Some (r', t') → id t' ≠ id t) →
  (state t = Running → current s = Some r) → returns (enqueue s i r) orderly.
Proof.
  intros Ho Ht Hi Hfree Hid Hst. eapply returns_mono; [by apply enqueue_ok; [apply Ho|eauto|..]|].
  intros s' [-> Hwf]. set (s' := with_queue _ _ _).
  assert (∀ j x, 0 ≤ j < 1024 → slot s' j = Some x → (j = i ∧ x = (r, t)) ∨ (j ≠ i ∧ slot s j = Some x)) as Hslot.
  { intros j x Hj. unfold slot, slot_ref. simpl. destruct (decide (j = i)) as [->|Hne].
    - rewrite list_lookup_insert_eq by (rewrite (wf_length s); [lia|apply Ho]). simpl. rewrite Ht. simpl.
      intros [= <-]. by left.
    - rewrite list_lookup_insert_ne by lia. by right. }
  split; [done|..].
  - intros j k rj rk tj tk Hj Hk Hsj Hsk He.
    destruct (Hslot j _ Hj Hsj) as [[-> [= -> ->]]|[_ Hj2]], (Hslot k _ Hk Hsk) as [[-> [= -> ->]]|[_ Hk2]].
    + done.
    + by destruct (Hid k rk tk Hk Hk2).
    + by destruct (Hid j rj tj Hj Hj2).
    + by apply (or_unique _ Ho j k rj rk tj tk).
  - intros j rj tj Hj Hsj. destruct (Hslot j _ Hj Hsj) as [[-> [= -> ->]]|[_ Hj2]]; [done|]. by eapply (or_running _ Ho).
Qed.

Lemma add_task_orderly s r t :
  orderly s → pcbs s !! r = Some t → (∀ j r' t', 0 ≤ j < 1024 → slot s j = Some (r', t') → id t' ≠ id t) →
  (state t = Running → current s = Some r) → returns (add_task s r) orderly.
Proof.
  intros Ho Ht Hid Hst. unfold add_task. case_match; [done|]. step1.
  eapply returns_mono; [apply free_slot_ok, Ho|]. intros o Hf. apply free_slot_found in Hf; [|apply Ho].
  destruct o as [i|]; [|done]. destruct Hf as (Hi & Hq & _). by eapply enqueue_orderly.
Qed.

(** The block of a new task must not look like a task of the queue. *)
Lemma create_orderly new s e st :
  let t := new (next_task_id s) e st in
  orderly s → (∀ j r' t', 0 ≤ j < 1024 → slot s j = Some (r', t') → id t' ≠ id t) → state t ≠ Running →
  safely (create_task new s e st) (λ '(_, s'), orderly s').
Proof.
  intros t Ho Hid Hst. unfold create_task. case_match; [done|].
  apply safely_bind, safely_checked; [done|]. intros n _.
  assert (orderly (with_next_id s n)) as Ho1.
  { apply (orderly_ext s); [done|apply with_next_id_wf, Ho|done|done]. }
  apply safely_bind, returns_safely. eapply returns_mono; [apply free_slot_ok, Ho1|]. intros o Hf.
  apply free_slot_found in Hf; [|apply Ho1]. destruct o as [i|]; [|done]. destruct Hf as (Hi & Hq & _).
  set (r := fresh _). assert (pcbs s !! r = None) as Hr by exact (fresh_pcb s).
  assert (∀ j, slot (put (with_next_id s n) r t) j = slot s j) as Hsl
    by (intros j; by apply (put_fresh_slot (with_next_id s n)); [apply Ho1|]).
  apply returns_safely. step1. eapply returns_mono; [|by intros s'].
  apply (enqueue_orderly _ i r t); [|simpl; by rewrite lookup_insert_eq|done|done| |done].
  - apply (orderly_ext (with_next_id s n)); [done|apply put_wf, Ho1|done|]. intros j _. apply Hsl.
  - intros j r' t' Hj. rewrite Hsl. by apply Hid.
Qed.

Lemma init_orderly s r t :
  orderly s → pcbs s !! r = Some t → (∀ j r' t', 0 ≤ j < 1024 → slot s j = Some (r', t') → id t' ≠ id t ∧ state t' ≠ Running) →
  returns (init_scheduler s r) orderly.
Proof.
  intros Ho Ht Hid. unfold init_scheduler, modify. rewrite (deref_eq _ r t) by done. simpl.
  set (s1 := put (with_current s (Some r)) r (set_state t Running)).
  assert (∀ j x, 0 ≤ j < 1024 → slot s1 j = Some x → slot s j = Some x) as Hsl.
  { intros j [r' t'] Hj [(?&?&Href)|[Hne Hs]]%slot_put; simpl in *; [|done]. exfalso.
    assert (slot s j = Some (r, t)) as Hs by (unfold slot; change (slot_ref s j = Some r) in Href; rewrite Href; simpl; by rewrite Ht).
    by destruct (Hid j r t Hj Hs). }
  assert (orderly s1) as Ho1.
  { split.
    - apply put_wf, with_current_wf; [apply Ho|]. intros ? [= <-]. eauto.
    - intros i j ri rj ti tj Hi Hj Hsi Hsj. apply (or_unique _ Ho i j ri rj ti tj); auto.
    - intros i ri ti Hi Hsi Hrun. by destruct (Hid i ri ti Hi (Hsl _ _ Hi Hsi)). }
  apply (add_task_orderly s1 r (set_state t Running)); [done|simpl; by rewrite lookup_insert_eq| |done].
  intros j r' t' Hj Hs. by destruct (Hid j r' t' Hj (Hsl _ _ Hj Hs)).
Qed.

Lemma remove_orderly s : orderly s → returns (remove_current_task s) orderly.
Proof.
  intros Ho. pose proof (or_wf _ Ho) as Hwf. unfold remove_current_task. destruct (current s) as [c|] eqn:Hc; [|done].
  destruct (wf_current s Hwf c Hc) as [t Ht]. rewrite (deref_eq _ c t) by done. cbn [mbind outcome_bind].
  assert (wf (with_current s None)) as Hwf1 by (by apply with_current_wf). step1.
  eapply returns_mono; [by apply scan_ok|].
  assert (∀ s' (P : Z → Prop), wf s' →
    (∀ j x, 0 ≤ j < 1024 → slot s' j = Some x → slot s j = Some x ∧ P j) →
    (∀ j, 0 ≤ j < 1024 → P j → slot s j ≠ Some (c, t)) → orderly s') as Hdone.
  { intros s' P Hw Hs HP. split; [done|..].
    - intros i j ri rj ti tj Hi Hj [Hsi _]%Hs [Hsj _]%Hs; [|done..]. by apply (or_unique _ Ho i j ri rj ti tj).
    - intros i ri ti Hi [Hsi HPi]%Hs Hrun; [|done]. exfalso. pose proof (or_running _ Ho i ri ti Hi Hsi Hrun).
      simplify_eq. pose proof Hsi as [_ ?]%slot_Some. simplify_eq. by apply (HP i). }
  intros [[[i r] t']|] Hf.
  - apply found_hit in Hf as (Hi & Hs & Hid%Z.eqb_eq & _). change (slot s i = Some (r, t')) in Hs.
    pose proof Hs as [Href _]%slot_Some.
    eapply returns_mono; [by eapply dequeue_ok|]. intros s' [-> Hw]. apply (Hdone _ (λ j, j ≠ i)); [done..| |].
    + intros j [rj tj] Hj Hsj. apply slot_clear in Hsj; [|lia..]. done.
    + intros j Hj Hne Hsj. apply Hne. by apply (or_unique _ Ho j i c r t t').
  - apply (Hdone _ (λ _, True)); [done..|by split|]. intros j Hj _ Hs.
    pose proof (found_miss _ _ Hf j c t Hj Hs) as Hno. by apply Z.eqb_neq in Hno.
Qed.

Lemma occupied_none q i r : occupied q = 0 → q !! i ≠ Some (Some r).
Proof.
  revert i. induction q as [|o q IH]; intros i; simpl; [done|]. pose proof (occupied_bounds q).
  intros Hz. destruct o; [lia|]. destruct i; simpl; [done|]. apply IH. lia.
Qed.

Lemma reset_orderly s : orderly s → returns (reset_scheduler s) orderly.
Proof.
  intros Ho. eapply returns_mono; [apply reset_ok, Ho|]. intros s' (Hwf & Hz & _).
  assert (∀ i x, slot s' i ≠ Some x) as Hno.
  { intros i [r t] [Hs _]%slot_Some. unfold slot_ref in Hs. rewrite (wf_count _ Hwf) in Hz.
    destruct (runqueue s' !! Z.to_nat i) as [o|] eqn:E; [|done]. simpl in Hs. subst o. by eapply occupied_none. }
  split; [done|..]; intros; by edestruct Hno.
Qed.

Lemma idle_orderly new s : orderly s → safely (get_idle_task new s) (λ '(_, s'), orderly s').
Proof.
  intros Ho. pose proof (idle_safe new s (or_wf _ Ho)) as Hw. revert Hw. unfold get_idle_task.
  destruct (idle_pcb s); [done|]. simpl. intros Hw. apply (orderly_ext s); [done..|].
  intros i _. apply (put_fresh_slot s); [apply Ho|apply fresh_pcb].
Qed.

(** ** Sequences of calls *)

Context (new : Z → Z → Z → Task).

(** What a caller of [create_task], [add_task] and [init_scheduler] has to respect:
    the block that enters the queue has an id no block of the queue has and is not
    running, and [init_scheduler] comes when no task of the queue runs.
    [schedule_with_policy] is left out. *)
Definition unused_id s (t : Task) : Prop :=
  ∀ j r' t', 0 ≤ j < 1024 → slot s j = Some (r', t') → id t' ≠ id t.
Definition op_fair s (o : op) : Prop :=
  match o with
  | OpAdd r => ∃ t, pcbs s !! r = Some t ∧ unused_id s t ∧ state t ≠ Running
  | OpInit r => ∃ t, pcbs s !! r = Some t ∧ unused_id s t ∧
      ∀ j r' t', 0 ≤ j < 1024 → slot s j = Some (r', t') → state t' ≠ Running
  | OpCreate e st => let t := new (next_task_id s) e st in unused_id s t ∧ state t ≠ Running
  | OpPolicy => False
  | _ => True
  end.

Lemma safely_calm s (m : outcome Sched) : orderly s → safely m (calm s) → safely m orderly.
Proof. intros Ho Hm. eapply safely_mono; [exact Hm|]. intros s'. by apply calm_orderly. Qed.
Lemma returns_calm s (m : outcome Sched) : orderly s → returns m (calm s) → safely m orderly.
Proof. intros Ho Hm. by apply (safely_calm s), returns_safely. Qed.

Lemma snd_safely {A} (m : outcome (A * Sched)) (P : Sched → Prop) :
  safely m (λ '(_, s'), P s') → safely (snd <$> m) P.
Proof. by destruct m as [[]| | |]. Qed.

Create HintDb calm.
#[local] Hint Resolve schedule_calm tick_calm force_switch_calm reschedule_calm sleep_calm increment_calm stats_calm
  wake_up_calm slice_calm cleanup_calm lock_calm : calm.
#[local] Hint Extern 1 (returns (modify_task _ _ _) _) => apply modify_task_calm; [done|by intros []] : calm.
#[local] Hint Extern 1 (returns (modify_current _ _) _) => apply modify_current_calm; [done|by intros []] : calm.
#[local] Hint Extern 2 (safely _ orderly) => eapply safely_calm; [done|] : calm.
#[local] Hint Extern 3 (safely _ (calm _)) => apply returns_safely : calm.

Lemma run_op_orderly s o : orderly s → op_fair s o → safely (run_op new s o) orderly.
Proof.
  intros Ho Hf. destruct o; cbn [run_op op_fair] in *;
    unfold set_task_ready, set_task_blocked, mark_task_as_zombie, set_task_quantum, set_task_exit_code,
      set_current_task_state, update_current_task_priority; auto with nocore calm.
  - eapply safely_calm; [exact Ho|]. by apply schedule_after, lock_calm.
  - done.
  - destruct Hf as (t & Ht & Hid & Hst). by apply returns_safely, (add_task_orderly s r t).
  - destruct Hf as (t & Ht & Hid & Hst). apply returns_safely, (init_orderly s r t); [done|done|].
    intros j r' t' Hj Hs. split; [by eapply Hid|by eapply Hst].
  - by apply returns_safely, remove_orderly.
  - destruct Hf as [Hid Hst]. by apply snd_safely, create_orderly.
  - by apply snd_safely, idle_orderly.
  - by apply returns_safely, reset_orderly.
  - apply (safely_calm s); [done|]. destruct b; by apply lock_calm.
Qed.

(** States reached by calls that respect [op_fair]. *)
Inductive reached (s0 : Sched) : Sched → Prop :=
| reached_start : reached s0 s0
| reached_call s o s' : reached s0 s → op_fair s o → run_op new s o = Ret s' → reached s0 s'.

Lemma reached_orderly s0 s : orderly s0 → reached s0 s → orderly s.
Proof.
  intros Ho Hr. induction Hr as [|s o s' _ IH Hf E]; [done|].
  pose proof (run_op_orderly s o IH Hf) as Hs. by rewrite E in Hs.
Qed.

(** C6: At most one task runs.  Over every sequence of scheduler calls other than
    [schedule_with_policy] in which [add_task], [create_task] and [init_scheduler]
    bring a block whose id no task of the queue has, [add_task] and [create_task] one
    that is not running, and [init_scheduler] is called when no task of the queue
    runs, from a state with unique ids in which only the current task runs (the empty queue
    at start-up, for one): the ids in the queue stay unique, a slot in state
    [Running] holds the current task, and so at most one slot holds a running task. *)
Theorem one_running_task s0 s :
  orderly s0 → reached s0 s →
  (∀ i r t, 0 ≤ i < 1024 → slot s i = Some (r, t) → state t = Running → current s = Some r) ∧
  (∀ i j r r' t t', 0 ≤ i < 1024 → 0 ≤ j < 1024 → slot s i = Some (r, t) → slot s j = Some (r', t') →
    id t = id t' ∨ state t = Running ∧ state t' = Running → i = j).
Proof.
  intros Ho Hr. apply reached_orderly in Hr; [|done]. split.
  - intros i r t Hi Hs. by eapply or_running.
  - intros i j r r' t t' Hi Hj Hs Hs' [Hid|[Hst Hst']]; [by eapply or_unique|].
    pose proof (or_running _ Hr i r t Hi Hs Hst). pose proof (or_running _ Hr j r' t' Hj Hs' Hst').
    simplify_eq. pose proof Hs as [_ ?]%slot_Some. pose proof Hs' as [_ ?]%slot_Some. simplify_eq.
    by apply (or_unique _ Hr i j _ _ _ _ Hi Hj Hs Hs').
Qed.
End states.

(** ** The first task *)

Definition solo : Sched :=
  {| pcbs := {[5 := sample_new 0 0 0x1000]}; runqueue := replicate 1024 None; current := None; task_count := 0;
     sched_lock := false; next_task_id := 1; idle_pcb := None; rsp := 0x9000; halts := 0 |}.

Lemma solo_slot i : slot solo i = None.
Proof.
  unfold slot, slot_ref. cbn [runqueue solo]. destruct (replicate 1024 None !! Z.to_nat i) as [o|] eqn:E; [|done].
  apply lookup_replicate in E as [-> _]. done.
Qed.

Lemma solo_orderly : orderly solo.
Proof. split; [apply wfb_ok; by vm_compute|..]; intros *; by rewrite solo_slot. Qed.

Lemma solo_fair : op_fair sample_new solo (OpInit 5).
Proof.
  exists (sample_new 0 0 0x1000). split; [by vm_compute|]. split; [unfold unused_id|]; intros *; by rewrite solo_slot.
Qed.

Lemma one_running_task_witness :
  ∃ s, run_op (prof := dev) sample_new solo (OpInit 5) = Ret s ∧ current s = Some 5 ∧
    ∀ i r t, 0 ≤ i < 1024 → slot s i = Some (r, t) → state t = Running → r = 5.
Proof.
  assert (current <$> run_op (prof := dev) sample_new solo (OpInit 5) = Ret (Some 5)) as E by (vm_compute; reflexivity).
  destruct (run_op (prof := dev) sample_new solo (OpInit 5)) as [s| | |] eqn:Es; [|discriminate E..].
  injection E as E. exists s. split; [reflexivity|]. split; [exact E|]. intros i r t Hi Hs Hst.
  destruct (one_running_task (prof := dev) sample_new solo s solo_orderly
    (reached_call _ solo solo (OpInit 5) s (reached_start _ solo) solo_fair Es)) as [H _].
  rewrite (H i r t Hi Hs Hst) in E. injection E as E. exact E.
Defined.

(** A second [init_scheduler] while the first task runs leaves two of them running. *)
Example second_init :
  (s ← init_scheduler (prof := dev) (put solo 6 (sample_new 9 0 0x2000)) 5;
   s ← init_scheduler (prof := dev) s 6;
   a ← is_task_running s 0; b ← is_task_running s 9; Ret (a, b)) = Ret (true, true).
Proof. by vm_compute. Qed.
