(* ===== verification/RoundRobin.v ===== *)
(** * Preemptive round robin (src/scheduler/scheduler.rs)

    What repeated timer ticks do with the queue as start-up leaves it:
    [init_scheduler] with a first task of id 0, which takes slot 0, and then
    [create_task], which numbers its tasks from 1 and takes the next slots, so that
    slot [i] holds the task of id [i].  The theorem says which task is current after
    any number of calls of [tick] and how far its time slice has run.  (When ids and
    slots differ by one, every second task starves:
    [SchedulerTheorems.odd_slots_starve].) *)

From S2P Require Import Prelude Scheduler SchedulerSpec SchedulerTheorems.
Open Scope Z_scope.

(** The slot of the current task after [n] ticks, with a time slice of [q] ticks
    and slot [k] at the start. *)
Definition turn (m q k n : Z) : Z := (k + n / q) mod m.

(** Task [t] in slot [i] of a queue of tasks with time slice [q], when slot [k] is
    current and has run [c] ticks of its slice. *)
Record turn_task (q k c i : Z) (t : Task) : Prop := {
  tt_id : id t = i;
  tt_state : state t = Ready ∨ (i = k ∧ state t = Running);
  tt_slice : time_slice t = q;
  tt_ticks : tick_count t = if decide (i = k) then c else 0
}.

Record rotation (m q k c : Z) (s : Sched) : Prop := {
  rot_wf : wf s;
  rot_lock : sched_lock s = false;
  rot_size : 0 < m ≤ 1024;
  rot_slot : 0 ≤ k < m;
  rot_current : current s = slot_ref s k;
  rot_tasks : ∀ i, 0 ≤ i < m → ∃ r t, slot s i = Some (r, t) ∧ turn_task q k c i t;
  rot_empty : ∀ i, m ≤ i < 1024 → slot s i = None
}.

Section rotation.
Context {prof : Profile}.
Implicit Types (s : Sched) (t : Task).

(** References of different slots are different, since the ids are. *)
Lemma rotation_inj m q k c s i j r t t' :
  rotation m q k c s → 0 ≤ i < m → 0 ≤ j < m →
  slot s i = Some (r, t) → slot s j = Some (r, t') → i = j.
Proof.
  intros Hr Hi Hj Hsi Hsj.
  destruct (rot_tasks _ _ _ _ _ Hr i Hi) as (r1 & t1 & H1 & [Hid1 _ _ _]).
  destruct (rot_tasks _ _ _ _ _ Hr j Hj) as (r2 & t2 & H2 & [Hid2 _ _ _]).
  rewrite Hsi in H1. rewrite Hsj in H2. simplify_eq.
  apply slot_Some in Hsi as [_ ?]. apply slot_Some in Hsj as [_ ?]. simplify_eq. lia.
Qed.

(** The blocks may change as long as each stays the task of its slot. *)
Lemma rotation_update m q k c k' c' s s' :
  rotation m q k c s → wf s' → sched_lock s' = false → runqueue s' = runqueue s →
  0 ≤ k' < m → current s' = slot_ref s k' →
  (∀ i r t, 0 ≤ i < m → slot s i = Some (r, t) → turn_task q k c i t →
     ∃ t', pcbs s' !! r = Some t' ∧ turn_task q k' c' i t') →
  rotation m q k' c' s'.
Proof.
  intros [Hwf Hl Hm Hk Hc Ht He] Hwf' Hl' Hq Hk' Hc' Htasks.
  assert (∀ i, slot_ref s' i = slot_ref s i) as Href by (intros; unfold slot_ref; by rewrite Hq).
  split; [done..| | |].
  - by rewrite Href.
  - intros i Hi. destruct (Ht i Hi) as (r & t & Hs & Htt).
    destruct (Htasks i r t Hi Hs Htt) as (t' & Ht' & Htt'). exists r, t'. split; [|done].
    apply slot_intro; [|done]. rewrite Href. by apply slot_Some in Hs as [? _].
  - intros i Hi. specialize (He i Hi). unfold slot in *. rewrite Href.
    destruct (slot_ref s i) as [r|] eqn:Hr; [|done].
    destruct (slot_ref_task s i r Hwf Hr) as (t & _ & Ht'). simpl in He. by rewrite Ht' in He.
Qed.

(** The block of slot [i] after [schedule] demoted the current task. *)
Lemma demoted_turn m q k s c ct i r t :
  rotation m q k 0 s → current s = Some c → pcbs s !! c = Some ct →
  0 ≤ i < m → slot s i = Some (r, t) → turn_task q k 0 i t →
  ∃ t1, pcbs (demoted s c ct) !! r = Some t1 ∧ id t1 = i ∧ state t1 = Ready ∧
        time_slice t1 = q ∧ tick_count t1 = 0.
Proof.
  intros Hr Hc Hct Hi Hs [Hid Hst Hsl Htk].
  pose proof (demoted_slot s c ct i r t Hct Hs) as Hd. apply slot_Some in Hd as [_ Hd].
  eexists. split; [exact Hd|]. assert (tick_count t = 0) as Htk0.
  { rewrite Htk. by destruct (decide (i = k)). }
  pose proof Hs as [_ Ht]%slot_Some. case_decide as Hrc.
  - subst r. simplify_eq. unfold in_state. case_bool_decide; simpl; [done|].
    by destruct Hst as [|[_ ?]].
  - destruct Hst as [|[-> _]]; [done|]. exfalso. apply Hrc.
    apply slot_Some in Hs as [Hs _]. pose proof (rot_current _ _ _ _ _ Hr). congruence.
Qed.

(** Once the current task is demoted, exactly the first [m] slots are ready. *)
Lemma rotation_ready m q k s c ct i :
  rotation m q k 0 s → current s = Some c → pcbs s !! c = Some ct → 0 ≤ i < 1024 →
  ready_at (demoted s c ct) i = bool_decide (i < m).
Proof.
  intros Hr Hc Hct Hi. unfold ready_at. case_bool_decide as Him.
  - destruct (rot_tasks _ _ _ _ _ Hr i ltac:(lia)) as (r & t & Hs & Htt).
    destruct (demoted_turn m q k s c ct i r t Hr Hc Hct ltac:(lia) Hs Htt) as (t1 & Ht1 & _ & Hst & _).
    pose proof (demoted_slot s c ct i r t Hct Hs) as Hd. rewrite Hd. apply slot_Some in Hd as [_ Hd].
    rewrite Hd in Ht1. injection Ht1 as ->. unfold in_state. by rewrite bool_decide_true.
  - rewrite demoted_slot_none; [done|by eapply rot_wf|]. eapply rot_empty; [done|lia].
Qed.

(** The next slot of the rotation. *)
Definition succ_slot (m k : Z) : Z := if decide (k + 1 < m) then k + 1 else 0.

Lemma rotation_pick m q k s c ct r :
  rotation m q k 0 s → current s = Some c → pcbs s !! c = Some ct → id ct = k →
  cyclic_first (demoted s c ct) (id ct mod 1024 + 1) r → r = succ_slot m k.
Proof.
  intros Hr Hc Hct Hid Hf. pose proof (rot_size _ _ _ _ _ Hr). pose proof (rot_slot _ _ _ _ _ Hr).
  rewrite Hid, Z.mod_small in Hf by lia. apply (cyclic_first_prefix m) in Hf; [done| |lia|lia].
  intros; by eapply rotation_ready.
Qed.

(** One [schedule] with a fresh slice: the next slot, or slot 0 after the last. *)
Lemma schedule_rotates m q k s : rotation m q k 0 s → returns (schedule s) (rotation m q (succ_slot m k) 0).
Proof.
  intros Hr. pose proof (rot_slot _ _ _ _ _ Hr) as Hk.
  destruct (rot_tasks _ _ _ _ _ Hr k Hk) as (c & ct & Hsk & [Hid _ _ _]).
  pose proof Hsk as [Href Hct]%slot_Some.
  assert (current s = Some c) as Hcur by (rewrite (rot_current _ _ _ _ _ Hr); done).
  eapply returns_mono; [apply (schedule_ok s c ct); [by eapply rot_wf|by eapply rot_lock|done..]|].
  intros s' (Hwf' & Hlock' & Hq & _ & r & Hcf & Hcase).
  apply (rotation_pick m q k s c ct r) in Hcf as ->; [|done..].
  assert (0 ≤ succ_slot m k < m) as Hnm by (unfold succ_slot; case_decide; lia).
  rewrite (proj2 (Z.eqb_neq _ (-1))) in Hcase by lia.
  destruct Hcase as (n & nt & Hsn & _ & Hcase). apply slot_Some in Hsn as [Hrn Hnt].
  assert (slot_ref s (succ_slot m k) = Some n) as Hrn'
    by (revert Hrn; unfold demoted; by destruct (in_state Running ct)).
  destruct (rot_tasks _ _ _ _ _ Hr _ Hnm) as (n' & nt0 & Hs0 & Htt0).
  pose proof Hs0 as [Hn' _]%slot_Some. assert (n' = n) as -> by congruence.
  destruct (demoted_turn m q k s c ct _ _ _ Hr Hcur Hct Hnm Hs0 Htt0) as (t1 & Ht1 & Hid1 & Hst1 & Hsl1 & Htk1).
  assert (t1 = nt) as -> by congruence. apply (rotation_update m q k 0 _ 0 s s' Hr Hwf' Hlock' Hq Hnm).
  - rewrite Hrn'. destruct (Z.eqb_spec (id nt) (id ct)) as [E|]; [|by destruct Hcase].
    destruct Hcase as (_ & Hc' & _). rewrite Hc'. f_equal.
    assert (succ_slot m k = k) as Enk by lia. rewrite Enk in Hrn'. congruence.
  - intros i r t Hi Hs Htt.
    destruct (demoted_turn m q k s c ct i r t Hr Hcur Hct Hi Hs Htt) as (t2 & Ht2 & Hid2 & Hst2 & Hsl2 & Htk2).
    destruct (Z.eqb_spec (id nt) (id ct)) as [E|Hne2].
    + destruct Hcase as (Hp & _). exists t2. split; [by rewrite Hp|].
      split; [done|by left|done|by case_decide].
    + destruct Hcase as (_ & Hp & _). rewrite Hp. destruct (decide (r = n)) as [->|Hrn2].
      * rewrite lookup_insert_eq. eexists. split; [done|].
        assert (t2 = nt) as -> by congruence. split; simpl; [done|right; split; [lia|done]|done|by case_decide].
      * rewrite lookup_insert_ne by done. exists t2. split; [done|].
        split; [done|by left|done|by case_decide].
Qed.

(** Writing the tick counter of the current task. *)
Lemma count_turn m q k c c' s r t :
  rotation m q k c s → current s = Some r → pcbs s !! r = Some t →
  rotation m q k c' (put s r (set_tick_count t c')).
Proof.
  intros Hr Hc Ht. pose proof (rot_slot _ _ _ _ _ Hr) as Hk.
  destruct (rot_tasks _ _ _ _ _ Hr k Hk) as (r0 & t0 & Hs0 & _).
  pose proof Hs0 as [Hr0 Ht0]%slot_Some. pose proof (rot_current _ _ _ _ _ Hr) as Hcur.
  assert (r0 = r) as -> by congruence. assert (t0 = t) as -> by congruence.
  apply (rotation_update m q k c k c' s); [done|apply put_wf; exact (rot_wf _ _ _ _ _ Hr)|
    exact (rot_lock _ _ _ _ _ Hr)|done|done|done|].
  intros i r' t' Hi Hs' [Hid Hst Hsl Htk]. simpl. destruct (decide (r' = r)) as [->|Hne].
  - assert (i = k) as -> by (by eapply rotation_inj).
    apply slot_Some in Hs' as [_ Ht']. assert (t' = t) as -> by congruence.
    rewrite lookup_insert_eq. eexists. split; [done|]. split; simpl; [done..|]. by rewrite decide_True.
  - rewrite lookup_insert_ne by done. pose proof Hs' as [? ?]%slot_Some. exists t'. split; [done|].
    assert (i ≠ k) by congruence. split; [done..|]. by rewrite decide_False in Htk |- * by done.
Qed.

Lemma tick_rotates m q k c s :
  rotation m q k c s → 0 ≤ c < q → q < 2 ^ 32 →
  returns (tick s) (λ s', if decide (c + 1 < q) then rotation m q k (c + 1) s'
                          else rotation m q (succ_slot m k) 0 s').
Proof.
  intros Hr Hc Hq. pose proof (rot_slot _ _ _ _ _ Hr) as Hk.
  destruct (rot_tasks _ _ _ _ _ Hr k Hk) as (r & t & Hs & [_ _ Hsl Htk]).
  pose proof Hs as [Href Ht]%slot_Some. rewrite decide_True in Htk by done.
  assert (current s = Some r) as Hcur by (rewrite (rot_current _ _ _ _ _ Hr); done).
  unfold tick. rewrite Hcur, (deref_eq s r t Ht). cbn [mbind outcome_bind].
  rewrite Htk, checked_ok by (split; lia). cbn [mbind outcome_bind]. rewrite Hsl.
  pose proof (count_turn m q k c (c + 1) s r t Hr Hcur Ht) as Hr1.
  case_decide as Hlt; [by rewrite (proj2 (Z.leb_gt _ _)) by lia|].
  rewrite (proj2 (Z.leb_le _ _)) by lia. unfold modify.
  rewrite (deref_eq _ r (set_tick_count t (c + 1))) by apply lookup_insert_eq. simpl.
  apply schedule_rotates. apply (count_turn m q k (c + 1) 0 _ r (set_tick_count t (c + 1)) Hr1);
    [done|apply lookup_insert_eq].
Qed.

(** ** The turn as arithmetic *)

Lemma succ_slot_turn m k j : 0 < m → k = j mod m → succ_slot m k = (j + 1) mod m.
Proof.
  intros Hm ->. unfold succ_slot. pose proof (Z.mod_pos_bound j m Hm) as Hb.
  rewrite <-(Z.add_mod_idemp_l j 1) by lia. set (x := j mod m) in *.
  case_decide; [by rewrite Z.mod_small by lia|].
  replace (x + 1) with m by lia. by rewrite Z.mod_same by lia.
Qed.

Lemma turn_start m q k : 0 ≤ k < m → 0 < q → turn m q k 0 = k.
Proof. intros Hk Hq. unfold turn. rewrite Z.div_0_l, Z.add_0_r by lia. by apply Z.mod_small. Qed.

(** Counting ticks: within a slice only the counter moves, and the tick that ends
    it moves the turn on. *)
Lemma turn_step m q k n :
  0 < m → 0 < q → 0 ≤ n →
  if decide (n mod q + 1 < q) then turn m q k (n + 1) = turn m q k n ∧ (n + 1) mod q = n mod q + 1
  else turn m q k (n + 1) = succ_slot m (turn m q k n) ∧ (n + 1) mod q = 0.
Proof.
  intros Hm Hq Hn. pose proof (Z.mod_pos_bound n q Hq). pose proof (Z.div_mod n q ltac:(lia)) as Hd.
  case_decide.
  - assert ((n + 1) / q = n / q) as E by (symmetry; apply (Z.div_unique_pos _ _ _ (n mod q + 1)); lia).
    split; [unfold turn; by rewrite E|]. symmetry. apply (Z.mod_unique_pos _ _ (n / q)); lia.
  - assert ((n + 1) / q = n / q + 1) as E by (symmetry; apply (Z.div_unique_pos _ _ _ 0); lia).
    split; [|symmetry; apply (Z.mod_unique_pos _ _ (n / q + 1)); lia].
    unfold turn at 1. rewrite E, Z.add_assoc. symmetry. by apply succ_slot_turn.
Qed.

Lemma ticks_rotate m q k s n :
  rotation m q k 0 s → 0 < q < 2 ^ 32 → 0 ≤ n →
  returns (for_each 0 n (λ _, tick) s) (rotation m q (turn m q k n) (n mod q)).
Proof.
  intros Hr Hq Hn.
  apply (for_each_inv (λ n, rotation m q (turn m q k n) (n mod q))); [done| |].
  - rewrite turn_start, Z.mod_0_l by (lia || by eapply rot_slot). done.
  - intros i s1 Hi Hs1. pose proof (Z.mod_pos_bound i q ltac:(lia)).
    pose proof (rot_size _ _ _ _ _ Hr).
    pose proof (turn_step m q k i ltac:(lia) ltac:(lia) ltac:(lia)) as Hstep.
    eapply returns_mono; [apply (tick_rotates _ _ _ _ _ Hs1); lia|]. intros s2 Hs2.
    case_decide; destruct Hstep as [-> ->]; exact Hs2.
Qed.

(** Slot [i] is current exactly in the slices congruent to its distance from the
    first one. *)
Lemma turn_iff m q k i n :
  0 ≤ i < m → turn m q k n = i ↔ (n / q) mod m = (i - k) mod m.
Proof.
  intros Hi. unfold turn. split.
  - intros <-. rewrite Zminus_mod_idemp_l. f_equal. lia.
  - intros H. rewrite <-Z.add_mod_idemp_r, H, Z.add_mod_idemp_r by lia.
    replace (k + (i - k)) with i by lia. by apply Z.mod_small.
Qed.

End rotation.

(** ** Claims *)

(** C7: preemptive round robin, tick by tick, for a queue in which slot [i] holds
    the task of id [i], for [i] below [m], all of them ready or (the current one)
    running, with equal time slices of [q] ticks and tick counters 0, the other
    slots empty, the scheduler not locked, and slot [k] current: any number [n] of
    timer ticks returns and leaves slot [(k + n / q) mod m] current, [n mod q] ticks into its
    slice, and every other task ready.  So slot [i] is current exactly in the slices
    congruent to [i - k] modulo [m]: once in every [m] slices. *)
Theorem ticks_round_robin {prof : Profile} m q k s :
  rotation m q k 0 s → 0 < q < 2 ^ 32 →
  (∀ n, 0 ≤ n → returns (for_each 0 n (λ _, tick) s) (λ s',
     let j := (k + n / q) mod m in
     current s' = slot_ref s' j ∧
     (∃ r t, slot s' j = Some (r, t) ∧ id t = j ∧ tick_count t = n mod q) ∧
     ∀ i, 0 ≤ i < m → i ≠ j →
       ∃ r t, slot s' i = Some (r, t) ∧ id t = i ∧ state t = Ready ∧ tick_count t = 0 ∧ current s' ≠ Some r)) ∧
  (∀ i n, 0 ≤ i < m → (k + n / q) mod m = i ↔ (n / q) mod m = (i - k) mod m).
Proof.
  intros Hr Hq. split; [|intros; by apply turn_iff].
  intros n Hn. eapply returns_mono; [by apply ticks_rotate|]. intros s' Hr'. cbv zeta. fold (turn m q k n).
  pose proof (rot_slot _ _ _ _ _ Hr') as Hk.
  split; [by eapply rot_current|]. destruct (rot_tasks _ _ _ _ _ Hr' _ Hk) as (r & t & Hs & Htt).
  split; [exists r, t; split; [done|]; split; [apply Htt|]; rewrite (tt_ticks _ _ _ _ _ Htt); by rewrite decide_True|].
  intros i Hi Hne. destruct (rot_tasks _ _ _ _ _ Hr' i Hi) as (r' & t' & Hs' & [Hid Hst _ Htk]).
  exists r', t'. rewrite decide_False in Htk by done. split_and!; [done|done| |done|].
  - by destruct Hst as [|[? _]].
  - rewrite (rot_current _ _ _ _ _ Hr'). pose proof Hs as [-> _]%slot_Some. intros [= ->].
    apply Hne. by eapply rotation_inj.
Qed.

(** ** Start-up with four tasks *)

(** The block of the first task exists, and nothing is queued. *)
Definition unbooted : Sched := put empty_sched 5 (sample_new 0 0 0x1000).
Definition booted_tasks : outcome Sched :=
  s0 ← init_scheduler (prof := dev) unbooted 5;
  '(_, s1) ← create_task (prof := dev) sample_new s0 0 0x2000;
  '(_, s2) ← create_task (prof := dev) sample_new s1 0 0x3000;
  '(_, s3) ← create_task (prof := dev) sample_new s2 0 0x4000;
  Ret s3.
Definition booted : Sched := match booted_tasks with Ret s => s | _ => empty_sched end.

Definition turn_taskb (q k c i : Z) (t : Task) : bool :=
  (id t =? i) && (in_state Ready t || ((i =? k) && in_state Running t)) &&
  (time_slice t =? q) && (tick_count t =? (if i =? k then c else 0)).

Lemma turn_taskb_ok q k c i t : turn_taskb q k c i t = true → turn_task q k c i t.
Proof.
  unfold turn_taskb, in_state. intros H. apply andb_true_iff in H as [H Htk].
  apply andb_true_iff in H as [H Hsl]. apply andb_true_iff in H as [Hid Hst].
  apply Z.eqb_eq in Hid, Hsl, Htk. split; [done| |done|].
  - apply orb_true_iff in Hst as [Hst|Hst]; [left; by apply bool_decide_eq_true in Hst|right].
    apply andb_true_iff in Hst as [? Hst]. apply bool_decide_eq_true in Hst. split; [lia|done].
  - rewrite Htk. destruct (Z.eqb_spec i k); [by rewrite decide_True|by rewrite decide_False].
Qed.

Lemma forallb_seqZ (p : Z → bool) a n i : forallb p (seqZ a n) = true → a ≤ i < a + n → p i = true.
Proof. rewrite forallb_forall. intros H Hi. apply H, list_elem_of_In, elem_of_seqZ. lia. Qed.

Lemma booted_rotation : rotation 4 10 0 0 booted.
Proof.
  split; [apply wfb_ok; vm_compute; reflexivity|vm_compute; reflexivity|lia|lia|vm_compute; reflexivity|..].
  - assert (forallb (λ i, match slot booted i with Some (_, t) => turn_taskb 10 0 0 i t | None => false end)
      (seqZ 0 4) = true) as Hall by (by vm_compute).
    intros i Hi. apply (forallb_seqZ _ 0 4 i) in Hall; [|lia]. cbv beta in Hall.
    destruct (slot booted i) as [[r t]|]; [|done]. exists r, t. split; [done|]. by apply turn_taskb_ok.
  - assert (forallb (λ i, match slot booted i with Some _ => false | None => true end) (seqZ 4 1020) = true)
      as Hall by (by vm_compute).
    intros i Hi. apply (forallb_seqZ _ 4 1020 i) in Hall; [|lia]. cbv beta in Hall. by destruct (slot booted i).
Qed.

(** Start-up through [init_scheduler] and [create_task]; after 1234 ticks of slices
    of 10 ticks slot 3 is current. *)
Lemma ticks_round_robin_witness :
  booted_tasks = Ret booted ∧
  returns (for_each 0 1234 (λ _, tick (prof := dev)) booted) (λ s', current s' = slot_ref s' 3).
Proof.
  split; [vm_compute; reflexivity|].
  destruct (ticks_round_robin (prof := dev) 4 10 0 booted booted_rotation ltac:(lia)) as [H _].
  eapply returns_mono; [apply (H 1234); lia|]. intros s' [Hc _]. exact Hc.
Defined.

Example booted_ticks :
  (s ← for_each 0 10 (λ _, tick (prof := dev)) booted; get_current_task_id s) = Ret 1 ∧
  (s ← for_each 0 40 (λ _, tick (prof := dev)) booted; get_current_task_id s) = Ret 0.
Proof. by vm_compute. Qed.
