(* ===== verification/Core.v ===== *)
(** * The core system calls (src/syscall/core.rs)

    The per-process bump allocator [PageAllocator], the bitmap allocator
    [PhysicalPageAllocator] with its error results, and the system calls of
    [handle_core_syscall] over them.  What the file calls but does not define
    (the [Process] type, [map_user_page], [unmap_user_page], the UART registers)
    is a parameter. *)

From S2P Require Import Prelude.
Open Scope Z_scope.

Definition PAGE_SIZE : Z := 4096.
Definition SYS_EXIT : Z := 60.
Definition SYS_READ : Z := 0.
Definition SYS_WRITE : Z := 1.
Definition SYS_MMAP : Z := 9.
Definition SYS_BRK : Z := 12.
Definition SYS_EXECVE : Z := 59.
Definition SYS_FORK : Z := 57.
Definition PROT_READ : Z := 1.
Definition PROT_WRITE : Z := 2.
Definition PROT_EXEC : Z := 4.
Definition MAP_SHARED : Z := 1.
Definition MAP_PRIVATE : Z := 2.
Definition MAP_ANONYMOUS : Z := 0x20.
Definition MAP_FIXED : Z := 0x10.
Definition USER_SPACE_START : Z := 0x40000000.
Definition USER_SPACE_END : Z := 0x7FFFFFFFFF000.
Definition PHYSICAL_START : Z := 0x1000000.
Definition PHYSICAL_END : Z := 0x80000000.

(** [-1i64 as u64]. *)
Definition MINUS_ONE : Z := 2 ^ 64 - 1.
Definition saturating_add (a b : Z) : Z := Z.min (a + b) (2 ^ 64 - 1).

(** ** [PageAllocator] *)
Module Bump.

Record PageAllocator := {
  start_addr : Z;
  end_addr : Z;
  current : Z;
  lock : bool
}.

Definition new (heap_start heap_size : Z) : PageAllocator :=
  {| start_addr := heap_start; end_addr := saturating_add heap_start heap_size;
     current := heap_start; lock := false |}.

Definition with_current (p : PageAllocator) (c : Z) : PageAllocator :=
  {| start_addr := start_addr p; end_addr := end_addr p; current := c; lock := lock p |}.

(** The spin on [lock] returns only when the flag is free; with the flag taken
    no other thread changes [current], so the exchange succeeds.  The flag is
    free again on every return. *)
Definition allocate_pages {prof : Profile} (p : PageAllocator) (count : Z) :
    outcome (option Z * PageAllocator) :=
  if count =? 0 then Ret (None, p) else
  total_size ← umul count PAGE_SIZE;
  if lock p then Diverge else
  let new_current := saturating_add (current p) total_size in
  if end_addr p <? new_current then Ret (None, p)
  else Ret (Some (current p), with_current p new_current).

Inductive error := NoDeallocation | OutOfBounds.

Definition deallocate_pages (p : PageAllocator) (addr count : Z) : error + unit :=
  inl NoDeallocation.

Definition get_current (p : PageAllocator) : Z := current p.

Definition set_current (p : PageAllocator) (new_current : Z) : (error + unit) * PageAllocator :=
  if (new_current <? start_addr p) || (end_addr p <? new_current) then (inl OutOfBounds, p)
  else (inr (), with_current p new_current).

End Bump.

(** ** [PhysicalPageAllocator] *)
Module Pages.

Record PhysicalPageAllocator := {
  start_addr : Z;
  end_addr : Z;
  bitmap : list Z;
  total_pages : Z;
  next_free_hint : Z;
  lock : bool
}.

(** The error strings of the methods. *)
Inductive error := NotAligned | InvalidAddress | IndexOutOfBounds | AlreadyFree.

Definition new {prof : Profile} (start end_ : Z) : outcome (error + PhysicalPageAllocator) :=
  if negb (start mod PAGE_SIZE =? 0) || negb (end_ mod PAGE_SIZE =? 0) then Ret (inl NotAligned) else
  len ← usub end_ start;
  let total := len / PAGE_SIZE in
  n ← uadd total 63;
  let bitmap_entries := n / 64 in
  Ret (inr {| start_addr := start; end_addr := end_;
              bitmap := replicate (Z.to_nat bitmap_entries) 0;
              total_pages := total; next_free_hint := 0; lock := false |}).

Definition with_bits (a : PhysicalPageAllocator) (ws : list Z) (hint : Z) : PhysicalPageAllocator :=
  {| start_addr := start_addr a; end_addr := end_addr a; bitmap := ws;
     total_pages := total_pages a; next_free_hint := hint; lock := lock a |}.

(** One iteration of the search of [allocate_page].  [spurious] says whether the
    weak compare-exchange of this iteration fails although the word is unchanged;
    the loop then goes on with the same index. *)
Definition search_step {prof : Profile} (a : PhysicalPageAllocator) (spurious : bool) (page_idx : Z) :
    outcome (flow (option (Z * Z)) Z) :=
  let page_idx := if total_pages a <=? page_idx then 0 else page_idx in
  let entry_idx := page_idx / 64 in
  let bit_idx := page_idx mod 64 in
  if Z.of_nat (length (bitmap a)) <=? entry_idx then Ret (Done None) else
  match bitmap a !! Z.to_nat entry_idx with
  | None => Panic
  | Some old_entry =>
      let mask := bit bit_idx in
      if Z.land old_entry mask =? 0 then
        if spurious then Ret (Next page_idx)
        else Ret (Done (Some (page_idx, Z.lor old_entry mask)))
      else next ← uadd page_idx 1; Ret (Next next)
  end.

Definition allocate_page {prof : Profile} (spurious : Z → bool) (a : PhysicalPageAllocator) :
    outcome (option Z * PhysicalPageAllocator) :=
  if lock a then Diverge else
  fl ← for_range 0 (total_pages a) (λ k page_idx, search_step a (spurious k) page_idx)
         (next_free_hint a);
  match fl with
  | Done (Some (page_idx, entry)) =>
      n ← uadd page_idx 1;
      hint ← urem n (total_pages a);
      let a' := with_bits a (<[Z.to_nat (page_idx / 64) := entry]> (bitmap a)) hint in
      off ← umul page_idx PAGE_SIZE;
      addr ← uadd (start_addr a) off;
      Ret (Some addr, a')
  | _ => Ret (None, a)
  end.

(** The address check of [deallocate_page] and [is_allocated]; the subtraction is
    reached only when [addr >= start_addr]. *)
Definition bad_address (a : PhysicalPageAllocator) (addr : Z) : bool :=
  (addr <? start_addr a) || (end_addr a <=? addr) ||
  negb ((addr - start_addr a) mod PAGE_SIZE =? 0).

Definition deallocate_page (a : PhysicalPageAllocator) (addr : Z) :
    outcome ((error + unit) * PhysicalPageAllocator) :=
  if bad_address a addr then Ret (inl InvalidAddress, a) else
  if lock a then Diverge else
  let page_idx := (addr - start_addr a) / PAGE_SIZE in
  let entry_idx := page_idx / 64 in
  let bit_idx := page_idx mod 64 in
  if Z.of_nat (length (bitmap a)) <=? entry_idx then Ret (inl IndexOutOfBounds, a) else
  match bitmap a !! Z.to_nat entry_idx with
  | None => Panic
  | Some old_entry =>
      let mask := bit bit_idx in
      let a' := with_bits a (<[Z.to_nat entry_idx := Z.land old_entry (wnot 64 mask)]> (bitmap a))
                  (next_free_hint a) in
      if Z.land old_entry mask =? 0 then Ret (inl AlreadyFree, a') else Ret (inr (), a')
  end.

Definition is_allocated (a : PhysicalPageAllocator) (addr : Z) : outcome (error + bool) :=
  if bad_address a addr then Ret (inl InvalidAddress) else
  let page_idx := (addr - start_addr a) / PAGE_SIZE in
  let entry_idx := page_idx / 64 in
  let bit_idx := page_idx mod 64 in
  if Z.of_nat (length (bitmap a)) <=? entry_idx then Ret (inl IndexOutOfBounds) else
  match bitmap a !! Z.to_nat entry_idx with
  | None => Panic
  | Some entry => Ret (inr (negb (Z.land entry (bit bit_idx) =? 0)))
  end.

End Pages.

(** ** Pointer validation *)

Definition validate_user_pointer (ptr len : Z) : bool :=
  if ptr =? 0 then false else
  if (ptr <? USER_SPACE_START) || (USER_SPACE_END <=? ptr) then false else
  if (0 <? len) && (2 ^ 64 <=? ptr + len) then false else
  if (0 <? len) && (USER_SPACE_END <? ptr + len) then false else
  true.

(** [validate_c_string]: the length of the string at [ptr] in the memory [ram],
    or [None] for a null pointer or a string of 4096 bytes or more.  The bytes are
    read through the raw pointer, whatever it is: an address that cannot be read is
    a fault. *)
Definition validate_c_string (readable : Z → bool) (ram : Z → Z) (ptr : Z) : outcome (option Z) :=
  if ptr =? 0 then Ret None else
  fl ← for_range 0 4096 (λ len (_ : unit),
    let a := wrap 64 (ptr + len) in
    if negb (readable a) then Undef else
    Ret (if ram a =? 0 then Done len else Next ())) ();
  Ret (match fl with Done len => Some len | Next _ => None end).

(** ** What the system calls use but [src/] does not define *)

(** [crate::scheduler::pcb::Process].  [put_page_allocator] is the effect of a
    call on the allocator behind [get_page_allocator]; [fork] gives the child's
    pid or an error; [deallocate_memory_resources] and [exit] are effects on the
    process. *)
Class ProcessOps (Proc : Type) := {
  get_page_allocator : Proc → Bump.PageAllocator;
  put_page_allocator : Proc → Bump.PageAllocator → Proc;
  get_heap_start : Proc → Z;
  get_heap_end : Proc → Z;
  get_max_heap_address : Proc → Z;
  set_heap_end : Proc → Z → Proc;
  fork : Proc → option Z * Proc;
  deallocate_memory_resources : Proc → Proc;
  exit : Proc → Z → Proc
}.

(** [crate::memory::virtual::{map_user_page, unmap_user_page}], and the addresses
    the processor can read and write with the mappings in force. *)
Class UserSpace (Sp : Type) := {
  map_user_page : Sp → Z → Z → bool → bool → bool → bool * Sp;
  unmap_user_page : Sp → Z → Sp;
  can_read : Sp → Z → bool;
  can_write : Sp → Z → bool
}.

(** ** State and system calls *)

Record Kernel (Proc Sp Dev : Type) := mkKernel {
  pages : Pages.PhysicalPageAllocator;
  proc : option Proc;
  space : Sp;
  ram : Z → Z;
  device : Dev
}.
Arguments mkKernel {Proc Sp Dev}.
Arguments pages {Proc Sp Dev}.
Arguments proc {Proc Sp Dev}.
Arguments space {Proc Sp Dev}.
Arguments ram {Proc Sp Dev}.
Arguments device {Proc Sp Dev}.

(** [x as i32]. *)
Definition as_i32 (x : Z) : Z :=
  let y := x mod 2 ^ 32 in if y <? 2 ^ 31 then y else y - 2 ^ 32.
Definition I32_MAX : Z := 2 ^ 31 - 1.

Section syscalls.
Context {prof : Profile} {Proc Sp Dev : Type}.
Context `{!ProcessOps Proc} `{!UserSpace Sp} `{!Mmio Dev}.
(** Which weak compare-exchanges of one [allocate_page] fail spuriously. *)
Context (spurious : Z → bool).
(** How many polls of the UART's line status the model follows. *)
Context (uart_fuel : nat).
#[local] Notation "'K'" := (Kernel Proc Sp Dev).
Implicit Types (k : K).

Definition with_pages k a : K := mkKernel a (proc k) (space k) (ram k) (device k).
Definition with_proc k p : K := mkKernel (pages k) p (space k) (ram k) (device k).
Definition with_space k sp : K := mkKernel (pages k) (proc k) sp (ram k) (device k).
Definition with_io k r d : K := mkKernel (pages k) (proc k) (space k) r d.

(** [PHYSICAL_ALLOCATOR.lock().allocate_page()] and the same for deallocation. *)
Definition allocate_physical_page k : outcome (option Z * K) :=
  '(r, a) ← Pages.allocate_page spurious (pages k); Ret (r, with_pages k a).
Definition deallocate_physical_page k (addr : Z) : outcome ((Pages.error + unit) * K) :=
  '(r, a) ← Pages.deallocate_page (pages k) addr; Ret (r, with_pages k a).

(** [sys_exit]: the process releases its memory and exits, if there is one; then
    [loop {}]. *)
Definition leave_process k (status : Z) : K :=
  match proc k with
  | Some p => with_proc k (Some (exit (deallocate_memory_resources p) status))
  | None => k
  end.
Definition loop_forever k : outcome (Z * K) := Diverge.
Definition sys_exit k (status : Z) : outcome (Z * K) := loop_forever (leave_process k status).

Definition UART_BASE : Z := 0x3F8.

Definition console_get_byte (d : Dev) : option Z * Dev :=
  let '(status, d1) := mmio_read d UART_BASE in
  if negb (Z.land status 1 =? 0) then
    let '(b, d2) := mmio_read d1 (UART_BASE + 5) in (Some b, d2)
  else (None, d1).

Definition write_byte (r : Z → Z) (a b : Z) : Z → Z := λ x, if x =? a then b else r x.

(** [validate_user_pointer] only compares addresses, so the buffer may lie in
    pages that are not mapped: storing a byte there is a fault. *)
Definition sys_read k (fd buf count : Z) : outcome (Z * K) :=
  if (buf =? 0) || (count =? 0) then Ret (MINUS_ONE, k) else
  if negb (validate_user_pointer buf count) then Ret (MINUS_ONE, k) else
  let count := Z.min count I32_MAX in
  if fd =? 0 then
    fl ← for_range 0 count (λ i '(r, d),
      let '(o, d') := console_get_byte d in
      match o with
      | Some byte =>
          if negb (can_write (space k) (buf + i)) then Undef
          else Ret (Next (write_byte r (buf + i) byte, d'))
      | None => Ret (Done (i, r, d'))
      end) (ram k, device k);
    Ret (match fl with
         | Next (r, d) => (count, with_io k r d)
         | Done (n, r, d) => (n, with_io k r d)
         end)
  else Ret (MINUS_ONE, k).

(** Poll until the transmit holding register is empty. *)
Fixpoint uart_wait (fuel : nat) (d : Dev) : outcome Dev :=
  match fuel with
  | O => Diverge
  | S fuel' =>
      let '(status, d') := mmio_read d UART_BASE in
      if Z.land status 0x20 =? 0 then uart_wait fuel' d' else Ret d'
  end.
Definition console_put_byte (d : Dev) (byte : Z) : outcome Dev :=
  d' ← uart_wait uart_fuel d; Ret (mmio_write d' UART_BASE byte).

Definition sys_write k (fd buf count : Z) : outcome (Z * K) :=
  if (buf =? 0) || (count =? 0) then Ret (MINUS_ONE, k) else
  if negb (validate_user_pointer buf count) then Ret (MINUS_ONE, k) else
  let count := Z.min count I32_MAX in
  if (fd =? 1) || (fd =? 2) then
    d ← for_each 0 count (λ i d,
      if negb (can_read (space k) (buf + i)) then Undef
      else console_put_byte d (ram k (buf + i))) (device k);
    Ret (count, with_io k (ram k) d)
  else Ret (MINUS_ONE, k).

(** [for j in 0..i { unmap_user_page(base + j * PAGE_SIZE) }]. *)
Definition unmap_first k (base i : Z) : outcome K :=
  for_each 0 i (λ j k,
    o ← umul j PAGE_SIZE;
    v ← uadd base o;
    Ret (with_space k (unmap_user_page (space k) v))) k.

(** The mapping loop of [sys_mmap]: the branches for anonymous and for file
    mappings are the same. *)
Definition mmap_step (prot virt_addr i : Z) k : outcome (flow K K) :=
  o ← umul i PAGE_SIZE;
  vaddr ← uadd virt_addr o;
  '(r, k1) ← allocate_physical_page k;
  match r with
  | None => k2 ← unmap_first k1 virt_addr i; Ret (Done k2)
  | Some phys_addr =>
      let readable := negb (Z.land prot PROT_READ =? 0) in
      let writable := negb (Z.land prot PROT_WRITE =? 0) in
      let executable := negb (Z.land prot PROT_EXEC =? 0) in
      let '(ok, sp) := map_user_page (space k1) vaddr phys_addr readable writable executable in
      let k2 := with_space k1 sp in
      if ok then Ret (Next k2)
      else
        k3 ← unmap_first k2 virt_addr i;
        '(_, k4) ← deallocate_physical_page k3 phys_addr;
        Ret (Done k4)
  end.

(** The virtual address of a mapping, or [None] when there is none. *)
Definition mmap_address k (addr length flags pages_needed : Z) : outcome (option Z * K) :=
  if negb (Z.land flags MAP_FIXED =? 0) && negb (addr =? 0) then
    Ret (if validate_user_pointer addr length then Some addr else None, k)
  else
    match proc k with
    | None => Ret (None, k)
    | Some p =>
        '(r, b) ← Bump.allocate_pages (get_page_allocator p) pages_needed;
        Ret (r, with_proc k (Some (put_page_allocator p b)))
    end.

Definition sys_mmap k (addr length prot flags fd offset : Z) : outcome (Z * K) :=
  if length =? 0 then Ret (MINUS_ONE, k) else
  if 0x1000000000 <? length then Ret (MINUS_ONE, k) else
  if negb (Z.land prot (wnot 64 (Z.lor (Z.lor PROT_READ PROT_WRITE) PROT_EXEC)) =? 0) then Ret (MINUS_ONE, k) else
  if negb (Z.land flags (wnot 64 (Z.lor (Z.lor (Z.lor MAP_SHARED MAP_PRIVATE) MAP_ANONYMOUS) MAP_FIXED)) =? 0)
  then Ret (MINUS_ONE, k) else
  n ← uadd length PAGE_SIZE;
  n1 ← usub n 1;
  let pages_needed := Z.max (n1 / PAGE_SIZE) 1 in
  '(v, k1) ← mmap_address k addr length flags pages_needed;
  match v with
  | None => Ret (MINUS_ONE, k1)
  | Some virt_addr =>
      fl ← for_range 0 pages_needed (mmap_step prot virt_addr) k1;
      Ret (match fl with Next k2 => (virt_addr, k2) | Done k2 => (MINUS_ONE, k2) end)
  end.

(** The expanding loop of [sys_brk].  When a mapping fails it releases the frames
    [phys_addr - i * PAGE_SIZE + j * PAGE_SIZE] for [j < i]. *)
Definition brk_step (heap_end i : Z) k : outcome (flow K K) :=
  o ← umul i PAGE_SIZE;
  vaddr ← uadd heap_end o;
  '(r, k1) ← allocate_physical_page k;
  match r with
  | Some phys_addr =>
      let '(ok, sp) := map_user_page (space k1) vaddr phys_addr true true false in
      let k2 := with_space k1 sp in
      if ok then Ret (Next k2)
      else
        k3 ← for_each 0 i (λ j k,
          oj ← umul j PAGE_SIZE;
          v ← uadd heap_end oj;
          let k' := with_space k (unmap_user_page (space k) v) in
          oi ← umul i PAGE_SIZE;
          p0 ← usub phys_addr oi;
          p ← uadd p0 oj;
          '(_, k'') ← deallocate_physical_page k' p;
          Ret k'') k2;
        Ret (Done k3)
  | None => k2 ← unmap_first k1 heap_end i; Ret (Done k2)
  end.

Definition page_count (bytes : Z) : outcome Z :=
  a ← uadd bytes PAGE_SIZE; b ← usub a 1; Ret (b / PAGE_SIZE).

Definition sys_brk k (new_brk : Z) : outcome (Z * K) :=
  match proc k with
  | None => Ret (MINUS_ONE, k)
  | Some p =>
      let heap_start := get_heap_start p in
      let heap_end := get_heap_end p in
      let max_heap := get_max_heap_address p in
      if new_brk =? 0 then Ret (heap_end, k) else
      if (new_brk <? heap_start) || (max_heap <? new_brk) then Ret (MINUS_ONE, k) else
      fl ← (if heap_end <? new_brk then
              pages_needed ← page_count (new_brk - heap_end);
              for_range 0 pages_needed (brk_step heap_end) k
            else if new_brk <? heap_end then
              pages_to_unmap ← page_count (heap_end - new_brk);
              k1 ← for_each 0 pages_to_unmap (λ i k,
                o ← umul i PAGE_SIZE;
                vaddr ← uadd new_brk o;
                Ret (if vaddr <? heap_end
                     then with_space k (unmap_user_page (space k) vaddr) else k)) k;
              Ret (Next k1)
            else Ret (Next k));
      Ret (match fl with
           | Next k1 => (new_brk, with_proc k1 (Some (set_heap_end p new_brk)))
           | Done k1 => (MINUS_ONE, k1)
           end)
  end.

(** [sys_execve] validates the path and then always fails. *)
Definition sys_execve k (pathname argv envp : Z) : outcome (Z * K) :=
  if pathname =? 0 then Ret (MINUS_ONE, k) else
  r ← validate_c_string (can_read (space k)) (ram k) pathname;
  Ret (MINUS_ONE, k).

Definition sys_fork k : outcome (Z * K) :=
  match proc k with
  | None => Ret (MINUS_ONE, k)
  | Some p =>
      let '(r, p') := fork p in
      Ret (default MINUS_ONE r, with_proc k (Some p'))
  end.

Record SyscallArgs := { nr : Z; a1 : Z; a2 : Z; a3 : Z; a4 : Z; a5 : Z; a6 : Z }.

(** The validation that comes before the dispatch. *)
Definition args_ok (args : SyscallArgs) : bool :=
  if (nr args =? SYS_READ) || (nr args =? SYS_WRITE) then validate_user_pointer (a2 args) (a3 args)
  else if nr args =? SYS_MMAP then negb ((a2 args =? 0) || (0x1000000000 <? a2 args))
  else if nr args =? SYS_BRK then (a1 args =? 0) || validate_user_pointer (a1 args) 0
  else true.

Definition handle_core_syscall k (args : SyscallArgs) : outcome (Z * K) :=
  if 1000 <? nr args then Ret (MINUS_ONE, k) else
  if negb (args_ok args) then Ret (MINUS_ONE, k) else
  if nr args =? SYS_EXIT then sys_exit k (as_i32 (a1 args))
  else if nr args =? SYS_READ then sys_read k (as_i32 (a1 args)) (a2 args) (a3 args)
  else if nr args =? SYS_WRITE then sys_write k (as_i32 (a1 args)) (a2 args) (a3 args)
  else if nr args =? SYS_MMAP then
    sys_mmap k (a1 args) (a2 args) (a3 args) (a4 args) (as_i32 (a5 args)) (a6 args)
  else if nr args =? SYS_BRK then sys_brk k (a1 args)
  else if nr args =? SYS_EXECVE then sys_execve k (a1 args) (a2 args) (a3 args)
  else if nr args =? SYS_FORK then sys_fork k
  else Ret (MINUS_ONE, k).

End syscalls.
