(* ===== verification/CoreTheorems.v ===== *)
(** * Correctness of the page allocators and the core system calls

    [PhysicalPageAllocator] against the set of taken pages, the bump allocator,
    pointer validation, and [sys_mmap], [sys_brk] and [sys_read] against the address
    space and memory they change. *)

From S2P Require Import Prelude Core.
Open Scope Z_scope.

(** ** [PhysicalPageAllocator] *)

Module PagesSpec.
Import Pages.

Definition taken (a : PhysicalPageAllocator) (p : Z) : bool := word_bit (bitmap a) p.
Definition frame (a : PhysicalPageAllocator) (p : Z) : Z := start_addr a + p * PAGE_SIZE.

Record wf (a : PhysicalPageAllocator) : Prop := {
  wf_lock : lock a = false;
  wf_total : 0 ≤ total_pages a < 2 ^ 52;
  wf_length : Z.of_nat (length (bitmap a)) = (total_pages a + 63) / 64;
  wf_start : 0 ≤ start_addr a;
  wf_end : end_addr a = start_addr a + total_pages a * PAGE_SIZE;
  wf_fits : end_addr a < 2 ^ 64;
  wf_hint : next_free_hint a = 0 ∨ 0 ≤ next_free_hint a < total_pages a
}.

(** Same memory, other bits. *)
Definition same_range (a a' : PhysicalPageAllocator) : Prop :=
  start_addr a' = start_addr a ∧ end_addr a' = end_addr a ∧ total_pages a' = total_pages a.

Lemma word_exists a p :
  wf a → 0 ≤ p < total_pages a →
  ∃ w, bitmap a !! Z.to_nat (p / 64) = Some w ∧ (Z.of_nat (length (bitmap a)) <=? p / 64) = false.
Proof.
  intros Hwf Hp. pose proof (wf_length a Hwf) as Hl.
  assert (p / 64 < (total_pages a + 63) / 64) as Hlt.
  { pose proof (Z.div_mod p 64 ltac:(lia)). pose proof (Z.mod_pos_bound p 64 ltac:(lia)).
    pose proof (Z.div_mod (total_pages a + 63) 64 ltac:(lia)).
    pose proof (Z.mod_pos_bound (total_pages a + 63) 64 ltac:(lia)). lia. }
  assert (0 ≤ p / 64) by (apply Z.div_pos; lia).
  destruct (lookup_lt_is_Some_2 (bitmap a) (Z.to_nat (p / 64))) as [w Hw]; [lia|].
  exists w. split; [done|]. apply Z.leb_gt. lia.
Qed.

(** The test [entry & (1 << bit) == 0]. *)
Lemma bit_test w i : 0 ≤ i → (Z.land w (bit i) =? 0) = negb (Z.testbit w i).
Proof. intros Hi. rewrite <-has_bit_spec by done. unfold has_bit. by rewrite negb_involutive. Qed.

Lemma taken_lookup a p w : bitmap a !! Z.to_nat (p / 64) = Some w → taken a p = Z.testbit w (p mod 64).
Proof. intros Hw. unfold taken, word_bit. by rewrite Hw. Qed.

Lemma with_bits_wf a i v hint :
  wf a → hint = 0 ∨ 0 ≤ hint < total_pages a →
  wf (with_bits a (<[i := v]> (bitmap a)) hint).
Proof. intros [???????] ?. split; simpl; rewrite ?length_insert; done. Qed.

Section alloc.
Context {prof : Profile} (spurious : Z → bool).

(** Iteration [k] of the search looks at page [(hint + k) % total]. *)
Definition search_inv (a : PhysicalPageAllocator) (k idx : Z) : Prop :=
  0 ≤ idx ≤ total_pages a ∧
  (0 < total_pages a → idx mod total_pages a = (next_free_hint a + k) mod total_pages a) ∧
  ∀ i, 0 ≤ i < k → taken a ((next_free_hint a + i) mod total_pages a) = true.

(** The search stops at page [p], the first free one from the hint on. *)
Definition search_post (a : PhysicalPageAllocator) (r : option (Z * Z)) : Prop :=
  ∃ p w j, r = Some (p, Z.lor w (bit (p mod 64))) ∧ 0 ≤ p < total_pages a ∧
    bitmap a !! Z.to_nat (p / 64) = Some w ∧ taken a p = false ∧
    p = (next_free_hint a + j) mod total_pages a ∧ 0 ≤ j ∧
    ∀ i, 0 ≤ i < j → taken a ((next_free_hint a + i) mod total_pages a) = true.

Lemma search_step_ok a k idx :
  wf a → 0 ≤ k < total_pages a → search_inv a k idx →
  returns (search_step a false idx) (λ fl,
    match fl with Next idx' => search_inv a (k + 1) idx' | Done r => search_post a r end).
Proof.
  intros Hwf Hk (Hidx & Hmod & Hbefore). unfold search_step, search_inv, search_post.
  pose proof (wf_total a Hwf) as Ht.
  set (tot := total_pages a) in *. set (h := next_free_hint a) in *.
  set (p := if tot <=? idx then 0 else idx).
  assert (0 ≤ p < tot ∧ p = (h + k) mod tot) as [Hp Hpk].
  { rewrite <-Hmod by lia. unfold p. destruct (Z.leb_spec tot idx).
    - assert (idx = tot) as -> by lia. rewrite Z.mod_same; lia.
    - rewrite Z.mod_small; lia. }
  destruct (word_exists a p Hwf Hp) as (w & Hlk & ->). rewrite Hlk.
  pose proof (Z.mod_pos_bound p 64 ltac:(lia)). rewrite bit_test by lia.
  pose proof (taken_lookup a p w Hlk) as Htk.
  destruct (Z.testbit w (p mod 64)) eqn:Hb; simpl.
  - step1. step1; [unfold in_u; lia|]. simpl. split; [lia|]. split.
    + intros _. rewrite Hpk, Z.add_mod_idemp_l by lia. f_equal. lia.
    + intros i Hi. destruct (decide (i = k)) as [->|]; [by rewrite <-Hpk|apply Hbefore; lia].
  - exists p, w, k. split_and!; try done; lia.
Qed.

Lemma search_ok a :
  wf a → (∀ k, spurious k = false) →
  returns (for_range 0 (total_pages a) (λ k idx, search_step a (spurious k) idx) (next_free_hint a)) (λ fl,
    match fl with
    | Next _ => ∀ p, 0 ≤ p < total_pages a → taken a p = true
    | Done r => search_post a r
    end).
Proof.
  intros Hwf Hs. pose proof (wf_total a Hwf). pose proof (wf_hint a Hwf).
  eapply returns_mono.
  { apply (for_range_inv (search_inv a) (search_post a)); [lia| |].
    - split; [lia|]. split; [by rewrite Z.add_0_r|]. lia.
    - intros k idx Hk Hinv. rewrite Hs. by apply search_step_ok. }
  intros [idx|r]; [|done]. intros (_ & _ & Hall) p Hp.
  set (tot := total_pages a) in *. set (h := next_free_hint a) in *.
  specialize (Hall ((p - h) mod tot) ltac:(apply Z.mod_pos_bound; lia)).
  rewrite Z.add_mod_idemp_r in Hall by lia. replace (h + (p - h)) with p in Hall by lia.
  by rewrite Z.mod_small in Hall by lia.
Qed.

(** Setting and clearing the bit of page [p] in its word. *)
Lemma set_page_bit a p w hint g :
  0 ≤ p → 0 ≤ g → bitmap a !! Z.to_nat (p / 64) = Some w →
  taken (with_bits a (<[Z.to_nat (p / 64) := Z.lor w (bit (p mod 64))]> (bitmap a)) hint) g =
  taken a g || (g =? p).
Proof.
  intros Hp Hg Hw. pose proof (Z.mod_pos_bound p 64 ltac:(lia)). unfold taken. simpl.
  rewrite (word_bit_insert _ p w) by
    (done || (intros i Hi Hne; rewrite Z.lor_spec, bit_spec, bool_decide_false by lia; btauto)).
  rewrite Z.lor_spec, bit_spec, bool_decide_true by (lia || done). destruct (g =? p); btauto.
Qed.

Lemma clear_page_bit a p w hint g :
  0 ≤ p → 0 ≤ g → bitmap a !! Z.to_nat (p / 64) = Some w →
  taken (with_bits a (<[Z.to_nat (p / 64) := Z.land w (wnot 64 (bit (p mod 64)))]> (bitmap a)) hint) g =
  taken a g && negb (g =? p).
Proof.
  intros Hp Hg Hw. pose proof (Z.mod_pos_bound p 64 ltac:(lia)). unfold taken. simpl.
  rewrite (word_bit_insert _ p w); [|done..|].
  - rewrite Z.land_spec, wnot_spec, bit_spec, bool_decide_true by (lia || done).
    destruct (g =? p); btauto.
  - intros i Hi Hne. rewrite Z.land_spec, wnot_spec, bit_spec, bool_decide_false by lia.
    destruct (Z.ltb_spec i 64); [btauto|lia].
Qed.

Lemma allocate_page_ok a :
  wf a → (∀ k, spurious k = false) →
  returns (allocate_page spurious a) (λ '(r, a'), wf a' ∧ same_range a a' ∧
    match r with
    | Some addr => ∃ p j, 0 ≤ p < total_pages a ∧ addr = frame a p ∧ taken a p = false ∧
        p = (next_free_hint a + j) mod total_pages a ∧ 0 ≤ j ∧
        (∀ i, 0 ≤ i < j → taken a ((next_free_hint a + i) mod total_pages a) = true) ∧
        ∀ g, 0 ≤ g → taken a' g = taken a g || (g =? p)
    | None => a' = a ∧ ∀ p, 0 ≤ p < total_pages a → taken a p = true
    end).
Proof.
  intros Hwf Hs. pose proof Hwf as [Hlock Ht Hlen Hst Hend Hfit Hhint].
  unfold allocate_page. rewrite Hlock. apply returns_bind.
  eapply returns_mono; [by apply search_ok|]. intros [idx|r]; [done|].
  intros (p & w & j & -> & Hp & Hlk & Hb & Hpj & Hj & Hbefore).
  pose proof (Z.mod_pos_bound (p + 1) (total_pages a) ltac:(lia)).
  unfold PAGE_SIZE in *. step1. step1; [unfold in_u; lia|]. step1.
  unfold urem. rewrite (proj2 (Z.eqb_neq _ 0)) by lia. step1.
  step1. step1; [unfold in_u; lia|]. step1. step1; [unfold in_u; lia|]. simpl.
  split; [by apply with_bits_wf; [|right]|]. split; [done|]. exists p, j.
  split_and!; try done; try lia. intros g Hg. apply set_page_bit; [lia|done..].
Qed.

(** With every weak exchange failing, the search gives up although a page is
    free. *)
Lemma allocate_page_spurious a :
  wf a → (∀ k, spurious k = true) →
  (∀ p, 0 ≤ p < total_pages a → taken a p = false) → allocate_page spurious a = Ret (None, a).
Proof.
  intros Hwf Hs Hfree. unfold allocate_page. rewrite (wf_lock a Hwf).
  pose proof (wf_total a Hwf). pose proof (wf_hint a Hwf).
  assert (returns (for_range 0 (total_pages a) (λ k idx, search_step a (spurious k) idx) (next_free_hint a))
    (λ fl, match fl with Next s' => 0 ≤ s' ≤ total_pages a | Done _ => False end)) as Hl.
  { apply (for_range_inv (λ _ idx, 0 ≤ idx ≤ total_pages a) (λ _, False)); [lia..|].
    intros k idx Hk Hidx. unfold search_step. rewrite Hs.
    set (p := if total_pages a <=? idx then 0 else idx).
    assert (0 ≤ p < total_pages a) as Hp by (unfold p; destruct (Z.leb_spec (total_pages a) idx); lia).
    destruct (word_exists a p Hwf Hp) as (w & Hlk & ->). rewrite Hlk.
    pose proof (Z.mod_pos_bound p 64 ltac:(lia)). rewrite bit_test by lia.
    rewrite <-(taken_lookup a p w Hlk), Hfree by done. simpl. lia. }
  destruct (for_range _ _ _ _) as [[x|x]| | |]; simpl in *; done.
Qed.

End alloc.

(** An address the bounds and alignment checks accept is the frame of a page. *)
Lemma bad_address_frame a p : wf a → 0 ≤ p < total_pages a → bad_address a (frame a p) = false.
Proof.
  intros Hwf Hp. pose proof (wf_end a Hwf). unfold bad_address, frame.
  rewrite (proj2 (Z.ltb_ge _ _)) by (unfold PAGE_SIZE; lia).
  rewrite (proj2 (Z.leb_gt _ _)) by (unfold PAGE_SIZE in *; lia).
  replace (start_addr a + p * PAGE_SIZE - start_addr a) with (p * PAGE_SIZE) by lia.
  by rewrite Z.mod_mul.
Qed.

Lemma bad_address_inv a addr :
  wf a → bad_address a addr = false → ∃ p, 0 ≤ p < total_pages a ∧ addr = frame a p.
Proof.
  intros Hwf Hb. unfold bad_address in Hb. apply orb_false_iff in Hb as [Hb Hm].
  apply orb_false_iff in Hb as [H1 H2]. apply negb_false_iff, Z.eqb_eq in Hm.
  apply Z.ltb_ge in H1. apply Z.leb_gt in H2. pose proof (wf_end a Hwf).
  exists ((addr - start_addr a) / PAGE_SIZE). unfold frame, PAGE_SIZE in *.
  pose proof (Z.div_mod (addr - start_addr a) 4096 ltac:(lia)). split; [|lia].
  split; [apply Z.div_pos; lia|]. lia.
Qed.

Lemma frame_index a p : (frame a p - start_addr a) / PAGE_SIZE = p.
Proof. unfold frame. replace (_ - _) with (p * PAGE_SIZE) by lia. by apply Z.div_mul. Qed.

Lemma frame_inj a p q : frame a p = frame a q → p = q.
Proof. unfold frame, PAGE_SIZE. lia. Qed.

(** Deallocation, on every branch. *)
Lemma deallocate_page_ok a addr :
  wf a →
  returns (deallocate_page a addr) (λ '(r, a'), wf a' ∧ same_range a a' ∧
    match r with
    | inr _ => ∃ p, 0 ≤ p < total_pages a ∧ addr = frame a p ∧ taken a p = true ∧
                    ∀ g, 0 ≤ g → taken a' g = taken a g && negb (g =? p)
    | inl AlreadyFree => ∃ p, 0 ≤ p < total_pages a ∧ addr = frame a p ∧ taken a p = false ∧
                    ∀ g, 0 ≤ g → taken a' g = taken a g
    | inl InvalidAddress => bad_address a addr = true ∧ a' = a
    | inl _ => False
    end).
Proof.
  intros Hwf. unfold deallocate_page. destruct (bad_address a addr) eqn:Hbad; [done|].
  destruct (bad_address_inv a addr Hwf Hbad) as (p & Hp & ->). rewrite (wf_lock a Hwf), frame_index.
  destruct (word_exists a p Hwf Hp) as (w & Hlk & ->). rewrite Hlk. cbv zeta.
  pose proof (Z.mod_pos_bound p 64 ltac:(lia)). rewrite bit_test by lia.
  pose proof (taken_lookup a p w Hlk) as Htk.
  destruct (Z.testbit w (p mod 64)); simpl;
    (split; [apply with_bits_wf; [done|apply (wf_hint a Hwf)]|]); (split; [done|]); exists p;
    split_and!; try done; try lia; intros g Hg; rewrite (clear_page_bit a p w) by (done || lia); [done|].
  destruct (Z.eqb_spec g p) as [->|]; [by rewrite Htk|btauto].
Qed.

End PagesSpec.

(** ** The boot-time allocator *)

Lemma pages_new_ok {prof : Profile} start end_ :
  0 ≤ start → start mod PAGE_SIZE = 0 → end_ mod PAGE_SIZE = 0 → start ≤ end_ < 2 ^ 64 →
  returns (Pages.new start end_) (λ r, ∃ a, r = inr a ∧ PagesSpec.wf a ∧
    Pages.start_addr a = start ∧ Pages.end_addr a = end_ ∧
    Pages.total_pages a = (end_ - start) / PAGE_SIZE ∧
    ∀ p, PagesSpec.taken a p = false).
Proof.
  intros H0 Hs He Hle. unfold Pages.new. rewrite Hs, He. simpl.
  assert (0 ≤ (end_ - start) / PAGE_SIZE < 2 ^ 52) as Ht.
  { unfold PAGE_SIZE. split; [apply Z.div_pos; lia|apply Z.div_lt_upper_bound; lia]. }
  assert (0 ≤ ((end_ - start) / PAGE_SIZE + 63) / 64) by (apply Z.div_pos; lia).
  assert ((end_ - start) mod PAGE_SIZE = 0) as Hm.
  { rewrite Zminus_mod, Hs, He. done. }
  pose proof (Z.div_mod (end_ - start) PAGE_SIZE ltac:(done)).
  step1. step1; [unfold in_u; lia|]. step1. step1; [unfold in_u; lia|]. simpl.
  eexists. split; [done|]. split_and!; try done.
  - split; simpl; try done; try lia. rewrite length_replicate. lia.
  - intros p. unfold PagesSpec.taken, word_bit. simpl.
    destruct (replicate _ 0 !! Z.to_nat (p / 64)) as [w|] eqn:E; simpl; [|apply Z.bits_0].
    apply lookup_replicate in E as [-> _]. apply Z.bits_0.
Qed.

(** ** [sys_mmap] *)

(** What [sys_mmap] and [sys_brk] rely on from the user address space: [mapped]
    is its view as a function from addresses to frames.  A successful
    [map_user_page] maps one page, a refused one changes nothing, and
    [unmap_user_page] removes one page. *)
Class UserSpaceLaws (Sp : Type) `{!UserSpace Sp} := {
  mapped : Sp → Z → option Z;
  map_user_page_ok : ∀ sp v p r w x ok sp',
    map_user_page sp v p r w x = (ok, sp') →
    ∀ v', mapped sp' v' =
      if ok && (v' / PAGE_SIZE =? v / PAGE_SIZE) then Some p else mapped sp v';
  unmap_user_page_ok : ∀ sp v v',
    mapped (unmap_user_page sp v) v' =
      if v' / PAGE_SIZE =? v / PAGE_SIZE then None else mapped sp v'
}.

Section mmap.
Context {prof : Profile} {Proc Sp Dev : Type}.
Context `{!ProcessOps Proc} `{!UserSpace Sp} `{!UserSpaceLaws Sp} `{!Mmio Dev}.
Context (spurious : Z → bool) (Hspur : ∀ k, spurious k = false).
#[local] Notation "'K'" := (Kernel Proc Sp Dev).
Implicit Types (k : K).

(** The page of [base + i * PAGE_SIZE]. *)
Lemma page_step base i : (base + i * PAGE_SIZE) / PAGE_SIZE = base / PAGE_SIZE + i.
Proof. by rewrite Z.div_add. Qed.

(** Frames [fs] were taken since [k0]: they are distinct, were free in [k0], are
    marked now, and nothing else changed in the bitmap. *)
Record took_frames (k0 k : K) (fs : list Z) : Prop := {
  tf_wf : PagesSpec.wf (pages k);
  tf_range : PagesSpec.same_range (pages k0) (pages k);
  tf_nodup : NoDup fs;
  tf_free : ∀ f, f ∈ fs → 0 ≤ f < Pages.total_pages (pages k0) ∧ PagesSpec.taken (pages k0) f = false;
  tf_taken : ∀ g, 0 ≤ g →
    PagesSpec.taken (pages k) g = PagesSpec.taken (pages k0) g || bool_decide (g ∈ fs)
}.

(** What mapping and unmapping leaves alone besides the frames and the space. *)
Definition kept k k' : Prop := proc k' = proc k ∧ ram k' = ram k.
Lemma kept_trans k1 k2 k3 : kept k1 k2 → kept k2 k3 → kept k1 k3.
Proof. intros [??] [??]. split; congruence. Qed.

(** Page [j] of the range at [base] is mapped to frame [fs !! j], and pages
    outside the range are as in [k0]. *)
Definition maps_frames (k0 k : K) (base : Z) (fs : list Z) : Prop :=
  (∀ j f v, fs !! j = Some f → v / PAGE_SIZE = base / PAGE_SIZE + Z.of_nat j →
     mapped (space k) v = Some (PagesSpec.frame (pages k0) f)) ∧
  (∀ v, (∀ j, (j < length fs)%nat → v / PAGE_SIZE ≠ base / PAGE_SIZE + Z.of_nat j) →
     mapped (space k) v = mapped (space k0) v).

(** The pages of the first [n] positions are not mapped, the others as in [k0]. *)
Definition unmaps_range (k0 k : K) (base : Z) (n : nat) : Prop :=
  ∀ v, mapped (space k) v =
    if decide (base / PAGE_SIZE ≤ v / PAGE_SIZE < base / PAGE_SIZE + Z.of_nat n) then None
    else mapped (space k0) v.

Lemma unmap_first_ok k base i :
  0 ≤ base → 0 ≤ i → base + i * PAGE_SIZE < 2 ^ 64 →
  returns (unmap_first k base i) (λ k',
    pages k' = pages k ∧ kept k k' ∧ unmaps_range k k' base (Z.to_nat i)).
Proof.
  intros Hb Hi Hmax. unfold unmap_first.
  apply (for_each_inv (λ j k', pages k' = pages k ∧ kept k k' ∧
    unmaps_range k k' base (Z.to_nat j))).
  - done.
  - split_and!; [done|done|]. intros v. rewrite decide_False by lia. done.
  - intros j k1 Hj (Hp & Hpr & Hu). unfold PAGE_SIZE in *.
    step1. step1; [unfold in_u; lia|]. step1. step1; [unfold in_u; lia|]. simpl.
    split_and!; [done|done|]. intros v. simpl. rewrite unmap_user_page_ok.
    change 4096 with PAGE_SIZE. rewrite page_step. rewrite (Hu v).
    destruct (Z.eqb_spec (v / PAGE_SIZE) (base / PAGE_SIZE + j)).
    + by rewrite decide_True by lia.
    + destruct (decide (base / PAGE_SIZE ≤ v / PAGE_SIZE < base / PAGE_SIZE + Z.of_nat (Z.to_nat j))).
      * by rewrite decide_True by lia.
      * by rewrite decide_False by lia.
Qed.

Lemma allocate_took k0 k fs :
  took_frames k0 k fs →
  returns (allocate_physical_page spurious k) (λ '(r, k'),
    space k' = space k ∧ kept k k' ∧
    match r with
    | Some a => ∃ f, a = PagesSpec.frame (pages k0) f ∧ took_frames k0 k' (fs ++ [f])
    | None => took_frames k0 k' fs ∧
        ∀ g, 0 ≤ g < Pages.total_pages (pages k0) → PagesSpec.taken (pages k') g = true
    end).
Proof.
  intros [Hwf (Hst & Hend & Htot) Hnd Hfree Htk]. unfold allocate_physical_page.
  apply returns_bind. eapply returns_mono; [by apply PagesSpec.allocate_page_ok|].
  intros [[a|] a'] (Hwf' & (Hst' & Hend' & Htot') & Hr); simpl; split_and!; try done.
  - destruct Hr as (p & _ & Hp & -> & Hnt & _ & _ & _ & Hal). exists p.
    split; [unfold PagesSpec.frame; by rewrite Hst|].
    rewrite Htk in Hnt by lia. apply orb_false_iff in Hnt as [Hn0 Hnin%bool_decide_eq_false].
    split; simpl.
    + done.
    + by split_and!; etrans.
    + apply NoDup_app. split_and!; [done| |apply NoDup_singleton]. set_solver.
    + intros f [Hf|Hf]%elem_of_app; [by apply Hfree|]. apply list_elem_of_singleton in Hf as ->.
      rewrite <-Htot. done.
    + intros g Hg. rewrite Hal, Htk by done. rewrite <-orb_assoc. f_equal.
      destruct (Z.eqb_spec g p) as [->|]; [rewrite orb_true_r; symmetry; apply bool_decide_eq_true; set_solver|].
      rewrite orb_false_r. apply bool_decide_ext. set_solver.
  - destruct Hr as [-> Hall]. by split.
  - destruct Hr as [-> Hall]. simpl. intros g Hg. apply Hall. by rewrite Htot.
Qed.

Lemma maps_frames_snoc k0 k k' base fs f :
  maps_frames k0 k base fs →
  (∀ v, mapped (space k') v =
     if v / PAGE_SIZE =? base / PAGE_SIZE + Z.of_nat (length fs)
     then Some (PagesSpec.frame (pages k0) f) else mapped (space k) v) →
  maps_frames k0 k' base (fs ++ [f]).
Proof.
  intros [Hin Hout] Hm. split.
  - intros j g v Hj Hv. rewrite Hm. apply lookup_app_Some in Hj as [Hj|[Hl Hj]].
    + rewrite (proj2 (Z.eqb_neq _ _)) by (apply lookup_lt_Some in Hj; lia). by eapply Hin.
    + apply list_lookup_singleton_Some in Hj as [Hj <-].
      by rewrite (proj2 (Z.eqb_eq _ _)) by lia.
  - intros v Hv. rewrite length_app in Hv. simpl in Hv. rewrite Hm.
    rewrite (proj2 (Z.eqb_neq _ _)) by (apply Hv; lia). apply Hout. intros j Hj. apply Hv. lia.
Qed.

(** Unmapping what was mapped. *)
Lemma unmaps_maps k0 k k' base fs :
  maps_frames k0 k base fs → unmaps_range k k' base (length fs) → unmaps_range k0 k' base (length fs).
Proof.
  intros [_ Hout] Hu v. rewrite Hu. case_decide; [done|]. apply Hout. lia.
Qed.

(** What a [sys_mmap] that failed at page [i] leaves: the [i] pages before it are
    unmapped, but the [i] frames that were behind them are still marked as taken;
    the pages from [i] on are as they were. *)
Definition mmap_failed (k0 k : K) (base i : Z) : Prop :=
  ∃ fs, length fs = Z.to_nat i ∧ took_frames k0 k fs ∧ unmaps_range k0 k base (length fs).

(** Releasing the last frame taken. *)
Lemma release_last k0 k fs f :
  took_frames k0 k (fs ++ [f]) →
  returns (deallocate_physical_page k (PagesSpec.frame (pages k0) f)) (λ '(_, k'),
    space k' = space k ∧ kept k k' ∧ took_frames k0 k' fs).
Proof.
  intros [Hwf1 (Hs1 & He1 & Ht1) Hnd1 Hfree1 Hal1]. unfold deallocate_physical_page.
  apply returns_bind. eapply returns_mono; [by apply PagesSpec.deallocate_page_ok|].
  intros [r a'] (Hwf' & Hsr' & Hr'). simpl. split; [done|]. split; [done|].
  apply NoDup_app in Hnd1 as (Hnd & Hf & _).
  assert (f ∉ fs) as Hfs by set_solver. destruct (Hfree1 f ltac:(set_solver)) as [Hf1 Hf2].
  assert (PagesSpec.frame (pages k0) f = PagesSpec.frame (pages k) f) as Hfr
    by (unfold PagesSpec.frame; by rewrite Hs1).
  assert (∀ g, 0 ≤ g → PagesSpec.taken a' g = PagesSpec.taken (pages k) g && negb (g =? f)) as Ha'.
  { rewrite Hfr in Hr'. destruct r as [[]|]; [done| |done| |].
    - destruct Hr' as [Hbad _]. rewrite PagesSpec.bad_address_frame in Hbad; [done..|]. by rewrite Ht1.
    - destruct Hr' as (q & _ & Hq & Hn & _). apply PagesSpec.frame_inj in Hq as <-.
      rewrite Hal1 in Hn by lia. apply orb_false_iff in Hn as [_ Hn%bool_decide_eq_false].
      exfalso. apply Hn. set_solver.
    - destruct Hr' as (q & _ & Hq & _ & Hal). by apply PagesSpec.frame_inj in Hq as <-. }
  split; simpl; [done| |done| |].
  - destruct Hsr' as (?&?&?). split_and!; congruence.
  - intros g Hg. apply Hfree1. set_solver.
  - intros g Hg. rewrite Ha', Hal1 by done. destruct (Z.eqb_spec g f) as [->|Hne]; simpl.
    + by rewrite andb_false_r, Hf2, bool_decide_false.
    + rewrite andb_true_r. f_equal. apply bool_decide_ext. set_solver.
Qed.

Lemma took_frames_ext k0 k k' fs : pages k' = pages k → took_frames k0 k fs → took_frames k0 k' fs.
Proof. intros Hp []. split; by rewrite ?Hp. Qed.

(** The two ways on that the loops of [sys_mmap] and [sys_brk] share: the next page
    is mapped, and the frames have run out. *)
Lemma mapped_one k0 k k1 sp base i fs f r w x :
  0 ≤ i → length fs = Z.to_nat i → space k1 = space k →
  took_frames k0 k1 (fs ++ [f]) → maps_frames k0 k base fs →
  map_user_page (space k1) (base + i * PAGE_SIZE) (PagesSpec.frame (pages k0) f) r w x = (true, sp) →
  took_frames k0 (with_space k1 sp) (fs ++ [f]) ∧ maps_frames k0 (with_space k1 sp) base (fs ++ [f]).
Proof.
  intros Hi Hlen Hsp Htk Hmp Hmap. split; [by apply (took_frames_ext k0 k1)|].
  apply (maps_frames_snoc k0 k); [done|]. simpl. intros v.
  rewrite (map_user_page_ok _ _ _ _ _ _ _ _ Hmap), page_step, Hsp, Hlen, Z2Nat.id by done. done.
Qed.

Lemma out_of_frames k0 k k1 base i fs :
  0 ≤ base → 0 ≤ i → base + i * PAGE_SIZE < 2 ^ 64 → length fs = Z.to_nat i →
  space k1 = space k → kept k k1 → took_frames k0 k1 fs → maps_frames k0 k base fs →
  returns (unmap_first k1 base i) (λ k', kept k k' ∧ mmap_failed k0 k' base i).
Proof.
  intros Hb Hi Hmax Hlen Hsp Hk Htk Hmp. eapply returns_mono; [by apply unmap_first_ok|].
  intros k2 (Hp2 & Hk2 & Hu2). split; [by apply (kept_trans k k1)|]. exists fs. rewrite <-Hlen in Hu2.
  split; [done|]. split; [by apply (took_frames_ext k0 k1)|].
  apply (unmaps_maps k0 k1); [|done]. destruct Hmp. split; by rewrite Hsp.
Qed.

(** No frames taken and nothing mapped yet. *)
Lemma took_nothing k k1 base :
  PagesSpec.wf (pages k) → pages k1 = pages k → space k1 = space k →
  took_frames k k1 [] ∧ maps_frames k k1 base [].
Proof.
  intros Hwf Hp Hs. split.
  - apply (took_frames_ext k k); [done|]. split; [done|done|constructor|set_solver|].
    intros g _. by rewrite bool_decide_false, orb_false_r by set_solver.
  - split; [done|]. by rewrite Hs.
Qed.

Lemma mmap_step_ok k0 k prot base i fs :
  0 ≤ base → 0 ≤ i → base + (i + 1) * PAGE_SIZE < 2 ^ 64 → length fs = Z.to_nat i →
  took_frames k0 k fs → maps_frames k0 k base fs →
  returns (mmap_step spurious prot base i k) (λ fl,
    match fl with
    | Next k' => kept k k' ∧ ∃ f, took_frames k0 k' (fs ++ [f]) ∧ maps_frames k0 k' base (fs ++ [f])
    | Done k' => kept k k' ∧ mmap_failed k0 k' base i
    end).
Proof.
  intros Hb Hi Hmax Hlen Htk Hmp. unfold mmap_step.
  assert (0 ≤ i * PAGE_SIZE ∧ base + i * PAGE_SIZE < 2 ^ 64) as [? Hsum] by (unfold PAGE_SIZE in *; lia).
  step1. step1; [unfold in_u; lia|]. step1. step1; [unfold in_u; lia|].
  apply returns_bind. eapply returns_mono; [by apply allocate_took|].
  intros [[a|] k1] (Hsp & Hpr & Hr).
  - destruct Hr as (f & -> & Htk1).
    destruct (map_user_page (space k1) _ _ _ _ _) as [ok sp] eqn:Hmap.
    destruct ok; simpl.
    + split; [done|]. exists f. by apply (mapped_one k0 k k1 sp base i fs f) in Hmap.
    + pose proof (map_user_page_ok _ _ _ _ _ _ _ _ Hmap) as Hm. rewrite page_step in Hm. simpl in Hm.
      apply returns_bind. eapply returns_mono; [by apply unmap_first_ok|].
      intros k3 (Hp3 & Hpr3 & Hu3). apply returns_bind. eapply returns_mono.
      { apply release_last. by apply (took_frames_ext k0 k1). }
      intros [r k4] (Hsp4 & Hpr4 & Htk4). simpl. split.
      { apply (kept_trans k k3); [|done]. by apply (kept_trans k k1). }
      exists fs. split; [done|]. split; [done|].
      rewrite <-Hlen in Hu3. intros v. rewrite Hsp4, Hu3. simpl. rewrite Hm, Hsp.
      case_decide; [done|]. apply Hmp. lia.
  - destruct Hr as [Htk1 _]. apply returns_bind. eapply returns_mono; [by apply (out_of_frames k0 k k1 base i fs)|].
    by intros.
Qed.

Lemma mmap_address_keeps k addr len flags n v k1 :
  mmap_address k addr len flags n = Ret (v, k1) → pages k1 = pages k ∧ space k1 = space k.
Proof.
  unfold mmap_address. destruct (_ && _); [by intros [= _ <-]|].
  destruct (proc k); [|by intros [= _ <-]]. intros Hb.
  apply bind_ret_inv in Hb as ([r b] & _ & [= _ <-]). done.
Qed.

(** What a loop of [n] mapping steps at [base] leaves behind. *)
Definition map_loop_post (k0 k1 : K) (base n : Z) (fl : flow K K) : Prop :=
  match fl with
  | Next k' => kept k1 k' ∧ ∃ fs, Z.of_nat (length fs) = n ∧ took_frames k0 k' fs ∧ maps_frames k0 k' base fs
  | Done k' => kept k1 k' ∧ ∃ i, 0 ≤ i < n ∧ mmap_failed k0 k' base i
  end.

Lemma map_loop_ok k k1 base n (body : Z → K → outcome (flow K K)) :
  PagesSpec.wf (pages k) → pages k1 = pages k → space k1 = space k → 0 ≤ n →
  (∀ i k' fs, 0 ≤ i < n → length fs = Z.to_nat i → took_frames k k' fs → maps_frames k k' base fs →
     returns (body i k') (λ fl,
       match fl with
       | Next k2 => kept k' k2 ∧ ∃ f, took_frames k k2 (fs ++ [f]) ∧ maps_frames k k2 base (fs ++ [f])
       | Done k2 => kept k' k2 ∧ mmap_failed k k2 base i
       end)) →
  returns (for_range 0 n body k1) (map_loop_post k k1 base n).
Proof.
  intros Hwf Hp Hs Hn Hbody. eapply returns_mono.
  { apply (for_range_inv
      (λ i k', kept k1 k' ∧ ∃ fs, length fs = Z.to_nat i ∧ took_frames k k' fs ∧ maps_frames k k' base fs)
      (λ k', kept k1 k' ∧ ∃ i, 0 ≤ i < n ∧ mmap_failed k k' base i)); [done| |].
    - split; [done|]. exists []. split; [done|]. by apply took_nothing.
    - intros i k' Hi (Hk & fs & Hl & Htk & Hmp). eapply returns_mono; [by apply (Hbody i k' fs)|].
      intros [k2|k2] [Hk2 H2]; (split; [by apply (kept_trans k1 k')|]); [|by exists i].
      destruct H2 as (f & Htk2 & Hmp2). exists (fs ++ [f]).
      split; [rewrite length_app; simpl; lia|done]. }
  intros [k2|k2]; [|done]. intros (Hk & fs & Hl & Htk & Hmp). split; [done|]. exists fs.
  split; [lia|done].
Qed.

Lemma pages_needed_pos len : 0 < len → 1 ≤ (len + PAGE_SIZE - 1) / PAGE_SIZE.
Proof. intros. unfold PAGE_SIZE. apply Z.div_le_lower_bound; lia. Qed.

(** [sys_mmap] behind its argument checks, and what it does when one fails. *)
Lemma sys_mmap_checks k addr len prot flags fd offset :
  let n := (len + PAGE_SIZE - 1) / PAGE_SIZE in
  0 ≤ len →
  sys_mmap spurious k addr len prot flags fd offset =
  if decide (0 < len ≤ 0x1000000000 ∧ Z.land prot (wnot 64 7) = 0 ∧ Z.land flags (wnot 64 0x33) = 0) then
    '(v, k1) ← mmap_address k addr len flags n;
    match v with
    | None => Ret (MINUS_ONE, k1)
    | Some virt_addr =>
        fl ← for_range 0 n (mmap_step spurious prot virt_addr) k1;
        Ret (match fl with Next k2 => (virt_addr, k2) | Done k2 => (MINUS_ONE, k2) end)
    end
  else Ret (MINUS_ONE, k).
Proof.
  intros n Hlen. unfold sys_mmap.
  change (Z.lor (Z.lor PROT_READ PROT_WRITE) PROT_EXEC) with 7.
  change (Z.lor (Z.lor (Z.lor MAP_SHARED MAP_PRIVATE) MAP_ANONYMOUS) MAP_FIXED) with 0x33.
  destruct (Z.eqb_spec len 0); [by rewrite decide_False by lia|].
  destruct (Z.ltb_spec 0x1000000000 len); [by rewrite decide_False by lia|].
  destruct (Z.eqb_spec (Z.land prot (wnot 64 7)) 0); [|rewrite decide_False; [done|tauto]].
  destruct (Z.eqb_spec (Z.land flags (wnot 64 0x33)) 0); [|rewrite decide_False; [done|tauto]].
  rewrite decide_True by (split; [lia|done]). cbn [negb].
  rewrite uadd_ok by (unfold in_u, PAGE_SIZE; lia). cbn [mbind outcome_bind].
  rewrite usub_ok by (unfold in_u, PAGE_SIZE; lia). cbn [mbind outcome_bind]. fold n.
  pose proof (pages_needed_pos len ltac:(lia)) as Hn. fold n in Hn. by rewrite Z.max_l by done.
Qed.

Lemma sys_mmap_ok k addr len prot flags fd offset base k1 :
  let n := (len + PAGE_SIZE - 1) / PAGE_SIZE in
  PagesSpec.wf (pages k) → 0 < len ≤ 0x1000000000 →
  Z.land prot (wnot 64 7) = 0 → Z.land flags (wnot 64 0x33) = 0 →
  mmap_address k addr len flags n = Ret (Some base, k1) →
  0 ≤ base → base + n * PAGE_SIZE < 2 ^ 64 →
  ∃ fl, sys_mmap spurious k addr len prot flags fd offset =
          Ret (match fl with Next k2 => (base, k2) | Done k2 => (MINUS_ONE, k2) end) ∧
        map_loop_post k k1 base n fl.
Proof.
  intros n Hwf Hlen Hprot Hflags Haddr Hb Hmax.
  rewrite sys_mmap_checks, decide_True by (done || lia). fold n. rewrite Haddr. cbn [mbind outcome_bind].
  pose proof (pages_needed_pos len ltac:(lia)) as Hn. fold n in Hn.
  destruct (mmap_address_keeps _ _ _ _ _ _ _ Haddr) as [Hp1 Hs1].
  assert (returns (for_range 0 n (mmap_step spurious prot base) k1) (map_loop_post k k1 base n)) as Hloop.
  { apply map_loop_ok; [done..|lia|]. intros i k' fs Hi Hl Htk Hmp.
    apply mmap_step_ok; [done|lia| |done..]. unfold PAGE_SIZE in *. lia. }
  apply returns_iff in Hloop as (fl & -> & Hfl). exists fl. by split.
Qed.

(** C13: [sys_mmap] on every branch, for a well-formed bitmap, when weak
    compare-exchanges do not fail spuriously.  With a length of 0 or over 64 GB,
    with protection bits other than 1, 2, 4 or flag bits other than 1, 2, 0x10, 0x20
    it returns -1 without effect.  Otherwise it asks for the address of the range
    ([mmap_address]: the requested one, or the next of the process's allocator), and
    returns -1 when there is none.  Else, for a range of [n] pages that does not
    overflow, it either maps every page of the range to a
    distinct frame that was free, marks exactly those frames and returns the address;
    or it fails at some page [i] below [n] and returns -1: then the [i] pages before
    it are not mapped, also those that had been mapped before the call, all other pages are
    mapped as before the call, and exactly [i] frames that were free stay
    marked as taken although no page refers to them. *)
Theorem sys_mmap_result k addr len prot flags fd offset :
  let n := (len + PAGE_SIZE - 1) / PAGE_SIZE in
  PagesSpec.wf (pages k) → 0 ≤ len →
  if decide (0 < len ≤ 0x1000000000 ∧ Z.land prot (wnot 64 7) = 0 ∧ Z.land flags (wnot 64 0x33) = 0) then
    ∀ v k1, mmap_address k addr len flags n = Ret (v, k1) →
    match v with
    | None => sys_mmap spurious k addr len prot flags fd offset = Ret (MINUS_ONE, k1)
    | Some base => 0 ≤ base → base + n * PAGE_SIZE < 2 ^ 64 →
        returns (sys_mmap spurious k addr len prot flags fd offset) (λ '(r, k'),
          (r = base ∧ ∃ fs, Z.of_nat (length fs) = n ∧ took_frames k k' fs ∧ maps_frames k k' base fs) ∨
          (r = MINUS_ONE ∧ ∃ i, 0 ≤ i < n ∧ ∃ fs, length fs = Z.to_nat i ∧ took_frames k k' fs ∧
             unmaps_range k k' base (length fs)))
    end
  else sys_mmap spurious k addr len prot flags fd offset = Ret (MINUS_ONE, k).
Proof.
  intros n Hwf Hlen. case_decide as Hok; [|by rewrite sys_mmap_checks, decide_False].
  intros [base|] k1 Haddr.
  - intros Hb Hmax. destruct Hok as (Hl & Hprot & Hflags).
    destruct (sys_mmap_ok k addr len prot flags fd offset base k1) as (fl & -> & Hfl); [done..|].
    destruct fl as [k2|k2]; destruct Hfl as [_ Hfl]; [by left|by right].
  - rewrite sys_mmap_checks, decide_True by done. fold n. by rewrite Haddr.
Qed.

End mmap.

(** ** Pointer validation and [sys_read] *)

Lemma validate_user_pointer_iff ptr len :
  0 ≤ ptr → 0 ≤ len →
  validate_user_pointer ptr len = true ↔
  USER_SPACE_START ≤ ptr < USER_SPACE_END ∧ ptr + len ≤ USER_SPACE_END.
Proof.
  intros Hp Hl. unfold validate_user_pointer, USER_SPACE_START, USER_SPACE_END.
  destruct (Z.eqb_spec ptr 0), (Z.ltb_spec ptr 0x40000000), (Z.leb_spec 0x7FFFFFFFFF000 ptr),
    (Z.ltb_spec 0 len), (Z.leb_spec (2 ^ 64) (ptr + len)), (Z.ltb_spec 0x7FFFFFFFFF000 (ptr + len));
    simpl; (split; [intros; try done; lia|intros; try done; lia]).
Qed.

(** [validate_user_pointer] accepts exactly the ranges that start in user
    space and end at or below its limit, for every pointer and length, also when
    their sum does not fit 64 bits; an accepted range does not wrap around. *)
Theorem validate_user_pointer_exact ptr len :
  in_u 64 ptr → in_u 64 len →
  (validate_user_pointer ptr len = true ↔
   USER_SPACE_START ≤ ptr < USER_SPACE_END ∧ ptr + len ≤ USER_SPACE_END) ∧
  (validate_user_pointer ptr len = true → in_u 64 (ptr + len)).
Proof.
  intros [Hp _] [Hl _]. rewrite validate_user_pointer_iff by done. split; [done|].
  unfold USER_SPACE_START, USER_SPACE_END, in_u. lia.
Qed.

Section reading.
Context {Proc Sp Dev : Type} `{!UserSpace Sp} `{!Mmio Dev}.
Implicit Types (k : Kernel Proc Sp Dev).

(** A byte of the buffer cannot be written. *)
Definition read_fault k (buf count : Z) : Prop :=
  ∃ i, 0 ≤ i < count ∧ can_write (space k) (buf + i) = false.

Lemma sys_read_ok k fd buf count :
  0 ≤ buf → 0 ≤ count →
  ends False (read_fault k buf count) (sys_read k fd buf count) (λ '(r, k'),
    (r = MINUS_ONE ∧ k' = k) ∨
    (0 ≤ r ≤ count ∧ USER_SPACE_START ≤ buf ∧ buf + count ≤ USER_SPACE_END ∧
     pages k' = pages k ∧ space k' = space k ∧ proc k' = proc k ∧
     ∀ a, ¬ (buf ≤ a < buf + r) → ram k' a = ram k a)).
Proof.
  intros Hb Hc. unfold sys_read. destruct (_ || _) eqn:Hz; [by left|].
  destruct (validate_user_pointer buf count) eqn:Hv; [simpl|by left].
  apply validate_user_pointer_iff in Hv; [|done..].
  destruct (fd =? 0); [|by left]. apply ends_bind. eapply ends_mono; [|done..|].
  { apply (for_range_ends _ _ (λ i '(r, _), ∀ a, ¬ (buf ≤ a < buf + i) → r a = ram k a)
      (λ '(n, r, _), 0 ≤ n < Z.min count I32_MAX ∧ ∀ a, ¬ (buf ≤ a < buf + n) → r a = ram k a)).
    - unfold I32_MAX. lia.
    - done.
    - intros i [r d] Hi Hr. destruct (console_get_byte d) as [[b|] d']; simpl; [|done].
      destruct (can_write (space k) (buf + i)) eqn:Hw; simpl; [|exists i; split; [lia|done]].
      intros a Ha. unfold write_byte. destruct (Z.eqb_spec a (buf + i)); [lia|]. apply Hr. lia. }
  intros [[r d]|[[n r] d]]; simpl; intros Hr; right; split_and!; try done; unfold I32_MAX in *; try lia;
    intros a Ha; apply Hr; lia.
Qed.

(** [sys_read] returns -1 without effect, or the number of bytes it stored:
    at most [count], all of them in the caller's buffer, which lies in user
    space; no other byte of memory, no frame and no mapping changes.  It faults only
    when some byte of the buffer is not writable. *)
Theorem sys_read_confined k fd buf count :
  0 ≤ buf → 0 ≤ count →
  match sys_read k fd buf count with
  | Ret (r, k') => (r = MINUS_ONE ∧ k' = k) ∨
      (0 ≤ r ≤ count ∧ USER_SPACE_START ≤ buf ∧ buf + count ≤ USER_SPACE_END ∧
       pages k' = pages k ∧ space k' = space k ∧ proc k' = proc k ∧
       ∀ a, ¬ (buf ≤ a < buf + r) → ram k' a = ram k a)
  | Undef => ∃ i, 0 ≤ i < count ∧ can_write (space k) (buf + i) = false
  | Panic | Diverge => False
  end.
Proof. apply sys_read_ok. Qed.

End reading.

(** ** The bump allocator *)

Definition bump_ok (p : Bump.PageAllocator) : Prop :=
  Bump.lock p = false ∧ 0 ≤ Bump.start_addr p ≤ Bump.current p ∧
  Bump.current p ≤ Bump.end_addr p < 2 ^ 64 - 1.

(** [PageAllocator::allocate_pages] hands out the range that starts at
    [current] and moves [current] to its end, so that ranges never overlap and
    stay in the heap; it refuses, without effect, exactly an empty request and
    one that does not fit. *)
Theorem bump_allocate_exact {prof : Profile} p count :
  bump_ok p → 0 ≤ count → count * PAGE_SIZE < 2 ^ 64 →
  returns (Bump.allocate_pages p count) (λ '(r, p'),
    bump_ok p' ∧
    match r with
    | Some a => a = Bump.current p ∧ Bump.current p' = a + count * PAGE_SIZE ∧
                0 < count ∧ a + count * PAGE_SIZE ≤ Bump.end_addr p
    | None => p' = p ∧ (count = 0 ∨ Bump.end_addr p < Bump.current p + count * PAGE_SIZE)
    end).
Proof.
  intros (Hl & Hs & He) Hc Hm. unfold Bump.allocate_pages.
  destruct (Z.eqb_spec count 0) as [->|]; [simpl; split; [done|by split; [|left]]|].
  unfold PAGE_SIZE in *. step1. step1; [unfold in_u; lia|]. rewrite Hl. unfold saturating_add.
  destruct (Z.ltb_spec (Bump.end_addr p) (Z.min (Bump.current p + count * 4096) (2 ^ 64 - 1))); simpl.
  - split; [done|]. split; [done|right; lia].
  - rewrite Z.min_l by lia. split; [|lia]. split; [done|]. simpl. lia.
Qed.

(** ** Claims about [PhysicalPageAllocator] *)

(** C26: [allocate_page], on hardware whose weak exchange does not fail spuriously,
    takes the first free page in cyclic order from the hint, marks exactly that
    page and returns its address; it returns [None], unchanged, exactly when all
    pages are taken. *)
Theorem allocate_page_cyclic {prof : Profile} (spurious : Z → bool) a :
  PagesSpec.wf a → (∀ k, spurious k = false) →
  returns (Pages.allocate_page spurious a) (λ '(r, a'),
    PagesSpec.wf a' ∧
    match r with
    | Some addr => ∃ p j, 0 ≤ p < Pages.total_pages a ∧ addr = PagesSpec.frame a p ∧
        PagesSpec.taken a p = false ∧
        p = (Pages.next_free_hint a + j) mod Pages.total_pages a ∧ 0 ≤ j ∧
        (∀ i, 0 ≤ i < j →
           PagesSpec.taken a ((Pages.next_free_hint a + i) mod Pages.total_pages a) = true) ∧
        ∀ g, 0 ≤ g → PagesSpec.taken a' g = PagesSpec.taken a g || (g =? p)
    | None => a' = a ∧ ∀ p, 0 ≤ p < Pages.total_pages a → PagesSpec.taken a p = true
    end).
Proof.
  intros Hwf Hs. eapply returns_mono; [by apply PagesSpec.allocate_page_ok|].
  intros [r a'] (Hw & _ & Hr). by split.
Qed.

(** [deallocate_page] on every branch: an address outside the range or not
    aligned is refused without effect; a free page is reported as already free
    and stays free; a taken page is released, and no other page changes.
    [is_allocated] reports the bit in all three cases. *)
Theorem deallocate_page_branches a addr :
  PagesSpec.wf a →
  returns (Pages.deallocate_page a addr) (λ '(r, a'),
    PagesSpec.wf a' ∧
    match r with
    | inr _ => ∃ p, 0 ≤ p < Pages.total_pages a ∧ addr = PagesSpec.frame a p ∧
        Pages.is_allocated a addr = Ret (inr true) ∧ Pages.is_allocated a' addr = Ret (inr false) ∧
        ∀ g, 0 ≤ g → PagesSpec.taken a' g = PagesSpec.taken a g && negb (g =? p)
    | inl Pages.AlreadyFree => Pages.is_allocated a addr = Ret (inr false) ∧
        ∀ g, 0 ≤ g → PagesSpec.taken a' g = PagesSpec.taken a g
    | inl Pages.InvalidAddress => Pages.is_allocated a addr = Ret (inl Pages.InvalidAddress) ∧ a' = a
    | inl _ => False
    end).
Proof.
  intros Hwf. eapply returns_mono; [by apply PagesSpec.deallocate_page_ok|].
  assert (∀ b p, PagesSpec.wf b → 0 ≤ p < Pages.total_pages b →
    Pages.is_allocated b (PagesSpec.frame b p) = Ret (inr (PagesSpec.taken b p))) as His.
  { intros b p Hb Hp. unfold Pages.is_allocated. rewrite PagesSpec.bad_address_frame by done.
    rewrite PagesSpec.frame_index. destruct (PagesSpec.word_exists b p Hb Hp) as (w & Hlk & ->).
    rewrite Hlk. pose proof (Z.mod_pos_bound p 64 ltac:(lia)).
    rewrite PagesSpec.bit_test, negb_involutive by lia. by rewrite (PagesSpec.taken_lookup b p w). }
  intros [[[]|u] a'] (Hw & (Hst & _ & Htot) & Hr); (split; [done|]); try done.
  - destruct Hr as [Hbad ->]. split; [|done]. unfold Pages.is_allocated. by rewrite Hbad.
  - destruct Hr as (p & Hp & -> & Hf & Hg). split; [|done]. by rewrite His, Hf.
  - destruct Hr as (p & Hp & -> & Ht & Hg). exists p. split_and!; try done; try lia.
    + by rewrite His, Ht.
    + assert (PagesSpec.frame a p = PagesSpec.frame a' p) as -> by (unfold PagesSpec.frame; by rewrite Hst).
      rewrite His by (done || by rewrite Htot). rewrite Hg, Z.eqb_refl, andb_false_r by lia. done.
Qed.

(** ** Concrete instances *)

(** A user address space as a map from page numbers to frames, with a predicate
    on page numbers that refuses some mappings. *)
Record toy_space := { toy_map : gmap Z Z; toy_refuse : Z → bool }.

Definition toy_map_page (sp : toy_space) (v p : Z) (r w x : bool) : bool * toy_space :=
  if toy_refuse sp (v / PAGE_SIZE) then (false, sp)
  else (true, {| toy_map := <[v / PAGE_SIZE := p]> (toy_map sp); toy_refuse := toy_refuse sp |}).
Definition toy_unmap_page (sp : toy_space) (v : Z) : toy_space :=
  {| toy_map := delete (v / PAGE_SIZE) (toy_map sp); toy_refuse := toy_refuse sp |}.
#[export] Instance toy_user_space : UserSpace toy_space :=
  {| map_user_page := toy_map_page; unmap_user_page := toy_unmap_page;
     can_read sp v := bool_decide (is_Some (toy_map sp !! (v / PAGE_SIZE)));
     can_write sp v := bool_decide (is_Some (toy_map sp !! (v / PAGE_SIZE))) |}.

Definition toy_mapped (sp : toy_space) (v : Z) : option Z := toy_map sp !! (v / PAGE_SIZE).

Lemma toy_map_ok sp v p r w x ok sp' :
  toy_map_page sp v p r w x = (ok, sp') →
  ∀ v', toy_mapped sp' v' = if ok && (v' / PAGE_SIZE =? v / PAGE_SIZE) then Some p else toy_mapped sp v'.
Proof.
  unfold toy_map_page. destruct (toy_refuse sp _); intros [= <- <-] v'; [done|].
  unfold toy_mapped. simpl. destruct (Z.eqb_spec (v' / PAGE_SIZE) (v / PAGE_SIZE)) as [->|].
  - apply lookup_insert_eq.
  - by apply lookup_insert_ne.
Qed.

Lemma toy_unmap_ok sp v v' :
  toy_mapped (toy_unmap_page sp v) v' =
  if v' / PAGE_SIZE =? v / PAGE_SIZE then None else toy_mapped sp v'.
Proof.
  unfold toy_mapped. simpl. destruct (Z.eqb_spec (v' / PAGE_SIZE) (v / PAGE_SIZE)) as [->|].
  - apply lookup_delete_eq.
  - by apply lookup_delete_ne.
Qed.

#[export] Instance toy_laws : UserSpaceLaws toy_space :=
  {| mapped := toy_mapped; map_user_page_ok := toy_map_ok; unmap_user_page_ok := toy_unmap_ok |}.

(** A process with a heap, and a device that never has input. *)
Record toy_proc := { tp_alloc : Bump.PageAllocator; tp_start : Z; tp_end : Z; tp_max : Z }.
#[export] Instance toy_process : ProcessOps toy_proc := {|
  get_page_allocator := tp_alloc;
  put_page_allocator p a := {| tp_alloc := a; tp_start := tp_start p; tp_end := tp_end p; tp_max := tp_max p |};
  get_heap_start := tp_start; get_heap_end := tp_end; get_max_heap_address := tp_max;
  set_heap_end p e := {| tp_alloc := tp_alloc p; tp_start := tp_start p; tp_end := e; tp_max := tp_max p |};
  fork p := (None, p);
  deallocate_memory_resources p := p;
  exit p _ := p
|}.
#[export] Instance toy_dev : Mmio unit := {| mmio_read d _ := (0, d); mmio_write d _ _ := d |}.

(** Four pages, the second one taken. *)
Definition toy_pages : Pages.PhysicalPageAllocator :=
  {| Pages.start_addr := 0x1000000; Pages.end_addr := 0x1004000; Pages.bitmap := [2];
     Pages.total_pages := 4; Pages.next_free_hint := 0; Pages.lock := false |}.

Lemma toy_pages_wf : PagesSpec.wf toy_pages.
Proof. split; simpl; try done. by left. Qed.

Definition toy_kernel (refuse : Z → bool) : Kernel toy_proc toy_space unit :=
  mkKernel toy_pages
    (Some {| tp_alloc := Bump.new 0x50000000 0x100000; tp_start := 0x40000000;
             tp_end := 0x40001000; tp_max := 0x40100000 |})
    {| toy_map := ∅; toy_refuse := refuse |} (λ _, 0) ().

(** When [sys_brk] cannot map a page it frees the frames that would have been
    taken if the frames of one call were contiguous.  Here a call takes frames 0
    and 2 around frame 1, which belongs to someone else; the second mapping is
    refused, and the call returns -1 having released frame 1 and kept 0 and 2. *)
Theorem brk_frees_foreign_frame :
  let k := toy_kernel (λ p, p =? 0x40002) in
  let taken k := map (PagesSpec.taken (pages k)) [0; 1; 2; 3] in
  taken k = [false; true; false; false] ∧
  (∀ prof : Profile,
     match sys_brk (prof := prof) (λ _, false) k 0x40003000 with
     | Ret (r, k') => r = MINUS_ONE ∧ taken k' = [true; false; true; false] ∧
                      mapped (space k') 0x40001000 = None ∧ mapped (space k') 0x40002000 = None
     | _ => False
     end).
Proof. split; [by vm_compute|]. intros [|]; by vm_compute. Qed.

Lemma sys_mmap_result_witness :
  let k := toy_kernel (λ _, false) in
  returns (sys_mmap (prof := dev) (λ _, false) k 0 8192 3 0x22 0 0) (λ '(r, k'),
    (r = 0x50000000 ∧ ∃ fs, Z.of_nat (length fs) = 2 ∧ took_frames k k' fs ∧
       maps_frames k k' 0x50000000 fs) ∨
    (r = MINUS_ONE ∧ ∃ i, 0 ≤ i < 2 ∧ ∃ fs, length fs = Z.to_nat i ∧ took_frames k k' fs ∧
       unmaps_range k k' 0x50000000 (length fs))) ∧
  sys_mmap (prof := dev) (λ _, false) k 0 8192 8 0x22 0 0 = Ret (MINUS_ONE, k).
Proof.
  intros k. set (p := {| tp_alloc := Bump.with_current (Bump.new 0x50000000 0x100000) 0x50002000;
    tp_start := 0x40000000; tp_end := 0x40001000; tp_max := 0x40100000 |}). split.
  - pose proof (sys_mmap_result (prof := dev) (λ _, false) (λ _, eq_refl) k 0 8192 3 0x22 0 0 toy_pages_wf ltac:(lia)) as H.
    cbv zeta in H. rewrite decide_True in H by (split_and!; [lia|lia|by vm_compute..]).
    apply (H (Some 0x50000000) (with_proc k (Some p))); [by vm_compute|lia|by vm_compute].
  - pose proof (sys_mmap_result (prof := dev) (λ _, false) (λ _, eq_refl) k 0 8192 8 0x22 0 0 toy_pages_wf ltac:(lia)) as H.
    cbv zeta in H. rewrite decide_False in H by (intros (_ & H1 & _); by vm_compute in H1). exact H.
Defined.

Lemma validate_user_pointer_exact_witness :
  (validate_user_pointer 0x40000000 4096 = true ↔
   USER_SPACE_START ≤ 0x40000000 < USER_SPACE_END ∧ 0x40000000 + 4096 ≤ USER_SPACE_END) ∧
  (validate_user_pointer 0x40000000 4096 = true → in_u 64 (0x40000000 + 4096)).
Proof. apply (validate_user_pointer_exact 0x40000000 4096); by split. Defined.

Lemma sys_read_confined_witness :
  let k := toy_kernel (λ _, false) in
  match sys_read k 0 0x40000000 16 with
  | Ret (r, k') => (r = MINUS_ONE ∧ k' = k) ∨
      (0 ≤ r ≤ 16 ∧ USER_SPACE_START ≤ 0x40000000 ∧ 0x40000000 + 16 ≤ USER_SPACE_END ∧
       pages k' = pages k ∧ space k' = space k ∧ proc k' = proc k ∧
       ∀ a, ¬ (0x40000000 ≤ a < 0x40000000 + r) → ram k' a = ram k a)
  | Undef => ∃ i, 0 ≤ i < 16 ∧ can_write (space k) (0x40000000 + i) = false
  | Panic | Diverge => False
  end.
Proof. intros k. exact (sys_read_confined k 0 0x40000000 16 ltac:(lia) ltac:(lia)). Defined.

Lemma bump_allocate_exact_witness :
  let p := Bump.new 0x50000000 0x100000 in
  returns (Bump.allocate_pages (prof := dev) p 3) (λ '(r, p'),
    bump_ok p' ∧
    match r with
    | Some a => a = Bump.current p ∧ Bump.current p' = a + 3 * PAGE_SIZE ∧
                0 < 3 ∧ a + 3 * PAGE_SIZE ≤ Bump.end_addr p
    | None => p' = p ∧ (3 = 0 ∨ Bump.end_addr p < Bump.current p + 3 * PAGE_SIZE)
    end).
Proof.
  intros p. apply (bump_allocate_exact (prof := dev) p 3); [|lia|by vm_compute].
  split; [done|]. vm_compute. split; split; congruence.
Defined.

Lemma allocate_page_cyclic_witness :
  returns (Pages.allocate_page (prof := dev) (λ _, false) toy_pages) (λ '(r, a'),
    PagesSpec.wf a' ∧
    match r with
    | Some addr => ∃ p j, 0 ≤ p < 4 ∧ addr = PagesSpec.frame toy_pages p ∧
        PagesSpec.taken toy_pages p = false ∧ p = (0 + j) mod 4 ∧ 0 ≤ j ∧
        (∀ i, 0 ≤ i < j → PagesSpec.taken toy_pages ((0 + i) mod 4) = true) ∧
        ∀ g, 0 ≤ g → PagesSpec.taken a' g = PagesSpec.taken toy_pages g || (g =? p)
    | None => a' = toy_pages ∧ ∀ p, 0 ≤ p < 4 → PagesSpec.taken toy_pages p = true
    end).
Proof. exact (allocate_page_cyclic (prof := dev) (λ _, false) toy_pages toy_pages_wf (λ _, eq_refl)). Defined.

Lemma deallocate_page_branches_witness :
  returns (Pages.deallocate_page toy_pages 0x1001000) (λ '(r, a'),
    PagesSpec.wf a' ∧
    match r with
    | inr _ => ∃ p, 0 ≤ p < 4 ∧ 0x1001000 = PagesSpec.frame toy_pages p ∧
        Pages.is_allocated toy_pages 0x1001000 = Ret (inr true) ∧
        Pages.is_allocated a' 0x1001000 = Ret (inr false) ∧
        ∀ g, 0 ≤ g → PagesSpec.taken a' g = PagesSpec.taken toy_pages g && negb (g =? p)
    | inl Pages.AlreadyFree => Pages.is_allocated toy_pages 0x1001000 = Ret (inr false) ∧
        ∀ g, 0 ≤ g → PagesSpec.taken a' g = PagesSpec.taken toy_pages g
    | inl Pages.InvalidAddress =>
        Pages.is_allocated toy_pages 0x1001000 = Ret (inl Pages.InvalidAddress) ∧ a' = toy_pages
    | inl _ => False
    end).
Proof. exact (deallocate_page_branches toy_pages 0x1001000 toy_pages_wf). Defined.
