(* ===== verification/CoreSequence.v ===== *)
(** * Sequences of core system calls (src/syscall/core.rs)

    The dispatcher [handle_core_syscall] with every handler behind it, over any
    sequence of calls with any arguments: the frame bitmap, the mappings and the
    process stay consistent, memory outside user space never changes, no call
    panics, and the calls that fault are those that touch user memory which is not
    accessible.  The current process and its address space
    are parameters with laws. *)

From S2P Require Import Prelude Core CoreTheorems.
Open Scope Z_scope.

(** What the accessors of [Process] promise: a setter changes the field it is named
    after, and [fork] leaves the parent's allocator and heap bounds alone. *)
Class ProcessLaws (Proc : Type) `{!ProcessOps Proc} := {
  get_put_allocator : ∀ p b, get_page_allocator (put_page_allocator p b) = b;
  put_heap : ∀ p b, get_heap_start (put_page_allocator p b) = get_heap_start p ∧
    get_heap_end (put_page_allocator p b) = get_heap_end p ∧
    get_max_heap_address (put_page_allocator p b) = get_max_heap_address p;
  get_set_heap_end : ∀ p e, get_heap_end (set_heap_end p e) = e;
  set_heap_end_keeps : ∀ p e, get_page_allocator (set_heap_end p e) = get_page_allocator p ∧
    get_heap_start (set_heap_end p e) = get_heap_start p ∧
    get_max_heap_address (set_heap_end p e) = get_max_heap_address p;
  fork_keeps : ∀ p, get_page_allocator (fork p).2 = get_page_allocator p ∧
    get_heap_start (fork p).2 = get_heap_start p ∧ get_heap_end (fork p).2 = get_heap_end p ∧
    get_max_heap_address (fork p).2 = get_max_heap_address p
}.

Definition user (v : Z) : Prop := USER_SPACE_START ≤ v < USER_SPACE_END.

Section core_sequence.
Context {prof : Profile} {Proc Sp Dev : Type}.
Context `{!ProcessOps Proc} `{!ProcessLaws Proc} `{!UserSpace Sp} `{!UserSpaceLaws Sp} `{!Mmio Dev}.
Context (spurious : Z → bool) (Hspur : ∀ k, spurious k = false) (uart_fuel : nat).
(** Mappings of the kind [sys_brk] makes are not refused. *)
Context (Hmaps : ∀ (sp : Sp) v p, (map_user_page sp v p true true false).1 = true).
#[local] Notation "'K'" := (Kernel Proc Sp Dev).
Implicit Types (k : K) (p : Proc).

(** The allocator and the heap of a process lie in user space. *)
Record process_ok p : Prop := {
  po_bump : bump_ok (get_page_allocator p);
  po_range : USER_SPACE_START ≤ Bump.start_addr (get_page_allocator p) ∧
             Bump.end_addr (get_page_allocator p) ≤ USER_SPACE_END;
  po_heap : USER_SPACE_START ≤ get_heap_start p ∧
            get_heap_start p ≤ get_heap_end p ≤ get_max_heap_address p ∧
            get_max_heap_address p ≤ USER_SPACE_END
}.

(** The bitmap is well-formed; every mapped address is a user address, mapped to a
    frame of the allocator that is marked as taken; no frame is behind two pages. *)
Record core_ok k : Prop := {
  co_pages : PagesSpec.wf (pages k);
  co_proc : ∀ p, proc k = Some p → process_ok p;
  co_user : ∀ v a, mapped (space k) v = Some a → user v;
  co_frame : ∀ v a, mapped (space k) v = Some a →
    ∃ f, 0 ≤ f < Pages.total_pages (pages k) ∧ a = PagesSpec.frame (pages k) f ∧
         PagesSpec.taken (pages k) f = true;
  co_distinct : ∀ v v' a, mapped (space k) v = Some a → mapped (space k) v' = Some a →
    v / PAGE_SIZE = v' / PAGE_SIZE
}.

(** ** Ranges of user pages *)

Lemma user_page v : user v ↔ USER_SPACE_START / PAGE_SIZE ≤ v / PAGE_SIZE < USER_SPACE_END / PAGE_SIZE.
Proof.
  unfold user, USER_SPACE_START, USER_SPACE_END, PAGE_SIZE.
  change (0x40000000 / 4096) with 0x40000. change (0x7FFFFFFFFF000 / 4096) with 0x7FFFFFFFFF.
  pose proof (Z.div_mod v 4096 ltac:(lia)). pose proof (Z.mod_pos_bound v 4096 ltac:(lia)). lia.
Qed.

(** The pages of a range of [n] pages at [base] are user pages. *)
Definition user_range (base n : Z) : Prop :=
  USER_SPACE_START ≤ base ∧ 0 < n ∧ base + (n - 1) * PAGE_SIZE < USER_SPACE_END.

Lemma user_range_page base n v :
  user_range base n → base / PAGE_SIZE ≤ v / PAGE_SIZE < base / PAGE_SIZE + n → user v.
Proof.
  intros (Hb & Hn & He) Hv. apply user_page.
  assert (user base) as [Hlo _]%user_page by (unfold user, PAGE_SIZE in *; lia).
  assert (user (base + (n - 1) * PAGE_SIZE)) as [_ Hhi]%user_page by (unfold user, PAGE_SIZE in *; lia).
  rewrite page_step in Hhi. lia.
Qed.

Lemma user_range_bound base n : user_range base n → 0 ≤ base ∧ base + n * PAGE_SIZE < 2 ^ 64.
Proof. unfold user_range, USER_SPACE_START, USER_SPACE_END, PAGE_SIZE. lia. Qed.

(** A range of [len] bytes inside user space, in pages. *)
Lemma user_range_bytes base len :
  USER_SPACE_START ≤ base → 0 < len → base + len ≤ USER_SPACE_END →
  user_range base ((len + PAGE_SIZE - 1) / PAGE_SIZE).
Proof.
  intros Hb Hl He. pose proof (pages_needed_pos len Hl).
  unfold user_range. split; [done|]. split; [lia|].
  pose proof (Z.mul_div_le (len + PAGE_SIZE - 1) PAGE_SIZE ltac:(done)). unfold PAGE_SIZE in *. lia.
Qed.

(** ** Mapping, unmapping and the invariant *)

Lemma core_ok_maps k k1 k' base fs :
  core_ok k → (∀ p, proc k1 = Some p → process_ok p) → kept k1 k' →
  user_range base (Z.of_nat (length fs)) → took_frames k k' fs → maps_frames k k' base fs → core_ok k'.
Proof.
  intros [Hwf _ Huser Hframe Hdist] Hproc [Hk _] Hr [Hwf' (Hs & He & Ht) Hnd Hfree Htk] [Hin Hout].
  assert (∀ v a, mapped (space k') v = Some a →
    (∃ j f, fs !! j = Some f ∧ v / PAGE_SIZE = base / PAGE_SIZE + Z.of_nat j ∧ a = PagesSpec.frame (pages k) f) ∨
    mapped (space k) v = Some a) as Hcase.
  { intros v a Hv. destruct (decide (base / PAGE_SIZE ≤ v / PAGE_SIZE < base / PAGE_SIZE + Z.of_nat (length fs))) as [Hb|Hb].
    - left. destruct (lookup_lt_is_Some_2 fs (Z.to_nat (v / PAGE_SIZE - base / PAGE_SIZE))) as [f Hf]; [lia|].
      exists (Z.to_nat (v / PAGE_SIZE - base / PAGE_SIZE)), f. split; [done|].
      assert (v / PAGE_SIZE = base / PAGE_SIZE + Z.of_nat (Z.to_nat (v / PAGE_SIZE - base / PAGE_SIZE))) as Hvj by lia.
      split; [exact Hvj|]. rewrite (Hin _ f v Hf Hvj) in Hv. by injection Hv.
    - right. rewrite <-(Hout v); [done|]. intros j Hj. lia. }
  assert (∀ f v a, f ∈ fs → mapped (space k) v = Some a → a ≠ PagesSpec.frame (pages k) f) as Hfresh.
  { intros f v a Hf Hv ->. destruct (Hframe v _ Hv) as (g & _ & Hg%PagesSpec.frame_inj & Htg).
    subst g. destruct (Hfree f Hf). congruence. }
  split.
  - done.
  - intros p Hp. apply Hproc. congruence.
  - intros v a [(j & f & Hf & Hj & _)|Hv]%Hcase; [|by eapply Huser].
    apply (user_range_page base _ v Hr). apply lookup_lt_Some in Hf. lia.
  - intros v a [(j & f & Hf & Hj & ->)|Hv]%Hcase.
    + apply list_elem_of_lookup_2 in Hf. destruct (Hfree f Hf) as [Hb _]. exists f.
      split; [by rewrite Ht|]. split; [unfold PagesSpec.frame; by rewrite Hs|].
      rewrite Htk by lia. rewrite (bool_decide_true (f ∈ fs)) by done. apply orb_true_r.
    + destruct (Hframe v a Hv) as (f & Hb & -> & Htf). exists f.
      split; [by rewrite Ht|]. split; [unfold PagesSpec.frame; by rewrite Hs|].
      rewrite Htk by lia. by rewrite Htf.
  - intros v v' a [(j & f & Hf & Hj & ->)|Hv]%Hcase [(j' & f' & Hf' & Hj' & Ha)|Hv']%Hcase.
    + apply PagesSpec.frame_inj in Ha as ->. assert (j = j') by (by eapply NoDup_lookup). lia.
    + apply list_elem_of_lookup_2 in Hf. by destruct (Hfresh f v' _ Hf Hv').
    + subst a. apply list_elem_of_lookup_2 in Hf'. by destruct (Hfresh f' v _ Hf' Hv).
    + by apply (Hdist v v' a).
Qed.

(** Fewer mappings and more frames taken. *)
Lemma core_ok_sub k k' :
  core_ok k → PagesSpec.wf (pages k') → PagesSpec.same_range (pages k) (pages k') →
  (∀ g, 0 ≤ g → PagesSpec.taken (pages k) g = true → PagesSpec.taken (pages k') g = true) →
  (∀ v a, mapped (space k') v = Some a → mapped (space k) v = Some a) →
  (∀ p, proc k' = Some p → process_ok p) → core_ok k'.
Proof.
  intros [Hwf _ Huser Hframe Hdist] Hwf' (Hs & He & Ht) Htk Hsub Hproc. split; [done|done|..].
  - intros v a Hv. by eapply Huser, Hsub.
  - intros v a Hv. destruct (Hframe v a (Hsub v a Hv)) as (f & Hb & -> & Htf). exists f.
    split; [by rewrite Ht|]. split; [unfold PagesSpec.frame; by rewrite Hs|]. apply Htk; [lia|done].
  - intros v v' a Hv Hv'. by eapply Hdist; apply Hsub.
Qed.

Lemma core_ok_failed k k1 k' base :
  core_ok k → (∀ p, proc k1 = Some p → process_ok p) → kept k1 k' → (∃ i, 0 ≤ i ∧ mmap_failed k k' base i) → core_ok k'.
Proof.
  intros Hok Hproc [Hk _] (i & _ & fs & _ & [Hwf' Hr _ _ Htk] & Hu). apply (core_ok_sub k); [done..| | |].
  - intros g Hg Htg. by rewrite Htk, Htg by done.
  - intros v a. rewrite Hu. by case_decide.
  - intros p Hp. apply Hproc. congruence.
Qed.

(** Only the process or the memory changed. *)
Lemma core_ok_frame k k' :
  core_ok k → pages k' = pages k → space k' = space k → (∀ p, proc k' = Some p → process_ok p) → core_ok k'.
Proof. intros Hok Hp Hs Hproc. destruct Hok. split; rewrite ?Hp, ?Hs; done. Qed.

(** What a call leaves behind: the invariant, and kernel memory as it was. *)
Definition call_ok k (rk : Z * K) : Prop :=
  core_ok rk.2 ∧ ∀ a, ¬ user a → ram rk.2 a = ram k a.

Lemma call_refused k r : core_ok k → call_ok k (r, k).
Proof. by split. Qed.

(** The result of a mapping loop. *)
Lemma map_loop_call k k1 base n fl :
  core_ok k → (∀ p, proc k1 = Some p → process_ok p) → ram k1 = ram k →
  user_range base n → map_loop_post k k1 base n fl →
  let k' := match fl with Next k2 => k2 | Done k2 => k2 end in
  core_ok k' ∧ proc k' = proc k1 ∧ ram k' = ram k.
Proof.
  intros Hok Hproc Hram Hr. destruct fl as [k2|k2]; simpl.
  - intros (Hk & fs & <- & Htk & Hmp). split; [by eapply core_ok_maps|]. destruct Hk. split; congruence.
  - intros (Hk & i & Hi & Hf). split; [eapply core_ok_failed; [done..|]; exists i; split; [lia|done]|].
    destruct Hk. split; congruence.
Qed.

(** ** The handlers *)

Lemma put_allocator_ok p b :
  process_ok p → bump_ok b →
  Bump.start_addr b = Bump.start_addr (get_page_allocator p) →
  Bump.end_addr b = Bump.end_addr (get_page_allocator p) → process_ok (put_page_allocator p b).
Proof.
  intros [_ Hr Hh] Hb Hs He. destruct (put_heap p b) as (H1 & H2 & H3).
  split; rewrite ?get_put_allocator, ?H1, ?H2, ?H3; [done|by rewrite Hs, He|done].
Qed.

Lemma bump_bounds (b b' : Bump.PageAllocator) count r :
  Bump.allocate_pages b count = Ret (r, b') →
  Bump.start_addr b' = Bump.start_addr b ∧ Bump.end_addr b' = Bump.end_addr b.
Proof.
  unfold Bump.allocate_pages. destruct (count =? 0); [by intros [= _ <-]|].
  intros (t & _ & H)%bind_ret_inv. destruct (Bump.lock b); [done|].
  destruct (_ <? _); by injection H as _ <-.
Qed.

Lemma mmap_address_ok k addr len flags :
  let n := (len + PAGE_SIZE - 1) / PAGE_SIZE in
  core_ok k → 0 ≤ addr → 0 < len ≤ 0x1000000000 →
  ∃ v k1, mmap_address k addr len flags n = Ret (v, k1) ∧ pages k1 = pages k ∧ space k1 = space k ∧
    ram k1 = ram k ∧ (∀ p, proc k1 = Some p → process_ok p) ∧ ∀ base, v = Some base → user_range base n.
Proof.
  intros n Hok Ha Hl. pose proof (pages_needed_pos len ltac:(lia)) as Hn. fold n in Hn.
  assert (n * PAGE_SIZE < 2 ^ 63) as Hn63.
  { pose proof (Z.mul_div_le (len + PAGE_SIZE - 1) PAGE_SIZE ltac:(done)). unfold n, PAGE_SIZE in *. lia. }
  pose proof (co_proc k Hok) as Hproc. unfold mmap_address. destruct (_ && _).
  { eexists _, k. split_and!; [done..|]. intros base Hv.
    destruct (validate_user_pointer addr len) eqn:E; [|done]. injection Hv as <-.
    apply validate_user_pointer_iff in E as [??]; [|lia..]. apply user_range_bytes; lia. }
  destruct (proc k) as [p|] eqn:Hp; [|by eexists None, k; rewrite Hp].
  pose proof (Hproc p eq_refl) as Hpo. destruct (po_bump p Hpo) as (Hbl & Hbs & Hbe).
  pose proof (bump_allocate_exact (get_page_allocator p) n (po_bump p Hpo) ltac:(lia) ltac:(lia)) as Hb.
  apply returns_iff in Hb as ([r b] & Hb & Hbok & Hres). rewrite Hb. cbn [mbind outcome_bind].
  destruct (bump_bounds _ _ _ _ Hb) as [Hs He]. eexists _, _. split; [done|].
  split_and!; [done..| |].
  - simpl. intros p' [= <-]. by apply put_allocator_ok.
  - intros base ->. destruct Hres as (-> & _ & _ & Hfit). destruct (po_range p Hpo).
    split; [lia|]. split; [lia|]. unfold PAGE_SIZE in *. lia.
Qed.

Lemma sys_mmap_call k addr len prot flags fd offset :
  core_ok k → 0 ≤ addr → 0 ≤ len →
  returns (sys_mmap spurious k addr len prot flags fd offset) (call_ok k).
Proof.
  intros Hok Ha Hlen.
  destruct (decide (0 < len ≤ 0x1000000000 ∧ Z.land prot (wnot 64 7) = 0 ∧ Z.land flags (wnot 64 0x33) = 0))
    as [(Hl & Hprot & Hfl)|Hbad].
  2: { rewrite sys_mmap_checks, decide_False by done. by apply call_refused. }
  destruct (mmap_address_ok k addr len flags Hok Ha Hl) as (v & k1 & Haddr & Hp1 & Hs1 & Hr1 & Hpr & Hv).
  destruct v as [base|].
  - specialize (Hv base eq_refl). destruct (user_range_bound _ _ Hv).
    destruct (sys_mmap_ok spurious Hspur k addr len prot flags fd offset base k1) as (fl & -> & Hpost);
      [by apply co_pages|done..|].
    destruct (map_loop_call k k1 base _ fl Hok Hpr Hr1 Hv Hpost) as (Hok' & _ & Hram).
    destruct fl; (split; [done|]; simpl; by rewrite Hram).
  - rewrite sys_mmap_checks, decide_True, Haddr by done. split; [by apply (core_ok_frame k)|]. simpl. by rewrite Hr1.
Qed.

Lemma brk_step_ok k0 k base i fs :
  0 ≤ base → 0 ≤ i → base + (i + 1) * PAGE_SIZE < 2 ^ 64 → length fs = Z.to_nat i →
  took_frames k0 k fs → maps_frames k0 k base fs →
  returns (brk_step spurious base i k) (λ fl,
    match fl with
    | Next k' => kept k k' ∧ ∃ f, took_frames k0 k' (fs ++ [f]) ∧ maps_frames k0 k' base (fs ++ [f])
    | Done k' => kept k k' ∧ mmap_failed k0 k' base i
    end).
Proof.
  intros Hb Hi Hmax Hlen Htk Hmp. unfold brk_step.
  assert (0 ≤ i * PAGE_SIZE ∧ base + i * PAGE_SIZE < 2 ^ 64) as [? Hsum] by (unfold PAGE_SIZE in *; lia).
  step1. step1; [unfold in_u; lia|]. step1. step1; [unfold in_u; lia|].
  apply returns_bind. eapply returns_mono; [by apply allocate_took|].
  intros [[a|] k1] (Hsp & Hpr & Hr).
  - destruct Hr as (f & -> & Htk1).
    pose proof (Hmaps (space k1) (base + i * PAGE_SIZE) (PagesSpec.frame (pages k0) f)) as Hyes.
    destruct (map_user_page (space k1) _ _ _ _ _) as [ok sp] eqn:Hmap. simpl in Hyes. subst ok. simpl.
    split; [done|]. exists f. by apply (mapped_one k0 k k1 sp base i fs f) in Hmap.
  - destruct Hr as [Htk1 _]. apply returns_bind.
    eapply returns_mono; [by apply (out_of_frames k0 k k1 base i fs)|]. by intros.
Qed.

Lemma page_count_ok bytes :
  0 ≤ bytes < 2 ^ 63 → page_count bytes = Ret ((bytes + PAGE_SIZE - 1) / PAGE_SIZE).
Proof.
  intros Hb. unfold page_count. rewrite uadd_ok by (unfold in_u, PAGE_SIZE; lia). simpl.
  by rewrite usub_ok by (unfold in_u, PAGE_SIZE; lia).
Qed.

(** The shrinking loop of [sys_brk] only takes mappings away. *)
Lemma shrink_ok k new_brk heap_end :
  USER_SPACE_START ≤ new_brk → new_brk < heap_end ≤ USER_SPACE_END →
  returns (for_each 0 ((heap_end - new_brk + PAGE_SIZE - 1) / PAGE_SIZE) (λ i k,
      o ← umul i PAGE_SIZE;
      vaddr ← uadd new_brk o;
      Ret (if vaddr <? heap_end then with_space k (unmap_user_page (space k) vaddr) else k)) k) (λ k',
    pages k' = pages k ∧ kept k k' ∧ ∀ v a, mapped (space k') v = Some a → mapped (space k) v = Some a).
Proof.
  intros Hs He.
  destruct (user_range_bound new_brk ((heap_end - new_brk + PAGE_SIZE - 1) / PAGE_SIZE)) as [Hb Hmax];
    [apply user_range_bytes; lia|].
  apply (for_each_inv (λ _ k', pages k' = pages k ∧ kept k k' ∧
    ∀ v a, mapped (space k') v = Some a → mapped (space k) v = Some a)).
  - pose proof (pages_needed_pos (heap_end - new_brk)). lia.
  - done.
  - intros i k1 Hi (Hp & Hk & Hsub). unfold PAGE_SIZE in *.
    step1. step1; [unfold in_u; lia|]. step1. step1; [unfold in_u; lia|]. simpl.
    destruct (_ <? _); [|done]. split; [done|]. split; [done|]. simpl.
    intros v a. rewrite unmap_user_page_ok. destruct (_ =? _); [done|]. apply Hsub.
Qed.

Lemma set_heap_end_ok p e :
  process_ok p → get_heap_start p ≤ e ≤ get_max_heap_address p → process_ok (set_heap_end p e).
Proof.
  intros [Hb Hr (H1 & H2 & H3)] He. destruct (set_heap_end_keeps p e) as (E1 & E2 & E3).
  split; rewrite ?E1, ?E2, ?E3, ?get_set_heap_end; [done..|lia].
Qed.

(** The end of [sys_brk]: the new break is recorded. *)
Lemma brk_recorded k k1 p new_brk :
  core_ok k1 → process_ok p → get_heap_start p ≤ new_brk ≤ get_max_heap_address p →
  ram k1 = ram k → call_ok k (new_brk, with_proc k1 (Some (set_heap_end p new_brk))).
Proof.
  intros Hok Hp Hb Hram. split; simpl; [|by rewrite Hram].
  apply (core_ok_frame k1); [done..|]. intros p' [= <-]. by apply set_heap_end_ok.
Qed.

Lemma sys_brk_call k new_brk : core_ok k → returns (sys_brk spurious k new_brk) (call_ok k).
Proof.
  intros Hok. unfold sys_brk. destruct (proc k) as [p|] eqn:Hp; [|by apply call_refused].
  pose proof (co_proc k Hok p Hp) as Hpo. destruct (po_heap p Hpo) as (Hs & Hhe & Hm).
  destruct (new_brk =? 0); [by apply call_refused|].
  destruct (Z.ltb_spec new_brk (get_heap_start p)); [by apply call_refused|].
  destruct (Z.ltb_spec (get_max_heap_address p) new_brk); [by apply call_refused|]. cbn [orb].
  destruct (Z.ltb_spec (get_heap_end p) new_brk) as [Hgrow|Hno]; [|destruct (Z.ltb_spec new_brk (get_heap_end p)) as [Hsh|Heq]].
  - assert (user_range (get_heap_end p) ((new_brk - get_heap_end p + PAGE_SIZE - 1) / PAGE_SIZE)) as Hr
      by (apply user_range_bytes; lia).
    rewrite page_count_ok by (unfold USER_SPACE_START, USER_SPACE_END in *; lia). cbn [mbind outcome_bind].
    apply returns_bind. eapply returns_mono.
    { destruct (user_range_bound _ _ Hr). pose proof (pages_needed_pos (new_brk - get_heap_end p)).
      apply (map_loop_ok spurious Hspur k k (get_heap_end p)); [by apply co_pages|done|done|lia|].
      intros i k' fs Hi Hl Htk Hmp. apply brk_step_ok; try done; unfold PAGE_SIZE in *; lia. }
    intros fl Hpost.
    destruct (map_loop_call k k _ _ fl Hok (co_proc k Hok) eq_refl Hr Hpost) as (Hok' & _ & Hram).
    destruct fl as [k1|k1]; [by apply brk_recorded|]. split; [done|]. simpl. by rewrite Hram.
  - rewrite page_count_ok by (unfold USER_SPACE_START, USER_SPACE_END in *; lia). cbn [mbind outcome_bind].
    do 2 apply returns_bind. eapply returns_mono; [apply shrink_ok; lia|].
    intros k1 (Hp1 & [Hpr Hram] & Hsub). apply brk_recorded; [|done..].
    apply (core_ok_sub k); rewrite ?Hp1; try done; [by apply co_pages|].
    intros p' Hp'. apply (co_proc k Hok). congruence.
  - by apply brk_recorded.
Qed.

(** A byte of the path, up to its terminator, cannot be read. *)
Definition path_fault k (ptr : Z) : Prop :=
  ∃ i, 0 ≤ i < 4096 ∧ can_read (space k) (wrap 64 (ptr + i)) = false ∧
       ∀ j, 0 ≤ j < i → ram k (wrap 64 (ptr + j)) ≠ 0.

Lemma validate_c_string_ends k ptr :
  ends False (path_fault k ptr) (validate_c_string (can_read (space k)) (ram k) ptr) (λ _, True).
Proof.
  unfold validate_c_string. destruct (ptr =? 0); [done|]. apply ends_bind.
  eapply ends_mono; [|done..|by intros].
  apply (for_range_ends _ _ (λ i _, ∀ j, 0 ≤ j < i → ram k (wrap 64 (ptr + j)) ≠ 0) (λ _, True)); [done|intros; lia|].
  intros i [] Hi Hz. cbv zeta. destruct (can_read _ _) eqn:Hr; simpl; [|by exists i].
  destruct (Z.eqb_spec (ram k (wrap 64 (ptr + i))) 0); [done|]. intros j Hj.
  destruct (decide (j = i)) as [->|]; [done|]. apply Hz. lia.
Qed.

Lemma sys_execve_call k pathname argv envp :
  core_ok k → ends False (path_fault k pathname) (sys_execve k pathname argv envp) (call_ok k).
Proof.
  intros Hok. unfold sys_execve. destruct (pathname =? 0); [by apply call_refused|].
  apply ends_bind. eapply ends_mono; [apply validate_c_string_ends|done..|]. intros _ _.
  by apply call_refused.
Qed.

Lemma fork_ok p : process_ok p → process_ok (fork p).2.
Proof.
  intros [Hb Hr Hh]. destruct (fork_keeps p) as (E1 & E2 & E3 & E4).
  split; rewrite ?E1, ?E2, ?E3, ?E4; done.
Qed.

Lemma sys_fork_call k : core_ok k → returns (sys_fork k) (call_ok k).
Proof.
  intros Hok. unfold sys_fork. destruct (proc k) as [p|] eqn:Hp; [|by apply call_refused].
  pose proof (fork_ok p (co_proc k Hok p Hp)) as Hf. destruct (fork p) as [r p']. simpl.
  split; [|done]. apply (core_ok_frame k); [done..|]. by intros ? [= <-].
Qed.

Lemma sys_read_call k fd buf count :
  core_ok k → 0 ≤ buf → 0 ≤ count →
  ends False (read_fault k buf count) (sys_read k fd buf count) (call_ok k).
Proof.
  intros Hok Hb Hc. eapply ends_mono; [by apply sys_read_ok|done..|].
  intros [r k'] [[-> ->]|(Hr & Hs & He & Hp & Hsp & Hpr & Hram)]; [by apply call_refused|]. split; simpl.
  - apply (core_ok_frame k); [done..|]. intros p Hp'. apply (co_proc k Hok). congruence.
  - intros a Ha. apply Hram. unfold user in Ha. lia.
Qed.

(** [sys_write] may wait for the UART; when it returns, only the device changed. *)
Definition write_fault k (buf count : Z) : Prop :=
  ∃ i, 0 ≤ i < count ∧ can_read (space k) (buf + i) = false.

Lemma uart_wait_unfailing (d : Dev) n : unfailing (uart_wait n d).
Proof.
  revert d. induction n as [|n IH]; intros d; simpl; [done|].
  destruct (mmio_read d UART_BASE) as [st d']. destruct (_ =? 0); [apply IH|done].
Qed.

Lemma put_byte_unfailing (d : Dev) b : unfailing (console_put_byte uart_fuel d b).
Proof.
  unfold console_put_byte. pose proof (uart_wait_unfailing d uart_fuel).
  by destruct (uart_wait uart_fuel d).
Qed.

Lemma sys_write_call k fd buf count :
  core_ok k → 0 ≤ count →
  ends True (write_fault k buf count) (sys_write uart_fuel k fd buf count) (call_ok k).
Proof.
  intros Hok Hc. unfold sys_write. destruct (_ || _); [by apply call_refused|].
  destruct (negb _); [by apply call_refused|]. destruct (_ || _); [|by apply call_refused].
  apply ends_bind. eapply ends_mono; [|done..|].
  - apply for_each_ends; [unfold I32_MAX; lia|]. intros i d Hi.
    destruct (can_read _ _) eqn:Hr; simpl; [|exists i; split; [lia|done]].
    pose proof (put_byte_unfailing d (ram k (buf + i))) as Hd. by destruct (console_put_byte _ _ _).
  - intros d _. split; [|done]. apply (core_ok_frame k); [done..|]. exact (co_proc k Hok).
Qed.

(** ** The dispatcher *)

(** Registers are 64 bits wide. *)
Definition typed_args (args : SyscallArgs) : Prop :=
  in_u 64 (nr args) ∧ in_u 64 (a1 args) ∧ in_u 64 (a2 args) ∧ in_u 64 (a3 args) ∧
  in_u 64 (a4 args) ∧ in_u 64 (a5 args) ∧ in_u 64 (a6 args).

(** The calls that reach user memory the process cannot access: [read] into a buffer
    that is not writable, [write] from one that is not readable, [execve] with a path
    that is not readable up to its terminator. *)
Definition faults k (args : SyscallArgs) : Prop :=
  (nr args = SYS_READ ∧ read_fault k (a2 args) (a3 args)) ∨
  (nr args = SYS_WRITE ∧ write_fault k (a2 args) (a3 args)) ∨
  (nr args = SYS_EXECVE ∧ path_fault k (a1 args)).

(** A call returns and keeps the invariant, or it is one of the two that wait, or it
    touches memory that is not accessible. *)
Definition dispatch_post k (args : SyscallArgs) (o : outcome (Z * K)) : Prop :=
  ends (nr args = SYS_EXIT ∨ nr args = SYS_WRITE) (faults k args) o (call_ok k).

Lemma dispatch_returns k args o : returns o (call_ok k) → dispatch_post k args o.
Proof. by destruct o. Qed.

Lemma handle_core_syscall_call k args :
  core_ok k → typed_args args → dispatch_post k args (handle_core_syscall spurious uart_fuel k args).
Proof.
  intros Hok (_ & [H1 _] & [H2 _] & [H3 _] & _). unfold handle_core_syscall.
  destruct (1000 <? nr args); [by apply call_refused|].
  destruct (negb (args_ok args)); [by apply call_refused|].
  destruct (Z.eqb_spec (nr args) SYS_EXIT); [by left|].
  destruct (Z.eqb_spec (nr args) SYS_READ) as [Hr|].
  { eapply ends_mono; [by apply sys_read_call|done| |done]. by left. }
  destruct (Z.eqb_spec (nr args) SYS_WRITE) as [Hw|].
  { eapply ends_mono; [by apply sys_write_call|by right| |done]. right. by left. }
  destruct (nr args =? SYS_MMAP); [by apply dispatch_returns, sys_mmap_call|].
  destruct (nr args =? SYS_BRK); [by apply dispatch_returns, sys_brk_call|].
  destruct (Z.eqb_spec (nr args) SYS_EXECVE) as [He|].
  { eapply ends_mono; [by apply sys_execve_call|done| |done]. right. by right. }
  destruct (nr args =? SYS_FORK); [by apply dispatch_returns, sys_fork_call|].
  by apply call_refused.
Qed.

(** The states reached by system calls that returned. *)
Inductive core_reached (k0 : K) : K → Prop :=
| core_start : core_reached k0 k0
| core_call k args r k' :
    core_reached k0 k → typed_args args →
    handle_core_syscall spurious uart_fuel k args = Ret (r, k') → core_reached k0 k'.

Lemma core_reached_ok k0 k :
  core_ok k0 → core_reached k0 k → core_ok k ∧ ∀ a, ¬ user a → ram k a = ram k0 a.
Proof.
  intros Hok0. induction 1 as [|k args r k' _ [Hok Hram] Hty Hcall]; [done|].
  pose proof (handle_core_syscall_call k args Hok Hty) as Hp. rewrite Hcall in Hp.
  destruct Hp as [Hok' Hram']. split; [done|]. intros a Ha. by rewrite Hram', Hram.
Qed.

(** C4: over every sequence of core system calls that returned, with any 64-bit
    arguments, from a consistent state (bitmap well-formed, allocator and heap of the
    process in user space, mapped pages on taken frames of their own), for a
    [Process] and an address space that obey their laws, when weak
    compare-exchanges do not fail spuriously and mappings of the kind [sys_brk]
    makes are not refused (when one is, its clean-up frees foreign frames:
    [brk_frees_foreign_frame]): in every state reached the frame bitmap is
    well-formed, every mapped page is a user page backed by a frame of the allocator
    that is marked as taken, no frame is behind two pages, and memory outside user
    space is as it was at the start.  The next call does not panic; only [exit] and
    [write] may wait for ever; and it faults only if it is a [read] into a buffer
    with an address that cannot be written, a [write] from one that cannot be read,
    or an [execve] whose path, which is not validated, cannot be read up to its
    terminator. *)
Theorem core_syscalls_safe k0 k args :
  core_ok k0 → core_reached k0 k → typed_args args →
  PagesSpec.wf (pages k) ∧
  (∀ v a, mapped (space k) v = Some a → user v ∧
     ∃ f, 0 ≤ f < Pages.total_pages (pages k) ∧ a = PagesSpec.frame (pages k) f ∧
          PagesSpec.taken (pages k) f = true) ∧
  (∀ v v' a, mapped (space k) v = Some a → mapped (space k) v' = Some a → v / PAGE_SIZE = v' / PAGE_SIZE) ∧
  (∀ a, ¬ user a → ram k a = ram k0 a) ∧
  match handle_core_syscall spurious uart_fuel k args with
  | Ret _ => True
  | Panic => False
  | Diverge => nr args = SYS_EXIT ∨ nr args = SYS_WRITE
  | Undef =>
      (nr args = SYS_READ ∧ ∃ i, 0 ≤ i < a3 args ∧ can_write (space k) (a2 args + i) = false) ∨
      (nr args = SYS_WRITE ∧ ∃ i, 0 ≤ i < a3 args ∧ can_read (space k) (a2 args + i) = false) ∨
      (nr args = SYS_EXECVE ∧ ∃ i, 0 ≤ i < 4096 ∧ can_read (space k) (wrap 64 (a1 args + i)) = false ∧
         ∀ j, 0 ≤ j < i → ram k (wrap 64 (a1 args + j)) ≠ 0)
  end.
Proof.
  intros Hok0 Hr Hty. destruct (core_reached_ok k0 k Hok0 Hr) as [Hok Hram].
  pose proof (handle_core_syscall_call k args Hok Hty) as Hp.
  destruct Hok as [Hwf _ Huser Hframe Hdist]. split_and!; [done| |done..|].
  - intros v a Hv. split; [exact (Huser v a Hv)|exact (Hframe v a Hv)].
  - unfold dispatch_post in Hp. by destruct (handle_core_syscall _ _ _ _).
Qed.

End core_sequence.

(** ** A process, an address space that refuses nothing, and four frames *)

#[export] Instance toy_process_laws : ProcessLaws toy_proc.
Proof. by split. Qed.

Record plain_space := { plain_map : gmap Z Z }.
#[export] Instance plain_user_space : UserSpace plain_space := {|
  map_user_page sp v p _ _ _ := (true, {| plain_map := <[v / PAGE_SIZE := p]> (plain_map sp) |});
  unmap_user_page sp v := {| plain_map := delete (v / PAGE_SIZE) (plain_map sp) |};
  can_read sp v := bool_decide (is_Some (plain_map sp !! (v / PAGE_SIZE)));
  can_write sp v := bool_decide (is_Some (plain_map sp !! (v / PAGE_SIZE)))
|}.
Definition plain_mapped (sp : plain_space) (v : Z) : option Z := plain_map sp !! (v / PAGE_SIZE).

#[export] Instance plain_laws : UserSpaceLaws plain_space.
Proof.
  refine {| mapped := plain_mapped |}.
  - intros sp v p r w x ok sp' [= <- <-] v'. unfold plain_mapped. simpl.
    destruct (Z.eqb_spec (v' / PAGE_SIZE) (v / PAGE_SIZE)) as [->|]; [apply lookup_insert_eq|].
    by rewrite lookup_insert_ne.
  - intros sp v v'. unfold plain_mapped. simpl.
    destruct (Z.eqb_spec (v' / PAGE_SIZE) (v / PAGE_SIZE)) as [->|]; [apply lookup_delete_eq|].
    by rewrite lookup_delete_ne.
Defined.

Lemma plain_accepts (sp : plain_space) v p : (map_user_page sp v p true true false).1 = true.
Proof. done. Qed.

Definition plain_proc : toy_proc :=
  {| tp_alloc := Bump.new 0x50000000 0x100000; tp_start := 0x40000000;
     tp_end := 0x40001000; tp_max := 0x40100000 |}.
Definition plain_kernel : Kernel toy_proc plain_space unit :=
  mkKernel toy_pages (Some plain_proc) {| plain_map := ∅ |} (λ _, 0) ().

Lemma plain_kernel_ok : core_ok plain_kernel.
Proof.
  split; [apply toy_pages_wf| |done..]. intros p [= <-]. split; [by split_and!|by split_and!|].
  by split_and!.
Qed.

Definition core_args (n x y z w : Z) : SyscallArgs :=
  {| nr := n; a1 := x; a2 := y; a3 := z; a4 := w; a5 := 0; a6 := 0 |}.
Definition after_calls (l : list SyscallArgs) : outcome (list Z * Kernel toy_proc plain_space unit) :=
  foldl (λ o args, '(rs, k) ← o;
    '(r, k') ← handle_core_syscall (prof := dev) (λ _, false) 8 k args; Ret (rs ++ [r], k'))
    (Ret ([], plain_kernel)) l.

(** A mapping of two pages, then the heap grown by one page: all frames are taken. *)
Lemma core_syscalls_safe_witness :
  match after_calls [core_args SYS_MMAP 0 8192 3 0x22; core_args SYS_BRK 0x40002000 0 0 0] with
  | Ret (rs, k) => rs = [0x50000000; 0x40002000] ∧
      (∀ v v' a, mapped (space k) v = Some a → mapped (space k) v' = Some a → v / PAGE_SIZE = v' / PAGE_SIZE) ∧
      handle_core_syscall (prof := dev) (λ _, false) 8 k (core_args SYS_BRK 0x40003000 0 0 0) ≠ Panic
  | _ => False
  end.
Proof.
  assert (∀ n x y z w, in_u 64 n → in_u 64 x → in_u 64 y → in_u 64 z → in_u 64 w →
    typed_args (core_args n x y z w)) as Hty by (intros; split_and!; try done; by split).
  destruct (after_calls _) as [[rs k]| | |] eqn:E; [|by vm_compute in E..].
  split; [vm_compute in E; by injection E as <- _|].
  assert (core_reached (prof := dev) (λ _, false) 8 plain_kernel k) as Hr.
  { unfold after_calls in E. cbn [foldl] in E.
    apply bind_ret_inv in E as ([rs1 k1] & E1 & E). apply bind_ret_inv in E as ([r2 k2] & E2 & [= _ <-]).
    apply bind_ret_inv in E1 as ([rs0 k0] & [= _ <-] & E1). apply bind_ret_inv in E1 as ([r1 k1'] & E1 & [= _ <-]).
    eapply core_call; [eapply core_call; [apply core_start| |exact E1]| |exact E2]; apply Hty; by split. }
  destruct (core_syscalls_safe (prof := dev) (λ _, false) (λ _, eq_refl) 8 plain_accepts
    plain_kernel k (core_args SYS_BRK 0x40003000 0 0 0) plain_kernel_ok Hr) as (_ & _ & Hd & _ & Hp);
    [apply Hty; by split|].
  split; [exact Hd|]. intros Hpanic. rewrite Hpanic in Hp. exact Hp.
Defined.

(** [sys_brk] counts pages from the old break, not from its page: growing the heap
    inside a page replaces the frame behind it, and shrinking inside a page unmaps
    it although the break is still in it. *)
Example brk_inside_a_page :
  let at_ k := mapped (space k) 0x40001000 in
  match after_calls [core_args SYS_BRK 0x40001800 0 0 0],
        after_calls [core_args SYS_BRK 0x40001800 0 0 0; core_args SYS_BRK 0x40001900 0 0 0],
        after_calls [core_args SYS_BRK 0x40001800 0 0 0; core_args SYS_BRK 0x40001400 0 0 0] with
  | Ret (_, k1), Ret (_, k2), Ret (_, k3) =>
      (at_ k1, at_ k2, at_ k3) = (Some 0x1000000, Some 0x1002000, None)
  | _, _, _ => False
  end.
Proof. by vm_compute. Qed.

(** [execve] dereferences a path it has not validated, and [write] a buffer of
    which only the addresses were compared. *)
Example unmapped_user_memory :
  handle_core_syscall (prof := dev) (λ _, false) 8 plain_kernel (core_args SYS_EXECVE 0x1234 0 0 0) = Undef ∧
  handle_core_syscall (prof := dev) (λ _, false) 8 plain_kernel (core_args SYS_WRITE 1 0x40000000 1 0) = Undef.
Proof. by vm_compute. Qed.
