(* ===== verification/FrameAllocator.v ===== *)
(** * The memory module (src/memory/mod.rs)

    Its constants, [Page], the trait [FrameAllocator] as a class of operations and
    [init].  The trait has no implementation in the sources, so the class has no
    laws and no instances. *)

From S2P Require Import Prelude.
Open Scope Z_scope.

Definition PAGE_SIZE : Z := 4096.
Definition PAGE_MASK : Z := 0xFFFFFFFFFFFFF000.

Module Page.
Record Page := { addr : Z }.
Definition new (a : Z) : Page := {| addr := a |}.
Definition as_ptr (p : Page) : Z := addr p.
Definition as_mut_ptr (p : Page) : Z := addr p.
End Page.

(** The trait: [alloc_frame(&mut self)] and [dealloc_frame(&mut self, page)]. *)
Class FrameAllocator (S : Type) := {
  alloc_frame : S → outcome (option Page.Page * S);
  dealloc_frame : S → Page.Page → outcome S
}.

(** [memory::init] calls the three parts in order; [physical::init] and
    [virtual_memory::init] are parameters, since the sources do not define them
    under these names. *)
Definition init {S : Type} (physical_init virtual_init heap_init : S → outcome S) (s : S) : outcome S :=
  s1 ← physical_init s;
  s2 ← virtual_init s1;
  heap_init s2.

(** [PAGE_MASK] rounds an address down to its page. *)
Lemma page_mask_rounds a : in_u 64 a → Z.land a PAGE_MASK = a / PAGE_SIZE * PAGE_SIZE.
Proof.
  intros Ha. change PAGE_SIZE with (2 ^ 12). rewrite <-Z.shiftl_mul_pow2, <-Z.shiftr_div_pow2 by lia.
  change PAGE_MASK with (Z.shiftl (Z.ones 52) 12). apply Z.bits_inj'. intros i Hi. rewrite Z.land_spec.
  destruct (Z.ltb_spec i 12); [by rewrite !Z.shiftl_spec_low, andb_false_r by lia|].
  rewrite !Z.shiftl_spec, Z.shiftr_spec, Z.ones_spec by lia. replace (i - 12 + 12) with i by lia.
  case_bool_decide; [by rewrite andb_true_r|]. rewrite andb_false_r. symmetry.
  unfold in_u in Ha. rewrite Z.testbit_eqb by lia. rewrite Z.div_small; [done|].
  split; [lia|]. apply (Z.lt_le_trans _ (2 ^ 64)); [lia|]. apply Z.pow_le_mono_r; lia.
Qed.

(** A part that fails stops the initialisation. *)
Lemma init_returns {S} (p v h : S → outcome S) s s' :
  init p v h s = Ret s' ↔ ∃ s1 s2, p s = Ret s1 ∧ v s1 = Ret s2 ∧ h s2 = Ret s'.
Proof.
  unfold init. split.
  - intros (s1 & H1 & (s2 & H2 & H3)%bind_ret_inv)%bind_ret_inv. by exists s1, s2.
  - intros (s1 & s2 & H1 & H2 & H3). rewrite H1. simpl. by rewrite H2.
Qed.
