(* ===== verification/Heap.v ===== *)
(** * The kernel heap (src/memory/heap.rs)

    Free blocks are linked through the memory they describe: a [FreeBlock] is
    written into the first 24 bytes of the block.  The model therefore keeps the
    memory as 64-bit words by address and follows the links in it.  [FreeBlock]
    has no fixed layout in Rust, so the offsets of its fields are a parameter.
    The page source behind [alloc_pages] is a parameter as well. *)

From S2P Require Import Prelude.
Open Scope Z_scope.

Definition MAX_FREE_LISTS : Z := 32.
Definition BLOCK_MAGIC : Z := 0xDEADBEEF.

(** Where the compiler puts the fields of [FreeBlock] in its three words, and
    what writing [true] to the byte of [is_free] does to its word. *)
Class BlockLayout := {
  next_at : Z;
  size_at : Z;
  flag_at : Z;
  set_flag : Z → Z
}.
(** The fields are in different words of the 24 bytes. *)
Class BlockLayoutLaws `{!BlockLayout} := {
  next_at_word : next_at ∈ [0; 8; 16];
  size_at_word : size_at ∈ [0; 8; 16];
  flag_at_word : flag_at ∈ [0; 8; 16];
  fields_differ : NoDup [next_at; size_at; flag_at]
}.
(** [size_of::<FreeBlock>()]. *)
Definition FREE_BLOCK_SIZE : Z := 24.

(** [core::alloc::Layout]. *)
Record Layout := { lsize : Z; lalign : Z }.

(** The allocator with the memory it manages.  A null word is [None]. *)
Record Heap (Pg : Type) := mkHeap {
  mem : Z → Z;
  heads : list Z;
  total_bytes : Z;
  used_bytes : Z;
  pages_allocated : Z;
  initialized : bool;
  pages : Pg
}.
Arguments mkHeap {Pg}.
Arguments mem {Pg}.
Arguments heads {Pg}.
Arguments total_bytes {Pg}.
Arguments used_bytes {Pg}.
Arguments pages_allocated {Pg}.
Arguments initialized {Pg}.
Arguments pages {Pg}.

(** An [Option<&mut FreeBlock>] that a cursor points at: a list head or the
    [next] field of a block. *)
Inductive slot := Head (i : Z) | NextOf (a : Z).

(** [usize::leading_zeros]. *)
Definition leading_zeros (x : Z) : Z := if x =? 0 then 64 else 63 - Z.log2 x.

Definition get_list_index (size : Z) : option Z :=
  if size =? 0 then None
  else Some (Z.min (63 - leading_zeros size) (MAX_FREE_LISTS - 1)).

Section heap.
Context {prof : Profile} `{!BlockLayout} {Pg : Type} `{!PageSource Pg}.
(** How many blocks of one list a search follows. *)
Context (list_fuel : nat).
Implicit Types (h : Heap Pg).

Definition with_mem h m : Heap Pg :=
  mkHeap m (heads h) (total_bytes h) (used_bytes h) (pages_allocated h) (initialized h) (pages h).
Definition with_heads h l : Heap Pg :=
  mkHeap (mem h) l (total_bytes h) (used_bytes h) (pages_allocated h) (initialized h) (pages h).
Definition with_total h x : Heap Pg :=
  mkHeap (mem h) (heads h) x (used_bytes h) (pages_allocated h) (initialized h) (pages h).
Definition with_used h x : Heap Pg :=
  mkHeap (mem h) (heads h) (total_bytes h) x (pages_allocated h) (initialized h) (pages h).
Definition with_pages h n p : Heap Pg :=
  mkHeap (mem h) (heads h) (total_bytes h) (used_bytes h) n (initialized h) p.

(** Accesses through a [*mut FreeBlock]: the address must be aligned. *)
Definition load h (a : Z) : outcome Z := if a mod 8 =? 0 then Ret (mem h a) else Undef.
Definition store h (a v : Z) : outcome (Heap Pg) :=
  if a mod 8 =? 0 then Ret (with_mem h (λ b, if b =? a then v else mem h b)) else Undef.

Definition head_get h (i : Z) : outcome Z :=
  match heads h !! Z.to_nat i with Some a => Ret a | None => Panic end.
Definition head_set h (i a : Z) : outcome (Heap Pg) :=
  match heads h !! Z.to_nat i with
  | Some _ => Ret (with_heads h (<[Z.to_nat i := a]> (heads h)))
  | None => Panic
  end.

Definition read_slot h (p : slot) : outcome Z :=
  match p with Head i => head_get h i | NextOf a => load h (a + next_at) end.
Definition write_slot h (p : slot) (v : Z) : outcome (Heap Pg) :=
  match p with Head i => head_set h i v | NextOf a => store h (a + next_at) v end.

Definition insert h (ptr size : Z) : outcome (Heap Pg) :=
  match get_list_index size with
  | None => Ret h
  | Some index =>
      if ptr =? 0 then Undef else
      head ← head_get h index;
      h1 ← head_set h index 0;
      h2 ← store h1 (ptr + next_at) head;
      h3 ← store h2 (ptr + size_at) size;
      w ← load h3 (ptr + flag_at);
      h4 ← store h3 (ptr + flag_at) (set_flag w);
      head_set h4 index ptr
  end.

(** Splitting the block taken from a list: [(curr as *mut FreeBlock).add(size)]
    advances by [size] blocks of 24 bytes. *)
Definition split_block h (curr size : Z) : outcome (Heap Pg) :=
  csize ← load h (curr + size_at);
  limit ← uadd size 32;
  if limit <? csize then
    remaining_size ← usub csize size;
    if 32 <=? remaining_size then
      if 2 ^ 63 <=? FREE_BLOCK_SIZE * size then Undef else
      insert h (wrap 64 (curr + FREE_BLOCK_SIZE * size)) remaining_size
    else Ret h
  else Ret h.

(** [let old = prev.take(); *prev = old.unwrap().next.take();] *)
Definition unlink h (prev : slot) (curr : Z) : outcome (Heap Pg) :=
  h1 ← write_slot h prev 0;
  next ← load h1 (curr + next_at);
  h2 ← store h1 (curr + next_at) 0;
  write_slot h2 prev next.

(** The [while let] loop over one list. *)
Fixpoint search_list (fuel : nat) (size align : Z) (prev : slot) h :
    outcome (flow (Z * Heap Pg) (Heap Pg)) :=
  curr ← read_slot h prev;
  if curr =? 0 then Ret (Next h) else
  match fuel with
  | O => Diverge
  | S fuel' =>
      t ← uadd curr align;
      t ← usub t 1;
      m ← usub align 1;
      let aligned_addr := Z.land t (wnot 64 m) in
      offset ← usub aligned_addr curr;
      need ← uadd offset size;
      csize ← load h (curr + size_at);
      if need <=? csize then
        h1 ← unlink h prev curr;
        h2 ← split_block h1 curr size;
        Ret (Done (curr, h2))
      else search_list fuel' size align (NextOf curr) h
  end.

Definition remove_best_fit h (size align : Z) : outcome (option Z * Heap Pg) :=
  let target_index := default 0 (get_list_index size) in
  fl ← for_range target_index MAX_FREE_LISTS
         (λ i h, search_list list_fuel size align (Head i) h) h;
  Ret (match fl with Done (p, h') => (Some p, h') | Next h' => (None, h') end).

Definition new (p : Pg) : Heap Pg := mkHeap (λ _, 0) (replicate 32 0) 0 0 0 false p.

Definition init h (start size : Z) : outcome (Heap Pg) :=
  h1 ← insert h start size;
  Ret (mkHeap (mem h1) (heads h1) size (used_bytes h1) (pages_allocated h1) true (pages h1)).

Definition alloc_pages_for_heap h (size : Z) : outcome (option Z * Heap Pg) :=
  t ← uadd size 4095;
  let num_pages := Z.shiftr t 12 in
  Ret (match alloc_pages (pages h) num_pages with
       | (Some ptr, p) => (Some ptr, with_pages h (wrap 64 (pages_allocated h + num_pages)) p)
       | (None, p) => (None, with_pages h (pages_allocated h) p)
       end).

(** [layout.size().max(layout.align())] rounded up to a multiple of 8. *)
Definition block_size (l : Layout) : outcome Z :=
  t ← uadd (Z.max (lsize l) (lalign l)) 7;
  Ret (Z.land t (wnot 64 7)).

Definition try_alloc_from_free_list h (l : Layout) : outcome (option Z * Heap Pg) :=
  size ← block_size l;
  '(r, h1) ← remove_best_fit h size (lalign l);
  Ret (match r with
       | Some ptr => (Some ptr, with_used h1 (wrap 64 (used_bytes h1 + size)))
       | None => (None, h1)
       end).

Definition expand_heap h (l : Layout) : outcome (option Z * Heap Pg) :=
  t ← uadd (Z.max (lsize l) (lalign l)) 4095;
  let size := Z.land t (wnot 64 4095) in
  '(r, h1) ← alloc_pages_for_heap h size;
  match r with
  | Some ptr =>
      h2 ← insert h1 ptr size;
      try_alloc_from_free_list (with_total h2 (wrap 64 (total_bytes h2 + size))) l
  | None => Ret (None, h1)
  end.

Definition shrink_free_block h (ptr requested_size block_size : Z) : outcome (Heap Pg) :=
  limit ← uadd requested_size 32;
  if limit <? block_size then
    remaining ← usub block_size requested_size;
    if 32 <=? remaining then insert h (wrap 64 (ptr + requested_size)) remaining else Ret h
  else Ret h.

(** The null pointer is 0. *)
Definition alloc h (l : Layout) : outcome (Z * Heap Pg) :=
  if negb (initialized h) then Ret (0, h) else
  _ ← block_size l;
  '(r, h1) ← try_alloc_from_free_list h l;
  match r with
  | Some ptr => Ret (ptr, h1)
  | None => '(r, h2) ← expand_heap h1 l; Ret (default 0 r, h2)
  end.

Definition dealloc h (ptr : Z) (l : Layout) : outcome (Heap Pg) :=
  if negb (initialized h) then Ret h else
  size ← block_size l;
  insert (with_used h (wrap 64 (used_bytes h - size))) ptr size.

(** [Layout::from_size_align(size, align).unwrap()]: the alignment is a power of
    two and the size, rounded up to it, fits an [isize]. *)
Definition layout_from (size align : Z) : outcome Layout :=
  if (0 <? align) && (2 ^ Z.log2 align =? align) && (size <=? 2 ^ 63 - align)
  then Ret {| lsize := size; lalign := align |} else Panic.

Definition aligned_alloc h (align size : Z) : outcome (Z * Heap Pg) :=
  l ← layout_from size align; alloc h l.
Definition aligned_dealloc h (ptr align size : Z) : outcome (Heap Pg) :=
  l ← layout_from size align; dealloc h ptr l.

Definition init_heap h (start size : Z) : outcome (Heap Pg) := init h start size.
Definition get_heap_usage h : Z * Z := (used_bytes h, total_bytes h).
Definition heap_stats h : Z * Z * Z := (used_bytes h, total_bytes h, pages_allocated h).
Definition is_initialized h : bool := initialized h.
Definition get_total_bytes h : Z := total_bytes h.
Definition get_used_bytes h : Z := used_bytes h.
Definition get_free_bytes h : Z :=
  if get_used_bytes h <? get_total_bytes h then get_total_bytes h - get_used_bytes h else 0.
Definition get_pages_allocated h : Z := pages_allocated h.
Definition get_heap_limit : Z := u64_max.

(** Stubs: their bodies change nothing and check nothing. *)
Definition collect_garbage h : Heap Pg := h.
Definition defragment h : Heap Pg := h.
Definition heap_dump h : Heap Pg := h.
Definition compact_heap h : Heap Pg := h.
Definition trim_heap h : Heap Pg := h.
Definition release_reserved_memory h (pages : Z) : Heap Pg := h.
Definition set_heap_limit h (limit : Z) : Heap Pg := h.
Definition validate_heap h : bool := true.
Definition heap_verify_integrity h : bool := true.
Definition reserve_memory h (pages : Z) : bool := false.

(** The magic number is the low half of the first word of a [BlockHeader], which
    is 24 bytes long. *)
Definition validate_block h (ptr : Z) : outcome bool :=
  w ← load h (wrap 64 (ptr - 24));
  Ret (Z.land w 0xFFFFFFFF =? BLOCK_MAGIC).
End heap.
