(* ===== verification/HeapTheorems.v ===== *)
(** * Correctness of the kernel heap

    The linked free lists of [Heap] against lists of blocks: which block a search
    takes, that freeing and allocating undo each other, and where the remainder of
    a split block ends up. *)

From S2P Require Import Prelude Heap.
Open Scope Z_scope.

(** ** The free lists as lists of blocks *)

(** Two blocks whose headers do not overlap. *)
Definition apart (a b : Z) : Prop := a + 24 ≤ b ∨ b + 24 ≤ a.
#[export] Instance apart_dec a b : Decision (apart a b).
Proof. unfold apart. apply _. Defined.

Section spec.
Context `{!BlockLayout} {Pg : Type}.
Implicit Types (h : Heap Pg) (m : Z → Z) (l : list (Z * Z)) (L : Z → list (Z * Z)).

(** The words of memory link the blocks [l] (address and size) from [a] to [e]. *)
Fixpoint seg m (a : Z) l (e : Z) : Prop :=
  match l with
  | [] => a = e
  | (b, sz) :: l' =>
      a = b ∧ 0 < b ∧ b mod 8 = 0 ∧ m (b + size_at) = sz ∧ seg m (m (b + next_at)) l' e
  end.

(** The state [h] represents the lists [L 0 .. L 31]. *)
Record rep h L : Prop := {
  rep_heads : length (heads h) = 32%nat;
  rep_seg i : 0 ≤ i < 32 → ∃ a, heads h !! Z.to_nat i = Some a ∧ seg (mem h) a (L i) 0;
  rep_nodup i : 0 ≤ i < 32 → NoDup (L i).*1;
  rep_apart i j x y : 0 ≤ i < 32 → 0 ≤ j < 32 → x ∈ (L i).*1 → y ∈ (L j).*1 →
    i ≠ j ∨ x ≠ y → apart x y
}.

Definition upd L (i : Z) l : Z → list (Z * Z) := λ j, if j =? i then l else L j.

(** What the list operations leave alone. *)
Definition same_counters h h' : Prop :=
  total_bytes h' = total_bytes h ∧ used_bytes h' = used_bytes h ∧
  pages_allocated h' = pages_allocated h ∧ initialized h' = initialized h ∧ pages h' = pages h.

(** The lowest multiple of [align] at or above [a]. *)
Definition align_up (a align : Z) : Z := a + align - 1 - (a + align - 1) mod align.

Definition fits (size align : Z) (b : Z * Z) : Prop := align_up b.1 align - b.1 + size ≤ b.2.
#[export] Instance fits_dec size align b : Decision (fits size align b).
Proof. unfold fits. apply _. Defined.

(** The slot that points at the first block after [pre] in list [i]. *)
Definition slot_after (i : Z) (pre : list (Z * Z)) : slot :=
  match last pre with None => Head i | Some b => NextOf b.1 end.

(** The lists after block [(c, sz)] was taken from list [i] for a request of
    [size] bytes: a block more than 32 bytes too large is split, and its remainder
    is put in the list for its size, at address [c + 24 * size]. *)
Definition after_take L (i size : Z) (pre : list (Z * Z)) (c sz : Z) (post : list (Z * Z)) :
    Z → list (Z * Z) :=
  let L1 := upd L i (pre ++ post) in
  if size + 32 <? sz then
    let j := Z.min (Z.log2 (sz - size)) 31 in
    upd L1 j ((c + 24 * size, sz - size) :: L1 j)
  else L1.

(** Memory away from the headers of the blocks in [L] and [L'] is the same. *)
Definition off_headers L (w : Z) : Prop :=
  ∀ j x o, 0 ≤ j < 32 → x ∈ (L j).*1 → o = 0 ∨ o = 8 ∨ o = 16 → w ≠ x + o.
Definition framed L L' h h' : Prop :=
  ∀ w, off_headers L w → off_headers L' w → mem h' w = mem h w.

(** A request the address arithmetic of the search can handle: the alignment is a
    power of two, no sum overflows, and the place of a remainder, [24 * size] bytes
    behind the start of the block, overlaps no other free block's header.  The last
    part is a condition on the heap that the code does not check: where it fails the
    remainder overwrites the header of another free block. *)
Record request_ok L (size align : Z) : Prop := {
  req_size : 0 < size < 2 ^ 63 ∧ size mod 8 = 0;
  req_align : ∃ n, 0 ≤ n < 64 ∧ align = 2 ^ n;
  req_bounds i c sz : 0 ≤ i < 32 → (c, sz) ∈ L i → c + align + size < 2 ^ 64 ∧ sz < 2 ^ 64;
  req_split i c sz : 0 ≤ i < 32 → (c, sz) ∈ L i → size + 32 < sz →
    24 * size < 2 ^ 63 ∧ c + 24 * size < 2 ^ 64 ∧
    ∀ j x, 0 ≤ j < 32 → x ∈ (L j).*1 → x ≠ c → apart (c + 24 * size) x
}.

Lemma seg_app m a l1 l2 e : seg m a (l1 ++ l2) e ↔ ∃ k, seg m a l1 k ∧ seg m k l2 e.
Proof.
  revert a. induction l1 as [|[b sz] l1 IH]; intros a; simpl; [naive_solver|].
  rewrite IH. naive_solver.
Qed.

Lemma seg_ext m m' a l e :
  (∀ b, b ∈ l.*1 → m' (b + size_at) = m (b + size_at) ∧ m' (b + next_at) = m (b + next_at)) →
  seg m a l e → seg m' a l e.
Proof.
  revert a. induction l as [|[b sz] l IH]; intros a Hm; simpl; [done|].
  intros (-> & Hb & Ha & Hs & Hn). destruct (Hm b) as [-> ->]; [left|].
  split_and!; [done..|]. apply IH; [|done]. intros c Hc. apply Hm. by right.
Qed.

Lemma seg_aligned m a l e b : seg m a l e → b ∈ l.*1 → 0 < b ∧ b mod 8 = 0.
Proof.
  revert a. induction l as [|[c sz] l IH]; intros a; simpl; [by rewrite elem_of_nil|].
  intros (-> & Hb & Ha & _ & Hn). rewrite elem_of_cons. intros [->|Hin]; [done|by eapply IH].
Qed.
End spec.

Section lemmas.
Context {prof : Profile} `{!BlockLayout, !BlockLayoutLaws} {Pg : Type} `{!PageSource Pg}.
Implicit Types (h : Heap Pg) (m : Z → Z) (l : list (Z * Z)) (L : Z → list (Z * Z)).

(** ** Words of blocks *)

Lemma offsets :
  (next_at = 0 ∨ next_at = 8 ∨ next_at = 16) ∧ (size_at = 0 ∨ size_at = 8 ∨ size_at = 16) ∧
  (flag_at = 0 ∨ flag_at = 8 ∨ flag_at = 16) ∧
  next_at ≠ size_at ∧ next_at ≠ flag_at ∧ size_at ≠ flag_at.
Proof.
  pose proof next_at_word as Hn. pose proof size_at_word as Hs.
  pose proof flag_at_word as Hf. pose proof fields_differ as Hd.
  rewrite !elem_of_cons, elem_of_nil in Hn, Hs, Hf.
  rewrite !NoDup_cons, !elem_of_cons, !elem_of_nil in Hd. naive_solver.
Qed.

Lemma load_ok h a : a mod 8 = 0 → load h a = Ret (mem h a).
Proof. intros Ha. unfold load. by rewrite Ha. Qed.
Lemma store_ok h a v :
  a mod 8 = 0 → store h a v = Ret (with_mem h (λ b, if b =? a then v else mem h b)).
Proof. intros Ha. unfold store. by rewrite Ha. Qed.

Lemma word_aligned a o : a mod 8 = 0 → o = 0 ∨ o = 8 ∨ o = 16 → (a + o) mod 8 = 0.
Proof. intros Ha Ho. Z.to_euclidean_division_equations. lia. Qed.

Lemma head_get_ok h L i :
  rep h L → 0 ≤ i < 32 → ∃ a, head_get h i = Ret a ∧ heads h !! Z.to_nat i = Some a ∧
    seg (mem h) a (L i) 0.
Proof.
  intros Hr Hi. destruct (rep_seg h L Hr i Hi) as (a & Ha & Hc). exists a.
  unfold head_get. by rewrite Ha.
Qed.

Lemma head_set_ok h i a :
  length (heads h) = 32%nat → 0 ≤ i < 32 →
  head_set h i a = Ret (with_heads h (<[Z.to_nat i := a]> (heads h))).
Proof.
  intros Hl Hi. unfold head_set.
  by destruct (lookup_lt_is_Some_2 (heads h) (Z.to_nat i)) as [x ->]; [lia|].
Qed.

Lemma get_list_index_ok size :
  0 < size → get_list_index size = Some (Z.min (Z.log2 size) 31).
Proof.
  intros Hs. unfold get_list_index, leading_zeros, MAX_FREE_LISTS.
  rewrite !(proj2 (Z.eqb_neq size 0)) by lia. f_equal. lia.
Qed.

Lemma list_index_range size : 0 < size → 0 ≤ Z.min (Z.log2 size) 31 < 32.
Proof. intros. pose proof (Z.log2_nonneg size). lia. Qed.

(** ** Inserting a block *)

Lemma insert_words h L ptr size :
  rep h L → 0 < ptr → ptr mod 8 = 0 → 0 < size →
  let i := Z.to_nat (Z.min (Z.log2 size) 31) in
  ∃ h' a, insert h ptr size = Ret h' ∧ heads h !! i = Some a ∧
    heads h' = <[i := ptr]> (heads h) ∧
    mem h' (ptr + next_at) = a ∧ mem h' (ptr + size_at) = size ∧
    (∀ b, (∀ o, o = 0 ∨ o = 8 ∨ o = 16 → b ≠ ptr + o) → mem h' b = mem h b) ∧
    same_counters h h'.
Proof.
  intros Hr Hp Ha Hs i. pose proof (list_index_range size Hs) as Hi.
  pose proof offsets as (Hn & Hz & Hf & H1 & H2 & H3).
  destruct (head_get_ok h L _ Hr Hi) as (a & Hg & Hl & _).
  unfold insert. rewrite get_list_index_ok by done. rewrite (proj2 (Z.eqb_neq ptr 0)) by lia.
  rewrite Hg. simpl. rewrite head_set_ok by (done || apply (rep_heads h L Hr)). simpl.
  rewrite !store_ok by (by apply word_aligned). simpl.
  rewrite !store_ok by (by apply word_aligned). simpl.
  rewrite !load_ok by (by apply word_aligned). simpl.
  rewrite !store_ok by (by apply word_aligned). simpl.
  rewrite head_set_ok by (done || simpl; rewrite length_insert; apply (rep_heads h L Hr)).
  eexists _, a. split; [done|]. simpl. split; [done|]. split; [by rewrite list_insert_insert_eq|].
  split_and!.
  - by rewrite (proj2 (Z.eqb_neq _ _)), (proj2 (Z.eqb_neq _ _)), Z.eqb_refl by lia.
  - by rewrite (proj2 (Z.eqb_neq _ _)), Z.eqb_refl by lia.
  - intros b Hb. by rewrite !(proj2 (Z.eqb_neq b _)) by (by apply Hb).
  - done.
Qed.

(** The words of a block are untouched by writes to the header of another. *)
Lemma apart_words a b o o' :
  apart a b → o = 0 ∨ o = 8 ∨ o = 16 → o' = 0 ∨ o' = 8 ∨ o' = 16 → b + o ≠ a + o'.
Proof. unfold apart. lia. Qed.

Lemma insert_ok h L ptr size :
  rep h L → 0 < ptr → ptr mod 8 = 0 → 0 < size →
  (∀ j x, 0 ≤ j < 32 → x ∈ (L j).*1 → apart ptr x) →
  let i := Z.min (Z.log2 size) 31 in
  returns (insert h ptr size) (λ h', rep h' (upd L i ((ptr, size) :: L i)) ∧ same_counters h h').
Proof.
  intros Hr Hp Ha Hs Hap i. pose proof (list_index_range size Hs) as Hi. fold i in Hi.
  pose proof offsets as (Hn & Hz & _).
  destruct (insert_words h L ptr size Hr Hp Ha Hs)
    as (h' & a & -> & Hl & Hh & Hnx & Hsz & Hm & Hc). fold i in Hl, Hh.
  split; [|done].
  assert (∀ j, 0 ≤ j < 32 → ∀ b, b ∈ (L j).*1 → mem h' (b + size_at) = mem h (b + size_at) ∧
    mem h' (b + next_at) = mem h (b + next_at)) as Hout.
  { intros j Hj b Hb. specialize (Hap j b Hj Hb). split; apply Hm; intros o Ho;
      by apply apart_words. }
  split.
  - rewrite Hh, length_insert. apply (rep_heads h L Hr).
  - intros j Hj. destruct (rep_seg h L Hr j Hj) as (a' & Hl' & Hseg).
    rewrite Hh. unfold upd. destruct (Z.eqb_spec j i) as [->|Hne].
    + exists ptr. rewrite list_lookup_insert_eq by (rewrite (rep_heads h L Hr); lia).
      split; [done|]. simpl. split_and!; [done..|]. rewrite Hnx. simplify_eq.
      by apply (seg_ext (mem h)); [apply Hout|].
    + exists a'. rewrite list_lookup_insert_ne by lia. split; [done|].
      by apply (seg_ext (mem h)); [apply Hout|].
  - intros j Hj. unfold upd. destruct (Z.eqb_spec j i) as [->|]; [|by apply (rep_nodup h L Hr)].
    simpl. constructor; [|by apply (rep_nodup h L Hr)].
    intros Hin. specialize (Hap i ptr Hi Hin). unfold apart in Hap. lia.
  - intros j k x y Hj Hk Hx Hy Hne.
    assert (∀ k y, 0 ≤ k < 32 → y ∈ (upd L i ((ptr, size) :: L i) k).*1 →
      (k = i ∧ y = ptr) ∨ y ∈ (L k).*1) as Hcase.
    { intros k' y' _. unfold upd. destruct (Z.eqb_spec k' i) as [->|]; [|by right].
      simpl. rewrite elem_of_cons. naive_solver. }
    destruct (Hcase j x Hj Hx) as [[-> ->]|Hx'], (Hcase k y Hk Hy) as [[-> ->]|Hy'].
    + by destruct Hne.
    + by apply (Hap k).
    + specialize (Hap j x Hj Hx'). unfold apart in *. lia.
    + by apply (rep_apart h L Hr j k).
Qed.

(** The same, with what happens to memory elsewhere. *)
Lemma insert_framed h L ptr size :
  rep h L → 0 < ptr → ptr mod 8 = 0 → 0 < size →
  (∀ j x, 0 ≤ j < 32 → x ∈ (L j).*1 → apart ptr x) →
  let i := Z.min (Z.log2 size) 31 in
  returns (insert h ptr size) (λ h', rep h' (upd L i ((ptr, size) :: L i)) ∧ same_counters h h' ∧
    ∀ w, off_headers (upd L i ((ptr, size) :: L i)) w → mem h' w = mem h w).
Proof.
  intros Hr Hp Ha Hs Hap i. pose proof (list_index_range size Hs) as Hi. fold i in Hi.
  pose proof (insert_ok h L ptr size Hr Hp Ha Hs Hap) as Hok.
  destruct (insert_words h L ptr size Hr Hp Ha Hs) as (h' & a & E & _ & _ & _ & _ & Hm & _).
  rewrite E in *. destruct Hok as [Hr' Hc]. split; [done|]. split; [done|].
  intros w Hw. apply Hm. intros o Ho. apply (Hw i); [done| |done].
  unfold upd. rewrite Z.eqb_refl. simpl. set_solver.
Qed.

(** ** Removing a block *)

(** Replacing list [i] by one with fewer of its blocks. *)
Lemma rep_shrink h h' L i l' a :
  rep h L → 0 ≤ i < 32 → l' `sublist_of` L i →
  length (heads h') = 32%nat → heads h' !! Z.to_nat i = Some a → seg (mem h') a l' 0 →
  (∀ j, 0 ≤ j < 32 → j ≠ i → heads h' !! Z.to_nat j = heads h !! Z.to_nat j ∧
     ∀ x, x ∈ (L j).*1 → mem h' (x + size_at) = mem h (x + size_at) ∧
       mem h' (x + next_at) = mem h (x + next_at)) →
  rep h' (upd L i l').
Proof.
  intros Hr Hi Hsub Hlen Ha Hseg Hj.
  assert (∀ k x, 0 ≤ k < 32 → x ∈ (upd L i l' k).*1 → x ∈ (L k).*1) as Hin.
  { intros k x Hk. unfold upd. destruct (Z.eqb_spec k i) as [->|]; [|done]. intros Hx.
    eapply elem_of_sublist; [done|by apply fmap_sublist]. }
  split; [done| | |].
  - intros k Hk. unfold upd. destruct (Z.eqb_spec k i) as [->|Hne]; [by exists a|].
    destruct (rep_seg h L Hr k Hk) as (b & Hb & Hs). destruct (Hj k Hk Hne) as [He Hw].
    exists b. rewrite He. split; [done|]. by apply (seg_ext (mem h)).
  - intros k Hk. unfold upd. destruct (Z.eqb_spec k i) as [->|]; [|by apply (rep_nodup h L Hr)].
    eapply sublist_NoDup; [apply (rep_nodup h L Hr i Hi)|by apply fmap_sublist].
  - intros k k' x y Hk Hk' Hx Hy Hne. apply (rep_apart h L Hr k k'); auto.
Qed.

(** The value of the slot after [pre]. *)
Lemma read_slot_ok h L i pre rest :
  rep h L → 0 ≤ i < 32 → L i = pre ++ rest →
  ∃ k, read_slot h (slot_after i pre) = Ret k ∧ seg (mem h) k rest 0.
Proof.
  intros Hr Hi HL. destruct (head_get_ok h L i Hr Hi) as (a & Hg & _ & Hs).
  rewrite HL in Hs. pose proof offsets as (Hn & _). unfold slot_after.
  destruct (last pre) as [[b bs]|] eqn:E.
  - apply last_Some in E as [pre' ->]. rewrite <-app_assoc in Hs.
    apply seg_app in Hs as (k & _ & -> & Hb & Ha & _ & Hs). simpl in *.
    eexists. rewrite load_ok by (by apply word_aligned). done.
  - apply last_None in E as ->. simpl in *. eauto.
Qed.

Lemma rep_words h L i j x y o o' :
  rep h L → 0 ≤ i < 32 → 0 ≤ j < 32 → x ∈ (L i).*1 → y ∈ (L j).*1 → i ≠ j ∨ x ≠ y →
  o = 0 ∨ o = 8 ∨ o = 16 → o' = 0 ∨ o' = 8 ∨ o' = 16 → x + o ≠ y + o'.
Proof.
  intros Hr Hi Hj Hx Hy Hne Ho Ho'. apply apart_words; [|done..].
  apply (rep_apart h L Hr j i); [done..|]. naive_solver.
Qed.

(** Unlinking leaves every word but the link of the block before, the link of
    the block itself, or the head. *)
Lemma unlink_words h L i pre c sz post :
  rep h L → 0 ≤ i < 32 → L i = pre ++ (c, sz) :: post →
  returns (unlink h (slot_after i pre) c) (λ h',
    same_counters h h' ∧ length (heads h') = 32%nat ∧
    (∀ j, 0 ≤ j < 32 → j ≠ i ∨ pre ≠ [] → heads h' !! Z.to_nat j = heads h !! Z.to_nat j) ∧
    (pre = [] → heads h' !! Z.to_nat i = Some (mem h (c + next_at))) ∧
    (∀ b bs, last pre = Some (b, bs) → mem h' (b + next_at) = mem h (c + next_at)) ∧
    ∀ w, w ≠ c + next_at → (∀ b bs, last pre = Some (b, bs) → w ≠ b + next_at) →
      mem h' w = mem h w).
Proof.
  intros Hr Hi HL. pose proof offsets as (Hn & _). pose proof (rep_heads h L Hr) as Hlen.
  destruct (rep_seg h L Hr i Hi) as (a & Hl & Hs). rewrite HL in Hs.
  assert (c ∈ (L i).*1) as Hc by (rewrite HL, fmap_app; set_solver).
  destruct (seg_aligned _ _ _ _ c Hs) as [_ Hca]; [by rewrite <-HL|].
  unfold unlink, slot_after. destruct (last pre) as [[b bs]|] eqn:E; simpl.
  - apply last_Some in E as [pre' ->].
    assert (b ∈ (L i).*1) as Hb by (rewrite HL, !fmap_app; set_solver).
    destruct (seg_aligned _ _ _ _ b Hs) as [_ Hba]; [by rewrite <-HL|].
    assert (b ≠ c) as Hbc.
    { pose proof (rep_nodup h L Hr i Hi) as Hd. rewrite HL, !fmap_app in Hd. simpl in Hd.
      apply NoDup_app in Hd as (_ & Hd & _). intros ->. apply (Hd c); set_solver. }
    assert (c + next_at ≠ b + next_at) as Hne by lia.
    rewrite !store_ok by (by apply word_aligned). simpl.
    rewrite load_ok by (by apply word_aligned). simpl.
    rewrite !store_ok by (by apply word_aligned). simpl.
    rewrite (proj2 (Z.eqb_neq _ _) Hne). rewrite store_ok by (by apply word_aligned). simpl.
    split_and!; try done.
    + by destruct pre'.
    + intros ?? [= <- <-]. by rewrite Z.eqb_refl.
    + intros w Hw Hw'. rewrite (proj2 (Z.eqb_neq w (b + next_at))) by (by eapply Hw').
      by rewrite (proj2 (Z.eqb_neq w (c + next_at))).
  - apply last_None in E as ->.
    rewrite head_set_ok by done. simpl. rewrite load_ok, store_ok by (by apply word_aligned).
    simpl. rewrite head_set_ok by (done || simpl; by rewrite length_insert). simpl.
    split_and!; try done.
    + by rewrite !length_insert.
    + intros j Hj [Hne|]; [|done]. by rewrite !list_lookup_insert_ne by lia.
    + intros _. rewrite list_lookup_insert_eq; [done|]. rewrite length_insert. lia.
    + intros w Hw _. by rewrite (proj2 (Z.eqb_neq w (c + next_at))).
Qed.

(** On the blocks of the lists: sizes stay, and so do the links of all blocks but
    the one removed and the one before it. *)
Lemma unlink_blocks h L i pre c sz post :
  rep h L → 0 ≤ i < 32 → L i = pre ++ (c, sz) :: post →
  returns (unlink h (slot_after i pre) c) (λ h',
    same_counters h h' ∧ length (heads h') = 32%nat ∧
    (∀ j, 0 ≤ j < 32 → j ≠ i ∨ pre ≠ [] → heads h' !! Z.to_nat j = heads h !! Z.to_nat j) ∧
    (pre = [] → heads h' !! Z.to_nat i = Some (mem h (c + next_at))) ∧
    (∀ b bs, last pre = Some (b, bs) → mem h' (b + next_at) = mem h (c + next_at)) ∧
    (∀ j x, 0 ≤ j < 32 → x ∈ (L j).*1 → mem h' (x + size_at) = mem h (x + size_at)) ∧
    ∀ j x, 0 ≤ j < 32 → x ∈ (L j).*1 →
      j ≠ i ∨ x ≠ c ∧ (∀ b bs, last pre = Some (b, bs) → x ≠ b) →
      mem h' (x + next_at) = mem h (x + next_at)).
Proof.
  intros Hr Hi HL. pose proof offsets as (Hn & Hz & _ & Hnz & _).
  assert (c ∈ (L i).*1) as Hc by (rewrite HL, fmap_app; set_solver).
  assert (∀ b bs, last pre = Some (b, bs) → b ∈ (L i).*1) as Hb.
  { intros b bs [pre' ->]%last_Some. rewrite HL, !fmap_app. set_solver. }
  assert (∀ j x y, 0 ≤ j < 32 → x ∈ (L j).*1 → y ∈ (L i).*1 → x + size_at ≠ y + next_at) as Hsn.
  { intros j x y Hj Hx Hy. destruct (decide (x = y)) as [->|]; [lia|].
    apply (rep_words h L j i); auto. }
  eapply returns_mono; [by apply (unlink_words h L i pre c sz post)|].
  intros h' (Hsame & Hlen & Hheads & Hhd & Hbn & Hm). split_and!; [done..| |].
  - intros j x Hj Hx. apply Hm; [by eapply Hsn|]. intros b bs Eb. eapply Hsn; eauto.
  - intros j x Hj Hx Hne. apply Hm.
    + apply (rep_words h L j i); naive_solver.
    + intros b bs Eb. apply (rep_words h L j i); try done; [by eapply Hb|]. naive_solver.
Qed.

(** What that means for the segment the block was in. *)
Lemma seg_unlink m m' a pre c sz post :
  seg m a (pre ++ (c, sz) :: post) 0 → NoDup (pre ++ (c, sz) :: post).*1 →
  (∀ x, x ∈ (pre ++ (c, sz) :: post).*1 → m' (x + size_at) = m (x + size_at)) →
  (∀ x, x ∈ (pre ++ (c, sz) :: post).*1 → x ≠ c →
     (∀ b bs, last pre = Some (b, bs) → x ≠ b) → m' (x + next_at) = m (x + next_at)) →
  (∀ b bs, last pre = Some (b, bs) → m' (b + next_at) = m (c + next_at)) →
  seg m' (if decide (pre = []) then m (c + next_at) else a) (pre ++ post) 0.
Proof.
  rewrite !fmap_app. simpl. intros Hs Hd Hz Hn Hb.
  apply seg_app in Hs as (k & Hpre & -> & Hcp & Hca & Hcs & Hpost).
  apply NoDup_app in Hd as (Hd1 & Hd2 & Hd3). apply NoDup_cons in Hd3 as [Hd3 _].
  assert (seg m' (m (c + next_at)) post 0) as Hpost'.
  { apply (seg_ext m); [|done]. intros x Hx. split; [apply Hz; set_solver|].
    apply Hn; [set_solver|by intros ->|]. intros b bs [pre' ->]%last_Some ->.
    apply (Hd2 b); [rewrite fmap_app|]; set_solver. }
  destruct (last pre) as [[b bs]|] eqn:E; [|by apply last_None in E as ->].
  apply last_Some in E as [pre' ->]. rewrite decide_False by (by destruct pre').
  rewrite <-app_assoc. apply seg_app in Hpre as (k & Hpre & -> & Hbp & Hba & Hbs & Hbc).
  rewrite fmap_app in Hd1, Hd2, Hz, Hn. apply NoDup_app in Hd1 as (_ & Hd1 & _).
  apply seg_app. exists b. split.
  - apply (seg_ext m); [|done]. intros x Hx. split; [apply Hz; set_solver|].
    apply Hn; [set_solver|intros ->; apply (Hd2 c); set_solver|].
    intros ?? [= <- <-] ->. apply (Hd1 b); set_solver.
  - simpl. rewrite (Hb b bs eq_refl). split_and!; try done. rewrite Hz; set_solver.
Qed.

Lemma unlink_ok h L i pre c sz post :
  rep h L → 0 ≤ i < 32 → L i = pre ++ (c, sz) :: post →
  returns (unlink h (slot_after i pre) c) (λ h',
    rep h' (upd L i (pre ++ post)) ∧ same_counters h h' ∧ mem h' (c + size_at) = sz ∧
    ∀ w, off_headers L w → mem h' w = mem h w).
Proof.
  intros Hr Hi HL. destruct (rep_seg h L Hr i Hi) as (a & Hl & Hs).
  eapply returns_mono; [by apply returns_and;
    [apply (unlink_blocks h L i pre c sz post)|apply (unlink_words h L i pre c sz post)]|].
  intros h' [(Hsame & Hlen & Hheads & Hhd & Hbn & Hz & Hn) (_ & _ & _ & _ & _ & Hm)].
  pose proof offsets as (Hno & _).
  split; [|split; [done|split]].
  - apply (rep_shrink h h' L i (pre ++ post)
      (if decide (pre = []) then mem h (c + next_at) else a)); try done.
    + rewrite HL. apply sublist_app; [done|]. by apply sublist_cons.
    + case_decide as Ep; [by apply Hhd|]. rewrite Hheads by auto. done.
    + apply (seg_unlink (mem h) (mem h') a pre c sz post); try done.
      * by rewrite <-HL.
      * rewrite <-HL. by apply (rep_nodup h L Hr).
      * rewrite <-HL. eauto.
      * rewrite <-HL. intros x Hx ??. apply (Hn i); auto.
    + intros j Hj Hne. split; [apply Hheads; auto|]. intros x Hx. eauto 6.
  - rewrite (Hz i c); [|done|rewrite HL, fmap_app; set_solver].
    rewrite HL in Hs. apply seg_app in Hs as (k & _ & -> & _ & _ & Hsz & _). done.
  - intros w Hw. apply Hm; [|intros b bs [pre' ->]%last_Some];
      (apply (Hw i); [done|rewrite HL, !fmap_app; set_solver|done]).
Qed.

(** ** Searching a list *)

Lemma pow2_align_up a n :
  0 ≤ n < 64 → 0 < a → a + 2 ^ n < 2 ^ 64 →
  Z.land (a + 2 ^ n - 1) (wnot 64 (2 ^ n - 1)) = align_up a (2 ^ n) ∧
  0 ≤ align_up a (2 ^ n) - a < 2 ^ n.
Proof.
  intros Hn Ha Hb. pose proof (Z.pow_pos_nonneg 2 n ltac:(lia) ltac:(lia)) as Hp.
  rewrite land_wnot_low by (lia || unfold in_u; lia). unfold align_up.
  pose proof (Z.mod_pos_bound (a + 2 ^ n - 1) (2 ^ n) Hp). split; [done|]. lia.
Qed.

Lemma split_block_ok h L i pre c sz post size align h1 :
  rep h L → request_ok L size align → 0 ≤ i < 32 → L i = pre ++ (c, sz) :: post →
  rep h1 (upd L i (pre ++ post)) → mem h1 (c + size_at) = sz →
  returns (split_block h1 c size) (λ h',
    rep h' (after_take L i size pre c sz post) ∧ same_counters h1 h' ∧
    ∀ w, off_headers (after_take L i size pre c sz post) w → mem h' w = mem h1 w).
Proof.
  intros Hr [[Hs Hs8] Hal Hb Hsp] Hi HL Hr1 Hm. pose proof offsets as (_ & Hz & _).
  assert ((c, sz) ∈ L i) as Hin by (rewrite HL; set_solver).
  destruct (rep_seg h L Hr i Hi) as (a & _ & Hseg).
  destruct (seg_aligned _ _ _ _ c Hseg) as [Hc Hc8]; [by apply (list_elem_of_fmap_2 fst _ _ Hin)|].
  destruct Hal as (n & Hn & ->). pose proof (Z.pow_pos_nonneg 2 n ltac:(lia) ltac:(lia)).
  destruct (Hb i c sz Hi Hin) as [Hb1 Hb2].
  unfold split_block, after_take. rewrite load_ok by (by apply word_aligned). rewrite Hm. simpl.
  destruct (Z.ltb_spec (size + 32) sz) as [Hlt|Hge].
  - destruct (Hsp i c sz Hi Hin Hlt) as (Hw & Hw' & Hap). unfold FREE_BLOCK_SIZE.
    rewrite uadd_ok by (unfold in_u; lia). simpl. rewrite (proj2 (Z.ltb_lt _ _)) by done.
    rewrite usub_ok by (unfold in_u; lia). simpl. rewrite (proj2 (Z.leb_le 32 _)) by lia.
    rewrite (proj2 (Z.leb_gt (2 ^ 63) _)) by lia. rewrite wrap_small by (unfold in_u; lia).
    apply insert_framed; [done|lia| |lia|].
    + Z.to_euclidean_division_equations. lia.
    + intros j x Hj Hx. apply (Hap j); [done|..].
      * revert Hx. unfold upd. destruct (Z.eqb_spec j i) as [->|]; [|done].
        rewrite HL, !fmap_app. set_solver.
      * intros ->. revert Hx. unfold upd.
        destruct (Z.eqb_spec j i) as [->|Hne]; intros Hx.
        -- pose proof (rep_nodup h L Hr i Hi) as Hd. rewrite HL, fmap_app in Hd. simpl in Hd.
           apply NoDup_app in Hd as (_ & Hd1 & Hd2). apply NoDup_cons in Hd2 as [Hd2 _].
           rewrite fmap_app, elem_of_app in Hx. destruct Hx as [Hx|]; [|done].
           apply (Hd1 c Hx). set_solver.
        -- assert (apart c c) as Hcc; [|unfold apart in Hcc; lia].
           apply (rep_apart h L Hr i j); auto. by apply (list_elem_of_fmap_2 fst _ _ Hin).
  - rewrite uadd_ok by (unfold in_u; lia). simpl. by rewrite (proj2 (Z.ltb_ge _ _)).
Qed.

(** The outcome of a search over the blocks [rest] that come after [pre] in list
    [i]: the first block that fits is taken, and only then does anything change. *)
Definition searched h L (i size align : Z) (pre rest : list (Z * Z))
    (fl : flow (Z * Heap Pg) (Heap Pg)) : Prop :=
  match fl with
  | Next h' => h' = h ∧ Forall (λ b, ¬ fits size align b) rest
  | Done (p, h') => ∃ pre1 sz post, rest = pre1 ++ (p, sz) :: post ∧
      Forall (λ b, ¬ fits size align b) pre1 ∧ fits size align (p, sz) ∧
      rep h' (after_take L i size (pre ++ pre1) p sz post) ∧ same_counters h h' ∧
      framed L (after_take L i size (pre ++ pre1) p sz post) h h'
  end.

Lemma same_counters_trans h1 h2 h3 :
  same_counters h1 h2 → same_counters h2 h3 → same_counters h1 h3.
Proof. unfold same_counters. intuition congruence. Qed.

Lemma search_list_ok h L i size align pre rest fuel :
  rep h L → request_ok L size align → 0 ≤ i < 32 → L i = pre ++ rest →
  (length rest ≤ fuel)%nat →
  returns (search_list fuel size align (slot_after i pre) h) (searched h L i size align pre rest).
Proof.
  intros Hr Hq Hi. revert pre fuel. induction rest as [|[c sz] rest IH]; intros pre fuel HL Hf;
    destruct (read_slot_ok h L i pre _ Hr Hi HL) as (k & Hk & Hs).
  { simpl in Hs. subst k. destruct fuel; cbn [search_list]; rewrite Hk; done. }
  destruct fuel as [|fuel]; simpl in Hf; [lia|]. destruct Hs as (-> & Hc & Hc8 & Hsz & Hs).
  pose proof Hq as [[Hsize _] (n & Hn & ->) Hb _].
  assert ((c, sz) ∈ L i) as Hin by (rewrite HL; set_solver).
  destruct (Hb i c sz Hi Hin) as [Hb1 Hb2]. pose proof offsets as (_ & Hz & _).
  pose proof (Z.pow_pos_nonneg 2 n ltac:(lia) ltac:(lia)) as Hp.
  destruct (pow2_align_up c n Hn Hc ltac:(lia)) as [Hup Hoff].
  cbn [search_list]. rewrite Hk. cbn [mbind outcome_bind].
  rewrite (proj2 (Z.eqb_neq c 0)) by lia.
  rewrite uadd_ok by (unfold in_u; lia). cbn [mbind outcome_bind].
  rewrite !usub_ok by (unfold in_u; lia). cbn [mbind outcome_bind].
  rewrite Hup, usub_ok by (unfold in_u; lia). cbn [mbind outcome_bind].
  rewrite uadd_ok by (unfold in_u; lia). cbn [mbind outcome_bind].
  rewrite load_ok by (by apply word_aligned). cbn [mbind outcome_bind]. rewrite Hsz.
  destruct (Z.leb_spec (align_up c (2 ^ n) - c + size) sz) as [Hfit|Hno].
  - step1. eapply returns_mono; [by apply (unlink_ok h L i pre c sz rest)|].
    intros h1 (Hr1 & Hc1 & Hm1 & Hw1). step1.
    eapply returns_mono; [by apply (split_block_ok h L i pre c sz rest size (2 ^ n))|].
    intros h2 (Hr2 & Hc2 & Hw2). exists [], sz, rest. rewrite app_nil_r. split_and!; try done.
    + by eapply same_counters_trans.
    + intros w Hw Hw'. by rewrite Hw2, Hw1.
  - replace (NextOf c) with (slot_after i (pre ++ [(c, sz)])) by (unfold slot_after; by rewrite last_snoc).
    eapply returns_mono; [apply IH; [by rewrite <-app_assoc|lia]|].
    assert (¬ fits size (2 ^ n) (c, sz)) as Hnf by (unfold fits; simpl; lia).
    intros [h'|[p h']]; simpl; [intros [-> Hall]; split; [done|by constructor]|].
    intros (pre1 & psz & post & -> & Hall & Hfit & Hr' & Hc' & Hw'). exists ((c, sz) :: pre1), psz, post.
    rewrite <-app_assoc in Hr', Hw'. split_and!; try done. by constructor.
Qed.

(** The whole search, from list [lo] on. *)
Definition best_fit h L (size align lo : Z) (r : option Z * Heap Pg) : Prop :=
  match r.1 with
  | None => r.2 = h ∧ ∀ i, lo ≤ i < 32 → Forall (λ b, ¬ fits size align b) (L i)
  | Some p => ∃ i pre sz post, lo ≤ i < 32 ∧
      (∀ j, lo ≤ j < i → Forall (λ b, ¬ fits size align b) (L j)) ∧
      L i = pre ++ (p, sz) :: post ∧ Forall (λ b, ¬ fits size align b) pre ∧
      fits size align (p, sz) ∧
      rep r.2 (after_take L i size pre p sz post) ∧ same_counters h r.2 ∧
      framed L (after_take L i size pre p sz post) h r.2
  end.

Lemma remove_best_fit_ok fuel h L size align :
  rep h L → request_ok L size align → (∀ i, 0 ≤ i < 32 → (length (L i) ≤ fuel)%nat) →
  returns (remove_best_fit fuel h size align)
    (best_fit h L size align (Z.min (Z.log2 size) 31)).
Proof.
  intros Hr Hq Hf. pose proof Hq as [[Hs _] _ _ _]. pose proof (list_index_range size ltac:(lia)) as Hi.
  unfold remove_best_fit. rewrite get_list_index_ok by lia. simpl. unfold MAX_FREE_LISTS.
  set (lo := Z.min (Z.log2 size) 31) in *. step1. eapply returns_mono.
  { apply (for_range_inv
      (λ i t, t = h ∧ ∀ j, lo ≤ j < i → Forall (λ b, ¬ fits size align b) (L j))
      (λ r, best_fit h L size align lo (Some r.1, r.2))); [lia|split; [done|lia]|].
    intros i t Hi' [-> Hno].
    eapply returns_mono; [apply (search_list_ok h L i size align [] (L i)); try done; [lia|apply Hf; lia]|].
    intros [t|[p t]]; simpl.
    - intros [-> Hall]. split; [done|]. intros j Hj.
      destruct (decide (j = i)) as [->|]; [done|]. apply Hno. lia.
    - intros (pre & sz & post & HL & Hall & Hfit & Hr' & Hc & Hw).
      exists i, pre, sz, post. by split_and!; [lia|lia|..]. }
  intros [t|[p t]]; simpl; [|done]. by intros [-> Hno].
Qed.

(** When the first block of a list fits, and none of the lists before, it is taken. *)
Lemma best_fit_first h L size align lo i r p sz post :
  lo ≤ i < 32 → (∀ j, lo ≤ j < i → Forall (λ b, ¬ fits size align b) (L j)) →
  L i = (p, sz) :: post → fits size align (p, sz) → best_fit h L size align lo r →
  r.1 = Some p ∧ rep r.2 (after_take L i size [] p sz post) ∧ same_counters h r.2 ∧
  framed L (after_take L i size [] p sz post) h r.2.
Proof.
  intros Hi Hnil HL Hfit. unfold best_fit. destruct r as [[q|] h']; simpl.
  - intros (k & pre & qsz & qpost & Hk & Hno & HLk & Hpre & Hq & Hr & Hc & Hw).
    destruct (Z.lt_trichotomy k i) as [|[->|]].
    + specialize (Hnil k ltac:(lia)). rewrite HLk in Hnil.
      by apply Forall_app in Hnil as [_ [? _]%Forall_cons].
    + destruct pre as [|b pre]; simpl in HLk; rewrite HL in HLk; simplify_eq; [done|].
      by apply Forall_cons in Hpre as [? _].
    + exfalso. specialize (Hno i ltac:(lia)). rewrite HL in Hno.
      by apply Forall_cons in Hno as [? _].
  - intros [_ Hno]. exfalso. specialize (Hno i ltac:(lia)). rewrite HL in Hno.
    by apply Forall_cons in Hno as [? _].
Qed.

Lemma rep_with_used h L x : rep h L → rep (with_used h x) L.
Proof. by intros []. Qed.

Lemma fits_aligned size align p :
  0 < align → p mod align = 0 → fits size align (p, size).
Proof.
  intros Ha Hp. unfold fits, align_up. simpl.
  replace (p + align - 1) with (align - 1 + p) by lia.
  rewrite <-Zplus_mod_idemp_r, Hp, Z.add_0_r, (Z.mod_small (align - 1)) by lia. lia.
Qed.

(** [alloc] when the first block it looks at fits. *)
Lemma alloc_first fuel h L (l : Layout) size i p sz post :
  rep h L → initialized h = true → block_size l = Ret size → request_ok L size (lalign l) →
  (∀ i, 0 ≤ i < 32 → (length (L i) ≤ fuel)%nat) →
  Z.min (Z.log2 size) 31 ≤ i < 32 →
  (∀ j, Z.min (Z.log2 size) 31 ≤ j < i → Forall (λ b, ¬ fits size (lalign l) b) (L j)) →
  L i = (p, sz) :: post → fits size (lalign l) (p, sz) →
  returns (alloc fuel h l) (λ '(a, h'), a = p ∧
    rep h' (after_take L i size [] p sz post) ∧
    used_bytes h' = wrap 64 (used_bytes h + size) ∧ total_bytes h' = total_bytes h).
Proof.
  intros Hr Hini Hs Hq Hf Hi Hnil HL Hfit.
  unfold alloc. rewrite Hini. simpl. rewrite Hs. simpl.
  unfold try_alloc_from_free_list. rewrite Hs. simpl. apply returns_bind, returns_bind.
  eapply returns_mono; [by apply remove_best_fit_ok|]. intros [r h'] Hb.
  destruct (best_fit_first h L size (lalign l) (Z.min (Z.log2 size) 31) i (r, h') p sz post) as (Hp & Hr' & (Ht & Hu & _) & _);
    [done..|]. simpl in *. subst r. simpl. split_and!; [done|by apply rep_with_used| |done].
  by rewrite Hu.
Qed.

Lemma new_rep (p : Pg) : rep (new p) (λ _, []).
Proof.
  split; [done| | |].
  - intros i Hi. exists 0. split; [|done]. apply (lookup_replicate_2 32). lia.
  - intros. constructor.
  - intros i j x y _ _ Hx. simpl in Hx. by apply elem_of_nil in Hx.
Qed.
End lemmas.

(** ** Theorems *)

(** C19: [remove_best_fit] takes the first block, in the order of the lists from
    the one for the requested size upwards, that has room for the request behind its
    first address of the requested alignment; it returns [None] exactly when no block
    of these lists has, and then nothing changed.  Taking a block unlinks it and, when
    it is more than 32 bytes too large, adds a block for the rest.  It holds of linked
    free lists with separate headers, for a size that is a multiple of 8, a
    power-of-two alignment, block addresses for which no sum overflows, and when the
    place the code computes for a remainder, [24 * size] bytes behind the block, is not the header of another
    free block ([request_ok]).  The search ends: no list is longer than the fuel. *)
Theorem best_fit_is_first_fit {prof : Profile} `{!BlockLayout, !BlockLayoutLaws} {Pg : Type}
    (fuel : nat) (h : Heap Pg) (L : Z → list (Z * Z)) (size align : Z) :
  rep h L → request_ok L size align → (∀ i, 0 ≤ i < 32 → (length (L i) ≤ fuel)%nat) →
  returns (remove_best_fit fuel h size align) (λ '(r, h'),
    match r with
    | None => h' = h ∧ ∀ i, Z.min (Z.log2 size) 31 ≤ i < 32 →
        Forall (λ b, ¬ fits size align b) (L i)
    | Some p => ∃ i pre sz post, Z.min (Z.log2 size) 31 ≤ i < 32 ∧
        align_up p align - p + size ≤ sz ∧
        (∀ j, Z.min (Z.log2 size) 31 ≤ j < i → Forall (λ b, ¬ fits size align b) (L j)) ∧
        L i = pre ++ (p, sz) :: post ∧ Forall (λ b, ¬ fits size align b) pre ∧
        rep h' (after_take L i size pre p sz post) ∧ same_counters h h'
    end).
Proof.
  intros Hr Hq Hf. eapply returns_mono; [by apply remove_best_fit_ok|].
  intros [[p|] h']; [|done]. intros (i & pre & sz & post & Hi & Hno & HL & Hpre & Hfit & Hr' & Hc & _).
  by exists i, pre, sz, post.
Qed.

(** C27: Freeing a block and allocating with the same layout gives the block back:
    [alloc] after [dealloc] returns the freed pointer, the free lists are the ones
    before, and so is the number of used bytes.  The pointer is a multiple of 8 and
    of the alignment of the layout (a block handed out at an unaligned start, as
    [remove_best_fit] may do, is not found again), its header is separate from
    those of the free blocks, and the request is one the search can handle
    ([request_ok]). *)
Theorem free_alloc_roundtrip {prof : Profile} `{!BlockLayout, !BlockLayoutLaws} {Pg : Type}
    `{!PageSource Pg} (fuel : nat) (h : Heap Pg) (L : Z → list (Z * Z)) (l : Layout)
    (ptr size : Z) :
  rep h L → initialized h = true → in_u 64 (used_bytes h) →
  block_size l = Ret size → 0 < ptr → ptr mod 8 = 0 → ptr mod lalign l = 0 →
  (∀ j x, 0 ≤ j < 32 → x ∈ (L j).*1 → apart ptr x) →
  (∀ i, 0 ≤ i < 32 → (length (L i) < fuel)%nat) →
  let i := Z.min (Z.log2 size) 31 in
  request_ok (upd L i ((ptr, size) :: L i)) size (lalign l) →
  returns (h1 ← dealloc h ptr l; alloc fuel h1 l) (λ '(p, h2),
    p = ptr ∧ used_bytes h2 = used_bytes h ∧
    ∃ L2, rep h2 L2 ∧ ∀ j, 0 ≤ j < 32 → L2 j = L j).
Proof.
  intros Hr Hini Hu Hs Hp H8 Hal Hap Hf i Hq. pose proof Hq as [[Hsz _] (n & Hn & Ha) _ _].
  pose proof (Z.pow_pos_nonneg 2 n ltac:(lia) ltac:(lia)).
  unfold dealloc. rewrite Hini. simpl. rewrite Hs. simpl. step1. eapply returns_mono.
  { apply (insert_ok _ L); [by apply rep_with_used|done|done|lia|done]. }
  fold i. set (L1 := upd L i ((ptr, size) :: L i)) in *.
  intros h1 (Hr1 & Ht1 & Hu1 & _ & Hi1 & _).
  assert (L1 i = (ptr, size) :: L i) as HL1 by (unfold L1, upd; by rewrite Z.eqb_refl).
  eapply returns_mono.
  { apply (alloc_first fuel h1 L1 l size i ptr size (L i)); try done.
    - by rewrite Hi1.
    - intros j Hj. unfold L1, upd. specialize (Hf j Hj).
      destruct (Z.eqb_spec j i) as [->|]; simpl; lia.
    - pose proof (list_index_range size ltac:(lia)). lia.
    - intros j Hj. lia.
    - apply fits_aligned; [lia|done]. }
  fold i. intros [p h2] (-> & Hr2 & Hu2 & _). split_and!; [done| |].
  - rewrite Hu2, Hu1. simpl. unfold wrap. rewrite Zplus_mod_idemp_l.
    replace (used_bytes h - size + size) with (used_bytes h) by lia. by apply Z.mod_small.
  - eexists. split; [done|]. intros j _. unfold after_take.
    rewrite (proj2 (Z.ltb_ge _ _)) by lia. unfold L1, upd. simpl.
    by destruct (Z.eqb_spec j i) as [->|].
Qed.

(** The remainder of a split block is put in the wrong place.  The first
    allocation of [size] bytes from a heap of [total] bytes at [start] returns
    [start] and lists [total - size] free bytes at [start + 24 * size], a range
    that reaches beyond the end of the heap: the code adds [size] to a pointer to
    24-byte structures. *)
Theorem split_leaves_the_heap {prof : Profile} `{!BlockLayout, !BlockLayoutLaws} {Pg : Type}
    `{!PageSource Pg} (fuel : nat) (pg : Pg) (l : Layout) (start total size : Z) :
  block_size l = Ret size → 0 < size < 2 ^ 63 → size mod 8 = 0 →
  (∃ n, 0 ≤ n < 64 ∧ lalign l = 2 ^ n) → start mod lalign l = 0 →
  0 < start → start mod 8 = 0 → size + 32 < total < 2 ^ 64 →
  24 * size < 2 ^ 63 → start + lalign l + 24 * size < 2 ^ 64 → (0 < fuel)%nat →
  returns (h1 ← init (new pg) start total; alloc fuel h1 l) (λ '(p, h2),
    p = start ∧ ∃ L j, rep h2 L ∧ L j = [(start + 24 * size, total - size)] ∧
      start + total < (start + 24 * size) + (total - size)).
Proof.
  intros Hs Hsz H8 (n & Hn & Ha) Hal Hst Hst8 Ht H24 Hb Hf.
  pose proof (Z.pow_pos_nonneg 2 n ltac:(lia) ltac:(lia)).
  pose proof (list_index_range total ltac:(lia)) as Hi.
  pose proof (Z.log2_le_mono size total ltac:(lia)) as Hmono.
  set (i := Z.min (Z.log2 total) 31) in *.
  set (L := upd (λ _, []) i [(start, total)]).
  assert (∀ j x, x ∈ (L j).*1 → x = start) as HLin.
  { intros j x. unfold L, upd. destruct (j =? i); simpl; [|by rewrite elem_of_nil].
    by rewrite list_elem_of_singleton. }
  assert (∀ j c sz, (c, sz) ∈ L j → c = start ∧ sz = total) as HLb.
  { intros j c sz. unfold L, upd. destruct (j =? i); simpl; [|by rewrite elem_of_nil].
    rewrite list_elem_of_singleton. by intros [= -> ->]. }
  assert (request_ok L size (lalign l)) as Hq.
  { split; [done|by exists n| |].
    - intros j c sz _ [-> ->]%HLb. lia.
    - intros j c sz _ [-> ->]%HLb _. split; [lia|]. split; [lia|]. by intros k x _ ->%HLin. }
  unfold init. apply returns_bind, returns_bind. eapply returns_mono.
  { apply (insert_ok (new pg) (λ _, [])); [apply new_rep|done|done|lia|].
    intros j x _ Hx. simpl in Hx. by apply elem_of_nil in Hx. }
  fold i. intros h0 [Hr0 _]. cbv beta in Hr0. fold L in Hr0. cbn [returns].
  eapply returns_mono.
  { apply (alloc_first fuel _ L l size i start total []); try done.
    - by destruct Hr0.
    - intros j _. unfold L, upd. destruct (j =? i); simpl; lia.
    - lia.
    - intros j Hj. unfold L, upd. by rewrite (proj2 (Z.eqb_neq j i)) by lia.
    - unfold L, upd. by rewrite Z.eqb_refl.
    - pose proof (fits_aligned size (lalign l) start ltac:(lia) Hal). unfold fits in *. simpl in *. lia. }
  intros [p h2] (-> & Hr2 & _). split; [done|].
  eexists _, (Z.min (Z.log2 (total - size)) 31). split; [done|]. split; [|lia].
  unfold after_take. rewrite (proj2 (Z.ltb_lt _ _)) by lia. unfold upd at 1. rewrite Z.eqb_refl.
  unfold L, upd. by destruct (_ =? i).
Qed.

(** ** Witnesses *)

(** The fields in declaration order, and a page source that is exhausted. *)
#[export] Instance declared_layout : BlockLayout :=
  {| next_at := 0; size_at := 8; flag_at := 16; set_flag w := Z.lor (Z.land w (wnot 64 255)) 1 |}.
#[export] Instance declared_layout_laws : BlockLayoutLaws.
Proof. split; by apply (bool_decide_unpack _). Qed.
#[export] Instance no_pages : PageSource unit := λ p _, (None, p).

(** The kernel heap of main.rs: 256 MiB at 0xFFFF800010000000. *)
Definition demo : Heap unit :=
  match init (new ()) 0xFFFF800010000000 0x10000000 with Ret h => h | _ => new () end.
Definition demo_lists : Z → list (Z * Z) := upd (λ _, []) 28 [(0xFFFF800010000000, 0x10000000)].
Definition demo_layout : Layout := {| lsize := 60; lalign := 8 |}.

Lemma demo_rep : rep demo demo_lists.
Proof.
  assert (returns (insert (new ()) 0xFFFF800010000000 0x10000000) (λ h', rep h' demo_lists ∧ same_counters (new ()) h')) as H.
  { apply (insert_ok (new ()) (λ _, [])); [apply new_rep|done..|].
    intros j x _ Hx. by apply elem_of_nil in Hx. }
  unfold demo, init. destruct (insert (new ()) 0xFFFF800010000000 0x10000000) as [h| | |]; [|done..].
  simpl in *. by destruct H as [[] _].
Qed.

Ltac in_lists :=
  unfold demo_lists, upd; repeat case_match; simpl;
  rewrite ?elem_of_cons, ?elem_of_nil.

Lemma demo_request : request_ok demo_lists 64 8.
Proof.
  split; [done|by exists 3| |].
  - intros i c sz _. in_lists; naive_solver lia.
  - intros i c sz _. in_lists; [|done]. intros [[= -> ->]|[]] _. split; [done|]. split; [done|].
    intros j x _. in_lists; naive_solver.
Qed.

Lemma best_fit_is_first_fit_witness :
  returns (remove_best_fit (prof := dev) 1 demo 64 8) (λ '(r, _), r ≠ None).
Proof.
  eapply returns_mono;
    [apply (best_fit_is_first_fit (prof := dev) 1 demo demo_lists 64 8 demo_rep demo_request)|].
  { intros i _. unfold demo_lists, upd. case_match; simpl; lia. }
  intros [[p|] h']; [done|]. intros [_ H]. specialize (H 28 ltac:(vm_compute; split; congruence)).
  apply Forall_cons in H as [H _]. exfalso. apply H. by vm_compute.
Defined.

Lemma free_alloc_roundtrip_witness :
  returns (h1 ← dealloc (prof := dev) demo 131072 demo_layout;
           alloc (prof := dev) 2 h1 demo_layout) (λ '(p, h2), p = 131072 ∧ used_bytes h2 = 0).
Proof.
  eapply returns_mono.
  { apply (free_alloc_roundtrip (prof := dev) 2 demo demo_lists demo_layout 131072 64);
      [apply demo_rep|by vm_compute..| | |].
    - intros j x _. in_lists; [|done]. intros [->|[]]. left. done.
    - intros i _. in_lists; simpl; lia.
    - change (Z.min (Z.log2 64) 31) with 6. split; [done|by exists 3| |].
      + intros i c sz _. in_lists; naive_solver lia.
      + intros i c sz _. in_lists; try done; intros [[= -> ->]|[]] ?; try lia.
        split; [done|]. split; [done|]. intros j x _. in_lists; unfold apart; naive_solver lia. }
  intros [p h2] (-> & Hu & _). by split.
Defined.

Lemma split_leaves_the_heap_witness :
  returns (h1 ← init (new ()) 0xFFFF800010000000 0x10000000; alloc (prof := dev) 1 h1 demo_layout)
    (λ '(p, _), p = 0xFFFF800010000000).
Proof.
  eapply returns_mono.
  { apply (split_leaves_the_heap (prof := dev) 1 () demo_layout 0xFFFF800010000000 0x10000000 64); try done.
    - by exists 3.
    - lia. }
  by intros [p h2] [-> _].
Defined.

(** Until [init_heap] is called, which nothing in the sources does ([heap::init] is
    empty), every allocation is refused and nothing is released. *)
Lemma uninitialised_heap_refuses {prof : Profile} `{!BlockLayout} {Pg : Type} `{!PageSource Pg} fuel (p : Pg) l ptr :
  alloc fuel (new p) l = Ret (0, new p) ∧ dealloc (new p) ptr l = Ret (new p).
Proof. done. Qed.
