(* ===== verification/HeapGrowth.v ===== *)
(** * Growth and reallocation of the kernel heap (src/memory/heap.rs)

    What [alloc] does when no free block fits: it takes pages, adds them as one block
    and allocates from it.  [realloc] moves a block to a larger one; it copies bytes,
    so this file also has the byte view of the memory of [Heap], which is kept as
    64-bit words. *)

From S2P Require Import Prelude Heap HeapTheorems.
Open Scope Z_scope.

(** ** Bytes *)

(** The byte at address [a], in the little-endian word that holds it. *)
Definition byte_at (m : Z → Z) (a : Z) : Z :=
  Z.land (Z.shiftr (m (a - a mod 8)) (8 * (a mod 8))) 0xFF.

(** The word of [n] bytes from [a] on. *)
Fixpoint word_of (n : nat) (f : Z → Z) (a : Z) : Z :=
  match n with O => 0 | S n => f a + 256 * word_of n f (a + 1) end.

Definition overlap (a b n : Z) : bool := (a <? b + n) && (b <? a + n).

Section realloc.
Context {prof : Profile} `{!BlockLayout} {Pg : Type} `{!PageSource Pg}.
Context (list_fuel : nat).
Implicit Types (h : Heap Pg).

(** [ptr::copy_nonoverlapping]: only words with a byte of the destination change. *)
Definition copy_nonoverlapping h (src dst n : Z) : outcome (Heap Pg) :=
  if overlap src dst n then Undef else
  let byte a := if (dst <=? a) && (a <? dst + n) then byte_at (mem h) (a - dst + src) else byte_at (mem h) a in
  Ret (with_mem h (λ w, if (dst - 8 <? w) && (w <? dst + n) then word_of 8 byte w else mem h w)).

(** [alloc::alloc::alloc] and [dealloc] call the global allocator, which is the
    [Heap] of this file. *)
Definition realloc h (old_ptr : Z) (old_layout : Layout) (new_size : Z) : outcome (Z * Heap Pg) :=
  new_layout ← layout_from new_size (lalign old_layout);
  if lsize new_layout <=? lsize old_layout then Ret (old_ptr, h) else
  '(new_ptr, h1) ← alloc list_fuel h new_layout;
  if new_ptr =? 0 then Ret (new_ptr, h1) else
  h2 ← copy_nonoverlapping h1 old_ptr new_ptr (lsize old_layout);
  h3 ← dealloc h2 old_ptr old_layout;
  Ret (new_ptr, h3).
End realloc.

(** ** Copying *)

Lemma byte_range m a : 0 ≤ byte_at m a < 256.
Proof.
  unfold byte_at. change 0xFF with (Z.ones 8). rewrite Z.land_ones by lia. by apply Z.mod_pos_bound.
Qed.

Lemma word_of_byte n f a (k : Z) :
  (∀ b, 0 ≤ f b < 256) → 0 ≤ k < Z.of_nat n → (word_of n f a / 256 ^ k) mod 256 = f (a + k).
Proof.
  intros Hf. revert a k. induction n as [|n IH]; intros a k Hk; [lia|].
  cbn [word_of]. rewrite (Z.add_comm (f a)), (Z.mul_comm 256). pose proof (Hf a).
  destruct (decide (k = 0)) as [->|].
  - rewrite Z.pow_0_r, Z.div_1_r, Z.add_comm, Z.mod_add, Z.mod_small by lia. f_equal. lia.
  - replace k with (1 + (k - 1)) by lia. rewrite Z.pow_add_r by lia. change (256 ^ 1) with 256.
    rewrite <-Z.div_div, Z.div_add_l, (Z.div_small (f a)), Z.add_0_r by lia.
    rewrite IH by lia. f_equal. lia.
Qed.

Lemma byte_at_word m f a :
  (∀ b, 0 ≤ f b < 256) → m (a - a mod 8) = word_of 8 f (a - a mod 8) → byte_at m a = f a.
Proof.
  intros Hf Hm. pose proof (Z.mod_pos_bound a 8 ltac:(lia)).
  unfold byte_at. change 0xFF with (Z.ones 8). rewrite Z.land_ones, Z.shiftr_div_pow2 by lia.
  rewrite Hm, Z.pow_mul_r by lia. change (2 ^ 8) with 256. rewrite word_of_byte by (done || lia). f_equal. lia.
Qed.

Section lemmas.
Context {prof : Profile} `{!BlockLayout, !BlockLayoutLaws} {Pg : Type} `{!PageSource Pg}.
Implicit Types (h : Heap Pg) (L : Z → list (Z * Z)).

Lemma copy_ok h src dst n :
  overlap src dst n = false →
  returns (copy_nonoverlapping h src dst n) (λ h',
    (∀ i, 0 ≤ i < n → byte_at (mem h') (dst + i) = byte_at (mem h) (src + i)) ∧
    (∀ a, ¬ dst ≤ a < dst + n → byte_at (mem h') a = byte_at (mem h) a) ∧
    (∀ w, ¬ dst - 8 < w < dst + n → mem h' w = mem h w) ∧
    heads h' = heads h ∧ same_counters h h').
Proof.
  intros Ho. unfold copy_nonoverlapping. rewrite Ho. cbn [returns].
  set (byte := λ a, if (dst <=? a) && (a <? dst + n) then _ else _).
  set (h' := with_mem h _).
  assert (∀ b, 0 ≤ byte b < 256) as Hb by (intros b; unfold byte; case_match; apply byte_range).
  assert (∀ a, byte_at (mem h') a = byte a) as Hbyte.
  { intros a. pose proof (Z.mod_pos_bound a 8 ltac:(lia)).
    destruct ((dst - 8 <? a - a mod 8) && (a - a mod 8 <? dst + n)) eqn:E.
    - apply byte_at_word; [done|]. simpl. by rewrite E.
    - unfold byte_at at 1. simpl. rewrite E. unfold byte. case_match; [lia|done]. }
  split_and!; try done.
  - intros i Hi. rewrite Hbyte. unfold byte. case_match; [f_equal; lia|lia].
  - intros a Ha. rewrite Hbyte. unfold byte. case_match; [lia|done].
  - intros w Hw. simpl. case_match; [lia|done].
Qed.

(** ** Allocating from the lists *)

Definition none_fits L (size align : Z) : Prop :=
  ∀ i, Z.min (Z.log2 size) 31 ≤ i < 32 → Forall (λ b, ¬ fits size align b) (L i).

(** [L'] is [L] after the first block that fits, which starts at [p], was taken. *)
Definition taken L (size align p : Z) L' : Prop :=
  ∃ i pre sz post, Z.min (Z.log2 size) 31 ≤ i < 32 ∧
    (∀ j, Z.min (Z.log2 size) 31 ≤ j < i → Forall (λ b, ¬ fits size align b) (L j)) ∧
    L i = pre ++ (p, sz) :: post ∧ Forall (λ b, ¬ fits size align b) pre ∧
    fits size align (p, sz) ∧ L' = after_take L i size pre p sz post.

Lemma framed_used L L' h h' x : framed L L' h h' → framed L L' h (with_used h' x).
Proof. done. Qed.

Lemma try_alloc_ok fuel h L (l : Layout) size :
  rep h L → block_size l = Ret size → request_ok L size (lalign l) →
  (∀ i, 0 ≤ i < 32 → (length (L i) ≤ fuel)%nat) →
  returns (try_alloc_from_free_list fuel h l) (λ '(r, h'),
    match r with
    | None => h' = h ∧ none_fits L size (lalign l)
    | Some p => used_bytes h' = wrap 64 (used_bytes h + size) ∧
        same_counters h (with_used h' (used_bytes h)) ∧
        ∃ L', taken L size (lalign l) p L' ∧ rep h' L' ∧ framed L L' h h'
    end).
Proof.
  intros Hr Hs Hq Hf. unfold try_alloc_from_free_list. rewrite Hs. simpl. step1.
  eapply returns_mono; [by apply remove_best_fit_ok|].
  intros [[p|] h']; unfold best_fit; simpl; [|by intros [-> ?]].
  intros (i & pre & sz & post & Hi & Hno & HL & Hpre & Hfit & Hr' & (Ht & Hu & Hc) & Hw).
  split; [by rewrite Hu|]. split; [done|]. eexists. split; [by exists i, pre, sz, post|].
  split; [by apply rep_with_used|done].
Qed.

(** The page-sized request of [expand_heap]. *)
Definition grown_size (l : Layout) : Z := (Z.max (lsize l) (lalign l) + 4095) / 4096 * 4096.

Lemma grown_size_ok (l : Layout) :
  0 ≤ Z.max (lsize l) (lalign l) → Z.max (lsize l) (lalign l) + 8190 < 2 ^ 64 →
  (t ← uadd (Z.max (lsize l) (lalign l)) 4095; Ret (Z.land t (wnot 64 4095))) = Ret (grown_size l) ∧
  Z.max (lsize l) (lalign l) ≤ grown_size l < 2 ^ 64 - 4095 ∧ grown_size l mod 4096 = 0.
Proof.
  intros Hnn Hb. set (x := Z.max (lsize l) (lalign l)) in *. rewrite uadd_ok by (unfold in_u; lia). simpl.
  unfold grown_size. fold x. split; [|split; [|by apply Z.mod_mul]; Z.to_euclidean_division_equations; lia].
  f_equal. change 4095 with (2 ^ 12 - 1) at 2. rewrite land_wnot_low by (lia || unfold in_u; lia).
  change (2 ^ 12) with 4096. Z.to_euclidean_division_equations. lia.
Qed.

Lemma block_size_range (l : Layout) size :
  block_size l = Ret size → 0 ≤ Z.max (lsize l) (lalign l) → Z.max (lsize l) (lalign l) + 7 < 2 ^ 64 →
  Z.max (lsize l) (lalign l) ≤ size < Z.max (lsize l) (lalign l) + 8 ∧ size mod 8 = 0.
Proof.
  intros Hs Hnn Hb. unfold block_size in Hs. rewrite uadd_ok in Hs by (unfold in_u; lia). simpl in Hs.
  injection Hs as <-. change 7 with (2 ^ 3 - 1) at 2 4 6. rewrite land_wnot_low by (lia || unfold in_u; lia).
  change (2 ^ 3) with 8. Z.to_euclidean_division_equations. lia.
Qed.

(** ** Growing *)

Definition with_block L (p sz : Z) : Z → list (Z * Z) :=
  let j := Z.min (Z.log2 sz) 31 in upd L j ((p, sz) :: L j).

Lemma pow2_divides a n : 0 ≤ n ≤ 12 → a mod 4096 = 0 → a mod 2 ^ n = 0.
Proof.
  intros Hn Ha. apply Z.mod_divide; [lia|]. etrans; [|by apply Z.mod_divide; [|exact Ha]].
  exists (2 ^ (12 - n)). rewrite <-Z.pow_add_r by lia. by replace (12 - n + n) with 12 by lia.
Qed.

(** A block of whole pages fits any request that made it. *)
Lemma pages_fit (l : Layout) size p n :
  lalign l = 2 ^ n → 0 ≤ n ≤ 12 → p mod 4096 = 0 → size ≤ grown_size l → fits size (lalign l) (p, grown_size l).
Proof.
  intros Ha Hn Hp Hle. pose proof (Z.pow_pos_nonneg 2 n ltac:(lia) ltac:(lia)).
  pose proof (fits_aligned size (lalign l) p ltac:(lia) ltac:(rewrite Ha; by apply pow2_divides)) as Hf.
  unfold fits in *. simpl in *. lia.
Qed.

(** The search finds the new block: it heads its list, and nothing else fits. *)
Lemma new_block_taken L size align p sz p' L' :
  none_fits L size align → fits size align (p, sz) → size ≤ sz → 0 < size →
  taken (with_block L p sz) size align p' L' →
  p' = p ∧ L' = after_take (with_block L p sz) (Z.min (Z.log2 sz) 31) size [] p sz (L (Z.min (Z.log2 sz) 31)).
Proof.
  intros Hno Hfit Hle Hpos (i & pre & sz' & post & Hi & Hnone & HL & Hpre & Hf & ->).
  pose proof (Z.log2_le_mono size sz Hle). set (j := Z.min (Z.log2 sz) 31) in *.
  pose proof (list_index_range sz ltac:(lia)) as Hj. fold j in Hj.
  assert (with_block L p sz j = (p, sz) :: L j) as Hjl by (unfold with_block, upd; by rewrite Z.eqb_refl).
  assert (∀ k, k ≠ j → with_block L p sz k = L k) as Hk.
  { intros k Hne. unfold with_block, upd. fold j. by rewrite (proj2 (Z.eqb_neq k j)). }
  assert (i = j) as ->.
  { destruct (Z.lt_trichotomy i j) as [Hlt|[|Hgt]]; [|done|].
    - specialize (Hno i Hi). rewrite <-Hk, HL in Hno by lia. by apply Forall_app in Hno as [_ [? _]%Forall_cons].
    - specialize (Hnone j ltac:(lia)). rewrite Hjl in Hnone. by apply Forall_cons in Hnone as [? _]. }
  rewrite Hjl in HL. destruct pre as [|b pre]; simpl in HL; simplify_eq; [done|].
  by apply Forall_cons in Hpre as [? _].
Qed.

Lemma alloc_pages_for_heap_ok h size :
  0 ≤ size → size mod 4096 = 0 → size + 4095 < 2 ^ 64 →
  alloc_pages_for_heap h size = Ret (match alloc_pages (pages h) (size / 4096) with
    | (Some ptr, p) => (Some ptr, with_pages h (wrap 64 (pages_allocated h + size / 4096)) p)
    | (None, p) => (None, with_pages h (pages_allocated h) p)
    end).
Proof.
  intros Hnn Ha Hb. unfold alloc_pages_for_heap. rewrite uadd_ok by (unfold in_u; lia). simpl.
  rewrite Z.shiftr_div_pow2 by lia. change (2 ^ 12) with 4096.
  by replace ((size + 4095) / 4096) with (size / 4096) by (Z.to_euclidean_division_equations; lia).
Qed.

Lemma rep_same h h' L : heads h' = heads h → mem h' = mem h → rep h L → rep h' L.
Proof. intros Hh Hm []. split; rewrite ?Hh, ?Hm; done. Qed.

(** [alloc] turns to [expand_heap] when the lists have nothing. *)
Lemma alloc_expands fuel h L (l : Layout) size :
  rep h L → initialized h = true → block_size l = Ret size → request_ok L size (lalign l) →
  (∀ i, 0 ≤ i < 32 → (length (L i) ≤ fuel)%nat) → none_fits L size (lalign l) →
  alloc fuel h l = ('(r, h2) ← expand_heap fuel h l; Ret (default 0 r, h2)).
Proof.
  intros Hr Hini Hs Hq Hf Hno. unfold alloc. rewrite Hini, Hs. simpl.
  pose proof (try_alloc_ok fuel h L l size Hr Hs Hq Hf) as Ht.
  apply returns_iff in Ht as ([[p|] h1] & -> & Ht); [|by destruct Ht as [-> _]].
  exfalso. destruct Ht as (_ & _ & L' & (i & pre & sz & post & Hi & _ & HL & _ & Hfit & _) & _).
  specialize (Hno i Hi). rewrite HL in Hno. by apply Forall_app in Hno as [_ [? _]%Forall_cons].
Qed.

Lemma expand_heap_eq fuel h (l : Layout) :
  0 ≤ lsize l → 0 ≤ lalign l → Z.max (lsize l) (lalign l) + 8190 < 2 ^ 64 →
  let g := grown_size l in
  expand_heap fuel h l = match alloc_pages (pages h) (g / 4096) with
    | (Some ptr, pg) =>
        h2 ← insert (with_pages h (wrap 64 (pages_allocated h + g / 4096)) pg) ptr g;
        try_alloc_from_free_list fuel (with_total h2 (wrap 64 (total_bytes h2 + g))) l
    | (None, pg) => Ret (None, with_pages h (pages_allocated h) pg)
    end.
Proof.
  intros Hs Ha Hb g. destruct (grown_size_ok l ltac:(lia) ltac:(lia)) as (Hg & Hgr & Hg4). fold g in Hg, Hgr, Hg4.
  unfold expand_heap. destruct (uadd (Z.max (lsize l) (lalign l)) 4095) as [t| | |]; simpl in *; try done.
  injection Hg as ->. rewrite alloc_pages_for_heap_ok by lia. by destruct (alloc_pages _ _) as [[ptr|] pg].
Qed.

(** Allocation right after a block that fits was added, when nothing else fits. *)
Lemma alloc_new_block fuel h L (l : Layout) size p g :
  rep h (with_block L p g) → block_size l = Ret size → request_ok (with_block L p g) size (lalign l) →
  (∀ i, 0 ≤ i < 32 → (length (L i) < fuel)%nat) → none_fits L size (lalign l) →
  fits size (lalign l) (p, g) → size ≤ g →
  let j := Z.min (Z.log2 g) 31 in
  let L' := after_take (with_block L p g) j size [] p g (L j) in
  returns (try_alloc_from_free_list fuel h l) (λ '(r, h'), r = Some p ∧
    rep h' L' ∧ framed (with_block L p g) L' h h' ∧ used_bytes h' = wrap 64 (used_bytes h + size) ∧
    same_counters h (with_used h' (used_bytes h))).
Proof.
  intros Hr Hs Hq Hf Hno Hfit Hsg j L'. pose proof Hq as [[Hpos _] _ _ _]. eapply returns_mono.
  { apply (try_alloc_ok fuel _ (with_block L p g) l size); [done..|].
    intros i Hi. specialize (Hf i Hi). unfold with_block, upd. case_match eqn:Ei; simpl; [|lia].
    apply Z.eqb_eq in Ei. subst i. lia. }
  intros [[p'|] h'].
  - intros (Hu & Hc & L1 & Htk & Hr' & Hw).
    by destruct (new_block_taken L size (lalign l) p g p' L1 Hno) as [-> ->]; [done|done|lia|done|].
  - intros [_ Hnone]. exfalso. pose proof (Z.log2_le_mono size g Hsg). pose proof (list_index_range g ltac:(lia)).
    specialize (Hnone j ltac:(lia)). unfold with_block, upd in Hnone. fold j in Hnone. rewrite Z.eqb_refl in Hnone.
    by apply Forall_cons in Hnone as [? _].
Qed.
End lemmas.

(** C21: Growth, for alignments of at most a page.  When no free block fits, [alloc]
    asks the page source for the smallest number of whole pages that holds the
    request.  Refused, it returns null and the heap is as before.  Granted pages at
    [ptr], it returns [ptr], the free lists gain only the remainder of these pages,
    the counters of used bytes, total bytes and pages go up by the sizes of the block
    and of the pages, and memory outside the headers of free blocks is untouched.
    The heap is initialised, no size computation overflows, the request is one the
    search can handle before and after the pages are added ([request_ok]: power-of-two
    alignment, no overflow, and the place [24 * size] bytes behind a block that is
    split is no other free block's header), and granted pages are page-aligned and
    away from the headers of the free blocks. *)
Theorem alloc_grows {prof : Profile} `{!BlockLayout, !BlockLayoutLaws} {Pg : Type} `{!PageSource Pg}
    (fuel : nat) (h : Heap Pg) (L : Z → list (Z * Z)) (l : Layout) (size : Z) :
  rep h L → initialized h = true → block_size l = Ret size → request_ok L size (lalign l) →
  0 ≤ lsize l → lalign l ≤ 4096 → Z.max (lsize l) (lalign l) + 8190 < 2 ^ 64 →
  (∀ i, 0 ≤ i < 32 → (length (L i) < fuel)%nat) → none_fits L size (lalign l) →
  (∀ ptr pg, alloc_pages (pages h) (grown_size l / 4096) = (Some ptr, pg) →
    0 < ptr ∧ ptr mod 4096 = 0 ∧ (∀ j x, 0 ≤ j < 32 → x ∈ (L j).*1 → apart ptr x) ∧
    request_ok (with_block L ptr (grown_size l)) size (lalign l)) →
  match alloc_pages (pages h) (grown_size l / 4096) with
  | (None, pg) => alloc fuel h l = Ret (0, with_pages h (pages_allocated h) pg)
  | (Some ptr, pg) => returns (alloc fuel h l) (λ '(p, h'), p = ptr ∧
      let g := grown_size l in
      let j := Z.min (Z.log2 g) 31 in
      let L' := after_take (with_block L ptr g) j size [] ptr g (L j) in
      rep h' L' ∧ framed (with_block L ptr g) L' h h' ∧
      used_bytes h' = wrap 64 (used_bytes h + size) ∧ total_bytes h' = wrap 64 (total_bytes h + g) ∧
      pages_allocated h' = wrap 64 (pages_allocated h + g / 4096) ∧ pages h' = pg)
  end.
Proof.
  intros Hr Hini Hs Hq Hl0 Hl4 Hb Hf Hno Hsrc.
  pose proof Hq as [[Hpos _] (n & Hn & Ha) _ _]. pose proof (Z.pow_pos_nonneg 2 n ltac:(lia) ltac:(lia)).
  assert (n ≤ 12) as Hn12.
  { destruct (Z_le_gt_dec n 12); [done|]. pose proof (Z.pow_lt_mono_r 2 12 n). lia. }
  destruct (grown_size_ok l ltac:(lia) ltac:(lia)) as (_ & Hgr & Hg4).
  destruct (block_size_range l size Hs ltac:(lia) ltac:(lia)) as [Hsr Hs8].
  assert (size ≤ grown_size l) as Hsg by (Z.to_euclidean_division_equations; lia).
  rewrite (alloc_expands fuel h L l size), expand_heap_eq by (done || lia || intros i Hi; specialize (Hf i Hi); lia).
  destruct (alloc_pages (pages h) (grown_size l / 4096)) as [[ptr|] pg] eqn:E; [|done].
  destruct (Hsrc ptr pg eq_refl) as (Hp & Hp4 & Hap & Hq1). step1. step1. eapply returns_mono.
  { apply (insert_framed _ L); [by apply (rep_same h)|done| |lia|done].
    Z.to_euclidean_division_equations; lia. }
  intros h2 (Hr2 & (Ht2 & Hu2 & Hp2 & _ & Hpg2) & Hw2). fold (with_block L ptr (grown_size l)) in *.
  eapply returns_mono.
  { apply (alloc_new_block fuel _ L l size ptr (grown_size l)); [by apply (rep_same h2)|done..| |done].
    apply (pages_fit l size ptr n); (done || lia). }
  intros [r h3] (-> & Hr3 & Hw3 & Hu3 & Ht3 & _ & Hp3 & _ & Hpg3). simpl in *.
  split_and!; try done; try congruence. intros w Hw Hw'. etrans; [by apply Hw3|by apply Hw2].
Qed.

(** ** Moving a block *)

Section move.
Context {prof : Profile} `{!BlockLayout, !BlockLayoutLaws} {Pg : Type} `{!PageSource Pg}.
Implicit Types (h : Heap Pg) (L : Z → list (Z * Z)).

(** Free blocks are disjoint ranges that can hold a header, and the block of [e]
    bytes at [old] is outside of them; the place where the remainder of a split ends
    up is outside of it, too. *)
Record movable L (old e size : Z) : Prop := {
  mv_free j c sz : 0 ≤ j < 32 → (c, sz) ∈ L j → 24 ≤ sz ∧ (c + sz ≤ old ∨ old + e ≤ c);
  mv_disjoint j k c sz d sd : 0 ≤ j < 32 → 0 ≤ k < 32 → (c, sz) ∈ L j → (d, sd) ∈ L k → c ≠ d →
    c + sz ≤ d ∨ d + sd ≤ c;
  mv_rest j c sz : 0 ≤ j < 32 → (c, sz) ∈ L j → size + 32 < sz →
    c + 24 * size + 24 ≤ old ∨ old + e ≤ c + 24 * size
}.

Lemma rep_off h h' L :
  heads h' = heads h →
  (∀ j x o, 0 ≤ j < 32 → x ∈ (L j).*1 → o = 0 ∨ o = 8 ∨ o = 16 → mem h' (x + o) = mem h (x + o)) →
  rep h L → rep h' L.
Proof.
  intros Hh Hm [H1 H2 H3 H4]. pose proof offsets as (Hn & Hs & _). split; [by rewrite Hh|..|done|done].
  intros j Hj. destruct (H2 j Hj) as (a & Ha & Hseg). exists a. rewrite Hh. split; [done|].
  apply (seg_ext (mem h)); [|done]. intros b Hb. by split; apply (Hm j).
Qed.

(** Which blocks are free after one was taken. *)
Lemma taken_blocks h L size align p L' :
  rep h L → 0 < size → taken L size align p L' →
  ∃ i sz, 0 ≤ i < 32 ∧ (p, sz) ∈ L i ∧ fits size align (p, sz) ∧
    ∀ j x, 0 ≤ j < 32 → x ∈ (L' j).*1 →
      (∃ sx, (x, sx) ∈ L j ∧ x ≠ p) ∨ (x = p + 24 * size ∧ size + 32 < sz).
Proof.
  intros Hr Hs (i & pre & sz & post & Hi & _ & HL & _ & Hfit & ->).
  pose proof (list_index_range size Hs). assert (0 ≤ i < 32) as Hi' by lia.
  assert ((p, sz) ∈ L i) as Hin by (rewrite HL; set_solver).
  exists i, sz. split; [done|]. split; [done|]. split; [done|].
  assert (∀ j x, 0 ≤ j < 32 → x ∈ (upd L i (pre ++ post) j).*1 → ∃ sx, (x, sx) ∈ L j ∧ x ≠ p) as Hold.
  { intros j x Hj. unfold upd. destruct (Z.eqb_spec j i) as [->|Hne]; intros Hx.
    - pose proof (rep_nodup h L Hr i Hi') as Hd. rewrite HL, fmap_app in Hd. simpl in Hd.
      apply NoDup_app in Hd as (_ & Hd1 & [Hd2 _]%NoDup_cons).
      apply list_elem_of_fmap in Hx as ([y sy] & -> & Hy). exists sy. simpl.
      assert (y ∈ (pre ++ post).*1) as Hy1 by (by apply (list_elem_of_fmap_2 fst _ (y, sy))).
      split; [rewrite HL; set_solver|]. intros ->. rewrite fmap_app, elem_of_app in Hy1.
      destruct Hy1 as [Hy1|]; [|done]. apply (Hd1 p Hy1). set_solver.
    - apply list_elem_of_fmap in Hx as ([y sy] & -> & Hy). exists sy. split; [done|]. simpl. intros ->.
      assert (apart p p) as Hpp; [|unfold apart in Hpp; lia].
      apply (rep_apart h L Hr j i); [done|done|by apply (list_elem_of_fmap_2 fst _ _ Hy)|
        by apply (list_elem_of_fmap_2 fst _ _ Hin)|by left]. }
  intros j x Hj. unfold after_take. destruct (Z.ltb_spec (size + 32) sz) as [Hlt|_]; [|by left; apply Hold].
  unfold upd at 1. destruct (Z.eqb_spec j (Z.min (Z.log2 (sz - size)) 31)) as [->|]; [|by left; apply Hold].
  simpl. rewrite elem_of_cons. intros [->|Hx]; [by right|by left; apply Hold].
Qed.

(** Everything [realloc] needs to know about the places involved. *)
Lemma move_places h L old e size align n p L' :
  rep h L → request_ok L size align → movable L old e size → 24 ≤ e → n ≤ e → n ≤ size → taken L size align p L' →
  0 < p ∧ p mod 8 = 0 ∧ (p + n ≤ old ∨ old + e ≤ p) ∧
  (∀ w, old ≤ w < old + e → off_headers L w ∧ off_headers L' w) ∧
  (∀ j x, 0 ≤ j < 32 → x ∈ (L' j).*1 → apart old x) ∧
  (∀ w, p ≤ w < p + n → off_headers L' w).
Proof.
  intros Hr Hq [M1 M2 M3] He Hne Hns Htk. pose proof Hq as [[Hs _] (a & Ha & ->) Hb _].
  destruct (taken_blocks h L size _ p L' Hr ltac:(lia) Htk) as (i & sz & Hi & Hin & Hfit & HL').
  destruct (rep_seg h L Hr i Hi) as (hd & _ & Hseg).
  destruct (seg_aligned _ _ _ _ p Hseg) as [Hp Hp8]; [by apply (list_elem_of_fmap_2 fst _ _ Hin)|].
  assert (size ≤ sz) as Hsz.
  { destruct (Hb i p sz Hi Hin). destruct (pow2_align_up p a Ha Hp ltac:(lia)).
    unfold fits in Hfit. simpl in Hfit. lia. }
  destruct (M1 i p sz Hi Hin) as [H24 Hpo].
  split_and!; [done|done|lia|..].
  - intros w Hw. split.
    + intros j x o Hj Hx Ho. apply list_elem_of_fmap in Hx as ([y sy] & -> & Hy).
      destruct (M1 j y sy Hj Hy). simpl. lia.
    + intros j x o Hj Hx Ho. destruct (HL' j x Hj Hx) as [(sx & Hy & _)|[-> Hlt]].
      * destruct (M1 j x sx Hj Hy). lia.
      * destruct (M3 i p sz Hi Hin Hlt); lia.
  - intros j x Hj Hx. unfold apart. destruct (HL' j x Hj Hx) as [(sx & Hy & _)|[-> Hlt]].
    + destruct (M1 j x sx Hj Hy). lia.
    + destruct (M3 i p sz Hi Hin Hlt); lia.
  - intros w Hw j x o Hj Hx Ho. destruct (HL' j x Hj Hx) as [(sx & Hy & Hxp)|[-> Hlt]]; [|lia].
    destruct (M1 j x sx Hj Hy). destruct (M2 i j p sz x sx Hi Hj Hin Hy); [done|lia..].
Qed.

(** Bytes of an aligned range whose words did not change. *)
Lemma bytes_same (m m' : Z → Z) p n a :
  p mod 8 = 0 → p ≤ a < p + n → (∀ w, p ≤ w < p + n → m' w = m w) → byte_at m' a = byte_at m a.
Proof.
  intros Hp Ha Hm. unfold byte_at. rewrite Hm; [done|]. Z.to_euclidean_division_equations. lia.
Qed.

(** Copying to the block that was taken, and freeing the old one. *)
Lemma copy_free_ok h L1 (l : Layout) old p e n osize :
  rep h L1 → initialized h = true → block_size l = Ret osize → 0 < osize → lsize l = n → 24 ≤ e → n ≤ e →
  0 < old → old mod 8 = 0 → p mod 8 = 0 → p + n ≤ old ∨ old + e ≤ p →
  (∀ j x, 0 ≤ j < 32 → x ∈ (L1 j).*1 → apart old x) →
  (∀ w, p ≤ w < p + n → off_headers L1 w) →
  returns (h2 ← copy_nonoverlapping h old p n; dealloc h2 old l) (λ h',
    rep h' (with_block L1 old osize) ∧ used_bytes h' = wrap 64 (used_bytes h - osize) ∧
    ∀ i, 0 ≤ i < n → byte_at (mem h') (p + i) = byte_at (mem h) (old + i)).
Proof.
  intros Hr Hini Hos Hpos Hn He Hne Hold Hold8 Hp8 Hdis Hap Hoff. step1. eapply returns_mono.
  { apply copy_ok. unfold overlap. lia. }
  intros h2 (Hcopy & _ & Hw & Hh & (_ & Hu2 & _ & Hi2 & _)).
  assert (rep h2 L1) as Hr2.
  { apply (rep_off h); [done| |done]. intros j x o Hj Hx Ho. apply Hw. intros Hin.
    destruct (rep_seg h L1 Hr j Hj) as (a & _ & Hseg). destruct (seg_aligned _ _ _ _ x Hseg Hx) as [_ Hx8].
    apply (Hoff (x + o)) with (j := j) (x := x) (o := o); [|done..].
    Z.to_euclidean_division_equations. lia. }
  unfold dealloc. rewrite Hi2, Hini. simpl. rewrite Hos. simpl. eapply returns_mono.
  { apply (insert_framed _ L1); [by apply rep_with_used|done|done|done|done]. }
  intros h3 (Hr3 & (_ & Hu3 & _) & Hw3). fold (with_block L1 old osize) in *.
  split; [done|]. split; [by rewrite Hu3; simpl; rewrite Hu2|]. intros i Hi. rewrite <-Hcopy by done.
  apply (bytes_same _ _ p n); [done|lia|]. intros w Hwr. apply (Hw3 w). intros j x o Hj. unfold with_block, upd.
  destruct (Z.eqb_spec j (Z.min (Z.log2 osize) 31)) as [->|]; [|by apply Hoff].
  simpl. rewrite elem_of_cons. intros [->|Hx] Ho; [lia|]. by apply (Hoff w Hwr _ x o Hj).
Qed.
End move.

(** C20: [realloc] to a larger size returns, when the page source refuses in case no
    free block fits.  In that case the result is null, and memory, free lists and used
    bytes are what they were, so the old block is intact.  Otherwise the result is the
    start of the first free block that fits, its first bytes are those of the old
    block, and the old block is free.  The preconditions ask that the heap is
    initialised and no size computation overflows, that the request is one the search
    can handle ([request_ok]), that free blocks hold a header and are disjoint from
    each other and from the old block, and that the misplaced remainder of a split
    does not land in the old block ([movable]). *)
Theorem realloc_moves {prof : Profile} `{!BlockLayout, !BlockLayoutLaws} {Pg : Type} `{!PageSource Pg}
    (fuel : nat) (h : Heap Pg) (L : Z → list (Z * Z)) (old : Z) (l l' : Layout) (osize new_size size : Z) :
  rep h L → initialized h = true → (∀ i, 0 ≤ i < 32 → (length (L i) ≤ fuel)%nat) →
  0 ≤ lsize l < new_size → layout_from new_size (lalign l) = Ret l' →
  block_size l = Ret osize → block_size l' = Ret size → request_ok L size (lalign l) →
  0 < old → old mod 8 = 0 → new_size + 8190 < 2 ^ 64 → lalign l + 8190 < 2 ^ 64 →
  movable L old (Z.max 24 osize) size →
  (none_fits L size (lalign l) → ∃ pg, alloc_pages (pages h) (grown_size l' / 4096) = (None, pg)) →
  returns (realloc fuel h old l new_size) (λ '(p, h'),
    if decide (p = 0) then
      none_fits L size (lalign l) ∧ rep h' L ∧ mem h' = mem h ∧ used_bytes h' = used_bytes h
    else ∃ L', taken L size (lalign l) p L' ∧ rep h' (with_block L' old osize) ∧
      used_bytes h' = wrap 64 (wrap 64 (used_bytes h + size) - osize) ∧
      ∀ i, 0 ≤ i < lsize l → byte_at (mem h') (p + i) = byte_at (mem h) (old + i)).
Proof.
  intros Hr Hini Hf Hsz Hl' Hos Hs Hq Hold Hold8 Hb1 Hb2 Hmv Hsrc.
  pose proof Hq as [[Hspos _] (n & Hn & Ha) _ _]. pose proof (Z.pow_pos_nonneg 2 n ltac:(lia) ltac:(lia)).
  assert (l' = {| lsize := new_size; lalign := lalign l |}) as -> by
    (unfold layout_from in Hl'; case_match; [by injection Hl' as <-|done]).
  destruct (block_size_range l osize Hos ltac:(lia) ltac:(lia)) as [Hosr _].
  destruct (block_size_range _ size Hs ltac:(simpl; lia) ltac:(simpl; lia)) as [Hsr _]. simpl in Hsr.
  unfold realloc. rewrite Hl'. simpl. rewrite (proj2 (Z.leb_gt new_size (lsize l))) by lia. step1.
  pose proof (try_alloc_ok fuel h L {| lsize := new_size; lalign := lalign l |} size Hr Hs Hq Hf) as Ht. 
  apply returns_iff in Ht as ([[p|] h1] & Et & Ht).
  - unfold alloc. rewrite Hini, Hs. simpl. rewrite Et. simpl.
    destruct Ht as (Hu & (_ & _ & _ & Hi1 & _) & L1 & Htk & Hr1 & Hw1).
    destruct (move_places h L old (Z.max 24 osize) size (lalign l) (lsize l) p L1)
      as (Hp & Hp8 & Hdis & Hkeep & Hap & Hoff); [done|done|done|lia..|done|].
    rewrite (proj2 (Z.eqb_neq p 0)) by lia.
    assert (initialized h1 = true) as Hini1 by (simpl in Hi1; congruence).
    pose proof (copy_free_ok h1 L1 l old p (Z.max 24 osize) (lsize l) osize Hr1 Hini1 Hos ltac:(lia) eq_refl
      ltac:(lia) ltac:(lia) Hold Hold8 Hp8 Hdis Hap Hoff) as Hc.
    apply returns_bind_inv in Hc. step1. eapply returns_mono; [exact Hc|]. intros h2 Hc2. simpl in Hc2.
    step1. eapply returns_mono; [exact Hc2|]. intros h3 (Hr3 & Hu3 & Hbytes). simpl. rewrite decide_False by lia.
    exists L1. split; [done|]. split; [done|]. split; [by rewrite Hu3, Hu|]. intros i Hi. rewrite Hbytes by done.
    apply (bytes_same _ _ old (Z.max 24 osize)); [done|lia|]. intros w Hw. by apply Hw1; apply Hkeep.
  - destruct Ht as [_ Hno]. destruct (Hsrc Hno) as [pg Epg].
    rewrite (alloc_expands fuel h L _ size), expand_heap_eq by (done || simpl; lia).
    rewrite Epg. simpl. split; [done|]. split; [by apply (rep_same h)|done].
Qed.

(** ** Witnesses *)

(** An empty heap on a source that hands out pages from [0x100000] on. *)
#[local] Instance rising_pages : PageSource Z := λ p n, (Some p, p + 4096 * n).
Definition empty_heap : Heap Z := mkHeap (λ _, 0) (replicate 32 0) 0 0 0 true 0x100000.

Lemma empty_heap_rep : rep empty_heap (λ _, []).
Proof. by apply (rep_same (new 0x100000) empty_heap); [..|apply new_rep]. Qed.

Lemma empty_request : request_ok (λ _, []) 64 8.
Proof. split; [done|by exists 3|..]; intros i c sz _ Hx; by apply elem_of_nil in Hx. Qed.

Lemma page_request : request_ok (with_block (λ _, []) 0x100000 4096) 64 8.
Proof.
  assert (∀ j c sz, (c, sz) ∈ with_block (λ _, []) 0x100000 4096 j → c = 0x100000 ∧ sz = 4096) as Hin.
  { intros j c sz. unfold with_block, upd. case_match; [|by intros ?%elem_of_nil].
    rewrite list_elem_of_singleton. by intros [= -> ->]. }
  split; [done|by exists 3|..]; intros i c sz _ [-> ->]%Hin; [done|].
  intros _. split; [done|]. split; [done|]. intros j x _ ([y sy] & -> & [-> _]%Hin)%list_elem_of_fmap. done.
Qed.

Lemma alloc_grows_witness :
  returns (alloc (prof := dev) 1 empty_heap demo_layout) (λ '(p, h'), p = 0x100000 ∧ total_bytes h' = 4096).
Proof.
  assert (alloc_pages (pages empty_heap) (grown_size demo_layout / 4096) = (Some 0x100000, 0x101000)) as E
    by (vm_compute; reflexivity).
  pose proof (alloc_grows (prof := dev) 1 empty_heap (λ _, []) demo_layout 64 empty_heap_rep eq_refl eq_refl
    empty_request ltac:(done) ltac:(done) ltac:(done) ltac:(intros; simpl; lia)
    ltac:(intros i _; apply Forall_nil; exact I)) as H.
  rewrite E in H. eapply returns_mono; [apply H|].
  - intros ptr pg [= <- <-]. split; [done|]. split; [done|]. split; [|exact page_request].
    intros j x _ Hx. exfalso. simpl in Hx. by apply elem_of_nil in Hx.
  - intros [p h'] (-> & _ & _ & _ & Ht & _). split; [done|]. rewrite Ht. vm_compute. reflexivity.
Defined.

(** The block of 60 bytes at 131072 moves to the start of the free block. *)
Lemma demo_movable : movable demo_lists 131072 64 200.
Proof.
  split.
  - intros j c sz _. in_lists; [|done]. intros [[= -> ->]|[]]. lia.
  - intros j k c sz d sd _ _ Hc Hd. revert Hc Hd. in_lists; naive_solver.
  - intros j c sz _. in_lists; [|done]. intros [[= -> ->]|[]]. lia.
Qed.

Lemma demo_request_200 : request_ok demo_lists 200 8.
Proof.
  split; [done|by exists 3| |].
  - intros i c sz _. in_lists; naive_solver lia.
  - intros i c sz _. in_lists; [|done]. intros [[= -> ->]|[]] _. split; [done|]. split; [done|].
    intros j x _. in_lists; naive_solver.
Qed.

Lemma realloc_moves_witness :
  returns (realloc (prof := dev) 1 demo 131072 demo_layout 200) (λ '(p, h'),
    if decide (p = 0) then False else byte_at (mem h') (p + 59) = byte_at (mem demo) 131131).
Proof.
  eapply returns_mono.
  { apply (realloc_moves (prof := dev) 1 demo demo_lists 131072 demo_layout {| lsize := 200; lalign := 8 |} 64 200 200);
      [apply demo_rep|done|intros i _; in_lists; simpl; lia|done|done|done|done|apply demo_request_200|done|done|
       done|done|apply demo_movable|]. by exists (). }
  intros [p h']. destruct (decide (p = 0)).
  - intros [Hno _]. specialize (Hno 28 ltac:(vm_compute; split; congruence)).
    apply Forall_cons in Hno as [Hno _]. apply Hno. by vm_compute.
  - intros (L' & _ & _ & _ & Hb). exact (Hb 59 ltac:(simpl; lia)).
Defined.
