(* ===== verification/Vmm.v ===== *)
(** * The user virtual memory manager (src/memory/virtual.rs)

    A [VirtualMemoryManager] owns a tree of page tables in physical memory.  The
    model keeps physical memory as 64-bit words by address, because tables, the
    pages they map and the frames the page source hands out are all parts of it;
    memory as user code sees it is a separate array of bytes.  The type
    [PageEntry] is imported by the source but not part of it: its methods are a
    parameter, and so is the page source. *)

From S2P Require Import Prelude.
Open Scope Z_scope.

Definition USER_SPACE_BASE : Z := 0x100000.
Definition USER_SPACE_END : Z := 0x0000800000000000.
Definition KERNEL_SPACE_START : Z := 0xFFFF800000000000.

Inductive VmmError := OutOfMemory | InvalidAddress | AccessDenied | RangeOverlap.
#[export] Instance VmmError_eq_dec : EqDecision VmmError.
Proof. solve_decision. Defined.

(** The methods of [PageEntry], on the word an entry is. *)
Class PageEntry := {
  is_unused : Z → bool;
  entry_addr : Z → Z;
  entry_flags : Z → Z;
  entry_set : Z → Z → Z → Z;
  set_unused : Z → Z;
  update_flags : Z → Z → Z
}.

(** The fields of the struct. *)
Record VirtualMemoryManager := mkVmm {
  pml4 : Z;
  pid : Z;
  page_count : Z;
  cow_enabled : bool;
  heap_start : Z;
  heap_end : Z;
  brk : Z
}.

(** A manager with the machine it works on: physical words, user-visible bytes,
    the page source, and the register [cr3]. *)
Record Space (Pg : Type) := mkSpace {
  mgr : VirtualMemoryManager;
  phys : Z → Z;
  user : Z → Z;
  source : Pg;
  cr3 : Z
}.
Arguments mkSpace {Pg}.
Arguments mgr {Pg}.
Arguments phys {Pg}.
Arguments user {Pg}.
Arguments source {Pg}.
Arguments cr3 {Pg}.

(** The fallible methods: a [Result] and the new state. *)
Definition VM (Pg A : Type) : Type := EST (Space Pg) VmmError A.

(** [(size + 0xFFF) / 0x1000]. *)
Definition page_total {prof : Profile} (size : Z) : outcome Z :=
  t ← uadd size 0xFFF; Ret (t / 0x1000).

(** [VirtAddr(start.0 + (i as u64) * 0x1000)]. *)
Definition nth_page {prof : Profile} (start i : Z) : outcome Z :=
  o ← umul i 0x1000; uadd start o.

Section vmm.
Context {prof : Profile} `{!PageEntry} {Pg : Type} `{!PageSource Pg}.
Implicit Types (s : Space Pg).

Definition with_mgr s v : Space Pg := mkSpace v (phys s) (user s) (source s) (cr3 s).
Definition with_phys s m : Space Pg := mkSpace (mgr s) m (user s) (source s) (cr3 s).
Definition with_user s m : Space Pg := mkSpace (mgr s) (phys s) m (source s) (cr3 s).
Definition with_source s p : Space Pg := mkSpace (mgr s) (phys s) (user s) p (cr3 s).

Definition set_count (v : VirtualMemoryManager) n : VirtualMemoryManager :=
  mkVmm (pml4 v) (pid v) n (cow_enabled v) (heap_start v) (heap_end v) (brk v).
Definition set_cow (v : VirtualMemoryManager) b : VirtualMemoryManager :=
  mkVmm (pml4 v) (pid v) (page_count v) b (heap_start v) (heap_end v) (brk v).
Definition put_brk (v : VirtualMemoryManager) b : VirtualMemoryManager :=
  mkVmm (pml4 v) (pid v) (page_count v) (cow_enabled v) (heap_start v) (heap_end v) b.

(** [self.page_count.fetch_add(n)], wrapping. *)
Definition count_add s (n : Z) : Space Pg :=
  with_mgr s (set_count (mgr s) (wrap 64 (page_count (mgr s) + n))).

(** ** Physical memory *)

(** The entry [entries[i]] of the table at [t]. *)
Definition read_entry s (t i : Z) : outcome Z :=
  if t mod 0x1000 =? 0 then Ret (phys s (t + 8 * i)) else Undef.
Definition write_entry s (t i e : Z) : outcome (Space Pg) :=
  if t mod 0x1000 =? 0
  then Ret (with_phys s (λ a, if a =? t + 8 * i then e else phys s a)) else Undef.

(** [ptr::write_bytes(p, 0, 1)] on a table, and [copy_nonoverlapping] of a page. *)
Definition zero_page s (p : Z) : Space Pg :=
  with_phys s (λ a, if (p <=? a) && (a <? p + 0x1000) then 0 else phys s a).
Definition copy_page s (src dst : Z) : Space Pg :=
  with_phys s (λ a, if (dst <=? a) && (a <? dst + 0x1000) then phys s (a - dst + src) else phys s a).

(** [alloc_pages(n).ok_or(VmmError::OutOfMemory)?]. *)
Definition take_pages (n : Z) : VM Pg Z := λ s,
  match alloc_pages (source s) n with
  | (Some a, p) => Ret (inr a, with_source s p)
  | (None, p) => Ret (inl OutOfMemory, with_source s p)
  end.

Definition pml4_index (virt : Z) : Z := Z.land (Z.shiftr virt 39) 0x1FF.
Definition pdpt_index (virt : Z) : Z := Z.land (Z.shiftr virt 30) 0x1FF.
Definition pd_index (virt : Z) : Z := Z.land (Z.shiftr virt 21) 0x1FF.
Definition pt_index (virt : Z) : Z := Z.land (Z.shiftr virt 12) 0x1FF.

(** ** Construction *)

Definition manager_at (p : Z) (id : Z) : VirtualMemoryManager :=
  let heap_start := USER_SPACE_BASE + 0x1000000 in
  mkVmm p id 0 true heap_start (heap_start + 0x10000000) heap_start.

(** [alloc_pages(1).unwrap()] panics when there is no frame. *)
Definition with_pid s (id : Z) : outcome (Space Pg) :=
  match alloc_pages (source s) 1 with
  | (Some p, src) => Ret (with_mgr (zero_page (with_source s src) p) (manager_at p id))
  | (None, _) => Panic
  end.
Definition new s : outcome (Space Pg) := with_pid s 0.

Definition switch_to s : Space Pg :=
  mkSpace (mgr s) (phys s) (user s) (source s) (pml4 (mgr s)).
Definition get_current_pml4 s : Z := pml4 (mgr s).

(** ** Mapping *)

Local Open Scope es_scope.

(** One level of [map_page]: the table behind entry [i] of table [t], from the
    page source when the entry is unused. *)
Definition descend_alloc (t i : Z) : VM Pg Z :=
  e <- es_read (λ s, read_entry s t i);;
  if is_unused e then
    frame <- take_pages 1;;
    es_update (λ s, write_entry s t i (entry_set e frame 0x03));;;
    es_update (λ s, Ret (count_add s 1));;;
    es_ret (entry_addr (entry_set e frame 0x03))
  else es_ret (entry_addr e).

Definition map_page (virt ph flags : Z) : VM Pg () :=
  t4 <- es_read (λ s, Ret (pml4 (mgr s)));;
  pdpt <- descend_alloc t4 (pml4_index virt);;
  pd <- descend_alloc pdpt (pdpt_index virt);;
  pt <- descend_alloc pd (pd_index virt);;
  e <- es_read (λ s, read_entry s pt (pt_index virt));;
  es_update (λ s, write_entry s pt (pt_index virt) (entry_set e ph flags));;;
  es_update (λ s, Ret (count_add s 1)).

(** [map_kernel_page] has the same body. *)
Definition map_kernel_page (virt ph flags : Z) : VM Pg () := map_page virt ph flags.

(** The descent of the methods that do not allocate: the page table, or [None]
    when an entry above it is unused. *)
Definition walk s (virt : Z) : outcome (option Z) :=
  (e4 ← read_entry s (pml4 (mgr s)) (pml4_index virt);
   if is_unused e4 then Ret None else
   e3 ← read_entry s (entry_addr e4) (pdpt_index virt);
   if is_unused e3 then Ret None else
   e2 ← read_entry s (entry_addr e3) (pd_index virt);
   if is_unused e2 then Ret None else Ret (Some (entry_addr e2)))%stdpp.

Definition unmap_page (virt : Z) : VM Pg () :=
  o <- es_read (λ s, walk s virt);;
  match o with
  | None => es_throw InvalidAddress
  | Some pt =>
      e <- es_read (λ s, read_entry s pt (pt_index virt));;
      if is_unused e then es_ret ()
      else
        es_update (λ s, write_entry s pt (pt_index virt) (set_unused e));;;
        es_update (λ s, Ret (count_add s (-1)))
  end.

Definition translate s (virt : Z) : outcome (option Z) :=
  (o ← walk s virt;
   match o with
   | None => Ret None
   | Some pt =>
       e ← read_entry s pt (pt_index virt);
       Ret (if is_unused e then None else Some (entry_addr e))
   end)%stdpp.
Definition get_page_info s (virt : Z) : outcome (option Z) := translate s virt.

Definition map_range (start size phys_start flags : Z) : VM Pg () :=
  pages <- es_read (λ _, page_total size);;
  es_for 0 pages (λ i,
    vaddr <- es_read (λ _, nth_page start i);;
    paddr <- es_read (λ _, nth_page phys_start i);;
    map_page vaddr paddr flags).

Definition unmap_range (start size : Z) : VM Pg () :=
  pages <- es_read (λ _, page_total size);;
  es_for 0 pages (λ i, vaddr <- es_read (λ _, nth_page start i);; unmap_page vaddr).
Definition munmap (addr length : Z) : VM Pg () := unmap_range addr length.

(** ** Copy on write and page faults *)

Definition is_cow_page s (addr : Z) : outcome bool :=
  (if negb (cow_enabled (mgr s)) then Ret false else
   o ← walk s addr;
   match o with
   | None => Ret false
   | Some pt =>
       e ← read_entry s pt (pt_index addr);
       Ret (negb (Z.land (entry_flags e) 0x20 =? 0))
   end)%stdpp.

Definition mark_page_cow s (addr : Z) : outcome (Space Pg) :=
  (o ← walk s addr;
   match o with
   | None => Ret s
   | Some pt =>
       e ← read_entry s pt (pt_index addr);
       if is_unused e then Ret s
       else write_entry s pt (pt_index addr)
              (update_flags e (Z.lor (Z.land (entry_flags e) (wnot 64 0x01)) 0x20))
   end)%stdpp.

Definition handle_cow_fault (addr : Z) : VM Pg () :=
  frame <- take_pages 1;;
  o <- es_read (λ s, translate s addr);;
  match o with
  | None => es_throw InvalidAddress
  | Some old_phys =>
      map_page addr frame 0x07;;;
      es_update (λ s, Ret (copy_page s old_phys frame))
  end.

Definition handle_page_fault (addr error_code : Z) : VM Pg () :=
  let vaddr := Z.land addr (wnot 64 0xFFF) in
  if Z.land error_code 0x01 =? 0 then
    frame <- take_pages 1;;
    map_page vaddr frame 0x03
  else
    cow <- es_read (λ s, if negb (Z.land error_code 0x02 =? 0) then is_cow_page s vaddr else Ret false);;
    if (cow : bool) then handle_cow_fault vaddr else es_throw AccessDenied.

Definition enable_cow s : Space Pg := with_mgr s (set_cow (mgr s) true).
Definition disable_cow s : Space Pg := with_mgr s (set_cow (mgr s) false).
Definition get_used_pages s : Z := page_count (mgr s).
Definition get_memory_usage s : outcome Z := umul (page_count (mgr s)) 0x1000.

(** ** User memory *)

Definition validate_user_range (start len : Z) : outcome bool :=
  (e ← uadd start len;
   Ret (if (USER_SPACE_END <=? e) || (USER_SPACE_END <=? start) then false
        else negb (start <? USER_SPACE_BASE)))%stdpp.

(** The bytes of [l] at address [a], and [n] bytes read from [a]. *)
Definition poke_bytes (m : Z → Z) (a : Z) (l : list Z) : Z → Z := λ b,
  match l !! Z.to_nat (b - a) with
  | Some v => if a <=? b then v else m b
  | None => m b
  end.
Definition peek_bytes (m : Z → Z) (a : Z) (n : nat) : list Z :=
  (λ i, m (a + Z.of_nat i)) <$> seq 0 n.

Definition copy_to_user (dest : Z) (src : list Z) : VM Pg () :=
  ok <- es_read (λ _, validate_user_range dest (Z.of_nat (length src)));;
  if negb ok then es_throw AccessDenied
  else es_update (λ s, Ret (with_user s (poke_bytes (user s) dest src))).

(** The new contents of [dest]. *)
Definition copy_from_user (dest : list Z) (src : Z) : VM Pg (list Z) :=
  ok <- es_read (λ _, validate_user_range src (Z.of_nat (length dest)));;
  if negb ok then es_throw AccessDenied
  else es_read (λ s, Ret (peek_bytes (user s) src (length dest))).

Definition buf_set (buf : list Z) (i v : Z) : outcome (list Z) :=
  match buf !! Z.to_nat i with Some _ => Ret (<[Z.to_nat i := v]> buf) | None => Panic end.

(** The loop stops at a zero byte, at the end of the buffer or with an error; the
    buffer is written on the way. *)
Definition copy_string_from_user s (buf : list Z) (src : Z) :
    outcome ((VmmError + Z) * list Z) :=
  (ok ← validate_user_range src 1;
   if negb ok then Ret (inl AccessDenied, buf) else
   limit ← usub (Z.of_nat (length buf)) 1;
   fl ← for_range 0 limit (λ copied buf,
     a ← uadd src copied;
     ok ← validate_user_range a 1;
     if negb ok then Ret (Done (None, buf)) else
     let byte := user s a in
     buf1 ← buf_set buf copied byte;
     Ret (if byte =? 0 then Done (Some copied, buf1) else Next buf1)) buf;
   match fl with
   | Done (None, b) => Ret (inl AccessDenied, b)
   | Done (Some n, b) => b1 ← buf_set b n 0; Ret (inr n, b1)
   | Next b => b1 ← buf_set b limit 0; Ret (inr limit, b1)
   end)%stdpp.

Definition verify_access s (addr size : Z) (_write : bool) : outcome bool :=
  (ok ← validate_user_range addr size;
   if negb ok then Ret false else
   fl ← for_range 0 size (λ i _,
     a ← uadd addr i;
     o ← translate s a;
     Ret (match o with None => Done () | Some _ => Next () end)) ();
   Ret (match fl with Next _ => true | Done _ => false end))%stdpp.

(** ** Address ranges *)

(** One round of the search: the inner loop over the pages of the candidate. *)
Definition range_is_free s (base count : Z) : outcome bool :=
  (fl ← for_range 0 count (λ i _,
     v ← nth_page base i;
     o ← translate s v;
     Ret (match o with Some _ => Done () | None => Next () end)) ();
   Ret (match fl with Next _ => true | Done _ => false end))%stdpp.

Definition search_round s (count base : Z) : outcome (flow (VmmError + Z) Z) :=
  (if USER_SPACE_END <=? base then Ret (Done (inl OutOfMemory)) else
   found ← range_is_free s base count;
   if (found : bool) then Ret (Done (inr base)) else
   b ← uadd base 0x1000;
   Ret (Next (Z.land b (wnot 64 0xFFF))))%stdpp.

(** One round per page of user space and one to notice its end. *)
Definition search_rounds : positive := 34359738113.

Definition find_free_virtual_range s (count : Z) : outcome (VmmError + Z) :=
  (fl ← iter_pos search_rounds (search_round s count) USER_SPACE_BASE;
   match fl with Done r => Ret r | Next _ => Diverge end)%stdpp.

Definition vm_find (count : Z) : VM Pg Z := λ s,
  (r ← find_free_virtual_range s count; Ret (r, s))%stdpp.

Definition allocate_user_pages (count flags : Z) : VM Pg Z :=
  frames <- take_pages count;;
  start_vaddr <- vm_find count;;
  es_for 0 count (λ i,
    vaddr <- es_read (λ _, nth_page start_vaddr i);;
    paddr <- es_read (λ _, nth_page frames i);;
    map_page vaddr paddr flags);;;
  es_ret start_vaddr.

(** The loop both branches of [mmap] end with: a fresh frame for every page. *)
Definition map_fresh (start pages prot : Z) : VM Pg () :=
  es_for 0 pages (λ i,
    vaddr <- es_read (λ _, nth_page start i);;
    frame <- take_pages 1;;
    map_page vaddr frame prot).

Definition mmap (addr length prot flags : Z) : VM Pg Z :=
  pages <- es_read (λ _, page_total length);;
  if negb (addr =? 0) then
    ok <- es_read (λ _, validate_user_range addr length);;
    if negb ok then es_throw InvalidAddress
    else map_fresh addr pages prot;;; es_ret addr
  else
    mapped_addr <- vm_find pages;;
    map_fresh mapped_addr pages prot;;; es_ret mapped_addr.

Definition protect_page s (vaddr flags : Z) : outcome (Space Pg) :=
  (o ← walk s vaddr;
   match o with
   | None => Ret s
   | Some pt =>
       e ← read_entry s pt (pt_index vaddr);
       if is_unused e then Ret s else write_entry s pt (pt_index vaddr) (update_flags e flags)
   end)%stdpp.

(** The result is always [Ok(())]. *)
Definition protect_memory s (start size flags : Z) : outcome (Space Pg) :=
  (pages ← page_total size;
   for_each 0 pages (λ i s, vaddr ← nth_page start i; protect_page s vaddr flags) s)%stdpp.

Definition set_brk (addr : Z) : VM Pg Z := λ s,
  if (addr <? heap_start (mgr s)) || (heap_end (mgr s) <? addr)
  then Ret (inl InvalidAddress, s)
  else Ret (inr addr, with_mgr s (put_brk (mgr s) addr)).
Definition get_brk s : Z := brk (mgr s).

(** ** Cloning an address space *)

(** A new zeroed table behind entry [i] of the copy [new_t] of a table. *)
Definition clone_table (new_t i : Z) : VM Pg Z :=
  frame <- take_pages 1;;
  es_update (λ s, Ret (zero_page s frame));;;
  e <- es_read (λ s, read_entry s new_t i);;
  es_update (λ s, write_entry s new_t i (entry_set e frame 0x03));;;
  es_ret frame.

(** [for i in 0..512] over the used entries of the table at [old]. *)
Definition for_used (old : Z) (body : Z → Z → VM Pg ()) : VM Pg () :=
  es_for 0 512 (λ i,
    e <- es_read (λ s, read_entry s old i);;
    if negb (is_unused e) && negb (entry_addr e =? 0) then body i e else es_ret ()).

(** [clone_pt] finds the table it copies through entry 0 of the PML4 and entry 0
    of the table behind it; the flags are read after [mark_page_cow]. *)
Definition clone_pt (pd_idx new_pt : Z) : VM Pg () :=
  e4 <- es_read (λ s, read_entry s (pml4 (mgr s)) 0);;
  e3 <- es_read (λ s, read_entry s (entry_addr e4) 0);;
  e2 <- es_read (λ s, read_entry s (entry_addr e3) pd_idx);;
  for_used (entry_addr e2) (λ i e,
    es_update (λ s, mark_page_cow s (Z.lor (Z.shiftl pd_idx 21) (Z.shiftl i 12)));;;
    e' <- es_read (λ s, read_entry s (entry_addr e2) i);;
    n <- es_read (λ s, read_entry s new_pt i);;
    es_update (λ s, write_entry s new_pt i
      (entry_set n (entry_addr e) (Z.land (entry_flags e') (wnot 64 0x01))))).

Definition clone_pd (pdpt_idx new_pd : Z) : VM Pg () :=
  e4 <- es_read (λ s, read_entry s (pml4 (mgr s)) 0);;
  e3 <- es_read (λ s, read_entry s (entry_addr e4) pdpt_idx);;
  for_used (entry_addr e3) (λ i _, new_pt <- clone_table new_pd i;; clone_pt i new_pt).

Definition clone_pdpt (pml4_idx new_pdpt : Z) : VM Pg () :=
  e4 <- es_read (λ s, read_entry s (pml4 (mgr s)) pml4_idx);;
  for_used (entry_addr e4) (λ i _, new_pd <- clone_table new_pdpt i;; clone_pd i new_pd).

Definition clone_tables_recursive (level new_pml4 : Z) : VM Pg () :=
  if level =? 0 then
    t4 <- es_read (λ s, Ret (pml4 (mgr s)));;
    for_used t4 (λ i _, new_pdpt <- clone_table new_pml4 i;; clone_pdpt i new_pdpt)
  else es_ret ().

(** The new manager; the old one stays the current one of the state. *)
Definition clone_address_space : VM Pg VirtualMemoryManager :=
  new_pml4 <- take_pages 1;;
  es_update (λ s, Ret (zero_page s new_pml4));;;
  v <- es_read (λ s, Ret (mgr s));;
  clone_tables_recursive 0 new_pml4;;;
  es_ret (mkVmm new_pml4 (pid v) 0 (cow_enabled v) (heap_start v) (heap_end v) (brk v)).
End vmm.

Definition align_down {prof : Profile} (a align : Z) : outcome Z :=
  m ← usub align 1; Ret (Z.land a (wnot 64 m)).
Definition align_up {prof : Profile} (a align : Z) : outcome Z :=
  t ← uadd a align; t ← usub t 1; m ← usub align 1; Ret (Z.land t (wnot 64 m)).
