(* ===== verification/VmmSpec.v ===== *)
(** * What the user page tables guarantee

    The specification of [Vmm]: what is relied on from page entries and from the
    page source, paths through the tables, the invariant that the tables form a
    tree apart from the free frames, and the address space a tree represents. *)

From S2P Require Import Prelude PageIndex Vmm.
Open Scope Z_scope.

(** ** What the parameters promise *)

(** Page entries hold a frame address and 12 bits of flags; the zero word and a
    cleared entry are unused. *)
Class PageEntryLaws `{!PageEntry} := {
  zero_unused : is_unused 0 = true;
  set_unused_unused e : is_unused (set_unused e) = true;
  entry_addr_aligned e : entry_addr e mod 0x1000 = 0;
  entry_set_ok e p f : p mod 0x1000 = 0 → 0 ≤ p < 2 ^ 52 → 0 < f < 0x1000 →
    is_unused (entry_set e p f) = false ∧ entry_addr (entry_set e p f) = p ∧
    entry_flags (entry_set e p f) = f;
  update_flags_ok e f : is_unused e = false → 0 < f < 0x1000 →
    is_unused (update_flags e f) = false ∧ entry_addr (update_flags e f) = entry_addr e ∧
    entry_flags (update_flags e f) = f
}.

(** The page source hands out free frames, which then are not free any more. *)
Class PageSourceLaws (Pg : Type) `{!PageSource Pg} := {
  pg_free : Pg → Z → Prop;
  pg_free_frame pg a : pg_free pg a → a mod 0x1000 = 0 ∧ 0 < a < 2 ^ 52;
  alloc_some pg n a pg' : 0 < n → alloc_pages pg n = (Some a, pg') →
    (∀ i, 0 ≤ i < n → pg_free pg (a + 0x1000 * i)) ∧
    ∀ b, pg_free pg' b ↔ pg_free pg b ∧ ∀ i, 0 ≤ i < n → b ≠ a + 0x1000 * i;
  alloc_none pg n pg' : alloc_pages pg n = (None, pg') → ∀ b, pg_free pg' b ↔ pg_free pg b
}.

(** ** Paths *)

Section paths.
Context `{!PageEntry}.
Implicit Types (m : Z → Z) (p q : list Z).

(** The table reached from [t] through the entries with indices [p]. *)
Fixpoint path m (t : Z) p : option Z :=
  match p with
  | [] => Some t
  | i :: p' => let e := m (t + 8 * i) in if is_unused e then None else path m (entry_addr e) p'
  end.

(** The indices of a table above the page's contents. *)
Definition valid p : Prop := Forall (λ i, 0 ≤ i < 512) p ∧ (length p ≤ 3)%nat.

Definition upd m (a v : Z) : Z → Z := λ b, if b =? a then v else m b.

Lemma path_app m t p q : path m t (p ++ q) = path m t p ≫= λ a, path m a q.
Proof. revert t. induction p as [|i p IH]; intros t; simpl; [done|]. by case_match. Qed.

Lemma path_snoc m t p i :
  path m t (p ++ [i]) =
  path m t p ≫= λ a, if is_unused (m (a + 8 * i)) then None else Some (entry_addr (m (a + 8 * i))).
Proof. rewrite path_app. by destruct (path m t p). Qed.

(** A path does not notice changes to words it does not read. *)
Lemma path_ext m m' t q :
  (∀ q' j r a, q = q' ++ j :: r → path m t q' = Some a → m' (a + 8 * j) = m (a + 8 * j)) →
  path m' t q = path m t q.
Proof.
  revert t. induction q as [|i q IH]; intros t Hm; [done|]. simpl.
  rewrite (Hm [] i q t eq_refl eq_refl).
  destruct (is_unused (m (t + 8 * i))) eqn:E; [done|]. apply IH.
  intros q' j r a -> Ha. apply (Hm (i :: q') j r a); [done|]. simpl. by rewrite E.
Qed.

Lemma valid_app_l p q : valid (p ++ q) → valid p.
Proof. unfold valid. rewrite Forall_app, length_app. intros [[? _] ?]. split; [done|lia]. Qed.

Lemma valid_snoc p i : valid p → (length p ≤ 2)%nat → 0 ≤ i < 512 → valid (p ++ [i]).
Proof.
  unfold valid. rewrite Forall_app, length_app. intros [Hp Hl] Hlen Hi. simpl.
  split; [|lia]. split; [done|]. by apply Forall_singleton.
Qed.

(** Words of page-aligned tables. *)
Lemma word_inj t t' i j :
  t mod 0x1000 = 0 → t' mod 0x1000 = 0 → 0 ≤ i < 512 → 0 ≤ j < 512 →
  t + 8 * i = t' + 8 * j → t = t' ∧ i = j.
Proof. intros. Z.to_euclidean_division_equations. lia. Qed.
End paths.

(** ** The invariant *)

Section inv.
Context `{!PageEntry, !PageEntryLaws}.
Implicit Types (m : Z → Z) (p q : list Z) (free : Z → Prop).

(** No two paths lead to the same table, no table is a free frame, and free
    frames hold unused entries only.  The last is a condition on the machine, not
    something the code establishes: [map_page] uses a frame as a table as it comes
    (virtual.rs:90), and on a frame with other contents it maps pages nobody asked for
    ([dirty_table_maps_neighbour] of VmmTheorems.v).  The operations keep it, since they
    write to taken frames only and release none. *)
Record tables_ok m (root : Z) free : Prop := {
  ok_root : root mod 0x1000 = 0;
  ok_inj p q a : valid p → valid q → path m root p = Some a → path m root q = Some a → p = q;
  ok_free p a : valid p → path m root p = Some a → ¬ free a;
  ok_frame a : free a → a mod 0x1000 = 0 ∧ 0 < a < 2 ^ 52;
  ok_blank a i : free a → 0 ≤ i < 512 → is_unused (m (a + 8 * i)) = true
}.

Lemma path_aligned m root free p a :
  tables_ok m root free → path m root p = Some a → a mod 0x1000 = 0.
Proof.
  intros Hok. destruct p as [|i p _] using rev_ind; [intros [= <-]; apply Hok|].
  rewrite path_snoc. destruct (path m root p); simpl; [|done].
  case_match; [done|]. intros [= <-]. apply entry_addr_aligned.
Qed.

(** The entry that translates [v]. *)
Definition mapping m (root v : Z) : option Z :=
  path m root [idx 4 v; idx 3 v; idx 2 v] ≫= λ pt,
  let e := m (pt + 8 * idx 1 v) in if is_unused e then None else Some e.

Lemma valid_page v : valid [idx 4 v; idx 3 v; idx 2 v].
Proof. split; [|simpl; lia]. repeat (apply Forall_cons; split; [apply idx_range|]). by apply Forall_nil. Qed.

(** *** Writing an entry of the last level *)

Section leaf_write.
Context (m : Z → Z) (root : Z) (free : Z → Prop) (p : list Z) (t i e : Z).
Context (Hok : tables_ok m root free) (Hp : valid p) (Hlen : length p = 3%nat).
Context (Ht : path m root p = Some t) (Hi : 0 ≤ i < 512).

Lemma leaf_write_path q : valid q → path (upd m (t + 8 * i) e) root q = path m root q.
Proof.
  intros Hq. apply path_ext. intros q' j r a -> Ha. unfold upd.
  destruct (Z.eqb_spec (a + 8 * j) (t + 8 * i)) as [Heq|]; [exfalso|done].
  assert (valid q') as Hq' by by eapply valid_app_l.
  assert (0 ≤ j < 512) as Hj by (destruct Hq as [Hq _]; by apply Forall_app in Hq as [_ [? _]%Forall_cons]).
  apply word_inj in Heq as [-> ->]; [|by eapply path_aligned|by eapply path_aligned|done..].
  rewrite (ok_inj _ _ _ Hok q' p t) in Hq by done.
  destruct Hq as [_ Hq]. rewrite length_app in Hq. simpl in Hq. lia.
Qed.

Lemma leaf_write_ok : tables_ok (upd m (t + 8 * i) e) root free.
Proof.
  pose proof Hok as [H1 H2 H3 H4 H5]. split; [done| | |done|].
  - intros q q' a Hq Hq'. rewrite !leaf_write_path by done. by apply H2.
  - intros q a Hq. rewrite leaf_write_path by done. by apply H3.
  - intros a j Ha Hj. unfold upd. destruct (Z.eqb_spec (a + 8 * j) (t + 8 * i)) as [Heq|]; [exfalso|auto].
    apply word_inj in Heq as [-> _]; [|apply (H4 a Ha)|by eapply path_aligned|done..].
    by apply (H3 p t).
Qed.

Lemma vmm_leaf_write_mapping v :
  p = [idx 4 v; idx 3 v; idx 2 v] → i = idx 1 v →
  ∀ v', mapping (upd m (t + 8 * i) e) root v' =
    if decide (page_of v' = page_of v) then (if is_unused e then None else Some e)
    else mapping m root v'.
Proof.
  intros Ep Ei v'. unfold mapping. rewrite leaf_write_path by apply valid_page.
  case_decide as Hpage.
  - rewrite page_of_idx in Hpage. rewrite !Hpage, <-Ep, Ht by lia. simpl. unfold upd.
    by rewrite <-Ei, Z.eqb_refl.
  - destruct (path m root [idx 4 v'; idx 3 v'; idx 2 v']) as [t'|] eqn:Et; [simpl|done].
    unfold upd. destruct (Z.eqb_spec (t' + 8 * idx 1 v') (t + 8 * i)) as [Heq|]; [exfalso|done].
    apply word_inj in Heq as [-> Hj]; [|by eapply path_aligned|by eapply path_aligned|apply idx_range|done].
    apply Hpage, page_of_idx. intros k Hk.
    pose proof (ok_inj _ _ _ Hok _ _ _ (valid_page v') Hp Et Ht) as Hpp. rewrite Ep in Hpp.
    injection Hpp as H4 H3 H2.
    assert (k = 1 ∨ k = 2 ∨ k = 3 ∨ k = 4)%nat as [->|[->|[->| ->]]] by lia; congruence.
Qed.
End leaf_write.

(** *** Linking a new table *)

Section new_table.
Context (m : Z → Z) (root : Z) (free : Z → Prop) (p : list Z) (t i f e : Z).
Context (Hok : tables_ok m root free) (Hp : valid p) (Hlen : (length p ≤ 2)%nat).
Context (Ht : path m root p = Some t) (Hi : 0 ≤ i < 512).
Context (Hun : is_unused (m (t + 8 * i)) = true).
Context (Hf : free f) (He : is_unused e = false) (Hef : entry_addr e = f).

(** The words other paths read. *)
Lemma new_table_other q' j a :
  valid q' → 0 ≤ j < 512 → path m root q' = Some a → q' ++ [j] ≠ p ++ [i] →
  upd m (t + 8 * i) e (a + 8 * j) = m (a + 8 * j).
Proof.
  intros Hq Hj Ha Hne. unfold upd.
  destruct (Z.eqb_spec (a + 8 * j) (t + 8 * i)) as [Heq|]; [exfalso|done].
  apply word_inj in Heq as [-> ->]; [|by eapply path_aligned|by eapply path_aligned|done..].
  apply Hne. by rewrite (ok_inj _ _ _ Hok q' p t).
Qed.

Lemma new_table_path q :
  valid q → path (upd m (t + 8 * i) e) root q = if decide (q = p ++ [i]) then Some f else path m root q.
Proof.
  intros Hq. induction q as [|j q IH] using rev_ind.
  { by rewrite decide_False by (by destruct p). }
  assert (valid q) as Hq' by by eapply valid_app_l.
  assert (0 ≤ j < 512) as Hj.
  { destruct Hq as [Hq _]. apply Forall_app in Hq as [_ Hq]. by apply Forall_cons in Hq as [? _]. }
  rewrite !path_snoc, IH by done. destruct (decide (q = p ++ [i])) as [->|Hne].
  - (* below the new table *)
    assert (t ≠ f) as Htf by (intros ->; by apply (ok_free _ _ _ Hok p f)).
    assert (path m root (p ++ [i]) = None) as -> by (rewrite path_snoc, Ht; simpl; by rewrite Hun).
    rewrite decide_False.
    2:{ intros Hpi%(f_equal length). rewrite !length_app in Hpi. simpl in Hpi. lia. }
    simpl. unfold upd. destruct (Z.eqb_spec (f + 8 * j) (t + 8 * i)) as [Heq|].
    + apply word_inj in Heq as [? _]; [done|apply (ok_frame _ _ _ Hok f Hf)|by eapply path_aligned|done..].
    + by rewrite (ok_blank _ _ _ Hok f j).
  - destruct (path m root q) as [a|] eqn:Ea; simpl.
    + destruct (decide (q ++ [j] = p ++ [i])) as [[-> [= ->]]%app_inj_tail|Hqj].
      * rewrite Ht in Ea. injection Ea as <-. unfold upd. by rewrite Z.eqb_refl, He, Hef.
      * by rewrite (new_table_other q) by done.
    + rewrite decide_False; [done|]. intros [-> _]%app_inj_tail. congruence.
Qed.

(** Every other free frame is as free and as blank as before. *)
Lemma new_table_ok (free' : Z → Prop) :
  (∀ a, free' a → free a ∧ a ≠ f) → tables_ok (upd m (t + 8 * i) e) root free'.
Proof.
  intros Hfree. pose proof Hok as [H1 H2 H3 H4 H5]. split; [done| | | |].
  - intros q q' a Hq Hq'. rewrite !new_table_path by done.
    repeat case_decide; intros Ha Ha'.
    + congruence.
    + injection Ha as <-. by destruct (H3 q' f).
    + injection Ha' as <-. by destruct (H3 q f).
    + by apply (H2 q q' a).
  - intros q a Hq. rewrite new_table_path by done. case_decide.
    + intros [= <-] Hff. by destruct (Hfree _ Hff).
    + intros Ha Hff. apply (H3 q a Hq Ha). by apply Hfree.
  - intros a Ha. apply H4. by apply Hfree.
  - intros a j Ha Hj. destruct (Hfree a Ha) as [Hfa _]. unfold upd.
    destruct (Z.eqb_spec (a + 8 * j) (t + 8 * i)) as [Heq|]; [exfalso|auto].
    apply word_inj in Heq as [-> _]; [|apply (H4 a Hfa)|by eapply path_aligned|done..].
    by apply (H3 p t).
Qed.

Lemma new_table_mapping v : mapping (upd m (t + 8 * i) e) root v = mapping m root v.
Proof.
  unfold mapping. rewrite new_table_path by apply valid_page. case_decide as Hq.
  - assert (path m root [idx 4 v; idx 3 v; idx 2 v] = None) as ->.
    { rewrite Hq, path_snoc, Ht. simpl. by rewrite Hun. }
    simpl. assert (t ≠ f) as Htf by (intros ->; by apply (ok_free _ _ _ Hok p f)).
    unfold upd. destruct (Z.eqb_spec (f + 8 * idx 1 v) (t + 8 * i)) as [Heq|].
    + apply word_inj in Heq as [? _];
        [done|apply (ok_frame _ _ _ Hok f Hf)|by eapply path_aligned|apply idx_range|done].
    + rewrite (ok_blank _ _ _ Hok f) by (done || apply idx_range). done.
  - destruct (path m root [idx 4 v; idx 3 v; idx 2 v]) as [a|] eqn:Ea; [simpl|done].
    rewrite (new_table_other [idx 4 v; idx 3 v; idx 2 v]); [done|apply valid_page|apply idx_range|done|].
    intros Heq%(f_equal length). rewrite !length_app in Heq. simpl in Heq. lia.
Qed.
End new_table.

(** Changes outside tables and free frames, and frames that leave the free set. *)
Lemma tables_ok_ext m m' root free :
  tables_ok m root free →
  (∀ p t i, valid p → path m root p = Some t → 0 ≤ i < 512 → m' (t + 8 * i) = m (t + 8 * i)) →
  (∀ a i, free a → 0 ≤ i < 512 → m' (a + 8 * i) = m (a + 8 * i)) →
  tables_ok m' root free ∧ (∀ q, valid q → path m' root q = path m root q) ∧
  ∀ v, mapping m' root v = mapping m root v.
Proof.
  intros [H1 H2 H3 H4 H5] Ht Hf.
  assert (∀ q, valid q → path m' root q = path m root q) as Hp.
  { intros q Hq. apply path_ext. intros q' j r a -> Ha. apply (Ht q'); [by eapply valid_app_l|done|].
    destruct Hq as [Hq _]. by apply Forall_app in Hq as [_ [? _]%Forall_cons]. }
  split; [split|split]; [done|..|done|].
  - intros p q a Hvp Hvq. rewrite !Hp by done. by apply H2.
  - intros p a Hvp. rewrite Hp by done. by apply H3.
  - done.
  - intros a i Ha Hi. rewrite Hf by done. by apply H5.
  - intros v. unfold mapping. rewrite Hp by apply valid_page.
    destruct (path m root [idx 4 v; idx 3 v; idx 2 v]) eqn:E; simpl; [|done].
    by rewrite (Ht [idx 4 v; idx 3 v; idx 2 v]) by (done || apply valid_page || apply idx_range).
Qed.

Lemma tables_ok_free m root (free free' : Z → Prop) :
  (∀ a, free' a → free a) → tables_ok m root free → tables_ok m root free'.
Proof.
  intros Hf [H1 H2 H3 H4 H5]. split; [done|done| |auto|auto].
  intros p a Hp Ha Hfa. by apply (H3 p a), Hf.
Qed.
End inv.
