(* ===== verification/VmmTheorems.v ===== *)
(** * Theorems about the user virtual memory manager

    What every change of the tables preserves, and
    the claims: mapping and unmapping refine updates of the address space, the
    search for free ranges, [mmap], page faults and copy on write, user copies. *)

From S2P Require Import Prelude PageIndex Vmm VmmSpec.
Open Scope Z_scope.

Lemma page_total_ok {prof : Profile} size :
  0 ≤ size → size + 0xFFF < 2 ^ 64 → page_total size = Ret ((size + 0xFFF) / 0x1000).
Proof. intros. unfold page_total. by rewrite uadd_ok by (unfold in_u; lia). Qed.

Lemma nth_page_ok {prof : Profile} a i :
  0 ≤ a → 0 ≤ i → a + i * 0x1000 < 2 ^ 64 → nth_page a i = Ret (a + i * 0x1000).
Proof.
  intros. unfold nth_page. rewrite umul_ok by (unfold in_u; lia). simpl.
  by rewrite uadd_ok by (unfold in_u; lia).
Qed.

Section thms.
Context {prof : Profile} `{!PageEntry, !PageEntryLaws} {Pg : Type} `{!PageSource Pg, !PageSourceLaws Pg}.
Implicit Types (s : Space Pg).

(** ** The invariant and the address space of a manager *)

Definition root s : Z := pml4 (mgr s).
Definition table_at s (p : list Z) : option Z := path (phys s) (root s) p.
Definition entry_of s (v : Z) : option Z := mapping (phys s) (root s) v.
Definition space_ok s : Prop := tables_ok (phys s) (root s) (pg_free (source s)).

(** Which frame a virtual address is mapped to, with which flags. *)
Definition space s (v : Z) : option (Z * Z) := (λ e, (entry_addr e, entry_flags e)) <$> entry_of s v.

(** A frame that is neither free nor a table of the manager. *)
Definition data_frame s (f : Z) : Prop :=
  f mod 0x1000 = 0 ∧ ¬ pg_free (source s) f ∧ ∀ p, valid p → table_at s p ≠ Some f.

(** [s'] comes from [s] by adding tables and changing entries. *)
Record grows s s' : Prop := {
  gr_ok : space_ok s';
  gr_mgr : mgr s' = set_count (mgr s) (page_count (mgr s'));
  gr_user : user s' = user s;
  gr_cr3 : cr3 s' = cr3 s;
  gr_free a : pg_free (source s') a → pg_free (source s) a;
  gr_path p a : valid p → table_at s p = Some a → table_at s' p = Some a;
  gr_new p a : valid p → table_at s' p = Some a → table_at s p = Some a ∨ pg_free (source s) a;
  gr_words a : phys s' a ≠ phys s a →
    ∃ p t i, valid p ∧ table_at s' p = Some t ∧ 0 ≤ i < 512 ∧ a = t + 8 * i
}.

Lemma grows_refl s : space_ok s → grows s s.
Proof. intros Hok. split; auto; [by destruct s as [[]]|done]. Qed.

Lemma grows_trans s1 s2 s3 : grows s1 s2 → grows s2 s3 → grows s1 s3.
Proof.
  intros [] []. split; try congruence; auto.
  - rewrite gr_mgr1, gr_mgr0. done.
  - intros p a Hp Ha. destruct (gr_new1 p a Hp Ha); auto.
  - intros a Ha. destruct (decide (phys s3 a = phys s2 a)) as [He|Hne]; [|by apply gr_words1].
    destruct (gr_words0 a) as (p&t&i&?&?&?&?); [congruence|]. exists p, t, i. auto.
Qed.

Lemma gr_root s s' : grows s s' → root s' = root s.
Proof. intros Hg. unfold root. by rewrite (gr_mgr _ _ Hg). Qed.

Lemma data_frame_grows s s' f : grows s s' → data_frame s f → data_frame s' f.
Proof.
  intros Hg (Ha&Hf&Ht). split; [done|]. split; [by intros ?%(gr_free _ _ Hg)|].
  intros p Hp Hpf. by destruct (gr_new _ _ Hg p f Hp Hpf) as [?%Ht|].
Qed.

(** The words of a data frame are not touched. *)
Lemma gr_data s s' f k :
  grows s s' → data_frame s f → 0 ≤ k < 0x1000 → phys s' (f + k) = phys s (f + k).
Proof.
  intros Hg Hf Hk. destruct (decide (phys s' (f + k) = phys s (f + k))) as [|Hne]; [done|exfalso].
  destruct (gr_words _ _ Hg _ Hne) as (p&t&i&Hp&Ht&Hi&Heq).
  destruct (data_frame_grows _ _ _ Hg Hf) as (Hfa&_&Hnt).
  assert (t mod 0x1000 = 0) by (eapply path_aligned; [apply Hg|apply Ht]).
  assert (t = f) as -> by (Z.to_euclidean_division_equations; lia). by destruct (Hnt p Hp).
Qed.

(** *** Taking a frame *)

Lemma take_page_wp s (Q : VmmError + Z → Space Pg → Prop) :
  space_ok s →
  (∀ f pg, alloc_pages (source s) 1 = (Some f, pg) → pg_free (source s) f → ¬ pg_free pg f →
     (∀ a, pg_free pg a → pg_free (source s) a) → Q (inr f) (with_source s pg)) →
  (∀ pg, alloc_pages (source s) 1 = (None, pg) → (∀ a, pg_free pg a → pg_free (source s) a) →
     Q (inl OutOfMemory) (with_source s pg)) →
  wp (take_pages 1) s Q.
Proof.
  intros Hok Hs Hn. unfold wp, take_pages.
  destruct (alloc_pages (source s) 1) as [[f|] pg] eqn:E; simpl.
  - apply alloc_some in E as Hf; [|lia]. destruct Hf as [Hf Hfree].
    specialize (Hf 0 ltac:(lia)). rewrite Z.mul_0_r, Z.add_0_r in Hf.
    apply Hs; [done|done| |].
    + intros [_ Hff]%Hfree. by apply (Hff 0); lia.
    + by intros a [? _]%Hfree.
  - apply Hn; [done|]. by intros a ?%(alloc_none _ _ _ E).
Qed.

Lemma with_source_grows s pg :
  space_ok s → (∀ a, pg_free pg a → pg_free (source s) a) → grows s (with_source s pg).
Proof.
  intros Hok Hf. split; simpl; auto; [|by destruct s as [[]]|done].
  by eapply tables_ok_free.
Qed.

(** The frame that was just taken is a data frame. *)
Lemma taken_data s pg f :
  space_ok s → pg_free (source s) f → ¬ pg_free pg f → data_frame (with_source s pg) f.
Proof.
  intros Hok Hf Hnf. split; [apply (ok_frame _ _ _ Hok f Hf)|]. split; [done|].
  intros p Hp Ht. by apply (ok_free _ _ _ Hok p f Hp Ht).
Qed.

(** *** Entries *)

Lemma read_entry_ok s p t i : space_ok s → table_at s p = Some t → read_entry s t i = Ret (phys s (t + 8 * i)).
Proof. intros Hok Ht. unfold read_entry. by rewrite (path_aligned _ _ _ _ _ Hok Ht). Qed.

Lemma write_entry_ok s p t i e :
  space_ok s → table_at s p = Some t →
  write_entry s t i e = Ret (with_phys s (upd (phys s) (t + 8 * i) e)).
Proof. intros Hok Ht. unfold write_entry. by rewrite (path_aligned _ _ _ _ _ Hok Ht). Qed.

(** *** One level of [map_page] *)

(** What a descent leaves behind: the space is the same; when it fails, the page
    source has refused a frame. *)
Definition descended s (p : list Z) (r : VmmError + Z) s' : Prop :=
  grows s s' ∧ (∀ v, entry_of s' v = entry_of s v) ∧
  match r with
  | inl e => e = OutOfMemory ∧ ∃ pg, alloc_pages pg 1 = (None, source s')
  | inr t' => table_at s' p = Some t'
  end.

Lemma descend_new s p t i f pg :
  space_ok s → valid p → (length p ≤ 2)%nat → table_at s p = Some t → 0 ≤ i < 512 →
  is_unused (phys s (t + 8 * i)) = true → pg_free (source s) f → ¬ pg_free pg f →
  (∀ a, pg_free pg a → pg_free (source s) a) →
  descended s (p ++ [i]) (inr (entry_addr (entry_set (phys s (t + 8 * i)) f 0x03)))
    (count_add (with_phys (with_source s pg)
       (upd (phys s) (t + 8 * i) (entry_set (phys s (t + 8 * i)) f 0x03))) 1).
Proof.
  intros Hok Hp Hlen Ht Hi Hun Hf Hnf Hsub. set (e := entry_set _ _ _).
  destruct (ok_frame _ _ _ Hok f Hf) as [Hfa Hfb].
  destruct (entry_set_ok (phys s (t + 8 * i)) f 0x03) as (Heu&Hea&_); [done|lia|lia|].
  fold e in Heu, Hea. set (s' := count_add _ _).
  assert (∀ q, valid q → table_at s' q = if decide (q = p ++ [i]) then Some f else table_at s q) as Hpath.
  { intros q Hq. by apply (new_table_path _ _ _ _ _ _ _ _ Hok Hp Hlen Ht Hi Hun Hf Heu Hea). }
  assert (table_at s (p ++ [i]) = None) as Hnone.
  { unfold table_at in *. rewrite path_snoc, Ht. simpl. by rewrite Hun. }
  assert (valid (p ++ [i])) as Hpi by by apply valid_snoc.
  split; [split|split]; try done.
  - apply (new_table_ok _ _ _ _ _ _ _ _ Hok Hp Hlen Ht Hi Hun Hf Heu Hea). intros a Ha.
    split; [by apply Hsub|]. by intros ->.
  - intros q a Hq Ha. rewrite Hpath by done. rewrite decide_False; [done|]. intros ->. congruence.
  - intros q a Hq. rewrite Hpath by done. case_decide; [|by left]. intros [= <-]. by right.
  - intros a. simpl. unfold upd. destruct (Z.eqb_spec a (t + 8 * i)) as [->|]; [intros _|done].
    exists p, t, i. split; [done|]. split; [|done]. rewrite Hpath by done.
    rewrite decide_False; [done|]. intros Hpp. rewrite <-Hpp in Hnone. congruence.
  - intros v. by apply (new_table_mapping _ _ _ _ _ _ _ _ Hok Hp Hlen Ht Hi Hun Hf).
  - rewrite Hpath, decide_True by done. by rewrite Hea.
Qed.

Lemma descend_alloc_wp s p t i :
  space_ok s → valid p → (length p ≤ 2)%nat → table_at s p = Some t → 0 ≤ i < 512 →
  wp (descend_alloc t i) s (descended s (p ++ [i])).
Proof.
  intros Hok Hp Hlen Ht Hi. unfold descend_alloc. apply wp_bind.
  eapply wp_read; [by eapply read_entry_ok|]. simpl.
  destruct (is_unused (phys s (t + 8 * i))) eqn:Hun.
  - apply wp_bind, take_page_wp; [done|..].
    + intros f pg _ Hf Hnf Hsub. apply wp_bind. eapply wp_update.
      { eapply (write_entry_ok (with_source s pg)); [exact (tables_ok_free _ _ _ _ Hsub Hok)|exact Ht]. }
      apply wp_bind. eapply wp_update; [done|]. apply wp_ret. by apply (descend_new s p t i f pg).
    + intros pg Hpg Hsub. split; [by apply with_source_grows|]. split; [done|]. split; [done|eauto].
  - apply wp_ret. split; [by apply grows_refl|]. split; [done|].
    unfold table_at. rewrite path_snoc. unfold table_at in Ht. rewrite Ht. simpl. by rewrite Hun.
Qed.

(** The indices of the source are those of [PageIndex]. *)
Lemma pml4_index_idx v : pml4_index v = idx 4 v.
Proof. done. Qed.
Lemma pdpt_index_idx v : pdpt_index v = idx 3 v.
Proof. done. Qed.
Lemma pd_index_idx v : pd_index v = idx 2 v.
Proof. done. Qed.
Lemma pt_index_idx v : pt_index v = idx 1 v.
Proof. done. Qed.

(** *** Writing the entry of a page *)

Lemma leaf_grows s v pt e n :
  space_ok s → table_at s [idx 4 v; idx 3 v; idx 2 v] = Some pt →
  let s' := count_add (with_phys s (upd (phys s) (pt + 8 * idx 1 v) e)) n in
  grows s s' ∧ ∀ v', entry_of s' v' =
    if decide (page_of v' = page_of v) then (if is_unused e then None else Some e) else entry_of s v'.
Proof.
  intros Hok Hpt s'. pose proof (idx_range 1 v) as Hi. pose proof (valid_page v) as Hv.
  assert (∀ q, valid q → table_at s' q = table_at s q) as Hpath.
  { intros q Hq. by apply (leaf_write_path _ _ _ _ _ _ e Hok Hv eq_refl Hpt Hi). }
  split; [split|]; try done.
  - by apply (leaf_write_ok _ _ _ _ _ _ e Hok Hv eq_refl Hpt Hi).
  - intros q a Hq. by rewrite Hpath.
  - intros q a Hq. rewrite Hpath by done. by left.
  - intros a. simpl. unfold upd. case_match eqn:Ha; [|done]. intros _. apply Z.eqb_eq in Ha as ->.
    eexists _, pt, (idx 1 v). split; [exact Hv|]. rewrite Hpath by done. done.
  - intros v'. by apply (vmm_leaf_write_mapping _ _ _ _ _ _ e Hok Hv eq_refl Hpt Hi).
Qed.

(** The address space after page [v] was set to [x]. *)
Definition space_set s (v : Z) (x : option (Z * Z)) s' : Prop :=
  ∀ v', space s' v' = if decide (page_of v' = page_of v) then x else space s v'.

(** What [map_page] promises: an update of one page, or nothing but new tables
    and the refusal of the page source. *)
Definition mapped s (v ph flags : Z) (r : VmmError + ()) s' : Prop :=
  grows s s' ∧
  match r with
  | inr _ => space_set s v (Some (ph, flags)) s'
  | inl e => e = OutOfMemory ∧ (∃ pg, alloc_pages pg 1 = (None, source s')) ∧
             ∀ v', space s' v' = space s v'
  end.

Lemma descended_trans s s1 p t1 q r s2 :
  descended s q (inr t1) s1 → descended s1 p r s2 → descended s p r s2.
Proof.
  intros (Hg1&He1&_) (Hg2&He2&Hr). split; [by eapply grows_trans|]. split; [|done].
  intros v. by rewrite He2, He1.
Qed.

Lemma descended_fails s p e s' v ph flags :
  descended s p (inl e) s' → mapped s v ph flags (inl e) s'.
Proof.
  intros (Hg&He&->&Hpg). split; [done|]. split; [done|]. split; [done|].
  intros v'. unfold space. by rewrite He.
Qed.

Lemma map_page_wp s v ph flags :
  space_ok s → ph mod 0x1000 = 0 → 0 ≤ ph < 2 ^ 52 → 0 < flags < 0x1000 →
  wp (map_page v ph flags) s (mapped s v ph flags).
Proof.
  intros Hok Hpa Hpr Hfl. unfold map_page.
  rewrite pml4_index_idx, pdpt_index_idx, pd_index_idx, pt_index_idx.
  pose proof (valid_page v) as Hv.
  apply wp_bind. eapply wp_read; [done|]. apply wp_bind. eapply wp_mono.
  { apply (descend_alloc_wp s []); [done|exact (valid_app_l [] _ Hv)|simpl; lia|done|apply idx_range]. }
  intros [e|t3] s1 H1; [by eapply descended_fails|]. apply wp_bind. eapply wp_mono.
  { apply (descend_alloc_wp s1 [idx 4 v]);
      [apply H1|exact (valid_app_l [idx 4 v] [idx 3 v; idx 2 v] Hv)|simpl; lia|apply H1|apply idx_range]. }
  intros r s2 H2%(descended_trans s _ _ _ _ _ _ H1).
  destruct r as [e|t2]; [by eapply descended_fails|]. apply wp_bind. eapply wp_mono.
  { apply (descend_alloc_wp s2 [idx 4 v; idx 3 v]);
      [apply H2|exact (valid_app_l [idx 4 v; idx 3 v] [idx 2 v] Hv)|simpl; lia|apply H2|apply idx_range]. }
  intros r s3 H3%(descended_trans s _ _ _ _ _ _ H2).
  destruct r as [e|t1]; [by eapply descended_fails|]. destruct H3 as (Hg&He&Ht).
  apply wp_bind. eapply wp_read; [by eapply read_entry_ok; [apply Hg|]|]. simpl.
  apply wp_bind. eapply wp_update; [eapply write_entry_ok; [apply Hg|exact Ht]|].
  set (e := entry_set _ _ _). destruct (entry_set_ok (phys s3 (t1 + 8 * idx 1 v)) ph flags) as (Hu&Ha&Hf); [done..|].
  fold e in Hu, Ha, Hf.
  destruct (leaf_grows s3 v t1 e 1) as [Hg4 He4]; [apply Hg|done|].
  eapply wp_update; [done|]. split; [by eapply grows_trans|]. intros v'. unfold space.
  rewrite He4, Hu. case_decide; simpl; [by rewrite Ha, Hf|by rewrite He].
Qed.

(** *** Walking without allocating *)

Lemma vmm_walk_ok s v : space_ok s → walk s v = Ret (table_at s [idx 4 v; idx 3 v; idx 2 v]).
Proof.
  intros Hok. unfold walk. rewrite pml4_index_idx, pdpt_index_idx, pd_index_idx.
  rewrite (read_entry_ok s []) by done. unfold table_at, root. simpl.
  destruct (is_unused (phys s (pml4 (mgr s) + 8 * idx 4 v))) eqn:E4; [done|].
  rewrite (read_entry_ok s [idx 4 v]) by (done || unfold table_at, root; simpl; by rewrite E4). simpl.
  set (t3 := entry_addr _). destruct (is_unused (phys s (t3 + 8 * idx 3 v))) eqn:E3; [done|].
  rewrite (read_entry_ok s [idx 4 v; idx 3 v])
    by (done || unfold table_at, root; simpl; rewrite E4; fold t3; by rewrite E3). simpl.
  by case_match.
Qed.

(** The entry a page has, used or not. *)
Lemma page_entry s v pt :
  space_ok s → table_at s [idx 4 v; idx 3 v; idx 2 v] = Some pt →
  read_entry s pt (pt_index v) = Ret (phys s (pt + 8 * idx 1 v)) ∧
  entry_of s v = let e := phys s (pt + 8 * idx 1 v) in if is_unused e then None else Some e.
Proof.
  intros Hok Hpt. split; [by eapply read_entry_ok|].
  unfold entry_of, mapping, table_at in *. by rewrite Hpt.
Qed.

Lemma entry_of_none s v : table_at s [idx 4 v; idx 3 v; idx 2 v] = None → entry_of s v = None.
Proof. unfold entry_of, mapping, table_at. by intros ->. Qed.

Lemma vmm_translate_ok s v : space_ok s → translate s v = Ret (fst <$> space s v).
Proof.
  intros Hok. unfold translate. rewrite vmm_walk_ok by done. simpl. unfold space.
  destruct (table_at s [idx 4 v; idx 3 v; idx 2 v]) as [pt|] eqn:Hpt.
  - destruct (page_entry s v pt Hok Hpt) as [-> ->]. simpl. by case_match.
  - by rewrite entry_of_none.
Qed.

(** Rewriting the used entry of a page, without counting it. *)
Lemma rewrite_entry s v pt e :
  space_ok s → table_at s [idx 4 v; idx 3 v; idx 2 v] = Some pt →
  ∃ s', write_entry s pt (pt_index v) e = Ret s' ∧ grows s s' ∧ mgr s' = mgr s ∧ source s' = source s ∧
    ∀ v', entry_of s' v' =
      if decide (page_of v' = page_of v) then (if is_unused e then None else Some e) else entry_of s v'.
Proof.
  intros Hok Hpt. destruct (leaf_grows s v pt e 0) as [Hg He]; [done..|].
  eexists. split; [by eapply write_entry_ok|]. split; [|split; [done|split; [done|exact He]]].
  destruct Hg as [H1 H2 H3 H4 H5 H6 H7 H8]. split; try done. by destruct s as [[]].
Qed.

(** What [unmap_page] does on each of its three branches. *)
Lemma unmap_page_wp s v :
  space_ok s →
  wp (unmap_page v) s (λ r s',
    match table_at s [idx 4 v; idx 3 v; idx 2 v], entry_of s v with
    | None, _ => r = inl InvalidAddress ∧ s' = s
    | Some _, None => r = inr () ∧ s' = s
    | Some _, Some _ =>
        r = inr () ∧ grows s s' ∧ space_set s v None s' ∧
        page_count (mgr s') = wrap 64 (page_count (mgr s) - 1)
    end).
Proof.
  intros Hok. unfold unmap_page. apply wp_bind.
  eapply wp_read; [by apply vmm_walk_ok|].
  destruct (table_at s [idx 4 v; idx 3 v; idx 2 v]) as [pt|] eqn:Hpt; [|done].
  destruct (page_entry s v pt Hok Hpt) as [Hr He]. apply wp_bind. eapply wp_read; [exact Hr|].
  rewrite He. simpl. destruct (is_unused (phys s (pt + 8 * idx 1 v))) eqn:Hu; [done|].
  destruct (leaf_grows s v pt (set_unused (phys s (pt + 8 * idx 1 v))) (-1)) as [Hg Hs]; [done..|].
  apply wp_bind. eapply wp_update; [by eapply write_entry_ok|]. eapply wp_update; [done|].
  split; [done|]. split; [exact Hg|]. split; [|done].
  intros v'. unfold space. rewrite Hs, set_unused_unused. by case_decide.
Qed.

(** *** Searching a range *)

(** [count] pages from [base] are unmapped. *)
Definition range_free s (base count : Z) : Prop :=
  ∀ i, 0 ≤ i < count → space s (base + i * 0x1000) = None.

Lemma range_is_free_ok s base count :
  space_ok s → 0 ≤ base → 0 ≤ count → base + count * 0x1000 < 2 ^ 64 →
  returns (range_is_free s base count) (λ b, b = true ↔ range_free s base count).
Proof.
  intros Hok Hb Hc Hov. unfold range_is_free. apply returns_bind. eapply returns_mono.
  { apply (for_range_find (λ i, match space s (base + i * 0x1000) with Some _ => Some () | None => None end)); [done|].
    intros i Hi. rewrite nth_page_ok by lia. simpl. rewrite vmm_translate_ok by done. simpl.
    by destruct (space s _). }
  intros [[]|[]]; simpl.
  - intros Hn. split; [|done]. intros _ i Hi. specialize (Hn i Hi). by destruct (space s _).
  - intros (i&Hi&Hx&_). split; [done|]. intros Hf. by rewrite Hf in Hx.
Qed.

Definition is_base (b : Z) : Prop := b mod 0x1000 = 0 ∧ USER_SPACE_BASE ≤ b < USER_SPACE_END.

(** The first base with enough unmapped pages. *)
Definition first_free_range s (count : Z) (r : VmmError + Z) : Prop :=
  match r with
  | inr base => is_base base ∧ range_free s base count ∧
      ∀ b, is_base b → b < base → ¬ range_free s b count
  | inl e => e = OutOfMemory ∧ ∀ b, is_base b → ¬ range_free s b count
  end.

(** Before round [k] the candidate is the [k]-th base, and no lower one is free. *)
Definition searching s (count k b : Z) : Prop :=
  b = USER_SPACE_BASE + k * 0x1000 ∧ 0 ≤ k ≤ 34359738112 ∧
  ∀ b', is_base b' → b' < b → ¬ range_free s b' count.

Lemma search_round_ok s count k b :
  space_ok s → 0 ≤ count ≤ 2 ^ 50 → searching s count k b →
  returns (search_round s count b) (λ fl,
    match fl with Next b' => searching s count (k + 1) b' | Done r => first_free_range s count r end).
Proof.
  intros Hok Hc (->&Hk&Hlow). unfold search_round.
  assert (USER_SPACE_BASE = 0x100000) as EB by done. assert (USER_SPACE_END = 0x800000000000) as EE by done.
  destruct (Z.leb_spec USER_SPACE_END (USER_SPACE_BASE + k * 0x1000)) as [Hend|Hend].
  { split; [done|]. intros b' Hb'. apply Hlow; [done|]. destruct Hb'. lia. }
  apply returns_bind. eapply returns_mono; [apply range_is_free_ok; (done || lia)|].
  intros [] Hb.
  - split; [|split; [by apply Hb|done]]. split; [|lia].
    rewrite Z.mod_add by lia. done.
  - rewrite uadd_ok by (unfold in_u; lia). simpl.
    change 0xFFF with (2 ^ 12 - 1). rewrite land_wnot_low by (unfold in_u; lia).
    assert ((USER_SPACE_BASE + k * 4096 + 4096) mod 2 ^ 12 = 0) as Hm.
    { replace (USER_SPACE_BASE + k * 4096 + 4096) with (USER_SPACE_BASE + (k + 1) * 2 ^ 12) by lia.
      by rewrite Z.mod_add by lia. }
    rewrite Hm. split; [lia|]. split; [lia|]. intros b' [Hb'm Hb'r] Hlt.
    destruct (decide (b' = USER_SPACE_BASE + k * 0x1000)) as [->|].
    + intros Hf. by apply Hb in Hf.
    + apply Hlow; [done|]. Z.to_euclidean_division_equations. lia.
Qed.

Lemma find_free_returns s count :
  space_ok s → 0 ≤ count ≤ 2 ^ 50 →
  returns (find_free_virtual_range s count) (first_free_range s count).
Proof.
  intros Hok Hc. unfold find_free_virtual_range. apply returns_bind. eapply returns_mono.
  { apply (iter_pos_inv (searching s count)).
    - split; [lia|]. split; [lia|]. intros b' [_ Hb'] Hlt. lia.
    - intros k b _. by apply search_round_ok. }
  intros [b|r]; [|done]. intros (_&Hk&_). unfold search_rounds in Hk. lia.
Qed.

(** *** Fresh frames for a range *)

(** The pages from [start] are mapped to the frames [fs], which were free. *)
Record fresh_mapped s (start prot : Z) (fs : list Z) s' : Prop := {
  fm_grows : grows s s';
  fm_nodup : NoDup fs;
  fm_fresh f : f ∈ fs → pg_free (source s) f ∧ data_frame s' f;
  fm_map j f : fs !! j = Some f → space s' (start + Z.of_nat j * 0x1000) = Some (f, prot);
  fm_rest v : (∀ j, (j < length fs)%nat → page_of v ≠ page_of (start + Z.of_nat j * 0x1000)) →
    space s' v = space s v
}.

Lemma fresh_mapped_nil s start prot s' :
  grows s s' → (∀ v, space s' v = space s v) → fresh_mapped s start prot [] s'.
Proof. intros. split; [done|constructor|by intros f ?%elem_of_nil|done|done]. Qed.

(** One more page. *)
Lemma fresh_mapped_add s start prot fs s1 f s3 :
  0 ≤ start → Z.of_nat (length fs) + 1 < 2 ^ 36 →
  fresh_mapped s start prot fs s1 → f ∉ fs → pg_free (source s) f → grows s1 s3 → data_frame s3 f →
  space_set s1 (start + Z.of_nat (length fs) * 0x1000) (Some (f, prot)) s3 →
  fresh_mapped s start prot (fs ++ [f]) s3.
Proof.
  intros Hst Hlen [Hg Hnd Hfr Hm Hr] Hin Hf Hg3 Hd Hsp. split.
  - by eapply grows_trans.
  - apply NoDup_app. split; [done|]. split; [|apply NoDup_singleton].
    by intros x Hx ->%list_elem_of_singleton.
  - intros x [Hx| ->%list_elem_of_singleton]%elem_of_app; [|done].
    destruct (Hfr x Hx). split; [done|]. by eapply data_frame_grows.
  - intros j x Hj. rewrite Hsp. case_decide as Hpg.
    + apply page_of_step_inj in Hpg; [|done| |lia].
      2:{ apply lookup_lt_Some in Hj. rewrite length_app in Hj. simpl in Hj. lia. }
      apply Nat2Z.inj in Hpg as ->. rewrite lookup_app_r, Nat.sub_diag in Hj by lia. by injection Hj as <-.
    + apply Hm. destruct (decide (j < length fs)%nat); [by rewrite lookup_app_l in Hj|].
      apply lookup_lt_Some in Hj as Hl. rewrite length_app in Hl. simpl in Hl.
      by replace j with (length fs) in Hpg by lia.
  - intros v Hv. rewrite length_app in Hv. simpl in Hv. rewrite Hsp, decide_False by (apply Hv; lia).
    apply Hr. intros j Hj. apply Hv. lia.
Qed.

(** One more page, for a frame taken in [s1]. *)
Lemma fresh_mapped_snoc s start prot fs s1 f pg s3 :
  0 ≤ start → Z.of_nat (length fs) + 1 < 2 ^ 36 →
  fresh_mapped s start prot fs s1 → pg_free (source s1) f → ¬ pg_free pg f →
  (∀ a, pg_free pg a → pg_free (source s1) a) → grows (with_source s1 pg) s3 →
  space_set (with_source s1 pg) (start + Z.of_nat (length fs) * 0x1000) (Some (f, prot)) s3 →
  fresh_mapped s start prot (fs ++ [f]) s3.
Proof.
  intros Hst Hlen Hfm Hf Hnf Hsub Hg3 Hsp. pose proof (fm_grows _ _ _ _ _ Hfm) as Hg.
  pose proof (gr_ok _ _ Hg) as Hok1.
  apply (fresh_mapped_add s start prot fs s1); try done.
  - intros Hx. by destruct (fm_fresh _ _ _ _ _ Hfm f Hx) as [_ (_&?&_)].
  - by apply (gr_free _ _ Hg).
  - eapply grows_trans; [by apply with_source_grows|done].
  - eapply data_frame_grows; [exact Hg3|by apply taken_data].
Qed.

Lemma fresh_mapped_grows s start prot fs s1 s2 :
  fresh_mapped s start prot fs s1 → grows s1 s2 → (∀ v, space s2 v = space s1 v) →
  fresh_mapped s start prot fs s2.
Proof.
  intros [Hg Hnd Hfr Hm Hr] Hg2 Hs. split; [by eapply grows_trans|done|..].
  - intros f Hf. destruct (Hfr f Hf). split; [done|]. by eapply data_frame_grows.
  - intros. rewrite Hs. by apply Hm.
  - intros. rewrite Hs. by apply Hr.
Qed.

(** All pages, or a failure that keeps the pages mapped so far. *)
Definition map_fresh_post s start prot (pages : Z) (r : VmmError + ()) s' : Prop :=
  ∃ fs, fresh_mapped s start prot fs s' ∧
  match r with
  | inr _ => Z.of_nat (length fs) = pages
  | inl e => e = OutOfMemory ∧ Z.of_nat (length fs) < pages ∧ ∃ pg, alloc_pages pg 1 = (None, source s')
  end.

Lemma map_fresh_wp s start pages prot :
  space_ok s → 0 ≤ start → 0 ≤ pages < 2 ^ 36 → start + pages * 0x1000 < 2 ^ 64 → 0 < prot < 0x1000 →
  wp (map_fresh start pages prot) s (map_fresh_post s start prot pages).
Proof.
  intros Hok Hst Hp Hov Hprot. unfold map_fresh.
  apply (wp_for (λ i s1, ∃ fs, Z.of_nat (length fs) = i ∧ fresh_mapped s start prot fs s1)); [lia|..].
  { exists []. split; [done|]. apply fresh_mapped_nil; [by apply grows_refl|done]. }
  2:{ intros s1 (fs&Hl&Hfs). by exists fs. }
  intros i s1 Hi (fs&<-&Hfs). pose proof (fm_grows _ _ _ _ _ Hfs) as Hg1.
  apply wp_bind. eapply wp_read; [apply nth_page_ok; lia|].
  apply wp_bind, take_page_wp; [apply Hg1|..].
  - intros f pg _ Hf Hnf Hsub.
    destruct (ok_frame _ _ _ (gr_ok _ _ Hg1) f Hf) as [Hfa Hfr].
    eapply wp_mono; [apply map_page_wp; [by eapply gr_ok, with_source_grows; [apply Hg1|]|done|lia|done]|].
    intros [e|[]] s3 [Hg3 Hs].
    + destruct Hs as (->&Hpg&Hs). exists fs. split; [|split; [done|split; [lia|done]]].
      eapply fresh_mapped_grows; [done|apply (grows_trans _ (with_source s1 pg)); [by apply with_source_grows; [apply Hg1|]|done]|done].
    + exists (fs ++ [f]). split; [rewrite length_app; simpl; lia|].
      eapply fresh_mapped_snoc; (done || lia).
  - intros pg Hpg Hsub. exists fs. split; [|split; [done|split; [lia|eauto]]].
    eapply fresh_mapped_grows; [done|by apply with_source_grows; [apply Hg1|]|done].
Qed.

(** *** User ranges *)

Lemma validate_user_range_ok start len :
  0 ≤ start → 0 ≤ len → start + len < 2 ^ 64 →
  validate_user_range start len = Ret (bool_decide (USER_SPACE_BASE ≤ start ∧ start + len < USER_SPACE_END)).
Proof.
  intros. unfold validate_user_range. rewrite uadd_ok by (unfold in_u; lia). simpl. f_equal.
  destruct (Z.leb_spec USER_SPACE_END (start + len)), (Z.leb_spec USER_SPACE_END start),
    (Z.ltb_spec start USER_SPACE_BASE); case_bool_decide; simpl; (done || lia).
Qed.

(** *** Copying a page *)

(** A page copied into a data frame: the tables do not notice. *)
Lemma copy_page_ok s old f :
  space_ok s → data_frame s f → old mod 0x1000 = 0 → old ≠ f →
  let s' := copy_page s old f in
  space_ok s' ∧ (∀ v, space s' v = space s v) ∧
  ∀ k, 0 ≤ k < 0x1000 → phys s' (f + k) = phys s (old + k) ∧ phys s' (old + k) = phys s (old + k).
Proof.
  intros Hok (Hfa&Hff&Hft) Hoa Hne s'.
  assert (∀ t i, t mod 0x1000 = 0 → 0 ≤ i < 512 → t ≠ f → phys s' (t + 8 * i) = phys s (t + 8 * i)) as Hw.
  { intros t i Ht Hi Htf. subst s'. simpl. case_match eqn:E; [|done].
    exfalso. apply Htf. apply andb_true_iff in E as [?%Z.leb_le ?%Z.ltb_lt].
    Z.to_euclidean_division_equations. lia. }
  destruct (tables_ok_ext (phys s) (phys s') (root s) (pg_free (source s)) Hok) as (Hok'&_&Hm).
  - intros p t i Hp Ht Hi. apply Hw; [by eapply path_aligned|done|]. intros ->. by apply (Hft p).
  - intros a i Ha Hi. apply Hw; [apply (ok_frame _ _ _ Hok a Ha)|done|]. by intros ->.
  - split; [exact Hok'|]. split; [intros v; unfold space, entry_of; by rewrite <-Hm|].
    intros k Hk. subst s'. simpl. split.
    + case_match eqn:E; [|lia]. f_equal. lia.
    + case_match eqn:E; [|done]. exfalso. apply Hne.
      apply andb_true_iff in E as [?%Z.leb_le ?%Z.ltb_lt]. Z.to_euclidean_division_equations. lia.
Qed.

(** A page that gets a fresh frame with the contents of the old one. *)
Definition cow_copied s (v old : Z) (r : VmmError + ()) s' : Prop :=
  space_ok s' ∧
  match r with
  | inr _ => ∃ f, pg_free (source s) f ∧ ¬ pg_free (source s') f ∧ space_set s v (Some (f, 0x07)) s' ∧
      ∀ k, 0 ≤ k < 0x1000 → phys s' (f + k) = phys s (old + k) ∧ phys s' (old + k) = phys s (old + k)
  | inl e => e = OutOfMemory ∧ ∀ v', space s' v' = space s v'
  end.

Lemma handle_cow_fault_wp s v old fl :
  space_ok s → space s v = Some (old, fl) → data_frame s old →
  wp (handle_cow_fault v) s (cow_copied s v old).
Proof.
  intros Hok Hsp Hold. unfold handle_cow_fault.
  apply wp_bind, take_page_wp; [done|..].
  2:{ intros pg _ Hsub. split; [by eapply gr_ok, with_source_grows|done]. }
  intros f pg _ Hf Hnf Hsub. pose proof (with_source_grows s pg Hok Hsub) as Hg1.
  set (s1 := with_source s pg) in *. apply wp_bind.
  eapply wp_read; [by apply vmm_translate_ok, Hg1|]. change (space s1 v) with (space s v). rewrite Hsp. simpl.
  destruct (ok_frame _ _ _ Hok f Hf) as [Hfa Hfr].
  apply wp_bind. eapply wp_mono; [apply map_page_wp; [apply Hg1|done|lia|lia]|].
  intros [e|[]] s2 [Hg2 Hs].
  { destruct Hs as (->&_&Hs). split; [apply Hg2|]. split; [done|]. intros v'. by rewrite Hs. }
  assert (data_frame s2 f) as Hf2 by (eapply data_frame_grows; [exact Hg2|by apply taken_data]).
  assert (grows s s2) as Hg by by eapply grows_trans.
  eapply wp_update; [done|]. destruct (copy_page_ok s2 old f) as (Hok3&Hs3&Hc3);
    [apply Hg2|done|apply Hold|intros ->; by destruct Hold as (_&?&_)|].
  split; [done|]. exists f. split; [done|]. split; [apply Hf2|]. split.
  - intros v'. rewrite Hs3. apply Hs.
  - intros k Hk. destruct (Hc3 k Hk) as [-> ->]. by rewrite (gr_data s s2 old).
Qed.

(** ** Claims *)

(** C9: [VirtualMemoryManager::map_page] refines a one-point update, for a page-aligned
    frame below [2^52] and flags in [0 < f < 0x1000], from a manager whose tables form a
    tree and on a machine whose free frames hold unused entries (without the last a new
    table maps other pages too, [dirty_table_maps_neighbour]).  Then it always returns
    with the tables well-formed and free frames as required, user memory and the words
    of every data frame unchanged; on success exactly the addresses of the page
    translate to the frame with the flags, all others as before; it fails only with
    [OutOfMemory], after the page source refused a frame, and then the address space is
    what it was. *)
Theorem vmm_map_page_refines s v ph flags :
  space_ok s → ph mod 0x1000 = 0 → 0 ≤ ph < 2 ^ 52 → 0 < flags < 0x1000 →
  ∃ r s', map_page v ph flags s = Ret (r, s') ∧ space_ok s' ∧ user s' = user s ∧
    (∀ f k, data_frame s f → 0 ≤ k < 0x1000 → phys s' (f + k) = phys s (f + k)) ∧
    (∀ v', translate s' v' = Ret (fst <$> space s' v')) ∧
    match r with
    | inr _ => ∀ v', space s' v' = if decide (page_of v' = page_of v) then Some (ph, flags) else space s v'
    | inl e => e = OutOfMemory ∧ (∃ pg, alloc_pages pg 1 = (None, source s')) ∧
               ∀ v', space s' v' = space s v'
    end.
Proof.
  intros Hok Hpa Hpr Hfl. destruct (wp_elim _ _ _ (map_page_wp s v ph flags Hok Hpa Hpr Hfl)) as (r&s'&E&Hg&Hr). exists r, s'. split; [done|]. split; [apply Hg|]. split; [apply Hg|].
  split; [intros f k; by apply gr_data|]. split; [|done]. intros v'. apply vmm_translate_ok, Hg.
Qed.

(** C24: Unmapping undoes mapping, for a page-aligned frame below [2^52] and flags in
    [0 < f < 0x1000].  After a successful [map_page] of a page, mapped before or not,
    [unmap_page] succeeds; then no address of the page translates and
    every other address translates as before the two calls, so the address space is
    restored exactly when the page was not mapped before.  Unmapping again changes
    nothing and succeeds too, since the page table is still there.  The tables are
    well-formed and free frames hold unused entries. *)
Theorem vmm_unmap_restores s v ph flags s1 :
  space_ok s → ph mod 0x1000 = 0 → 0 ≤ ph < 2 ^ 52 → 0 < flags < 0x1000 →
  map_page v ph flags s = Ret (inr (), s1) →
  ∃ s2, unmap_page v s1 = Ret (inr (), s2) ∧
    (∀ v', translate s2 v' = if decide (page_of v' = page_of v) then Ret None else translate s v') ∧
    (space s v = None ↔ ∀ v', translate s2 v' = translate s v') ∧
    page_count (mgr s2) = wrap 64 (page_count (mgr s1) - 1) ∧ unmap_page v s2 = Ret (inr (), s2).
Proof.
  intros Hok Hpa Hpr Hfl E. pose proof (map_page_wp s v ph flags Hok Hpa Hpr Hfl) as Hw.
  unfold wp in Hw. rewrite E in Hw. destruct Hw as [Hg1 Hs1]. simpl in Hg1, Hs1.
  pose proof (Hs1 v) as Hv. rewrite decide_True in Hv by done.
  destruct (entry_of s1 v) as [en|] eqn:Hen; [|by unfold space in Hv; rewrite Hen in Hv].
  destruct (table_at s1 [idx 4 v; idx 3 v; idx 2 v]) as [pt|] eqn:Hpt; [|by rewrite entry_of_none in Hen].
  destruct (wp_elim _ _ _ (unmap_page_wp s1 v (gr_ok _ _ Hg1))) as (r&s2&E2&H2).
  simpl in H2. rewrite Hpt, Hen in H2. destruct H2 as (->&Hg2&Hs2&Hc2).
  assert (∀ v', translate s2 v' = if decide (page_of v' = page_of v) then Ret None else translate s v') as Htr.
  { intros v'. rewrite vmm_translate_ok by apply Hg2. rewrite Hs2. case_decide as Hp; [done|].
    rewrite Hs1, decide_False by done. symmetry. by apply vmm_translate_ok. }
  exists s2. split; [done|]. split; [done|]. split; [|split; [done|]].
  - split; [|intros Hall; specialize (Hall v); rewrite Htr, decide_True, vmm_translate_ok in Hall by done;
      by destruct (space s v)].
    intros Hnone v'. rewrite Htr. case_decide as Hp; [|done]. rewrite vmm_translate_ok by done.
    unfold space, entry_of, mapping in *. rewrite page_of_idx in Hp. rewrite !Hp by lia. by rewrite Hnone.
  - destruct (wp_elim _ _ _ (unmap_page_wp s2 v (gr_ok _ _ Hg2))) as (r&s3&E3&H3).
    simpl in H3. rewrite (gr_path _ _ Hg2 _ _ (valid_page v) Hpt) in H3.
    assert (entry_of s2 v = None) as Hn.
    { specialize (Hs2 v). rewrite decide_True in Hs2 by done. unfold space in Hs2. by destruct (entry_of s2 v). }
    rewrite Hn in H3. destruct H3 as [-> ->]. done.
Qed.

(** C22: [find_free_virtual_range] terminates within its [search_rounds] for every
    request of up to [2^50] pages and returns the lowest page-aligned user address
    from which that many pages are unmapped, or [OutOfMemory] exactly when there is
    no such address. *)
Theorem find_free_first_fit s count :
  space_ok s → 0 ≤ count ≤ 2 ^ 50 →
  ∃ r, find_free_virtual_range s count = Ret r ∧
    match r with
    | inr base => is_base base ∧ range_free s base count ∧
        ∀ b, is_base b → b < base → ¬ range_free s b count
    | inl e => e = OutOfMemory ∧ ∀ b, is_base b → ¬ range_free s b count
    end.
Proof. intros. by apply (returns_iff _ (first_free_range s count)), find_free_returns. Qed.

(** C16: [mmap] with [0 < prot < 0x1000], a length of at most [2^47] and a range that
    does not wrap around (in release a wrapped range passes the check,
    [vmm_user_range_cases]), from well-formed tables and free frames that hold unused
    entries.  It returns.  A result [a] is the requested address, inside user space, or
    the first free range when none was requested; every page of the range is mapped with
    [prot] to its own frame, which was free before, and every other page is as it was.
    A requested range outside user space is refused without any change.  [OutOfMemory]
    comes either from a search that finds no free range, without any change, or when
    frames run out, and then the pages mapped so far, a proper prefix of the range, stay
    mapped. *)
Theorem vmm_mmap_result s addr length prot flags :
  space_ok s → 0 < prot < 0x1000 → 0 ≤ addr → 0 ≤ length ≤ 2 ^ 47 → addr + length < 2 ^ 64 →
  let pages := (length + 0xFFF) / 0x1000 in
  let in_user := USER_SPACE_BASE ≤ addr ∧ addr + length < USER_SPACE_END in
  ∃ r s', mmap addr length prot flags s = Ret (r, s') ∧
  match r with
  | inr a =>
      (if addr =? 0 then first_free_range s pages (inr a) else a = addr ∧ in_user) ∧
      ∃ fs, Z.of_nat (List.length fs) = pages ∧ fresh_mapped s a prot fs s'
  | inl InvalidAddress => addr ≠ 0 ∧ ¬ in_user ∧ s' = s
  | inl OutOfMemory =>
      (addr = 0 ∧ s' = s ∧ ∀ b, is_base b → ¬ range_free s b pages) ∨
      ∃ a fs, (if addr =? 0 then first_free_range s pages (inr a) else a = addr ∧ in_user) ∧
        Z.of_nat (List.length fs) < pages ∧ fresh_mapped s a prot fs s'
  | inl _ => False
  end.
Proof.
  intros Hok Hprot Ha Hlen Hov pages in_user.
  assert (0 ≤ pages < 2 ^ 36) as Hpages by (unfold pages; Z.to_euclidean_division_equations; lia).
  assert (USER_SPACE_END = 0x800000000000) as EE by done.
  apply wp_elim. unfold mmap. apply wp_bind. eapply wp_read; [apply page_total_ok; lia|]. fold pages.
  destruct (Z.eqb_spec addr 0) as [->|Hne]; simpl.
  - apply wp_bind. unfold vm_find.
    destruct (proj1 (returns_iff _ _) (find_free_returns s pages Hok ltac:(lia))) as (r&Er&Hr).
    eapply wp_run; [by rewrite Er|]. destruct r as [e|b].
    { destruct Hr as [-> Hr]. left. done. }
    apply wp_bind. assert (is_base b) as [_ Hbr] by apply Hr.
    eapply wp_mono; [apply map_fresh_wp; [done|unfold USER_SPACE_BASE in *; lia|lia|lia|done]|].
    intros [e|[]] s' (fs&Hfs&Hr'); [destruct Hr' as (->&?&_); right; by exists b, fs|].
    apply wp_ret. split; [done|by exists fs].
  - apply wp_bind. eapply wp_read; [apply validate_user_range_ok; lia|]. fold in_user.
    case_bool_decide as Hin; simpl; [|done]. apply wp_bind. destruct Hin as [Hb Hin].
    eapply wp_mono; [apply map_fresh_wp; [done|lia|lia| |done]|].
    { unfold pages. Z.to_euclidean_division_equations. lia. }
    intros [e|[]] s' (fs&Hfs&Hr'); [destruct Hr' as (->&?&_); right; by exists addr, fs|].
    apply wp_ret. split; [done|by exists fs].
Qed.

(** What a fault on an absent page does: a fresh frame, which nobody has written. *)
Definition blank_mapped s (addr : Z) (r : VmmError + ()) s' : Prop :=
  match r with
  | inr _ => ∃ f, pg_free (source s) f ∧ ¬ pg_free (source s') f ∧ space_set s addr (Some (f, 0x03)) s' ∧
      ∀ i, 0 ≤ i < 512 → phys s' (f + 8 * i) = phys s (f + 8 * i) ∧ is_unused (phys s' (f + 8 * i)) = true
  | inl e => e = OutOfMemory ∧ ∀ v', space s' v' = space s v'
  end.

Lemma absent_fault_wp s addr code :
  space_ok s → Z.testbit code 0 = false →
  wp (handle_page_fault addr code) s (λ r s', space_ok s' ∧ blank_mapped s addr r s').
Proof.
  intros Hok Hc. unfold handle_page_fault. change 0x01 with (bit 0). rewrite land_bit_eqb, Hc by done. simpl.
  set (v := Z.land addr (wnot 64 0xFFF)). pose proof (page_of_align addr) as Hpage. fold v in Hpage.
  apply wp_bind, take_page_wp; [done|..].
  2:{ intros pg _ Hsub. split; [by eapply gr_ok, with_source_grows|done]. }
  intros f pg _ Hf Hnf Hsub. destruct (ok_frame _ _ _ Hok f Hf) as [Hfa Hfr].
  eapply wp_mono; [apply map_page_wp; [by eapply gr_ok, with_source_grows|done|lia|lia]|].
  intros [er|[]] s2 [Hg2 Hs2]; (split; [apply Hg2|]).
  { destruct Hs2 as (->&_&Hs2). split; [done|]. intros v'. by rewrite Hs2. }
  exists f. split; [done|]. split; [intros Hfr2; apply Hnf; by apply (gr_free _ _ Hg2)|]. split.
  { intros v'. rewrite Hs2, Hpage. done. }
  intros i Hi. assert (phys s2 (f + 8 * i) = phys s (f + 8 * i)) as Hph.
  { by apply (gr_data (with_source s pg) s2 f (8 * i) Hg2 (taken_data s pg f Hok Hf Hnf)); lia. }
  split; [done|]. rewrite Hph. by apply (ok_blank _ _ _ Hok).
Qed.

(** [is_cow_page] reads the mark of a mapped page. *)
Lemma is_cow_page_ok s v old fl :
  space_ok s → space s v = Some (old, fl) →
  is_cow_page s v = Ret (cow_enabled (mgr s) && Z.testbit fl 5).
Proof.
  intros Hok Hsp. unfold is_cow_page. destruct (cow_enabled (mgr s)); [|done].
  rewrite vmm_walk_ok by done. simpl. unfold space in Hsp.
  destruct (table_at s [idx 4 v; idx 3 v; idx 2 v]) as [pt|] eqn:Hpt; [|by rewrite entry_of_none in Hsp].
  destruct (page_entry s v pt Hok Hpt) as [-> He]. rewrite He in Hsp. simpl in Hsp. simpl.
  destruct (is_unused (phys s (pt + 8 * idx 1 v))); [done|]. injection Hsp as _ <-.
  change 0x20 with (bit 5). by rewrite land_bit_eqb, negb_involutive.
Qed.

(** C23: [handle_page_fault] on every branch.  A fault on an absent page (bit 0 of the
    code clear) maps the page to a frame that was free and that nobody has written,
    whatever the entry held before; a page that [mark_page_cow] marked is absent, so it
    takes this branch and is not copied.  A write to a present page (bits 0 and 1) with
    the copy-on-write mark, while the feature is enabled, maps the page, writable, to a
    frame that was free and gets the contents of the old frame, which keeps its own.
    Every other fault is [AccessDenied] without effect.  The two mapping branches fail
    only with [OutOfMemory] and then leave the address space as it was.  The tables are
    well-formed and free frames hold unused entries, and a protection fault concerns a
    mapped page whose frame is no page table. *)
Theorem page_fault_branches s addr code :
  space_ok s →
  (Z.testbit code 0 = true → ∃ old fl, space s addr = Some (old, fl) ∧ data_frame s old) →
  ∃ r s', handle_page_fault addr code s = Ret (r, s') ∧ space_ok s' ∧
  if negb (Z.testbit code 0) then blank_mapped s addr r s'
  else ∃ old fl, space s addr = Some (old, fl) ∧
    if Z.testbit code 1 && (cow_enabled (mgr s) && Z.testbit fl 5) then
      match r with
      | inr _ => ∃ f, pg_free (source s) f ∧ ¬ pg_free (source s') f ∧ space_set s addr (Some (f, 0x07)) s' ∧
          ∀ k, 0 ≤ k < 0x1000 → phys s' (f + k) = phys s (old + k) ∧ phys s' (old + k) = phys s (old + k)
      | inl e => e = OutOfMemory ∧ ∀ v', space s' v' = space s v'
      end
    else r = inl AccessDenied ∧ s' = s.
Proof.
  intros Hok Hpres. destruct (Z.testbit code 0) eqn:Hc0.
  2:{ destruct (wp_elim _ _ _ (absent_fault_wp s addr code Hok Hc0)) as (r&s'&E&Hok'&Hr). by exists r, s'. }
  destruct (Hpres eq_refl) as (old&fl&Hsp&Hold).
  set (v := Z.land addr (wnot 64 0xFFF)). pose proof (page_of_align addr) as Hpage. fold v in Hpage.
  assert (space s v = Some (old, fl)) as Hspv.
  { rewrite <-Hsp. unfold space, entry_of, mapping. rewrite page_of_idx in Hpage. by rewrite !Hpage by lia. }
  unfold handle_page_fault. fold v. change (Z.land code 0x01) with (Z.land code (bit 0)).
  change (Z.land code 0x02) with (Z.land code (bit 1)).
  rewrite !land_bit_eqb, Hc0, negb_involutive by done. cbn [negb]. unfold es_bind, es_read.
  destruct (Z.testbit code 1) eqn:Hc1; cbn [andb].
  2:{ exists (inl AccessDenied), s. split; [done|]. split; [done|]. by exists old, fl. }
  rewrite (is_cow_page_ok s v old fl) by done. cbn -[Z.testbit handle_cow_fault]. destruct (cow_enabled (mgr s) && Z.testbit fl 5) eqn:Hcow.
  2:{ exists (inl AccessDenied), s. split_and!; [done..|]. exists old, fl. by rewrite Hcow. }
  destruct (wp_elim _ _ _ (handle_cow_fault_wp s v old fl Hok Hspv Hold)) as (r&s'&E&Hok'&Hr).
  exists r, s'. split; [done|]. split; [done|]. exists old, fl. rewrite Hcow. split; [done|].
  destruct r as [e|[]]; [done|]. destruct Hr as (f&?&?&Hs&Hc). exists f. split; [done|]. split; [done|].
  split; [|done]. intros v'. rewrite Hs. by rewrite Hpage.
Qed.

(** What [mark_page_cow] and [protect_memory] do to a mapped page. *)
Lemma new_flags s v old fl fl' :
  space_ok s → space s v = Some (old, fl) → 0 < fl' < 0x1000 →
  ∃ pt e s', table_at s [idx 4 v; idx 3 v; idx 2 v] = Some pt ∧ phys s (pt + 8 * idx 1 v) = e ∧
    is_unused e = false ∧ entry_flags e = fl ∧
    write_entry s pt (pt_index v) (update_flags e fl') = Ret s' ∧ grows s s' ∧ source s' = source s ∧
    space_set s v (Some (old, fl')) s'.
Proof.
  intros Hok Hsp Hfl. unfold space in Hsp.
  destruct (table_at s [idx 4 v; idx 3 v; idx 2 v]) as [pt|] eqn:Hpt; [|by rewrite entry_of_none in Hsp].
  destruct (page_entry s v pt Hok Hpt) as [_ He]. rewrite He in Hsp. simpl in Hsp.
  set (e := phys s (pt + 8 * idx 1 v)) in *. destruct (is_unused e) eqn:Hu; [done|].
  injection Hsp as Ha Hf. destruct (update_flags_ok e fl' Hu Hfl) as (Hu'&Ha'&Hf').
  destruct (rewrite_entry s v pt (update_flags e fl') Hok Hpt) as (s'&Hw&Hg&_&Hsrc&Hs').
  exists pt, e, s'. do 7 (split; [done|]).
  intros v'. unfold space. rewrite Hs', Hu'. case_decide; simpl; [by rewrite Ha', Ha, Hf'|done].
Qed.

Definition cow_flags (fl : Z) : Z := Z.lor (Z.land fl (wnot 64 0x01)) 0x20.

Lemma cow_flags_range fl : 0 < fl < 0x1000 → 0 < cow_flags fl < 0x1000 ∧ Z.testbit (cow_flags fl) 0 = false.
Proof.
  intros Hfl. assert (in_u 12 (cow_flags fl)) as [Hlo Hhi].
  { apply lor_in_u; [done| |by vm_compute]. apply land_in_u_l; [done|unfold in_u; lia|].
    by destruct (wnot_in_u 64 0x01). }
  assert (Z.testbit (cow_flags fl) 5 = true) as H5.
  { unfold cow_flags. rewrite Z.lor_spec. by rewrite (orb_comm _ (Z.testbit 0x20 5)). }
  split; [split; [|lia]|].
  - destruct (decide (cow_flags fl = 0)) as [Hz|]; [by rewrite Hz in H5|lia].
  - unfold cow_flags. rewrite Z.lor_spec, Z.land_spec, wnot_spec by lia. by rewrite andb_false_r.
Qed.

Lemma marked_ok s addr old fl :
  space_ok s → space s addr = Some (old, fl) → 0 < fl < 0x1000 →
  ∃ s1, mark_page_cow s addr = Ret s1 ∧ grows s s1 ∧ source s1 = source s ∧
    space_set s addr (Some (old, cow_flags fl)) s1.
Proof.
  intros Hok Hsp Hfl. destruct (cow_flags_range fl Hfl) as [Hr Hp0].
  destruct (new_flags s addr old fl (cow_flags fl) Hok Hsp Hr) as (pt&e&s1&Hpt&He&Hu&Hef&Hw&Hg&Hsrc&Hs1).
  exists s1. split; [|done]. unfold mark_page_cow. rewrite vmm_walk_ok, Hpt by done. simpl.
  destruct (page_entry s addr pt Hok Hpt) as [-> _]. simpl. rewrite He, Hu, Hef. exact Hw.
Qed.

(** The first write to a page that [mark_page_cow] marked loses its contents.
    Marking clears the present bit, so the processor reports the next access with bit
    0 of the error code clear; [handle_page_fault] then does not copy but maps a fresh
    frame, in which no word has been written, and the page no longer leads to the old
    frame. *)
Theorem marked_page_loses_data s addr code old fl :
  space_ok s → space s addr = Some (old, fl) → 0 < fl < 0x1000 → Z.testbit code 0 = false →
  ∃ s1, mark_page_cow s addr = Ret s1 ∧ space_set s addr (Some (old, cow_flags fl)) s1 ∧
    Z.testbit (cow_flags fl) 0 = false ∧
    ∃ r s2, handle_page_fault addr code s1 = Ret (r, s2) ∧
    match r with
    | inr _ => ∃ f, pg_free (source s) f ∧ space_set s addr (Some (f, 0x03)) s2 ∧
        ∀ i, 0 ≤ i < 512 → phys s2 (f + 8 * i) = phys s1 (f + 8 * i) ∧ is_unused (phys s2 (f + 8 * i)) = true
    | inl e => e = OutOfMemory
    end.
Proof.
  intros Hok Hsp Hfl Hc. destruct (cow_flags_range fl Hfl) as [_ Hp0].
  destruct (marked_ok s addr old fl Hok Hsp Hfl) as (s1&Hm&Hg&Hsrc&Hs1).
  exists s1. split; [done|]. split; [done|]. split; [done|].
  destruct (wp_elim _ _ _ (absent_fault_wp s1 addr code (gr_ok _ _ Hg) Hc)) as (r&s2&E&_&Hr).
  exists r, s2. split; [done|]. destruct r as [er|[]]; [by destruct Hr|].
  destruct Hr as (f&Hf&_&Hs2&Hw2). exists f. rewrite <-Hsrc. split; [done|]. split; [|done].
  intros v'. rewrite Hs2, Hs1. by case_decide.
Qed.

(** *** Strings *)

(** The buffer after [n] bytes of the string at [src]. *)
Definition string_prefix s (src : Z) (buf b : list Z) (n : Z) : Prop :=
  length b = length buf ∧
  (∀ i, 0 ≤ i < n → b !! Z.to_nat i = Some (user s (src + i)) ∧ user s (src + i) ≠ 0) ∧
  ∀ i, n ≤ i → b !! Z.to_nat i = buf !! Z.to_nat i.

Lemma buf_set_ok b n v : 0 ≤ n < Z.of_nat (length b) → buf_set b n v = Ret (<[Z.to_nat n := v]> b).
Proof.
  intros Hn. unfold buf_set. destruct (b !! Z.to_nat n) eqn:E; [done|].
  apply lookup_ge_None in E. lia.
Qed.

(** The result of a string copy: [n] bytes before the first zero or before the end
    of the buffer, a zero behind them, and nothing else. *)
Definition string_copied s (src : Z) (buf : list Z) (n : Z) (b : list Z) : Prop :=
  0 ≤ n < Z.of_nat (length buf) ∧ length b = length buf ∧
  (∀ i, 0 ≤ i < n → b !! Z.to_nat i = Some (user s (src + i)) ∧ user s (src + i) ≠ 0) ∧
  (n = Z.of_nat (length buf) - 1 ∨ user s (src + n) = 0) ∧
  b !! Z.to_nat n = Some 0 ∧ ∀ i, n < i → b !! Z.to_nat i = buf !! Z.to_nat i.

Lemma string_finish s src buf b n :
  0 ≤ n < Z.of_nat (length buf) → string_prefix s src buf b n →
  (n = Z.of_nat (length buf) - 1 ∨ user s (src + n) = 0) →
  string_copied s src buf n (<[Z.to_nat n := 0]> b).
Proof.
  intros Hn (Hl&Hlow&Hhi) Hend. split; [done|]. rewrite length_insert. split; [done|].
  split; [|split; [done|split]].
  - intros i Hi. rewrite list_lookup_insert_ne by lia. by apply Hlow.
  - rewrite list_lookup_insert_eq by lia. done.
  - intros i Hi. rewrite list_lookup_insert_ne by lia. apply Hhi. lia.
Qed.

(** [copy_string_from_user] is exact.  For a buffer that is not empty and a
    source whose bytes up to the buffer's length are in user space, it copies the
    bytes before the first zero, or as many as leave room for the terminator, returns
    their number, terminates them with a zero and leaves the rest of the buffer. *)
Theorem vmm_string_copy_exact s buf src :
  buf ≠ [] → USER_SPACE_BASE ≤ src → src + 1 < USER_SPACE_END →
  src + Z.of_nat (length buf) ≤ USER_SPACE_END →
  ∃ n b, copy_string_from_user s buf src = Ret (inr n, b) ∧ string_copied s src buf n b.
Proof.
  intros Hne Hb He1 He. assert (USER_SPACE_BASE = 0x100000) as EB by done.
  assert (USER_SPACE_END = 0x800000000000) as EE by done.
  assert (1 ≤ Z.of_nat (length buf)) as Hlen by (destruct buf; simpl; [done|lia]).
  cut (returns (copy_string_from_user s buf src) (λ x, ∃ n b, x = (inr n, b) ∧ string_copied s src buf n b)).
  { intros (x&Hx&n&b&->&Hc)%returns_iff. eauto. }
  unfold copy_string_from_user. rewrite validate_user_range_ok by lia. simpl.
  rewrite bool_decide_true by lia. simpl. rewrite usub_ok by (unfold in_u; lia). simpl.
  set (limit := Z.of_nat (length buf) - 1). apply returns_bind. eapply returns_mono.
  { apply (for_range_inv (λ n b, string_prefix s src buf b n)
      (λ r, ∃ n b, r = (Some n, b) ∧ 0 ≤ n < Z.of_nat (length b) ∧
         string_copied s src buf n (<[Z.to_nat n := 0]> b))); [lia|split; [done|split; [lia|done]]|].
    intros i b Hi (Hl&Hlow&Hhi). rewrite uadd_ok by (unfold in_u; lia). simpl.
    rewrite validate_user_range_ok by lia. simpl. rewrite bool_decide_true by lia. simpl.
    rewrite buf_set_ok by lia. simpl. destruct (Z.eqb_spec (user s (src + i)) 0) as [Hz|Hz].
    - eexists i, _. split; [done|]. rewrite length_insert. split; [lia|].
      rewrite list_insert_insert_eq. apply string_finish; [lia|done|by right].
    - split; [by rewrite length_insert|]. split.
      + intros j Hj. destruct (decide (j = i)) as [->|]; [by rewrite list_lookup_insert_eq by lia|].
        rewrite list_lookup_insert_ne by lia. apply Hlow. lia.
      + intros j Hj. rewrite list_lookup_insert_ne by lia. apply Hhi. lia. }
  intros [b|r].
  - intros Hp. rewrite buf_set_ok by (destruct Hp as [-> _]; lia). simpl. eexists limit, _. split; [done|].
    apply string_finish; [lia|done|by left].
  - intros (n&b&->&Hn&Hc). rewrite buf_set_ok by lia. simpl. eauto.
Qed.

(** [validate_user_range] for all machine words.  Without overflow it accepts
    exactly the non-wrapping ranges that end below [USER_SPACE_END].  When start plus
    length overflows, the dev profile panics and the release profile accepts every
    range whose start is in user space and whose wrapped end is below
    [USER_SPACE_END], although the range covers the rest of the address space. *)
Theorem vmm_user_range_cases start len :
  in_u 64 start → in_u 64 len →
  validate_user_range start len =
    if decide (start + len < 2 ^ 64)
    then Ret (bool_decide (USER_SPACE_BASE ≤ start ∧ start + len < USER_SPACE_END))
    else if overflow_checks then Panic
    else Ret (bool_decide (USER_SPACE_BASE ≤ start < USER_SPACE_END ∧ start + len - 2 ^ 64 < USER_SPACE_END)).
Proof.
  intros [Hs1 Hs2] [Hl1 Hl2]. case_decide as Hov; [by apply validate_user_range_ok|].
  unfold validate_user_range, uadd, checked.
  rewrite (proj2 (Z.leb_le 0 (start + len))), (proj2 (Z.ltb_ge (start + len) (2 ^ 64))) by lia. simpl.
  destruct overflow_checks; [done|]. simpl. f_equal.
  replace ((start + len) mod 2 ^ 64) with (start + len - 2 ^ 64).
  2:{ rewrite <-(Z.mod_small (start + len - 2 ^ 64) (2 ^ 64)) by lia.
      by rewrite <-(Z.mod_add (start + len - 2 ^ 64) 1), Z.mul_1_l, Z.sub_add by lia. }
  destruct (Z.leb_spec USER_SPACE_END (start + len - 2 ^ 64)), (Z.leb_spec USER_SPACE_END start),
    (Z.ltb_spec start USER_SPACE_BASE); case_bool_decide; simpl; (done || lia).
Qed.
End thms.

(** ** A concrete machine *)

(** Entries that keep the address in the upper bits and the flags in the lower 12. *)
#[export] Instance plain_entry : PageEntry := {
  is_unused e := e =? 0;
  entry_addr e := e - e mod 0x1000;
  entry_flags e := e mod 0x1000;
  entry_set _ p f := p + f;
  set_unused _ := 0;
  update_flags e f := e - e mod 0x1000 + f
}.

#[export] Instance plain_entry_laws : PageEntryLaws.
Proof.
  split; simpl; [done|done|..].
  - intros e. Z.to_euclidean_division_equations. lia.
  - intros _ p f Hp Hr Hf. rewrite Z.eqb_neq. Z.to_euclidean_division_equations. lia.
  - intros e f _ Hf. rewrite Z.eqb_neq. Z.to_euclidean_division_equations. lia.
Qed.

(** A page source that hands out frames by number, in order, up to a limit. *)
Record Bump := mkBump { bump_next : Z; bump_limit : Z }.
#[export] Instance bump_source : PageSource Bump := λ pg n,
  if (1 <=? bump_next pg) && (bump_next pg + n <=? Z.min (bump_limit pg) (2 ^ 40))
  then (Some (bump_next pg * 0x1000), mkBump (bump_next pg + n) (bump_limit pg))
  else (None, pg).

Definition bump_free (pg : Bump) (a : Z) : Prop :=
  ∃ k, a = k * 0x1000 ∧ 1 ≤ bump_next pg ≤ k ∧ k < Z.min (bump_limit pg) (2 ^ 40).

#[export] Instance bump_laws : PageSourceLaws Bump.
Proof.
  apply (Build_PageSourceLaws _ _ bump_free); unfold bump_free.
  - intros pg a (k&->&Hk1&Hk2). split; [by apply Z.mod_mul|lia].
  - intros pg n a pg' Hn. unfold alloc_pages, bump_source. case_match eqn:E; [|done].
    intros [= <- <-]. apply andb_true_iff in E as [?%Z.leb_le ?%Z.leb_le]. simpl. split.
    + intros i Hi. exists (bump_next pg + i). split; [lia|]. lia.
    + intros b. split.
      * intros (k&->&Hk). split; [exists k; split; [done|lia]|]. intros i Hi. lia.
      * intros [(k&->&Hk1&Hk2) Hne]. exists k. split; [done|]. split; [|lia].
        destruct (decide (bump_next pg + n ≤ k)); [lia|].
        destruct (Hne (k - bump_next pg)); [lia|lia].
  - intros pg n pg'. unfold alloc_pages, bump_source. case_match; [done|]. by intros [= <-].
Defined.

(** A manager whose tables are empty, at frame 1, with frames 2 to 63 free. *)
Definition empty_space : Space Bump :=
  mkSpace (manager_at 0x1000 7) (λ _, 0) (λ a, a mod 7) (mkBump 2 64) 0.

Lemma empty_path p : path (λ _, 0) 0x1000 p = match p with [] => Some 0x1000 | _ => None end.
Proof. by destruct p. Qed.

Lemma empty_space_ok : space_ok empty_space.
Proof.
  split; [done|..]; unfold root; simpl.
  - intros p q a _ _. rewrite !empty_path. by destruct p, q.
  - intros p a _. rewrite empty_path. destruct p; [|done]. intros [= <-] (k&?&Hk&?). simpl in Hk. lia.
  - intros a (k&->&Hk1&Hk2). simpl in Hk1, Hk2. split; [by apply Z.mod_mul|lia].
  - done.
Qed.

(** The same after page [0x200000] was mapped to a frame of its own. *)
Definition one_page : Space Bump :=
  match map_page 0x200000 0x40000 0x07 empty_space with
  | Ret (_, s) => s
  | _ => empty_space
  end.

Lemma one_page_spec :
  grows empty_space one_page ∧ space one_page 0x200000 = Some (0x40000, 0x07).
Proof.
  pose proof (map_page_wp empty_space 0x200000 0x40000 0x07 empty_space_ok
    eq_refl ltac:(lia) ltac:(lia)) as H.
  assert (∃ s, map_page 0x200000 0x40000 0x07 empty_space = Ret (inr (), s)) as [s E].
  { eexists. vm_compute. reflexivity. }
  unfold wp in H. rewrite E in H. destruct H as [Hg Hs]. simpl in *.
  unfold one_page. rewrite E. split; [done|]. rewrite Hs. by rewrite decide_True.
Qed.

Lemma one_page_data : data_frame one_page 0x40000.
Proof.
  eapply data_frame_grows; [apply one_page_spec|]. split; [done|]. split.
  - intros (k&?&?&Hk). simpl in Hk. lia.
  - intros p _. unfold table_at, root. simpl. rewrite empty_path. by destruct p.
Qed.

(** ** Witnesses *)

Lemma vmm_map_page_refines_witness :
  ∃ r s', map_page 0x200123 0x40000 0x07 empty_space = Ret (r, s') ∧ space_ok s'.
Proof.
  destruct (vmm_map_page_refines empty_space 0x200123 0x40000 0x07 empty_space_ok eq_refl
    ltac:(lia) ltac:(lia)) as (r&s'&E&Hok&_). exists r, s'. exact (conj E Hok).
Defined.

Lemma vmm_unmap_restores_witness : ∃ s2, unmap_page 0x200000 one_page = Ret (inr (), s2).
Proof.
  destruct (vmm_unmap_restores empty_space 0x200000 0x40000 0x07 one_page empty_space_ok eq_refl
    ltac:(lia) ltac:(lia)) as (s2&E&_); [by vm_compute|]. exact (ex_intro _ s2 E).
Defined.

Lemma find_free_first_fit_witness :
  ∃ r, find_free_virtual_range (prof := dev) one_page 3 = Ret r.
Proof.
  destruct (find_free_first_fit (prof := dev) one_page 3) as (r&E&_);
    [apply one_page_spec|lia|]. exact (ex_intro _ r E).
Defined.

Lemma vmm_mmap_result_witness :
  ∃ r s', mmap (prof := release) 0x300000 0x1800 0x07 0 one_page = Ret (r, s').
Proof.
  destruct (vmm_mmap_result (prof := release) one_page 0x300000 0x1800 0x07 0) as (r&s'&E&_);
    [apply one_page_spec|lia..|]. exists r, s'. exact E.
Defined.

(** A write fault on a present page with the mark, and one on the page that
    [mark_page_cow] left absent. *)
Lemma page_fault_branches_witness :
  (∃ s r s', handle_page_fault 0x200010 0x07 s = Ret (r, s') ∧ space_ok (Pg := Bump) s') ∧
  ∃ s1 r s', mark_page_cow one_page 0x200000 = Ret s1 ∧ handle_page_fault 0x200010 0x06 s1 = Ret (r, s') ∧
    blank_mapped s1 0x200010 r s'.
Proof.
  destruct one_page_spec as [Hg Hs]. split.
  - destruct (new_flags one_page 0x200000 0x40000 0x07 0x27) as (pt&e&s&_&_&_&_&_&Hg2&_&Hs2);
      [apply Hg|done|lia|].
    assert (space s 0x200010 = Some (0x40000, 0x27)) as Hv by (rewrite Hs2; by rewrite decide_True).
    exists s. destruct (page_fault_branches s 0x200010 0x07 (gr_ok _ _ Hg2)) as (r&s'&E&Hok&_).
    { intros _. exists 0x40000, 0x27. split; [done|]. exact (data_frame_grows _ _ _ Hg2 one_page_data). }
    exists r, s'. exact (conj E Hok).
  - destruct (mark_page_cow one_page 0x200000) as [s1| | |] eqn:E1; [|by vm_compute in E1..].
    assert (space_ok s1) as Hok1.
    { destruct (marked_ok one_page 0x200000 0x40000 0x07) as (s1'&E1'&Hg1&_); [apply Hg|done|lia|].
      rewrite E1 in E1'. injection E1' as ->. apply Hg1. }
    destruct (page_fault_branches s1 0x200010 0x06 Hok1) as (r&s'&E&_&Hb); [done|].
    exists s1, r, s'. exact (conj eq_refl (conj E Hb)).
Defined.

Lemma marked_page_loses_data_witness : ∃ s1, mark_page_cow one_page 0x200000 = Ret s1.
Proof.
  destruct one_page_spec as [Hg Hs].
  destruct (marked_page_loses_data one_page 0x200000 0x06 0x40000 0x07) as (s1&E&_);
    [apply Hg|done|lia|done|]. exact (ex_intro _ s1 E).
Defined.

Lemma vmm_string_copy_exact_witness :
  ∃ n b, copy_string_from_user (prof := dev) empty_space [9; 9; 9; 9; 9; 9; 9; 9] 0x100000 = Ret (inr n, b).
Proof.
  destruct (vmm_string_copy_exact (prof := dev) empty_space [9; 9; 9; 9; 9; 9; 9; 9] 0x100000) as (n&b&E&_);
    [done..|]. exists n, b. exact E.
Defined.

Lemma vmm_user_range_cases_witness :
  validate_user_range (prof := release) 0x100000 (2 ^ 64 - 1) = Ret true.
Proof. by rewrite (vmm_user_range_cases (prof := release) 0x100000 (2 ^ 64 - 1)) by (unfold in_u; lia). Defined.

(** ** Counterexamples *)

(** [map_page] does not clear the frames it turns into tables: with an old word in
    the third frame, mapping one page also maps its neighbour. *)
Lemma dirty_table_maps_neighbour :
  let s := with_phys empty_space (λ a, if a =? 0x4008 then 0x7007 else 0) in
  translate s 0x201000 = Ret None ∧
  returns (map_page 0x200000 0x40000 0x07 s) (λ rs, rs.1 = inr () ∧ translate rs.2 0x201000 = Ret (Some 0x7000)).
Proof. by vm_compute. Qed.

(** Mapping a page again counts it again. *)
Lemma remap_counted_twice :
  page_count (mgr one_page) = 4 ∧
  returns (map_page 0x200000 0x41000 0x07 one_page) (λ rs, page_count (mgr rs.2) = 5).
Proof. by vm_compute. Qed.

(** Three pages, in the first, the second and the 513th gigabyte. *)
Definition three_pages : VM Bump () := es_for 0 3 (λ i,
  map_page (default 0 ([0x200000; 2 ^ 30; 2 ^ 39] !! Z.to_nat i)) 0x40000 0x07).

(** The three translations in the address space of a manager. *)
Definition three_translations (s : Space Bump) (v : VirtualMemoryManager) : list (outcome (option Z)) :=
  translate (with_mgr s v) <$> [0x200000; 2 ^ 30; 2 ^ 39].

(** [clone_address_space] copies the first gigabyte only.  [clone_pd] and
    [clone_pt] look for the tables they copy behind entry 0 of the PML4, [clone_pt]
    also behind entry 0 of the next table, so of three mapped pages the clone has
    the one below 1 GiB; the call succeeds. *)
Theorem clone_copies_first_gigabyte :
  returns (es_bind three_pages (λ _, clone_address_space) empty_space) (λ rs,
    three_translations rs.2 (mgr rs.2) = [Ret (Some 0x40000); Ret (Some 0x40000); Ret (Some 0x40000)] ∧
    match rs.1 with
    | inr v => three_translations rs.2 v = [Ret (Some 0x40000); Ret None; Ret None]
    | inl _ => False
    end).
Proof. by vm_compute. Qed.
