(* ===== verification/VmmPhysical.v ===== *)
(** * User memory on physical frames

    memory/virtual.rs takes its frames from [physical::alloc_pages], which
    memory/physical.rs does not define.  This file runs the user memory manager on
    the contiguous allocator that file does define: [PhysicalMemoryManager] satisfies
    the laws the manager's theorems rely on, and with them the two components are
    proved together. *)

From S2P Require Import Prelude Physical PhysicalSpec PageIndex Vmm VmmSpec VmmTheorems.
Open Scope Z_scope.

(** A well-formed manager of [N] frames whose addresses fit an entry, with frame 0
    never handed out. *)
Definition managed (N : Z) (s : PhysicalMemoryManager) : Prop :=
  wf s ∧ total_frames s = N ∧ N ≤ 2 ^ 40 ∧ allocated s 0 = true.

#[export] Instance wf_dec s : Decision (wf s).
Proof.
  refine (cast_if (decide ((0 ≤ total_frames s < 2 ^ 52) ∧
    Z.of_nat (length (bitmap_words s)) = (total_frames s + 63) / 64 ∧
    Forall (in_u 64) (bitmap_words s) ∧ in_u 64 (used_frames s) ∧ in_u 64 (reserved_frames s) ∧
    in_u 64 (max_reserved_frame s)))).
  - split; naive_solver.
  - intros []. naive_solver.
Defined.
#[export] Instance managed_dec N s : Decision (managed N s) := _.

Record Frames (N : Z) := mkFrames { pmm : PhysicalMemoryManager; pmm_managed : managed N pmm }.
Arguments mkFrames {N}.
Arguments pmm {N}.
Arguments pmm_managed {N}.

Section source.
Context {prof : Profile} {N : Z}.

(** [alloc_pages] by [alloc_frames_contiguous], with requests larger than memory
    refused. *)
#[export] Instance frame_source : PageSource (Frames N) := λ pg n,
  if decide (0 < n ≤ N) then
    match alloc_frames_contiguous (pmm pg) n with
    | Ret (r, s') => match decide (managed N s') with left H => (r, mkFrames s' H) | right _ => (None, pg) end
    | _ => (None, pg)
    end
  else (None, pg).

Definition free_frame_no (pg : Frames N) (f : Z) : Prop := 0 ≤ f < N ∧ allocated (pmm pg) f = false.
Definition frame_free (pg : Frames N) (a : Z) : Prop := ∃ f, a = f * 0x1000 ∧ free_frame_no pg f.

(** One statement for both branches of [alloc_frames_contiguous]. *)
Lemma contiguous_any s n :
  managed N s → 0 < n ≤ N →
  returns (alloc_frames_contiguous s n) (λ '(r, s'),
    managed N s' ∧
    match r with
    | Some a => ∃ f, a = f * 0x1000 ∧ free_run s n f ∧ ∀ g, allocated s' g = allocated s g || in_range f n g
    | None => s' = s ∧ ∀ f, ¬ free_run s n f
    end).
Proof.
  intros (Hwf&HN&HN40&H0) Hn.
  assert (∀ P s', took P n s s' → managed N s') as Hm.
  { intros P s' [Hw Ht Ha _ _]. split_and!; [done|by rewrite Ht|done|]. by rewrite Ha, H0. }
  destruct (decide (n = 1)) as [->|].
  - eapply returns_mono; [by apply (alloc_frame_ok s)|]. intros [[a|] s']; simpl.
    + intros (f&->&Hf&_&Hfree&Ht&_). split; [by eapply Hm|]. exists f. split; [done|].
      split; [split_and!; [lia|lia|]; intros g Hg; by replace g with f by lia|].
      intros g. rewrite (took_alloc _ _ _ _ Ht). f_equal. unfold in_range. lia.
    + intros [-> Hno]. split; [done|]. split; [done|]. intros f (Hf0&Hf1&Hf).
      specialize (Hno f ltac:(lia)). unfold free_at in Hno. by rewrite Hf in Hno by lia.
  - eapply returns_mono; [apply (alloc_contiguous_ok s n); [done|lia]|]. intros [[a|] s']; simpl.
    + intros (f&->&Hrun&_&Ht). split; [by eapply Hm|]. exists f. split; [done|]. split; [done|].
      apply (took_alloc _ _ _ _ Ht).
    + intros [-> Hno]. by split.
Qed.

(** What [alloc_pages] does, for any request. *)
Lemma frame_source_cases pg n :
  match alloc_pages pg n with
  | (Some a, pg') => 0 < n ≤ N ∧ ∃ f, a = f * 0x1000 ∧ free_run (pmm pg) n f ∧
      ∀ g, allocated (pmm pg') g = allocated (pmm pg) g || in_range f n g
  | (None, pg') => pmm pg' = pmm pg ∧ (0 < n ≤ N → ∀ f, ¬ free_run (pmm pg) n f)
  end.
Proof.
  unfold alloc_pages, frame_source. destruct (decide (0 < n ≤ N)) as [Hn|Hn]; [|done].
  destruct (proj1 (returns_iff _ _) (contiguous_any (pmm pg) n (pmm_managed pg) Hn))
    as ([r s']&->&Hm&Hr).
  destruct (decide (managed N s')); [|done]. destruct r; simpl; [by split|]. by destruct Hr as [-> ?].
Qed.

#[export] Instance frame_source_laws : PageSourceLaws (Frames N).
Proof.
  apply (Build_PageSourceLaws _ _ frame_free).
  - intros pg a (f&->&Hf&Ha). destruct (pmm_managed pg) as (_&_&HN&H0).
    assert (f ≠ 0) by congruence. split; [by apply Z.mod_mul|lia].
  - intros pg n a pg' _ E. pose proof (frame_source_cases pg n) as H. rewrite E in H.
    destruct H as (Hn&f&->&(Hf0&Hf1&Hf)&Hal). destruct (pmm_managed pg) as (_&Ht&_). split.
    + intros i Hi. exists (f + i). split; [lia|]. split; [lia|apply Hf; lia].
    + intros b. unfold frame_free, free_frame_no. split.
      * intros (g&->&Hg&Hfree). rewrite Hal in Hfree. apply orb_false_iff in Hfree as [Hfree Hout].
        split; [by exists g|]. intros i Hi Heq.
        assert (in_range f n g = true) by (apply in_range_true; lia). congruence.
      * intros [(g&->&Hg&Hfree) Hne]. exists g. split; [done|]. split; [done|]. rewrite Hal, Hfree. simpl.
        destruct (in_range f n g) eqn:Hin; [|done]. apply in_range_true in Hin.
        destruct (Hne (g - f)); lia.
  - intros pg n pg' E b. pose proof (frame_source_cases pg n) as H. rewrite E in H.
    destruct H as [H _]. unfold frame_free, free_frame_no. by rewrite H.
Defined.
End source.

(** [mmap] at a requested address, for any page source. *)
Lemma mmap_at_wp {prof : Profile} `{!PageEntry, !PageEntryLaws} {Pg : Type}
    `{!PageSource Pg, !PageSourceLaws Pg} (s : Space Pg) addr length prot flags :
  space_ok s → 0 < prot < 0x1000 → USER_SPACE_BASE ≤ addr → 0 ≤ length → addr + length < USER_SPACE_END →
  wp (mmap addr length prot flags) s (λ r s', ∃ fs, fresh_mapped s addr prot fs s' ∧
    match r with
    | inr a => a = addr ∧ Z.of_nat (List.length fs) = (length + 0xFFF) / 0x1000
    | inl e => e = OutOfMemory ∧ ∃ pg, alloc_pages pg 1 = (None, source s')
    end).
Proof.
  intros Hok Hprot Hlo Hlen Hhi. assert (USER_SPACE_END = 0x800000000000) as EE by done.
  assert (USER_SPACE_BASE = 0x100000) as EB by done.
  unfold mmap. apply wp_bind. eapply wp_read; [apply page_total_ok; lia|].
  destruct (Z.eqb_spec addr 0); [lia|]. simpl.
  apply wp_bind. eapply wp_read; [apply validate_user_range_ok; lia|].
  rewrite bool_decide_true by done. simpl. apply wp_bind.
  eapply wp_mono; [apply map_fresh_wp; [done|lia|..|done]; Z.to_euclidean_division_equations; lia|].
  intros [e|[]] s' (fs&Hfs&Hr); [|apply wp_ret; by exists fs].
  exists fs. split; [done|]. by destruct Hr as (->&_&?).
Qed.

Section both.
Context {prof : Profile} `{!PageEntry, !PageEntryLaws} {N : Z}.
Implicit Types (s : Space (Frames N)).

(** Bit [f] of the bitmap behind a user memory manager. *)
Definition marked s (f : Z) : bool := allocated (pmm (source s)) f.

Lemma free_marked s a : pg_free (source s) a ↔ ∃ f, a = f * 0x1000 ∧ 0 ≤ f < N ∧ marked s f = false.
Proof. done. Qed.

(** The source refuses a single frame only when none is left. *)
Lemma refused_full (pg pg' : Frames N) f :
  alloc_pages pg 1 = (None, pg') → 0 ≤ f < N → allocated (pmm pg') f = true.
Proof.
  intros E Hf. pose proof (frame_source_cases pg 1) as H1. rewrite E in H1. destruct H1 as [-> Hno].
  destruct (pmm_managed pg) as (_&Ht&_). destruct (allocated (pmm pg) f) eqn:Ea; [done|].
  destruct (Hno ltac:(lia) f). split_and!; [lia|lia|]. intros g Hg. by replace g with f by lia.
Qed.

(** [mmap] at a requested address, on the frames of [PhysicalMemoryManager].  In
    every well-formed state (free frames hold unused entries) a request inside user
    space with [0 < prot < 0x1000] returns.  The bitmap stays
    that of a well-formed manager and no frame is released.  The pages mapped, from
    the first on, lead to distinct frames whose bits were clear before and are set
    now; on success these are all pages, and the call fails only with [OutOfMemory]
    and only when every bit of the bitmap is set. *)
Theorem mmap_on_physical_frames s addr length prot flags :
  space_ok s → 0 < prot < 0x1000 → USER_SPACE_BASE ≤ addr → 0 ≤ length →
  addr + length < USER_SPACE_END →
  ∃ r s' fs, mmap addr length prot flags s = Ret (r, s') ∧ space_ok s' ∧ wf (pmm (source s')) ∧
    (∀ f, 0 ≤ f < N → marked s f = true → marked s' f = true) ∧
    NoDup fs ∧
    (∀ j f, fs !! j = Some f → space s' (addr + Z.of_nat j * 0x1000) = Some (f * 0x1000, prot) ∧
       0 ≤ f < N ∧ marked s f = false ∧ marked s' f = true) ∧
    match r with
    | inr a => a = addr ∧ Z.of_nat (List.length fs) = (length + 0xFFF) / 0x1000
    | inl e => e = OutOfMemory ∧ ∀ f, 0 ≤ f < N → marked s' f = true
    end.
Proof.
  intros Hok Hprot Hlo Hlen Hhi.
  destruct (wp_elim _ _ _ (mmap_at_wp s addr length prot flags Hok Hprot Hlo Hlen Hhi))
    as (r&s'&E&fs&Hfs&Hr). pose proof (fm_grows _ _ _ _ _ Hfs) as Hg.
  exists r, s', ((λ a, a / 0x1000) <$> fs).
  assert (∀ f, f ∈ fs → ∃ k, f = k * 0x1000 ∧ 0 ≤ k < N ∧ marked s k = false ∧ marked s' k = true) as Hmem.
  { intros f Hf. destruct (fm_fresh _ _ _ _ _ Hfs f Hf) as [(k&->&Hk&Hfree) (_&Hnf&_)].
    exists k. split_and!; [done|lia..|done|]. destruct (marked s' k) eqn:Em; [done|].
    destruct Hnf. by exists k. }
  split; [done|]. split; [apply Hg|]. split; [apply (pmm_managed (source s'))|]. split_and!.
  - intros f Hf Hm. destruct (marked s' f) eqn:Em; [done|].
    destruct (gr_free _ _ Hg (f * 0x1000)) as (g&Hgf&_&Hfree); [by exists f|].
    assert (g = f) as -> by lia. change (marked s f = false) in Hfree. congruence.
  - apply NoDup_fmap_2_strong; [|apply Hfs]. intros x y Hx Hy.
    destruct (Hmem x Hx) as (k&->&_), (Hmem y Hy) as (k'&->&_). rewrite !Z.div_mul by done. by intros ->.
  - intros j f. rewrite list_lookup_fmap. destruct (fs !! j) as [a|] eqn:Ej; [|done]. intros [= <-].
    destruct (Hmem a (list_elem_of_lookup_2 _ _ _ Ej)) as (k&->&Hk&H1&H2). rewrite Z.div_mul by done.
    split_and!; [by apply (fm_map _ _ _ _ _ Hfs)|lia..|done|done].
  - destruct r as [e|a].
    + destruct Hr as (->&pg&Hpg). split; [done|]. intros f. by apply (refused_full pg).
    + by rewrite length_fmap.
Qed.
End both.

(** ** A machine of 64 frames, of which the first two are taken, in the dev profile. *)
#[local] Existing Instance dev.

Definition small_pmm : PhysicalMemoryManager :=
  {| bitmap := 0x200000; bitmap_words := [3]; total_frames := 64;
     used_frames := 1; reserved_frames := 1; max_reserved_frame := 2 |}.
Lemma small_managed : managed 64 small_pmm.
Proof. apply (bool_decide_unpack _). by vm_compute. Qed.
Definition small_space : Space (Frames 64) :=
  mkSpace (manager_at 0x1000 7) (λ _, 0) (λ a, a mod 7) (mkFrames small_pmm small_managed) 0.

Lemma small_free k : frame_free (mkFrames small_pmm small_managed) (k * 0x1000) → 2 ≤ k < 64.
Proof.
  intros (f&Hf&Hr&Ha). assert (f = k) as -> by lia. split; [|lia].
  destruct (decide (2 ≤ k)); [done|]. assert (k = 0 ∨ k = 1) as [-> | ->] by lia; by vm_compute in Ha.
Qed.

Lemma small_space_ok : space_ok small_space.
Proof.
  split; [done|..]; unfold root; simpl.
  - intros p q a _ _. rewrite !empty_path. by destruct p, q.
  - intros p a _. rewrite empty_path. destruct p; [|done]. intros [= <-] Hf.
    pose proof (small_free 1 Hf). lia.
  - intros a (k&->&Hf). assert (2 ≤ k < 64) by (apply small_free; by exists k).
    split; [by apply Z.mod_mul|lia].
  - done.
Qed.

Lemma mmap_on_physical_frames_witness :
  ∃ r s', mmap 0x200000 0x3000 0x07 0 small_space = Ret (r, s') ∧ wf (pmm (source s')).
Proof.
  destruct (mmap_on_physical_frames small_space 0x200000 0x3000 0x07 0 small_space_ok
    ltac:(lia) ltac:(done) ltac:(lia) ltac:(done)) as (r&s'&_&E&_&Hw&_). exists r, s'. exact (conj E Hw).
Defined.

(** Three pages and the three tables above them take six frames. *)
Example mmap_takes_six_frames :
  match mmap 0x200000 0x3000 0x07 0 small_space with
  | Ret (inr a, s') => (a, used_frames (pmm (source s')), space s' 0x202fff)
  | _ => (0, 0, None)
  end = (0x200000, 7, Some (0x7000, 0x07)).
Proof. by vm_compute. Qed.
