(* ===== verification/VmmIsolation.v ===== *)
(** * Isolation of processes

    Any number of user memory managers on one machine, each with its own tables, over
    shared physical memory and one page source.  What a call of one manager may change
    is the relation [evolves]; it is a preorder, every operation respects it, and it
    leaves the tables and pages of the other managers alone.  The result is that no
    frame is ever reached through two pages, of one process or of two.

    [clone_address_space], whose purpose is to share frames, is not among the
    operations. *)

From S2P Require Import Prelude PageIndex Vmm VmmSpec VmmTheorems.
Open Scope Z_scope.

Definition flags_ok (fl : Z) : Prop := 0 < fl < 0x1000.

Section iso.
Context {prof : Profile} `{!PageEntry, !PageEntryLaws} {Pg : Type} `{!PageSource Pg, !PageSourceLaws Pg}.
Implicit Types (s : Space Pg).

(** ** What one call may change *)

(** The frames of a process: its tables, and what its pages lead to. *)
Definition owns s (f : Z) : Prop :=
  (∃ p, valid p ∧ table_at s p = Some f) ∨ ∃ v fl, space s v = Some (f, fl).

(** Pages keep their frames, lose them, or get frames that were free, one frame per
    page; memory changes in the process's own frames and in frames that were free. *)
Record evolves s s' : Prop := {
  ev_ok : space_ok s';
  ev_root : root s' = root s;
  ev_free a : pg_free (source s') a → pg_free (source s) a;
  ev_new p a : valid p → table_at s' p = Some a → table_at s p = Some a ∨ pg_free (source s) a;
  ev_words t k : t mod 0x1000 = 0 → 0 ≤ k < 0x1000 → phys s' (t + k) ≠ phys s (t + k) →
    owns s t ∨ pg_free (source s) t;
  ev_map v f fl : space s' v = Some (f, fl) →
    (∃ fl0, space s v = Some (f, fl0) ∧ (fl = fl0 ∨ flags_ok fl)) ∨
    (pg_free (source s) f ∧ data_frame s' f ∧ flags_ok fl);
  ev_inj v v' f fl fl' : pg_free (source s) f →
    space s' v = Some (f, fl) → space s' v' = Some (f, fl') → page_of v = page_of v'
}.

Lemma data_frame_evolves s s' f : evolves s s' → data_frame s f → data_frame s' f.
Proof.
  intros He (Ha&Hf&Ht). split; [done|]. split; [by intros ?%(ev_free _ _ He)|].
  intros p Hp Hpf. by destruct (ev_new _ _ He p f Hp Hpf) as [?%Ht|].
Qed.

(** A frame that is mapped and free before cannot be: used to rule out cases. *)
Lemma mapped_was_free s s' v f fl :
  evolves s s' → space s' v = Some (f, fl) → ¬ pg_free (source s) f → ∃ fl0, space s v = Some (f, fl0).
Proof. intros He Hv Hf. destruct (ev_map _ _ He v f fl Hv) as [(fl0&?&_)|[? _]]; [eauto|done]. Qed.

Lemma owns_evolves s s' f : evolves s s' → owns s' f → owns s f ∨ pg_free (source s) f.
Proof.
  intros He [(p&Hp&Ht)|(v&fl&Hv)].
  - destruct (ev_new _ _ He p f Hp Ht); [left; left; eauto|by right].
  - destruct (ev_map _ _ He v f fl Hv) as [(fl0&Hv0&_)|[? _]]; [left; right; eauto|by right].
Qed.

Lemma evolves_trans s1 s2 s3 : evolves s1 s2 → evolves s2 s3 → evolves s1 s3.
Proof.
  intros H12 H23. split.
  - apply H23.
  - by rewrite (ev_root _ _ H23), (ev_root _ _ H12).
  - intros a Ha. by apply (ev_free _ _ H12), (ev_free _ _ H23).
  - intros p a Hp Ha. destruct (ev_new _ _ H23 p a Hp Ha) as [Hx|Hx]; [by apply (ev_new _ _ H12)|].
    right. by apply (ev_free _ _ H12).
  - intros t k Ht Hk Hne. destruct (decide (phys s3 (t + k) = phys s2 (t + k))) as [He|Hne'].
    + apply (ev_words _ _ H12 t k Ht Hk). congruence.
    + destruct (ev_words _ _ H23 t k Ht Hk Hne') as [Ho|Hf]; [by apply (owns_evolves _ _ _ H12)|].
      right. by apply (ev_free _ _ H12).
  - intros v f fl Hv. destruct (ev_map _ _ H23 v f fl Hv) as [(fl2&Hv2&Hfl)|(Hf&Hd&Hfl)].
    + destruct (ev_map _ _ H12 v f fl2 Hv2) as [(fl1&Hv1&Hfl1)|(Hf&Hd&Hfl1)].
      * left. exists fl1. split; [done|]. destruct Hfl as [->|]; [done|by right].
      * right. split; [done|]. split; [by eapply data_frame_evolves|]. by destruct Hfl as [->|].
    + right. split; [by apply (ev_free _ _ H12)|done].
  - intros v v' f fl fl' Hf Hv Hv'.
    destruct (ev_map _ _ H23 v f fl Hv) as [(fl2&Hv2&_)|(Hf2&_)];
      [|by apply (ev_inj _ _ H23 v v' f fl fl')].
    destruct (ev_map _ _ H23 v' f fl' Hv') as [(fl2'&Hv2'&_)|(Hf2&_)];
      [by apply (ev_inj _ _ H12 v v' f fl2 fl2')|by apply (ev_inj _ _ H23 v v' f fl fl')].
Qed.

(** Growing tables, with a condition on the pages only. *)
Lemma grows_evolves s s' :
  space_ok s → grows s s' →
  (∀ v f fl, space s' v = Some (f, fl) →
    (∃ fl0, space s v = Some (f, fl0) ∧ (fl = fl0 ∨ flags_ok fl)) ∨
    (pg_free (source s) f ∧ data_frame s' f ∧ flags_ok fl)) →
  (∀ v v' f fl fl', pg_free (source s) f →
    space s' v = Some (f, fl) → space s' v' = Some (f, fl') → page_of v = page_of v') →
  evolves s s'.
Proof.
  intros Hok Hg Hm Hi. split; try done; try apply Hg.
  - by apply gr_root.
  - intros t k Ht Hk Hne. destruct (gr_words _ _ Hg _ Hne) as (p&t'&i&Hp&Hpt&Hi'&Heq).
    assert (t' mod 0x1000 = 0) by (eapply path_aligned; [apply Hg|apply Hpt]).
    assert (t' = t) as -> by (Z.to_euclidean_division_equations; lia).
    destruct (gr_new _ _ Hg p t Hp Hpt); [left; left; eauto|by right].
Qed.

(** ** One process *)

Record isolated s : Prop := {
  iso_ok : space_ok s;
  iso_inj v v' f fl fl' : space s v = Some (f, fl) → space s v' = Some (f, fl') → page_of v = page_of v';
  iso_data v f fl : space s v = Some (f, fl) → data_frame s f ∧ flags_ok fl
}.

Lemma isolated_not_free s v f fl : isolated s → space s v = Some (f, fl) → ¬ pg_free (source s) f.
Proof. intros Hi Hv. by destruct (iso_data _ Hi v f fl Hv) as [(_&?&_) _]. Qed.

Lemma isolated_evolves s s' : isolated s → evolves s s' → isolated s'.
Proof.
  intros Hi He. split; [apply He|..].
  - intros v v' f fl fl' Hv Hv'.
    destruct (ev_map _ _ He v f fl Hv) as [(fl0&Hv0&_)|(Hf&_)];
      [|by apply (ev_inj _ _ He v v' f fl fl')].
    pose proof (isolated_not_free _ _ _ _ Hi Hv0) as Hnf.
    destruct (mapped_was_free _ _ _ _ _ He Hv' Hnf) as [fl0' Hv0'].
    by apply (iso_inj _ Hi v v' f fl0 fl0').
  - intros v f fl Hv. destruct (ev_map _ _ He v f fl Hv) as [(fl0&Hv0&Hfl)|(_&?&?)]; [|done].
    destruct (iso_data _ Hi v f fl0 Hv0) as [Hd Hfl0].
    split; [by eapply data_frame_evolves|]. by destruct Hfl as [->|].
Qed.

(** The pages of [s'] are pages of [s], perhaps with other flags. *)
Lemma evolves_sub s s' :
  isolated s → grows s s' →
  (∀ v f fl, space s' v = Some (f, fl) → ∃ fl0, space s v = Some (f, fl0) ∧ (fl = fl0 ∨ flags_ok fl)) →
  evolves s s'.
Proof.
  intros Hi Hg Hs. apply grows_evolves; [apply Hi|done|by left; apply Hs|].
  intros v v' f fl fl' Hf Hv. destruct (Hs v f fl Hv) as (fl0&Hv0&_).
  by destruct (isolated_not_free _ _ _ _ Hi Hv0).
Qed.

Lemma evolves_same s s' : isolated s → grows s s' → (∀ v, space s' v = space s v) → evolves s s'.
Proof. intros Hi Hg Hs. apply evolves_sub; [done..|]. intros v f fl. rewrite Hs. eauto. Qed.

Lemma evolves_refl s : isolated s → evolves s s.
Proof. intros Hi. apply evolves_same; [done|apply grows_refl, Hi|done]. Qed.

(** A page set to nothing, or to its frame with other flags. *)
Lemma evolves_set s v x s' :
  isolated s → grows s s' → space_set s v x s' →
  (∀ f fl, x = Some (f, fl) → flags_ok fl ∧ ∃ fl0, space s v = Some (f, fl0)) → evolves s s'.
Proof.
  intros Hi Hg Hs Hx. apply evolves_sub; [done..|]. intros v' f fl. rewrite Hs. case_decide as Hp; [|eauto].
  intros ->. destruct (Hx f fl eq_refl) as (Hfl&fl0&Hv). exists fl0. split; [|by right].
  rewrite <-Hv. unfold space, entry_of, mapping. rewrite page_of_idx in Hp. by rewrite !Hp by lia.
Qed.

Lemma space_page s v v' : page_of v = page_of v' → space s v = space s v'.
Proof. intros Hp. unfold space, entry_of, mapping. rewrite page_of_idx in Hp. by rewrite !Hp by lia. Qed.

(** Fresh frames for consecutive pages. *)
Lemma fresh_evolves s start prot fs s' :
  isolated s → 0 ≤ start → Z.of_nat (length fs) < 2 ^ 36 → flags_ok prot →
  fresh_mapped s start prot fs s' → evolves s s'.
Proof.
  intros Hi Hst Hlen Hprot Hfm. set (page := λ j, page_of (start + Z.of_nat j * 0x1000)).
  assert (∀ v f fl, space s' v = Some (f, fl) →
    (∃ j, page_of v = page j ∧ fs !! j = Some f ∧ fl = prot) ∨ space s v = Some (f, fl)) as Hcase.
  { intros v f fl Hv. destruct (Exists_dec (λ j, page_of v = page j) (seq 0 (length fs))) as [Hex|Hno].
    - apply Exists_exists in Hex as (j&Hj&Hp). apply elem_of_seq in Hj.
      destruct (lookup_lt_is_Some_2 fs j) as [g Hg]; [lia|].
      rewrite (space_page _ _ _ Hp), (fm_map _ _ _ _ _ Hfm j g Hg) in Hv. simplify_eq. left. eauto.
    - right. rewrite <-(fm_rest _ _ _ _ _ Hfm v); [done|]. intros j Hj Hp.
      apply Hno, Exists_exists. exists j. split; [apply elem_of_seq; lia|done]. }
  apply grows_evolves; [apply Hi|apply Hfm|..].
  - intros v f fl Hv. destruct (Hcase v f fl Hv) as [(j&_&Hj&->)|Hv']; [right|by left; eauto].
    destruct (fm_fresh _ _ _ _ _ Hfm f) as [? ?]; [by eapply list_elem_of_lookup_2|done].
  - intros v v' f fl fl' Hf Hv Hv'.
    destruct (Hcase v f fl Hv) as [(j&Hp&Hj&_)|Hv0]; [|by destruct (isolated_not_free _ _ _ _ Hi Hv0)].
    destruct (Hcase v' f fl' Hv') as [(j'&Hp'&Hj'&_)|Hv0]; [|by destruct (isolated_not_free _ _ _ _ Hi Hv0)].
    rewrite Hp, Hp'. by rewrite (NoDup_lookup fs j j' f (fm_nodup _ _ _ _ _ Hfm) Hj Hj').
Qed.

(** Taking a frame and mapping a page to it. *)
Lemma take_map_wp s v fl :
  isolated s → 0 ≤ v → flags_ok fl →
  wp (es_bind (take_pages 1) (λ frame, map_page v frame fl)) s (λ _ s', evolves s s').
Proof.
  intros Hi Hv Hfl. apply wp_bind, take_page_wp; [apply Hi|..].
  - intros f pg _ Hf Hnf Hsub. pose proof (with_source_grows s pg (iso_ok _ Hi) Hsub) as Hg.
    destruct (ok_frame _ _ _ (iso_ok _ Hi) f Hf) as [Hfa Hfr].
    eapply wp_mono; [apply map_page_wp; [apply Hg|done|lia|done]|]. intros [e|[]] s3 [Hg3 Hs].
    + destruct Hs as (_&_&Hs). apply evolves_same; [done|by eapply grows_trans|by intros; rewrite Hs].
    + apply (fresh_evolves s v fl [f]); [done|done|simpl; lia|done|].
      apply (fresh_mapped_snoc s v fl [] s f pg s3); try done.
      * by apply fresh_mapped_nil; [apply grows_refl, Hi|].
      * simpl. by rewrite Z.add_0_r.
  - intros pg _ Hsub. by apply evolves_same; [done|apply with_source_grows; [apply Hi|done]|].
Qed.

(** Writing to a frame that is not a table: [m] differs from memory in [f] only. *)
Lemma data_write s m f :
  space_ok s → data_frame s f →
  (∀ t k, t mod 0x1000 = 0 → 0 ≤ k < 0x1000 → t ≠ f → m (t + k) = phys s (t + k)) →
  space_ok (with_phys s m) ∧ (∀ p, valid p → table_at (with_phys s m) p = table_at s p) ∧
  ∀ v, space (with_phys s m) v = space s v.
Proof.
  intros Hok (Hfa&Hff&Hft) Hw.
  assert (∀ p t i, valid p → table_at s p = Some t → 0 ≤ i < 512 → m (t + 8 * i) = phys s (t + 8 * i)) as Ht.
  { intros p t i Hp Hpt Hi. apply Hw; [by eapply path_aligned|lia|]. intros ->. by apply (Hft p). }
  destruct (tables_ok_ext (phys s) m (root s) (pg_free (source s)) Hok) as (Hok'&Hp&Hm); [done|..].
  - intros a i Ha Hi. apply Hw; [apply (ok_frame _ _ _ Hok a Ha)|lia|]. by intros ->.
  - split; [done|]. split; [done|]. intros v. unfold space, entry_of. by rewrite <-Hm.
Qed.

Lemma write_evolves s s2 m f :
  evolves s s2 → owns s f ∨ pg_free (source s) f → data_frame s2 f →
  (∀ t k, t mod 0x1000 = 0 → 0 ≤ k < 0x1000 → t ≠ f → m (t + k) = phys s2 (t + k)) →
  evolves s (with_phys s2 m).
Proof.
  intros He Hf Hd Hw. destruct (data_write s2 m f (ev_ok _ _ He) Hd Hw) as (Hok&Hp&Hs).
  split; [done|apply He|apply He|..].
  - intros p a Hv. rewrite Hp by done. by apply (ev_new _ _ He).
  - intros t k Ht Hk Hc. destruct (decide (t = f)) as [->|Htf]; [done|].
    apply (ev_words _ _ He t k Ht Hk). by rewrite <-(Hw t k).
  - intros v g fl. rewrite Hs. intros Hv. destruct (ev_map _ _ He v g fl Hv) as [?|(Hg&Hdg&Hfl)]; [by left|].
    right. split; [done|]. split; [|done]. destruct Hdg as (?&?&Hgt). split; [done|]. split; [done|].
    intros p Hv'. rewrite Hp by done. by apply Hgt.
  - intros v v' g fl fl' Hg. rewrite !Hs. by apply (ev_inj _ _ He).
Qed.

(** A page copied into a frame that was free at the start. *)
Lemma copy_evolves s s2 old f :
  evolves s s2 → pg_free (source s) f → data_frame s2 f → evolves s (copy_page s2 old f).
Proof.
  intros He Hf Hd. pose proof Hd as (Hfa&_). apply (write_evolves _ _ _ f); [done|by right|done|].
  intros t k Ht Hk Htf. simpl. case_match eqn:E; [|done]. exfalso. apply Htf.
  apply andb_true_iff in E as [?%Z.leb_le ?%Z.ltb_lt]. Z.to_euclidean_division_equations. lia.
Qed.

Lemma cow_fault_evolves s v :
  isolated s → 0 ≤ v → wp (handle_cow_fault v) s (λ _ s', evolves s s').
Proof.
  intros Hi Hv. pose proof (iso_ok _ Hi) as Hok. unfold handle_cow_fault.
  apply wp_bind, take_page_wp; [done|..].
  2:{ intros pg _ Hsub. by apply evolves_same; [done|apply with_source_grows|]. }
  intros f pg _ Hf Hnf Hsub. pose proof (with_source_grows s pg Hok Hsub) as Hg1. apply wp_bind.
  eapply wp_read; [by apply vmm_translate_ok, Hg1|]. change (space (with_source s pg) v) with (space s v).
  destruct (space s v) as [[old fl]|] eqn:Hsp; simpl; [|apply wp_throw; by apply evolves_same].
  destruct (iso_data _ Hi v old fl Hsp) as [(Hoa&Hof&_) _]. destruct (ok_frame _ _ _ Hok f Hf) as [Hfa Hfr].
  apply wp_bind. eapply wp_mono; [apply map_page_wp; [apply Hg1|done|lia|lia]|]. intros [e|[]] s2 [Hg2 Hs].
  { destruct Hs as (_&_&Hs). apply evolves_same; [done|by eapply grows_trans|by intros; rewrite Hs]. }
  assert (fresh_mapped s v 0x07 [f] s2) as Hfm.
  { apply (fresh_mapped_snoc s v 0x07 [] s f pg s2); try done.
    - by apply fresh_mapped_nil; [apply grows_refl|].
    - simpl. by rewrite Z.add_0_r. }
  eapply wp_update; [done|]. apply copy_evolves; [|done|].
  - by apply (fresh_evolves s v 0x07 [f]); [| |simpl; lia|unfold flags_ok; lia|].
  - by apply (fm_fresh _ _ _ _ _ Hfm), list_elem_of_here.
Qed.

Lemma is_cow_page_returns s v : space_ok s → ∃ b, is_cow_page s v = Ret b.
Proof.
  intros Hok. unfold is_cow_page. destruct (cow_enabled (mgr s)); simpl; [|eauto].
  rewrite vmm_walk_ok by done. simpl.
  destruct (table_at s [idx 4 v; idx 3 v; idx 2 v]) as [pt|] eqn:Hpt; [|eauto].
  destruct (page_entry s v pt Hok Hpt) as [-> _]. simpl. eauto.
Qed.

Lemma fault_evolves s addr code :
  isolated s → 0 ≤ addr → wp (handle_page_fault addr code) s (λ _ s', evolves s s').
Proof.
  intros Hi Ha. unfold handle_page_fault. set (v := Z.land addr (wnot 64 0xFFF)).
  assert (0 ≤ v) as Hv by (apply Z.land_nonneg; by left).
  case_match; [by apply take_map_wp|]. apply wp_bind.
  assert (∃ b, (if negb (Z.land code 0x02 =? 0) then is_cow_page s v else Ret false) = Ret b) as [b Hb].
  { case_match; [by apply is_cow_page_returns, Hi|eauto]. }
  eapply wp_read; [exact Hb|]. destruct b; [by apply cow_fault_evolves|].
  apply wp_throw. by apply evolves_refl.
Qed.

(** Changing the flags of a mapped page. *)
Lemma flags_evolves s v (fl' : Z → Z) :
  isolated s → (∀ fl, flags_ok fl → flags_ok (fl' fl)) →
  returns (o ← walk s v;
    match o with
    | None => Ret s
    | Some pt => e ← read_entry s pt (pt_index v);
        if is_unused e then Ret s else write_entry s pt (pt_index v) (update_flags e (fl' (entry_flags e)))
    end) (λ s', evolves s s').
Proof.
  intros Hi Hfl. pose proof (iso_ok _ Hi) as Hok. rewrite vmm_walk_ok by done. simpl.
  destruct (table_at s [idx 4 v; idx 3 v; idx 2 v]) as [pt|] eqn:Hpt; [|by apply evolves_refl].
  destruct (page_entry s v pt Hok Hpt) as [-> He]. simpl.
  set (e := phys s (pt + 8 * idx 1 v)) in *. destruct (is_unused e) eqn:Hu; [by apply evolves_refl|].
  assert (space s v = Some (entry_addr e, entry_flags e)) as Hsp by (unfold space; by rewrite He; simpl; rewrite Hu).
  destruct (iso_data _ Hi v _ _ Hsp) as [_ Hfe].
  destruct (new_flags s v _ _ (fl' (entry_flags e)) Hok Hsp (Hfl _ Hfe))
    as (pt'&e'&s'&Hpt'&He'&_&_&Hw&Hg&_&Hs). rewrite Hpt in Hpt'. injection Hpt' as <-. fold e in He'. subst e'.
  rewrite Hw. simpl. eapply evolves_set; [done..|]. intros f fl [= <- <-]. eauto.
Qed.

(** ** The operations *)

Lemma mark_evolves s v : isolated s → returns (mark_page_cow s v) (λ s', evolves s s').
Proof. intros Hi. apply (flags_evolves s v cow_flags Hi). intros fl Hfl. by apply cow_flags_range. Qed.

Lemma protect_evolves s start size fl :
  isolated s → flags_ok fl → 0 ≤ start → 0 ≤ size → start + size + 0x2000 < 2 ^ 64 →
  returns (protect_memory s start size fl) (λ s', evolves s s').
Proof.
  intros Hi Hfl Hst Hsz Hov. unfold protect_memory. rewrite page_total_ok by lia. simpl.
  apply (for_each_inv (λ _ s1, evolves s s1)); [Z.to_euclidean_division_equations; lia|by apply evolves_refl|].
  intros i s1 Hr He. rewrite nth_page_ok by (Z.to_euclidean_division_equations; lia). simpl.
  eapply returns_mono; [by apply (flags_evolves s1 _ (λ _, fl)); [eapply isolated_evolves|]|].
  intros s2 H2. by eapply evolves_trans.
Qed.

Lemma unmap_evolves s v : isolated s → wp (unmap_page v) s (λ _ s', evolves s s').
Proof.
  intros Hi. eapply wp_mono; [apply unmap_page_wp, Hi|]. intros r s'.
  destruct (table_at s [idx 4 v; idx 3 v; idx 2 v]), (entry_of s v).
  - intros (_&Hg&Hs&_). by eapply evolves_set.
  - intros [_ ->]. by apply evolves_refl.
  - intros [_ ->]. by apply evolves_refl.
  - intros [_ ->]. by apply evolves_refl.
Qed.

Lemma unmap_range_evolves s start size :
  isolated s → 0 ≤ start → 0 ≤ size → start + size + 0x2000 < 2 ^ 64 →
  wp (unmap_range start size) s (λ _ s', evolves s s').
Proof.
  intros Hi Hst Hsz Hov. unfold unmap_range. apply wp_bind. eapply wp_read; [apply page_total_ok; lia|].
  apply (wp_for (λ _ s1, evolves s s1)); [Z.to_euclidean_division_equations; lia|by apply evolves_refl| |done].
  intros i s1 Hr He. apply wp_bind.
  eapply wp_read; [apply nth_page_ok; (Z.to_euclidean_division_equations; lia)|].
  eapply wp_mono; [by eapply unmap_evolves, isolated_evolves|].
  intros [e|[]] s2 H2; by eapply evolves_trans.
Qed.

Lemma map_fresh_evolves s start pages prot :
  isolated s → 0 ≤ start → 0 ≤ pages < 2 ^ 36 → start + pages * 0x1000 < 2 ^ 64 → flags_ok prot →
  wp (map_fresh start pages prot) s (λ _ s', evolves s s').
Proof.
  intros Hi Hst Hp Hov Hprot. eapply wp_mono; [by apply map_fresh_wp; [apply Hi|..]|].
  intros r s' (fs&Hfs&Hr). apply (fresh_evolves s start prot fs); try done. by destruct r; lia.
Qed.

Lemma mmap_evolves s addr length prot flags :
  isolated s → flags_ok prot → 0 ≤ addr → 0 ≤ length ≤ 2 ^ 47 → addr + length < 2 ^ 64 →
  wp (mmap addr length prot flags) s (λ _ s', evolves s s').
Proof.
  intros Hi Hprot Ha Hlen Hov. assert (USER_SPACE_END = 0x800000000000) as EE by done.
  assert (0 ≤ (length + 0xFFF) / 0x1000 < 2 ^ 36) as Hpages by (Z.to_euclidean_division_equations; lia).
  unfold mmap. apply wp_bind. eapply wp_read; [apply page_total_ok; lia|].
  destruct (Z.eqb_spec addr 0) as [->|Hne]; simpl.
  - apply wp_bind. unfold vm_find.
    destruct (proj1 (returns_iff _ _) (find_free_returns s ((length + 0xFFF) / 0x1000) (iso_ok _ Hi) ltac:(lia))) as (r&Er&Hr).
    eapply wp_run; [by rewrite Er|]. destruct r as [e|b]; [by apply evolves_refl|].
    destruct Hr as ([_ Hb]&_). apply wp_bind. unfold USER_SPACE_BASE in Hb.
    eapply wp_mono; [apply map_fresh_evolves; (done || lia)|]. intros [e|[]] s' He; [done|by apply wp_ret].
  - apply wp_bind. eapply wp_read; [apply validate_user_range_ok; lia|].
    case_bool_decide as Hin; simpl; [|by apply wp_throw, evolves_refl]. apply wp_bind.
    eapply wp_mono; [apply map_fresh_evolves; [done|lia|done| |done]; Z.to_euclidean_division_equations; lia|].
    intros [e|[]] s' He; [done|by apply wp_ret].
Qed.

(** The frames of one run of [count] pages at [a]. *)
Definition frame_run (a count : Z) : list Z := (λ j, a + 0x1000 * j) <$> seqZ 0 count.

Lemma frame_run_length a n : 0 ≤ n → Z.of_nat (length (frame_run a n)) = n.
Proof. intros Hn. unfold frame_run. rewrite length_fmap, length_seqZ. lia. Qed.

Lemma frame_run_snoc a n : 0 ≤ n → frame_run a (n + 1) = frame_run a n ++ [a + 0x1000 * n].
Proof. intros Hn. unfold frame_run. rewrite seqZ_app by lia. by rewrite fmap_app. Qed.

(** The loop of [allocate_user_pages], after [i] pages: one more frame of the run is
    mapped. *)
Lemma map_run_step s pg a count start flags i s1 :
  isolated s → flags_ok flags → 0 ≤ start → start + count * 0x1000 < 2 ^ 64 → 0 ≤ i < count → count < 2 ^ 36 →
  (∀ j, 0 ≤ j < count → pg_free (source s) (a + 0x1000 * j) ∧ ¬ pg_free pg (a + 0x1000 * j)) →
  fresh_mapped s start flags (frame_run a i) s1 → grows (with_source s pg) s1 →
  wp (v <- es_read (λ _, nth_page start i);; p <- es_read (λ _, nth_page a i);; map_page v p flags)%es s1 (λ r s2,
    match r with
    | inl _ => evolves s s2
    | inr _ => fresh_mapped s start flags (frame_run a (i + 1)) s2 ∧ grows (with_source s pg) s2
    end).
Proof.
  intros Hi Hfl Hst Hov Hin Hcount Hfree Hfm Hg. destruct (Hfree i ltac:(lia)) as [Hf Hnf].
  destruct (pg_free_frame _ _ Hf) as [Hfa Hfr].
  assert (0 ≤ a) by (destruct (Hfree 0 ltac:(lia)) as [H' _]; destruct (pg_free_frame _ _ H'); lia).
  apply wp_bind. eapply wp_read; [apply nth_page_ok; lia|].
  apply wp_bind. eapply wp_read; [apply nth_page_ok; lia|].
  eapply wp_mono; [apply map_page_wp; [apply Hg|by rewrite (Z.mul_comm i)|lia|done]|].
  intros [e|[]] s2 [Hg2 Hs].
  - destruct Hs as (_&_&Hs). apply (fresh_evolves s start flags (frame_run a i)); try (done || lia).
    + rewrite frame_run_length; lia.
    + by eapply fresh_mapped_grows.
  - split; [|by eapply grows_trans]. rewrite frame_run_snoc by lia. rewrite (Z.mul_comm i) in Hs.
    apply (fresh_mapped_add s start flags (frame_run a i) s1); try (done || lia).
    + rewrite frame_run_length; lia.
    + intros (j&Heq&Hj%elem_of_seqZ)%list_elem_of_fmap. lia.
    + eapply data_frame_grows; [exact Hg2|]. eapply data_frame_grows; [exact Hg|]. by apply taken_data; [apply Hi|..].
    + rewrite frame_run_length by lia. by rewrite (Z.mul_comm i).
Qed.

(** [allocate_user_pages]: all frames first, then the pages one by one. *)
Lemma alloc_user_evolves s count flags :
  isolated s → flags_ok flags → 0 < count < 2 ^ 36 →
  wp (allocate_user_pages count flags) s (λ _ s', evolves s s').
Proof.
  intros Hi Hfl Hc. pose proof (iso_ok _ Hi) as Hok. unfold allocate_user_pages. apply wp_bind. unfold take_pages at 1.
  destruct (alloc_pages (source s) count) as [[a|] pg] eqn:E.
  2:{ eapply wp_run; [by rewrite E|]. apply evolves_same; [done|apply with_source_grows; [done|]|done].
      by intros b ?%(alloc_none _ _ _ E). }
  eapply wp_run; [by rewrite E|]. apply alloc_some in E as [Hfree Hrest]; [|lia].
  assert (grows s (with_source s pg)) as Hg1 by (by apply with_source_grows; [|intros b []%Hrest]).
  assert (evolves s (with_source s pg)) as He1 by (by apply evolves_same).
  apply wp_bind. unfold vm_find.
  destruct (proj1 (returns_iff _ _) (find_free_returns (with_source s pg) count (gr_ok _ _ Hg1) ltac:(lia)))
    as (r&Er&Hr).
  eapply wp_run; [by rewrite Er|]. destruct r as [e|start]; [done|].
  destruct Hr as ([_ Hb]&_). unfold USER_SPACE_BASE in Hb. assert (USER_SPACE_END = 0x800000000000) as EE by done.
  apply wp_bind. eapply wp_mono.
  { apply (wp_for (λ i s1, fresh_mapped s start flags (frame_run a i) s1 ∧ grows (with_source s pg) s1)
      (λ _ s1, evolves s s1)); [lia| | |].
    - split; [|apply grows_refl, Hg1]. by apply fresh_mapped_nil.
    - intros i s1 Hin [Hfm Hg]. eapply wp_mono; [apply (map_run_step s pg a count); try (done || lia)|by intros [|[]]].
      intros j Hj. split; [by apply Hfree|]. intros [_ Hno]%Hrest. by apply (Hno j).
    - intros s1 [Hfm _]. apply (fresh_evolves s start flags (frame_run a count)); try (done || lia).
      rewrite frame_run_length; lia. }
  intros [e|[]] s' He; [done|by apply wp_ret].
Qed.

(** *** Any sequence of calls *)

(** What the process itself does: a word written to byte [k] of the frame behind
    [addr]. *)
Definition store s (addr k x : Z) : Space Pg :=
  match space s addr with
  | Some (f, _) => with_phys s (upd (phys s) (f + k) x)
  | None => s
  end.

Lemma store_evolves s addr k x : isolated s → 0 ≤ k < 0x1000 → evolves s (store s addr k x).
Proof.
  intros Hi Hk. unfold store. destruct (space s addr) as [[f fl]|] eqn:Hsp; [|by apply evolves_refl].
  destruct (iso_data _ Hi addr f fl Hsp) as [Hd _]. pose proof Hd as [Hfa _].
  apply (write_evolves _ _ _ f); [by apply evolves_refl|left; right; eauto|done|].
  intros t j Ht Hj Htf. unfold upd. case_match eqn:E; [|done].
  apply Z.eqb_eq in E. destruct Htf. Z.to_euclidean_division_equations. lia.
Qed.

(** Calls of a manager, with machine-word arguments, and stores. *)
Inductive vop :=
| Mmap (addr length prot flags : Z)
| Unmap (addr : Z)
| Munmap (addr length : Z)
| Fault (addr code : Z)
| AllocPages (count flags : Z)
| MarkCow (addr : Z)
| Protect (start size flags : Z)
| SetBrk (addr : Z)
| SetCow (b : bool)
| CopyToUser (dest : Z) (src : list Z)
| Store (addr k x : Z).

Definition legal (o : vop) : Prop :=
  match o with
  | Mmap addr length prot _ => flags_ok prot ∧ 0 ≤ addr ∧ 0 ≤ length ≤ 2 ^ 47 ∧ addr + length < 2 ^ 64
  | Munmap addr length => 0 ≤ addr ∧ 0 ≤ length ∧ addr + length + 0x2000 < 2 ^ 64
  | Fault addr _ => 0 ≤ addr
  | AllocPages count flags => flags_ok flags ∧ 0 < count < 2 ^ 36
  | Protect start size flags => flags_ok flags ∧ 0 ≤ start ∧ 0 ≤ size ∧ start + size + 0x2000 < 2 ^ 64
  | CopyToUser dest src => 0 ≤ dest ∧ dest + Z.of_nat (length src) < 2 ^ 64
  | Store _ k _ => 0 ≤ k < 0x1000
  | _ => True
  end.

Definition ignore {A} (m : VM Pg A) : VM Pg () := es_bind m (λ _, es_ret ()).

Definition run_vop (o : vop) : VM Pg () :=
  match o with
  | Mmap addr length prot flags => ignore (mmap addr length prot flags)
  | Unmap addr => unmap_page addr
  | Munmap addr length => munmap addr length
  | Fault addr code => handle_page_fault addr code
  | AllocPages count flags => ignore (allocate_user_pages count flags)
  | MarkCow addr => es_update (λ s, mark_page_cow s addr)
  | Protect start size flags => es_update (λ s, protect_memory s start size flags)
  | SetBrk addr => ignore (set_brk addr)
  | SetCow b => es_update (λ s, Ret (if b then enable_cow s else disable_cow s))
  | CopyToUser dest src => copy_to_user dest src
  | Store addr k x => es_update (λ s, Ret (store s addr k x))
  end.

Lemma wp_ignore {A} (m : VM Pg A) s (Q : Space Pg → Prop) :
  wp m s (λ _ s', Q s') → wp (ignore m) s (λ _ s', Q s').
Proof. intros Hm. apply wp_bind. eapply wp_mono; [exact Hm|]. intros [e|a] s' HQ; [done|by apply wp_ret]. Qed.

Lemma wp_returns (f : Space Pg → outcome (Space Pg)) s (Q : Space Pg → Prop) :
  returns (f s) Q → wp (es_update f) s (λ (_ : VmmError + ()) s', Q s').
Proof. intros (s'&E&HQ)%returns_iff. by eapply wp_update. Qed.

(** Fields of the manager the tables do not depend on, and user bytes. *)
Lemma evolves_fields s m u :
  isolated s → pml4 m = root s → evolves s (mkSpace m (phys s) u (source s) (cr3 s)).
Proof.
  intros Hi Hm. destruct (evolves_refl s Hi) as [H1 H2 H3 H4 H5 H6 H7].
  destruct s as [[] ? ? ? ?], m. unfold root in Hm. simpl in Hm. subst. by split.
Qed.

Lemma run_vop_evolves s o :
  isolated s → legal o → wp (run_vop o) s (λ _ s', evolves s s').
Proof.
  intros Hi Hl. destruct o as [addr len prot fl|addr|addr len|addr code|count fl|addr|start sz fl|addr|b|dest src|addr k x];
    simpl in *.
  - apply wp_ignore, mmap_evolves; tauto.
  - by apply unmap_evolves.
  - apply unmap_range_evolves; tauto.
  - by apply fault_evolves.
  - apply wp_ignore, alloc_user_evolves; tauto.
  - by apply wp_returns, mark_evolves.
  - apply wp_returns, protect_evolves; tauto.
  - apply wp_ignore. unfold wp, set_brk. case_match; simpl; [by apply evolves_refl|by apply evolves_fields].
  - eapply wp_update; [done|]. destruct b; by apply evolves_fields.
  - unfold copy_to_user. apply wp_bind. eapply wp_read; [apply validate_user_range_ok; lia|].
    case_bool_decide; simpl; [|by apply wp_throw, evolves_refl].
    eapply wp_update; [done|]. by apply evolves_fields.
  - eapply wp_update; [done|]. by apply store_evolves.
Qed.
End iso.
