(* ===== verification/VmmProcesses.v ===== *)
(** * Processes side by side

    Several user memory managers of memory/virtual.rs on one machine: each process has
    its manager and its user-visible bytes, and all share physical memory, the page
    source and [cr3].  The calls of [vop] (VmmIsolation.v), stores through the page
    tables, new managers ([with_pid]) and switches come in any order.  Not among them
    are [map_page], [map_range] and [map_kernel_page], whose caller chooses the frame
    and may choose one that is in use, and [clone_address_space], which maps
    data frames of one process in another.

    The machine starts without processes and its free frames hold unused entries.  The
    second condition is needed: [map_page] takes a frame for a table without clearing
    it (virtual.rs:90), see [dirty_table_maps_neighbour].  No call of the set releases
    a frame, so it only has to hold at the start.

    The theorems say that the processes stay apart: no frame is reached through two
    pages, and nothing one process does changes the pages of another or what is in
    them. *)

From S2P Require Import Prelude Physical PageIndex Vmm VmmSpec VmmTheorems VmmPhysical VmmIsolation.
Open Scope Z_scope.

Record Proc := mkProc { p_mgr : VirtualMemoryManager; p_user : Z → Z }.

Record World (Pg : Type) := mkWorld {
  procs : list Proc;
  w_phys : Z → Z;
  w_source : Pg;
  w_cr3 : Z
}.
Arguments mkWorld {Pg}.
Arguments procs {Pg}.
Arguments w_phys {Pg}.
Arguments w_source {Pg}.
Arguments w_cr3 {Pg}.

Inductive wop :=
| On (i : nat) (o : vop)
| Spawn (id : Z)
| Switch (i : nat).

Section world.
Context {prof : Profile} `{!PageEntry, !PageEntryLaws} {Pg : Type} `{!PageSource Pg, !PageSourceLaws Pg}.
Implicit Types (w : World Pg) (s t : Space Pg).

(** The machine as process [p] works on it, and back. *)
Definition view w (p : Proc) : Space Pg := mkSpace (p_mgr p) (w_phys w) (p_user p) (w_source w) (w_cr3 w).
Definition shared s (ps : list Proc) : World Pg := mkWorld ps (phys s) (source s) (cr3 s).
Definition proc_of s : Proc := mkProc (mgr s) (user s).

(** One operation.  Numbers that belong to no process do nothing; [with_pid] panics
    when there is no frame. *)
Definition run_wop w (o : wop) : outcome (World Pg) :=
  match o with
  | On i o =>
      match procs w !! i with
      | Some p => r ← run_vop o (view w p); Ret (shared r.2 (<[i := proc_of r.2]> (procs w)))
      | None => Ret w
      end
  | Spawn id =>
      s ← with_pid (view w (mkProc (manager_at 0 0) (λ _, 0))) id; Ret (shared s (procs w ++ [proc_of s]))
  | Switch i =>
      match procs w !! i with
      | Some p => Ret (shared (switch_to (view w p)) (procs w))
      | None => Ret w
      end
  end.

Fixpoint run_all w (os : list wop) : outcome (World Pg) :=
  match os with [] => Ret w | o :: os => w' ← run_wop w o; run_all w' os end.

Definition legal_wop (o : wop) : Prop := match o with On _ o => legal o | _ => True end.

(** ** The invariant *)

Definition blank w : Prop :=
  ∀ a i, pg_free (w_source w) a → 0 ≤ i < 512 → is_unused (w_phys w (a + 8 * i)) = true.

Record apart w : Prop := {
  ap_blank : blank w;
  ap_iso i p : procs w !! i = Some p → isolated (view w p);
  ap_sep i j p q f : procs w !! i = Some p → procs w !! j = Some q →
    owns (view w p) f → owns (view w q) f → i = j
}.

Lemma owned_frame s f : isolated s → owns s f → f mod 0x1000 = 0 ∧ ¬ pg_free (source s) f.
Proof.
  intros Hi [(p&Hp&Hf)|(v&fl&Hv)].
  - split; [by eapply path_aligned; [apply Hi|]|by eapply ok_free; [apply Hi|..]].
  - by destruct (iso_data _ Hi v f fl Hv) as [(?&?&_) _].
Qed.

(** *** A bystander *)

(** [t] while memory becomes [m] and the source [g]: none of its frames change, and
    no frame becomes free. *)
Section bystander.
Context t (m : Z → Z) (g : Pg) (c : Z) (Hi : isolated t).
Context (Hfree : ∀ a, pg_free g a → pg_free (source t) a).
Context (Hblank : ∀ a i, pg_free g a → 0 ≤ i < 512 → is_unused (m (a + 8 * i)) = true).
Context (Hsame : ∀ f k, owns t f → 0 ≤ k < 0x1000 → m (f + k) = phys t (f + k)).
Let t' : Space Pg := (mkSpace (mgr t) m (user t) g c).

Lemma bystander_table p : valid p → table_at t' p = table_at t p.
Proof.
  intros Hp. apply path_ext. intros q j r a -> Ha.
  assert (valid q) as Hq by (by eapply valid_app_l). destruct Hp as [Hp _].
  apply Forall_app in Hp as [_ [Hj _]%Forall_cons]. apply Hsame; [left; eauto|lia].
Qed.

Lemma bystander_space v : space t' v = space t v.
Proof.
  pose proof (bystander_table _ (valid_page v)) as Ht.
  unfold space, entry_of, mapping. fold (table_at t' [idx 4 v; idx 3 v; idx 2 v]).
  fold (table_at t [idx 4 v; idx 3 v; idx 2 v]). rewrite Ht.
  destruct (table_at t [idx 4 v; idx 3 v; idx 2 v]) as [pt|] eqn:E; [|done]. cbn -[idx].
  pose proof (idx_range 1 v). rewrite Hsame; [done| |lia]. left. eexists. split; [apply valid_page|done].
Qed.

Lemma bystander_owns f : owns t' f → owns t f.
Proof.
  intros [(p&Hp&Hf)|(v&fl&Hv)].
  - left. rewrite bystander_table in Hf by done. eauto.
  - right. rewrite bystander_space in Hv. eauto.
Qed.

Lemma bystander_isolated : isolated t'.
Proof.
  split; [split|..].
  - apply (ok_root _ _ _ (iso_ok _ Hi)).
  - intros p q a Hp Hq. intros H1 H2. eapply (ok_inj _ _ _ (iso_ok _ Hi)); [done..| |].
    + rewrite <-H1. symmetry. by apply bystander_table.
    + rewrite <-H2. symmetry. by apply bystander_table.
  - intros p a Hp Ha Hf%Hfree. eapply (ok_free _ _ _ (iso_ok _ Hi)); [done| |done].
    rewrite <-Ha. symmetry. by apply bystander_table.
  - apply pg_free_frame.
  - done.
  - intros v v' f fl fl'. rewrite !bystander_space. by apply Hi.
  - intros v f fl. rewrite bystander_space. intros Hv.
    destruct (iso_data _ Hi v f fl Hv) as [(Ha&Hf&Ht) Hfl]. split; [|done]. split; [done|].
    split; [by intros ?%Hfree|]. intros p Hp. rewrite bystander_table by done. by apply Ht.
Qed.
End bystander.

(** What the machine keeps for a process: its pages, and the words behind them. *)
Definition untouched w w' (p : Proc) : Prop :=
  (∀ v, space (view w' p) v = space (view w p) v) ∧
  ∀ v f fl k, space (view w p) v = Some (f, fl) → 0 ≤ k < 0x1000 → w_phys w' (f + k) = w_phys w (f + k).

(** *** One process changes *)

(** Process [i], old or new, becomes [s'], on frames it had or that were free; the
    frames of the others are as before. *)
Section step.
Context w (i : nat) s' (ps : list Proc) (Ha : apart w).
Context (Hps : ps !! i = Some (proc_of s')) (Hrest : ∀ j, j ≠ i → ps !! j = procs w !! j).
Context (Hi : isolated s') (Hfree : ∀ a, pg_free (source s') a → pg_free (w_source w) a).
Context (Hsame : ∀ j q f k, j ≠ i → procs w !! j = Some q → owns (view w q) f → 0 ≤ k < 0x1000 →
  phys s' (f + k) = w_phys w (f + k)).
Context (Hown : ∀ f, owns s' f →
  pg_free (w_source w) f ∨ ∃ p, procs w !! i = Some p ∧ owns (view w p) f).
Let w' : World Pg := shared s' ps.

Lemma step_view : view w' (proc_of s') = s'.
Proof. by destruct s'. Qed.

Lemma step_owns j q f : j ≠ i → procs w !! j = Some q → owns (view w' q) f → owns (view w q) f.
Proof. intros Hne Hq. apply (bystander_owns (view w q)). intros. by eapply Hsame. Qed.

Lemma step_sep j q f : j ≠ i → procs w !! j = Some q → owns (view w' q) f → ¬ owns s' f.
Proof.
  intros Hne Hq Hf [Hfr|(p&Hp&Ho)]%Hown; apply (step_owns j q) in Hf; try done.
  - by destruct (owned_frame _ f (ap_iso _ Ha j q Hq) Hf).
  - destruct Hne. by eapply (ap_sep _ Ha).
Qed.

Lemma step_proc j q : ps !! j = Some q → (j = i ∧ q = proc_of s') ∨ (j ≠ i ∧ procs w !! j = Some q).
Proof.
  destruct (decide (j = i)) as [->|Hne]; [rewrite Hps|rewrite Hrest by done; by right].
  left. by simplify_eq.
Qed.

Lemma step_apart : apart w'.
Proof.
  split.
  - intros a k Hf Hk. by apply (ok_blank _ _ _ (iso_ok _ Hi)).
  - intros j q [[-> ->]|[Hne Hq]]%step_proc; [by rewrite step_view|].
    apply (bystander_isolated (view w q)); [by eapply ap_iso|done| |].
    + intros a k. apply (ok_blank _ _ _ (iso_ok _ Hi)).
    + intros. by eapply Hsame.
  - intros j l q r f [[-> ->]|[Hj Hq]]%step_proc [[-> ->]|[Hl Hr]]%step_proc; rewrite ?step_view; intros H1 H2.
    + done.
    + by destruct (step_sep l r f Hl Hr).
    + by destruct (step_sep j q f Hj Hq).
    + apply (step_owns j q) in H1; [|done..]. apply (step_owns l r) in H2; [|done..]. by eapply (ap_sep _ Ha).
Qed.

Lemma step_untouched j q :
  j ≠ i → procs w !! j = Some q → procs w' !! j = Some q ∧ untouched w w' q.
Proof.
  intros Hne Hq. split; [simpl; by rewrite Hrest|]. split.
  - intros v. apply (bystander_space (view w q)). intros. by eapply Hsame.
  - intros v f fl k Hv Hk. apply (Hsame j q); [done|done|right; eauto|done].
Qed.
End step.

(** After an operation the processes are apart, and those with a number other than
    [i] are what they were. *)
Definition only (i : nat) w w' : Prop :=
  apart w' ∧ ∀ j q, j ≠ i → procs w !! j = Some q → procs w' !! j = Some q ∧ untouched w w' q.

Lemma on_only w i p s' :
  apart w → procs w !! i = Some p → evolves (view w p) s' →
  only i w (shared s' (<[i := proc_of s']> (procs w))).
Proof.
  intros Ha Hp He. pose proof (ap_iso _ Ha i p Hp) as Hi.
  assert (∀ j q f k, j ≠ i → procs w !! j = Some q → owns (view w q) f → 0 ≤ k < 0x1000 →
    phys s' (f + k) = w_phys w (f + k)) as Hsame.
  { intros j q f k Hne Hq Hf Hk. destruct (owned_frame _ f (ap_iso _ Ha j q Hq) Hf) as [Hfa Hff].
    destruct (decide (phys s' (f + k) = w_phys w (f + k))) as [|Hch]; [done|].
    destruct (ev_words _ _ He f k Hfa Hk Hch); [|done]. destruct Hne. by eapply (ap_sep _ Ha). }
  assert (<[i := proc_of s']> (procs w) !! i = Some (proc_of s')) as Hps
    by (apply list_lookup_insert_eq; by eapply lookup_lt_Some).
  assert (∀ j, j ≠ i → <[i := proc_of s']> (procs w) !! j = procs w !! j) as Hrest
    by (intros; by apply list_lookup_insert_ne).
  split; [|intros j q; by apply step_untouched]. apply (step_apart w i); try done.
  - by eapply isolated_evolves.
  - apply He.
  - intros f [Ho|?]%(owns_evolves _ _ f He); [right; eauto|by left].
Qed.

(** *** A new process *)

Lemma blank_root_path (m : Z → Z) (r : Z) q :
  (∀ a, r ≤ a < r + 0x1000 → m a = 0) → valid q → path m r q = if q is [] then Some r else None.
Proof.
  intros Hz [Hq _]. destruct q as [|k q]; [done|]. apply Forall_cons in Hq as [Hk _].
  simpl. by rewrite Hz, zero_unused by lia.
Qed.

Lemma spawned_isolated s p pg id :
  alloc_pages (source s) 1 = (Some p, pg) →
  (∀ a i, pg_free (source s) a → 0 ≤ i < 512 → is_unused (phys s (a + 8 * i)) = true) →
  let s' := with_mgr (zero_page (with_source s pg) p) (manager_at p id) in
  isolated s' ∧ pg_free (source s) p ∧ (∀ a, pg_free pg a → pg_free (source s) a ∧ a ≠ p) ∧
  ∀ f, owns s' f → f = p.
Proof.
  intros E Hb s'. apply alloc_some in E as [Hp Hrest]; [|lia].
  specialize (Hp 0 ltac:(lia)). rewrite Z.mul_0_r, Z.add_0_r in Hp.
  destruct (pg_free_frame _ _ Hp) as [Hpa Hpr].
  assert (∀ a, pg_free pg a → pg_free (source s) a ∧ a ≠ p) as Hsub.
  { intros a [Ha Hn]%Hrest. split; [done|]. specialize (Hn 0 ltac:(lia)). lia. }
  assert (∀ q, valid q → table_at s' q = if q is [] then Some p else None) as Ht.
  { intros q Hq. apply blank_root_path; [|done]. intros a Ha. simpl. case_match eqn:E; [done|]. lia. }
  assert (∀ v, space s' v = None) as Hs.
  { intros v. unfold space, entry_of, mapping.
    pose proof (Ht _ (valid_page v)) as Hv. unfold table_at in Hv. by rewrite Hv. }
  split_and!; [|done|done|].
  - split; [split|..].
    + done.
    + intros q q' a Hq Hq' H1 H2. pose proof (Ht q Hq) as E1. pose proof (Ht q' Hq') as E2.
      unfold table_at in E1, E2. rewrite E1 in H1. rewrite E2 in H2. by destruct q, q'.
    + intros q a Hq H1. pose proof (Ht q Hq) as E1. unfold table_at in E1. rewrite E1 in H1.
      destruct q; [|done]. injection H1 as <-. by intros [_ ?]%Hsub.
    + apply pg_free_frame.
    + intros a k [Ha Hne]%Hsub Hk. simpl. case_match; [apply zero_unused|by apply Hb].
    + intros v v' f fl fl'. by rewrite Hs.
    + intros v f fl. by rewrite Hs.
  - intros f [(q&Hq&Hf)|(v&fl&Hv)]; [|by rewrite Hs in Hv]. rewrite Ht in Hf by done.
    destruct q; by simplify_eq.
Qed.

Lemma spawn_only w id :
  apart w → safely (run_wop w (Spawn id)) (only (length (procs w)) w).
Proof.
  intros Ha. simpl. set (s0 := view w _). unfold with_pid.
  destruct (alloc_pages (source s0) 1) as [[p|] pg] eqn:E; [|done]. simpl.
  destruct (spawned_isolated s0 p pg id E (ap_blank _ Ha)) as (Hi&Hp&Hsub&Hown).
  set (s' := with_mgr _ _) in *. set (n := length (procs w)).
  destruct (pg_free_frame _ _ Hp) as [Hpa _].
  assert (∀ j q f k, j ≠ n → procs w !! j = Some q → owns (view w q) f → 0 ≤ k < 0x1000 →
    phys s' (f + k) = w_phys w (f + k)) as Hsame.
  { intros j q f k _ Hq Hf Hk. destruct (owned_frame _ f (ap_iso _ Ha j q Hq) Hf) as [Hfa Hff].
    simpl. case_match eqn:Eq; [|done]. destruct Hff.
    assert (f = p) as -> by (Z.to_euclidean_division_equations; lia). done. }
  assert ((procs w ++ [proc_of s']) !! n = Some (proc_of s')) as Hps by (by apply list_lookup_middle).
  assert (∀ j, j ≠ n → (procs w ++ [proc_of s']) !! j = procs w !! j) as Hrest.
  { intros j Hj. destruct (decide (j < n)%nat); [by apply lookup_app_l|].
    rewrite (proj2 (lookup_ge_None (procs w) j)) by (unfold n in *; lia).
    apply lookup_ge_None. rewrite length_app. simpl. unfold n in *. lia. }
  split; [|intros j q; by apply step_untouched]. apply (step_apart w n); try done.
  - by intros a [? _]%Hsub.
  - intros f ->%Hown. by left.
Qed.

(** ** Any operation, any sequence *)

Lemma only_refl i w : apart w → only i w w.
Proof. intros Ha. split; [done|]. by intros j q _ Hq. Qed.

Lemma on_returns w i o : apart w → legal o → returns (run_wop w (On i o)) (only i w).
Proof.
  intros Ha Hl. simpl. destruct (procs w !! i) as [p|] eqn:Hp; [|by apply only_refl].
  destruct (wp_elim _ _ _ (run_vop_evolves (view w p) o (ap_iso _ Ha i p Hp) Hl)) as (r&s'&E&He).
  rewrite E. simpl. by eapply on_only.
Qed.

(** [cr3] is not part of what the invariant speaks about. *)
Lemma switch_returns w i : apart w → returns (run_wop w (Switch i)) (only i w).
Proof.
  intros Ha. simpl. destruct (procs w !! i) as [p|] eqn:Hp; [|by apply only_refl].
  split; [|by intros j q _ Hq; split]. split; [apply Ha| |apply Ha]. intros j q Hq.
  apply (bystander_isolated (view w q)); [by eapply ap_iso|done|apply Ha|done].
Qed.

Lemma wop_apart w o : apart w → legal_wop o → safely (run_wop w o) apart.
Proof.
  intros Ha Hl. destruct o as [i o|id|i].
  - apply returns_safely. eapply returns_mono; [by apply on_returns|]. by intros w' [? _].
  - eapply safely_mono; [by apply spawn_only|]. by intros w' [? _].
  - apply returns_safely. eapply returns_mono; [by apply switch_returns|]. by intros w' [? _].
Qed.

Lemma run_all_apart w os : apart w → Forall legal_wop os → safely (run_all w os) apart.
Proof.
  intros Ha Hos. revert w Ha. induction Hos as [|o os Ho Hos IH]; intros w Ha; [done|].
  simpl. apply safely_bind. eapply safely_mono; [by apply wop_apart|]. intros w'. apply IH.
Qed.

Lemma boot_apart w : procs w = [] → blank w → apart w.
Proof. intros Hp Hb. split; [done|..]; intros i; rewrite Hp; by intros. Qed.

(** C1: Memory isolation, on a machine that starts without processes and whose free
    frames hold unused entries (virtual.rs:90 does not clear the frame of a new table).
    Let any sequence of the following run, by any process in any order: [with_pid],
    [switch_to], [mmap], [unmap_page], [munmap], [handle_page_fault],
    [allocate_user_pages], [mark_page_cow], [protect_memory], [set_brk],
    [enable_cow]/[disable_cow], [copy_to_user] and stores through the tables, with
    flags in [0 < f < 0x1000] and ranges that do not wrap around.  Then in every state
    reached a frame behind a page is behind no other page of any process, is not a page
    table of any process, and is not free.  Of the calls only [with_pid] can panic, when
    there is no frame for the root.  [map_page], [map_range], [map_kernel_page] and
    [clone_address_space] are not covered: they map frames of the caller's choice or of
    another process. *)
Theorem process_isolation w os :
  procs w = [] → blank w → Forall legal_wop os →
  safely (run_all w os) (λ w', ∀ i j p q v f fl,
    procs w' !! i = Some p → procs w' !! j = Some q → space (view w' p) v = Some (f, fl) →
    (∀ v' fl', space (view w' q) v' = Some (f, fl') → i = j ∧ page_of v = page_of v') ∧
    (∀ l, valid l → table_at (view w' q) l ≠ Some f) ∧ ¬ pg_free (w_source w') f).
Proof.
  intros Hp Hb Hos. eapply safely_mono; [by apply run_all_apart; [apply boot_apart|]|].
  intros w' Ha i j p q v f fl Hi Hj Hv. pose proof (ap_iso _ Ha i p Hi) as Hip.
  assert (owns (view w' p) f) as Ho by (right; eauto).
  assert (owns (view w' q) f → i = j) as Hij by (intros; by eapply (ap_sep _ Ha)). split_and!.
  - intros v' fl' Hv'. assert (i = j) as -> by (apply Hij; right; eauto). split; [done|].
    simplify_eq. by eapply (iso_inj _ Hip).
  - intros l Hl Ht. assert (i = j) as -> by (apply Hij; left; eauto). simplify_eq.
    destruct (iso_data _ Hip v f fl Hv) as [(_&_&Hno) _]. by apply (Hno l).
  - by apply (isolated_not_free (view w' p) v f fl).
Qed.

End world.

(** ** Two processes on a machine of 64 frames *)
#[local] Existing Instance dev.

Definition machine : World (Frames 64) := mkWorld [] (λ _, 0) (mkFrames small_pmm small_managed) 0.

(** Both map a page at [0x200000], the second another one; the first writes to its
    page, faults on an unmapped one, and gives its page back. *)
Definition two_processes : list wop :=
  [Spawn 1; Spawn 2; Switch 0; On 0 (Mmap 0x200000 0x1000 0x07 0); On 1 (Mmap 0x200000 0x2000 0x07 0);
   On 0 (Store 0x200000 8 42); On 0 (Fault 0x300000 0x04); On 1 (Protect 0x200000 0x1000 0x05)].

Lemma two_processes_legal : Forall legal_wop two_processes.
Proof. unfold two_processes, legal_wop, legal, flags_ok. repeat (apply Forall_cons; split; [lia || done|]). by apply Forall_nil. Qed.

Lemma machine_blank : blank machine.
Proof. done. Qed.

Example two_processes_run :
  match run_all machine two_processes with
  | Ret w => (λ p, (space (view w p) 0x200abc, space (view w p) 0x300000)) <$> procs w
  | _ => []
  end = [(Some (0x4000, 0x07), Some (0xd000, 0x03)); (Some (0x8000, 0x05), None)].
Proof. vm_compute. reflexivity. Qed.

Lemma two_processes_end :
  ∃ w p q, run_all machine two_processes = Ret w ∧ procs w !! 0%nat = Some p ∧ procs w !! 1%nat = Some q ∧
    space (view w p) 0x200000 = Some (0x4000, 0x07).
Proof.
  assert (match run_all machine two_processes with
    | Ret w => match procs w with [p; q] => space (view w p) 0x200000 | _ => None end
    | _ => None
    end = Some (0x4000, 0x07)) as H by (vm_compute; reflexivity).
  destruct (run_all machine two_processes) as [w| | |]; [|done..].
  destruct (procs w) as [|p [|q []]] eqn:E; [done..| |done]. exists w, p, q. by rewrite E.
Qed.

Lemma process_isolation_witness :
  ∃ w p q, run_all machine two_processes = Ret w ∧ procs w !! 0%nat = Some p ∧ procs w !! 1%nat = Some q ∧
    space (view w p) 0x200000 = Some (0x4000, 0x07) ∧ space (view w q) 0x201000 ≠ Some (0x4000, 0x07).
Proof.
  pose proof (process_isolation machine two_processes eq_refl machine_blank two_processes_legal) as H.
  destruct two_processes_end as (w&p&q&E&Hp&Hq&Hv). rewrite E in H. exists w, p, q. split; [exact E|]. split; [exact Hp|]. split; [exact Hq|]. split; [exact Hv|].
  intros Hv'. destruct (H 0%nat 1%nat p q 0x200000 0x4000 0x07 Hp Hq Hv) as [Hn _].
  destruct (Hn 0x201000 0x07 Hv') as [He _]. discriminate He.
Defined.

