(* ===== verification/Dispatch.v ===== *)
(** * System call numbers, dispatch and user memory access
    (src/syscall/mod.rs and src/syscall/dispatch.rs)

    The enumerations of syscall/mod.rs, and of dispatch.rs the table of handlers and
    the functions that move bytes between kernel and user memory.  [is_user_addr],
    the enumeration [SyscallNum] and the handlers are imported by the source but not
    part of it and are parameters here; so is the size of a type [T]. *)

From S2P Require Import Prelude.
Open Scope Z_scope.

(** ** Enumerations *)

Module SyscallId.
Inductive t : Set :=
  | Read | Write | Open | Close | Stat | Fstat | Lstat | Poll | Lseek | Mmap | Mprotect
  | Munmap | Brk | Rtatc | Fcntl | ioctl | Mknod | Access | Pipe | Select | SchedYield | Mremap
  | Msync | Mincore | Madvise | Shmget | Shmat | Shmctl | Dup | Dup2 | Pause | Nanosleep
  | Getitimer | Alarm | Setitimer | Getpid | Sendfile | Socket | Connect | Accept | Sendto
  | Recvfrom | Sendmsg | Recvmsg | Shutdown | Bind | Listen | Getsockname | Getpeername
  | Socketpair | Setsockopt | Getsockopt | Clone | Fork | Vfork | Execve | Exit | Wait4 | Kill
  | Uname | Semget | Semop | Semctl | Shmdt | Msgget | Msgsnd | Msgrcv | Msgctl | Fcntl64
  | Mmap2 | Truncate64 | Ftruncate64 | Getcwd | Capget | Capset | Sigaltstack | Mkfifo
  | Mknodat | Futimesat | Newfstatat | Unlinkat | Renameat | Linkat | Symlinkat | Readlinkat
  | Fchmodat | Faccessat | Pselect6 | Ppoll | Unshare | Set_robust_list | Get_robust_list
  | Splice | Tee | Sync_file_range | Vmsplice | Move_pages | Utimensat | Epoll_create
  | Epoll_ctl | Epoll_wait | Fallocate | Timerfd_settime | Timerfd_gettime | Accept4
  | Signalfd4 | Eventfd2 | Epoll_create1 | Dup3 | Pipe2 | Inotify_init1 | Inotify_add_watch
  | Inotify_rm_watch | Io_uring_setup | Io_uring_enter | Io_uring_register | Openat | Mkdirat
  | Mkyumodat | Fchownat | Futimens | Openat2 | Epoll_pwait | Epoll_pwait2 | Memfd_create
  | Kexec_file_load | Bpf | Execveat | Userfaultfd | Membarrier | Mlock2 | Copy_file_range
  | Preadv2 | Pwritev2 | Pkey_mprotect | Pkey_alloc | Pkey_free | Statx | Io_pgetevents | Rseq
  | Pidfd_send_signal | Ioprio_set | Ioprio_get | Rt_sigaction | Rt_sigprocmask | Rt_sigreturn
  | Largefile.

(** The constructors in order; a discriminant is the position, from 0. *)
Definition all : list t := [
  Read; Write; Open; Close; Stat; Fstat; Lstat; Poll; Lseek; Mmap; Mprotect; Munmap; Brk;
  Rtatc; Fcntl; ioctl; Mknod; Access; Pipe; Select; SchedYield; Mremap; Msync; Mincore;
  Madvise; Shmget; Shmat; Shmctl; Dup; Dup2; Pause; Nanosleep; Getitimer; Alarm; Setitimer;
  Getpid; Sendfile; Socket; Connect; Accept; Sendto; Recvfrom; Sendmsg; Recvmsg; Shutdown;
  Bind; Listen; Getsockname; Getpeername; Socketpair; Setsockopt; Getsockopt; Clone; Fork;
  Vfork; Execve; Exit; Wait4; Kill; Uname; Semget; Semop; Semctl; Shmdt; Msgget; Msgsnd;
  Msgrcv; Msgctl; Fcntl64; Mmap2; Truncate64; Ftruncate64; Getcwd; Capget; Capset; Sigaltstack;
  Mkfifo; Mknodat; Futimesat; Newfstatat; Unlinkat; Renameat; Linkat; Symlinkat; Readlinkat;
  Fchmodat; Faccessat; Pselect6; Ppoll; Unshare; Set_robust_list; Get_robust_list; Splice; Tee;
  Sync_file_range; Vmsplice; Move_pages; Utimensat; Epoll_create; Epoll_ctl; Epoll_wait;
  Fallocate; Timerfd_settime; Timerfd_gettime; Accept4; Signalfd4; Eventfd2; Epoll_create1;
  Dup3; Pipe2; Inotify_init1; Inotify_add_watch; Inotify_rm_watch; Io_uring_setup;
  Io_uring_enter; Io_uring_register; Openat; Mkdirat; Mkyumodat; Fchownat; Futimens; Openat2;
  Epoll_pwait; Epoll_pwait2; Memfd_create; Kexec_file_load; Bpf; Execveat; Userfaultfd;
  Membarrier; Mlock2; Copy_file_range; Preadv2; Pwritev2; Pkey_mprotect; Pkey_alloc; Pkey_free;
  Statx; Io_pgetevents; Rseq; Pidfd_send_signal; Ioprio_set; Ioprio_get; Rt_sigaction;
  Rt_sigprocmask; Rt_sigreturn; Largefile
].

Definition discriminant (x : t) : Z :=
  match x with
  | Read => 0 | Write => 1 | Open => 2 | Close => 3 | Stat => 4 | Fstat => 5 | Lstat => 6
  | Poll => 7 | Lseek => 8 | Mmap => 9 | Mprotect => 10 | Munmap => 11 | Brk => 12
  | Rtatc => 13 | Fcntl => 14 | ioctl => 15 | Mknod => 16 | Access => 17 | Pipe => 18
  | Select => 19 | SchedYield => 20 | Mremap => 21 | Msync => 22 | Mincore => 23
  | Madvise => 24 | Shmget => 25 | Shmat => 26 | Shmctl => 27 | Dup => 28 | Dup2 => 29
  | Pause => 30 | Nanosleep => 31 | Getitimer => 32 | Alarm => 33 | Setitimer => 34
  | Getpid => 35 | Sendfile => 36 | Socket => 37 | Connect => 38 | Accept => 39 | Sendto => 40
  | Recvfrom => 41 | Sendmsg => 42 | Recvmsg => 43 | Shutdown => 44 | Bind => 45 | Listen => 46
  | Getsockname => 47 | Getpeername => 48 | Socketpair => 49 | Setsockopt => 50
  | Getsockopt => 51 | Clone => 52 | Fork => 53 | Vfork => 54 | Execve => 55 | Exit => 56
  | Wait4 => 57 | Kill => 58 | Uname => 59 | Semget => 60 | Semop => 61 | Semctl => 62
  | Shmdt => 63 | Msgget => 64 | Msgsnd => 65 | Msgrcv => 66 | Msgctl => 67 | Fcntl64 => 68
  | Mmap2 => 69 | Truncate64 => 70 | Ftruncate64 => 71 | Getcwd => 72 | Capget => 73
  | Capset => 74 | Sigaltstack => 75 | Mkfifo => 76 | Mknodat => 77 | Futimesat => 78
  | Newfstatat => 79 | Unlinkat => 80 | Renameat => 81 | Linkat => 82 | Symlinkat => 83
  | Readlinkat => 84 | Fchmodat => 85 | Faccessat => 86 | Pselect6 => 87 | Ppoll => 88
  | Unshare => 89 | Set_robust_list => 90 | Get_robust_list => 91 | Splice => 92 | Tee => 93
  | Sync_file_range => 94 | Vmsplice => 95 | Move_pages => 96 | Utimensat => 97
  | Epoll_create => 98 | Epoll_ctl => 99 | Epoll_wait => 100 | Fallocate => 101
  | Timerfd_settime => 102 | Timerfd_gettime => 103 | Accept4 => 104 | Signalfd4 => 105
  | Eventfd2 => 106 | Epoll_create1 => 107 | Dup3 => 108 | Pipe2 => 109 | Inotify_init1 => 110
  | Inotify_add_watch => 111 | Inotify_rm_watch => 112 | Io_uring_setup => 113
  | Io_uring_enter => 114 | Io_uring_register => 115 | Openat => 116 | Mkdirat => 117
  | Mkyumodat => 118 | Fchownat => 119 | Futimens => 120 | Openat2 => 121 | Epoll_pwait => 122
  | Epoll_pwait2 => 123 | Memfd_create => 124 | Kexec_file_load => 125 | Bpf => 126
  | Execveat => 127 | Userfaultfd => 128 | Membarrier => 129 | Mlock2 => 130
  | Copy_file_range => 131 | Preadv2 => 132 | Pwritev2 => 133 | Pkey_mprotect => 134
  | Pkey_alloc => 135 | Pkey_free => 136 | Statx => 137 | Io_pgetevents => 138 | Rseq => 139
  | Pidfd_send_signal => 140 | Ioprio_set => 141 | Ioprio_get => 142 | Rt_sigaction => 143
  | Rt_sigprocmask => 144 | Rt_sigreturn => 145 | Largefile => 146
  end.

Lemma discriminant_position x : all !! Z.to_nat (discriminant x) = Some x.
Proof. by destruct x. Qed.

Lemma discriminant_range x : 0 ≤ discriminant x < 147.
Proof. by destruct x. Qed.
End SyscallId.

Module Errno.
Inductive t : Set :=
  | EPERM | ENOENT | ESRCH | EINTR | EIO | ENXIO | E2BIG | ENOEXEC | EBADF | ECHILD | EAGAIN
  | ENOMEM | EACCES | EFAULT | ENOTBLK | EBUSY | EEXIST | EXDEV | ENODEV | ENOTDIR | EISDIR
  | EINVAL | ENFILE | EMFILE | ENOTTY | ETXTBSY | EFBIG | ENOSPC | ESPIPE | EROFS | EMLINK
  | EPIPE | EDOM | ERANGE.

Definition discriminant (x : t) : Z :=
  match x with
  | EPERM => -1 | ENOENT => -2 | ESRCH => -3 | EINTR => -4 | EIO => -5 | ENXIO => -6
  | E2BIG => -7 | ENOEXEC => -8 | EBADF => -9 | ECHILD => -10 | EAGAIN => -11 | ENOMEM => -12
  | EACCES => -13 | EFAULT => -14 | ENOTBLK => -15 | EBUSY => -16 | EEXIST => -17
  | EXDEV => -18 | ENODEV => -19 | ENOTDIR => -20 | EISDIR => -21 | EINVAL => -22
  | ENFILE => -23 | EMFILE => -24 | ENOTTY => -25 | ETXTBSY => -26 | EFBIG => -27
  | ENOSPC => -28 | ESPIPE => -29 | EROFS => -30 | EMLINK => -31 | EPIPE => -32 | EDOM => -33
  | ERANGE => -34
  end.

Lemma errno_inj x y : discriminant x = discriminant y → x = y.
Proof. by destruct x, y. Qed.

Lemma errno_range x : -34 ≤ discriminant x ≤ -1.
Proof. by destruct x. Qed.
End Errno.

(** ** The table *)

(** [-1i64 as u64], and [errno as u64]. *)
Definition neg_one : Z := 2 ^ 64 - 1.
Definition as_u64 (e : Z) : Z := e mod 2 ^ 64.

(** [Result<T, i64>]. *)
Definition SysResult (A : Type) : Type := Z + A.

Definition handle_error (result : SysResult Z) : Z :=
  match result with inr value => value | inl errno => as_u64 errno end.

(** The six arguments of a call. *)
Record Args := mkArgs { a1 : Z; a2 : Z; a3 : Z; a4 : Z; a5 : Z; a6 : Z }.

(** [unsafe extern "C" fn(u64, ..., u64) -> u64], on the state [K] of the kernel. *)
Definition Handler (K : Type) : Type := Args → K → outcome (Z * K).

(** [SyscallNum::X as usize] for the names the table uses.  The enumeration is
    imported from the module [syscall], which does not define it. *)
Class SyscallNum := {
  READ : Z; WRITE : Z; EXIT : Z; MMAP : Z; BRK : Z; EXECVE : Z; GETPID : Z; GETTID : Z;
  CLOCK_GETTIME : Z; FUTEX : Z; STAT : Z; OPEN : Z; CLOSE : Z; DUP : Z; PIPE : Z; WAIT4 : Z;
  KILL : Z; SIGACTION : Z; RT_SIGPROCMASK : Z; POLL : Z; IOCTL : Z; CLONE : Z; NANOSLEEP : Z;
  SET_TID_ADDRESS : Z; ARCH_PRCTL : Z; GETDENTS64 : Z; MPROTECT : Z; MUNMAP : Z; SYSINFO : Z
}.

(** The functions the table is filled with, on the state [K] of the kernel.  They are
    imported with this signature, which the functions of these names in syscall/core.rs do
    not have. *)
Class SyscallHandlers (K : Type) := {
  sys_read : Handler K; sys_write : Handler K; sys_exit : Handler K; sys_mmap : Handler K;
  sys_brk : Handler K; sys_execve : Handler K; sys_getpid : Handler K; sys_gettid : Handler K;
  sys_clock_gettime : Handler K; sys_futex : Handler K; sys_stat : Handler K;
  sys_open : Handler K; sys_close : Handler K; sys_dup : Handler K; sys_pipe : Handler K;
  sys_wait4 : Handler K; sys_kill : Handler K; sys_sigaction : Handler K;
  sys_rt_sigprocmask : Handler K; sys_poll : Handler K; sys_ioctl : Handler K;
  sys_clone : Handler K; sys_nanosleep : Handler K; sys_set_tid_address : Handler K;
  sys_arch_prctl : Handler K; sys_getdents64 : Handler K; sys_mprotect : Handler K;
  sys_munmap : Handler K; sys_sysinfo : Handler K
}.

Section table.
Context {K : Type} `{!SyscallNum} `{!SyscallHandlers K}.

(** The assignments of [SyscallTable::new], in order. *)
Definition registrations : list (Z * Handler K) := [
  (READ, sys_read); (WRITE, sys_write); (EXIT, sys_exit); (MMAP, sys_mmap); (BRK, sys_brk);
  (EXECVE, sys_execve); (GETPID, sys_getpid); (GETTID, sys_gettid);
  (CLOCK_GETTIME, sys_clock_gettime); (FUTEX, sys_futex); (STAT, sys_stat); (OPEN, sys_open);
  (CLOSE, sys_close); (DUP, sys_dup); (PIPE, sys_pipe); (WAIT4, sys_wait4); (KILL, sys_kill);
  (SIGACTION, sys_sigaction); (RT_SIGPROCMASK, sys_rt_sigprocmask); (POLL, sys_poll);
  (IOCTL, sys_ioctl); (CLONE, sys_clone); (NANOSLEEP, sys_nanosleep);
  (SET_TID_ADDRESS, sys_set_tid_address); (ARCH_PRCTL, sys_arch_prctl);
  (GETDENTS64, sys_getdents64); (MPROTECT, sys_mprotect); (MUNMAP, sys_munmap);
  (SYSINFO, sys_sysinfo)
].

(** [table[num] = Some(h)] panics outside the array. *)
Definition table_set (table : list (option (Handler K))) (num : Z) (h : Handler K) :
    outcome (list (option (Handler K))) :=
  if (0 <=? num) && (num <? Z.of_nat (length table))
  then Ret (<[Z.to_nat num := Some h]> table) else Panic.

Definition SyscallTable_new : outcome (list (option (Handler K))) :=
  foldl (λ table '(num, h), table ← table; table_set table num h)
    (Ret (replicate 256 None)) registrations.

Definition dispatch (table : list (option (Handler K))) (num : Z) (args : Args) (k : K) : outcome (Z * K) :=
  if 256 <=? num then Ret (neg_one, k) else
  match table !! Z.to_nat num with
  | None => Panic
  | Some (Some handler) => handler args k
  | Some None => Ret (neg_one, k)
  end.

(** The static table is built at compile time. *)
Definition handle_syscall (num : Z) (args : Args) (k : K) : outcome (Z * K) :=
  table ← SyscallTable_new; dispatch table num args k.
End table.

(** ** User memory *)

Class UserAddr := is_user_addr : Z → bool.

(** A little-endian integer of [n] bytes. *)
Fixpoint le_encode (n : nat) (v : Z) : list Z :=
  match n with O => [] | S n' => v mod 256 :: le_encode n' (v / 256) end.
Fixpoint le_decode (l : list Z) : Z :=
  match l with [] => 0 | b :: l' => b + 256 * le_decode l' end.

Section user.
Context {prof : Profile} `{!UserAddr}.
Implicit Types (u : Z → Z) (dst src : list Z).

(** [u] is memory as user code sees it.  A kernel buffer is a list of bytes; a raw
    pointer into it must stay inside.  The result of a copy into a buffer is the
    buffer as it is left, also after an error. *)
Definition copy_from_user u dst (src len : Z) : outcome (SysResult () * list Z) :=
  if negb (is_user_addr src) || negb (is_user_addr (wrap 64 (src + len)))
  then Ret (inl (-1), dst) else
  fl ← for_range 0 len (λ i dst,
    let src_ptr := wrap 64 (src + i) in
    if negb (is_user_addr src_ptr) then Ret (Done dst) else
    if i <? Z.of_nat (length dst) then Ret (Next (<[Z.to_nat i := u src_ptr]> dst)) else Undef) dst;
  Ret (match fl with Next d => (inr (), d) | Done d => (inl (-1), d) end).

Definition copy_to_user u (dst : Z) src (len : Z) : outcome (SysResult () * (Z → Z)) :=
  if negb (is_user_addr dst) || negb (is_user_addr (wrap 64 (dst + len)))
  then Ret (inl (-1), u) else
  fl ← for_range 0 len (λ i u,
    let dst_ptr := wrap 64 (dst + i) in
    if negb (is_user_addr dst_ptr) then Ret (Done u) else
    match src !! Z.to_nat i with
    | Some b => Ret (Next (λ a, if a =? dst_ptr then b else u a))
    | None => Undef
    end) u;
  Ret (match fl with Next u => (inr (), u) | Done u => (inl (-1), u) end).

Definition validate_user_ptr (ptr size : Z) : bool :=
  if ptr =? 0 then false else
  if size =? 0 then true else
  let end_ := wrap 64 (ptr + size) in
  if end_ <? ptr then false else is_user_addr ptr && is_user_addr end_.

Definition check_access_ok (addr size : Z) : bool := validate_user_ptr addr size.

(** Arrays of a type of [sz] bytes, as the bytes they consist of. *)
Definition copy_from_user_array u (sz : Z) (n : Z) dst (src : Z) : outcome (SysResult () * list Z) :=
  if n =? 0 then Ret (inr (), dst) else
  byte_size ← umul n sz;
  if negb (validate_user_ptr src byte_size) then Ret (inl (-1), dst)
  else copy_from_user u dst src byte_size.

Definition copy_to_user_array u (sz : Z) (n : Z) (dst : Z) src : outcome (SysResult () * (Z → Z)) :=
  if n =? 0 then Ret (inr (), u) else
  byte_size ← umul n sz;
  if negb (validate_user_ptr dst byte_size) then Ret (inl (-1), u)
  else copy_to_user u dst src byte_size.

Definition get_user_u64 u (ptr : Z) : outcome (SysResult Z) :=
  if negb (validate_user_ptr ptr 8) then Ret (inl (-1)) else
  '(r, val) ← copy_from_user u (replicate 8 0) ptr 8;
  Ret (match r with inr _ => inr (le_decode val) | inl e => inl e end).

Definition put_user_u64 u (ptr val : Z) : outcome (SysResult () * (Z → Z)) :=
  if negb (validate_user_ptr ptr 8) then Ret (inl (-1), u)
  else copy_to_user u ptr (le_encode 8 val) 8.

(** The byte at [base + i], through a local variable: what the string loops do in
    every round. *)
Definition user_byte u (base i : Z) : outcome (SysResult Z) :=
  a ← uadd base i;
  if negb (validate_user_ptr a 1) then Ret (inl (-1)) else
  '(r, b) ← copy_from_user u [0] a 1;
  Ret (match r with inr _ => inr (le_decode b) | inl e => inl e end).

Definition string_round u (ptr len : Z) : outcome (flow (SysResult Z) Z) :=
  if 4096 <? len then Ret (Done (inl (-1))) else
  r ← user_byte u ptr len;
  Ret (match r with
       | inl e => Done (inl e)
       | inr byte => if byte =? 0 then Done (inr len) else Next (len + 1)
       end).

(** The length is at most 4096 in a round that goes on, so 4098 rounds are all. *)
Definition validate_string_ptr u (ptr : Z) : outcome (SysResult Z) :=
  fl ← iter_pos 4098 (string_round u ptr) 0;
  match fl with Done r => Ret r | Next _ => Diverge end.

Definition copy_string_from_user u dst (src : Z) : outcome (SysResult Z * list Z) :=
  let max_len := Z.min (Z.of_nat (length dst)) 4096 in
  fl ← for_range 0 max_len (λ i dst,
    r ← user_byte u src i;
    match r with
    | inl e => Ret (Done (inl e, dst))
    | inr byte =>
        if byte =? 0 then Ret (Done (inr i, dst)) else
        if i <? Z.of_nat (length dst) then Ret (Next (<[Z.to_nat i := byte]> dst)) else Panic
    end) dst;
  Ret (match fl with Next d => (inr max_len, d) | Done r => r end).

Definition copy_string_to_user u (dst : Z) src : outcome (SysResult () * (Z → Z)) :=
  let len := Z.of_nat (length src) in
  if negb (validate_user_ptr dst len) then Ret (inl (-1), u) else
  if len =? 0 then Ret (inr (), u) else copy_to_user u dst src len.

(** ** I/O vectors *)

Record IoVec := mkIoVec { base : Z; len : Z }.

(** The [i]-th element, read through the user pointer. *)
Definition read_iovec u (vec i : Z) : IoVec :=
  let word o := le_decode ((λ k, u (wrap 64 (vec + 16 * i + o + Z.of_nat k))) <$> seq 0 8) in
  mkIoVec (word 0) (word 8).

Definition validate_iovec u (vec count : Z) : outcome (SysResult ()) :=
  if count =? 0 then Ret (inr ()) else
  if 1024 <? count then Ret (inl (-1)) else
  size ← umul count 16;
  if negb (validate_user_ptr vec size) then Ret (inl (-1)) else
  fl ← for_range 0 count (λ i _,
    let iov := read_iovec u vec i in
    Ret (if negb (validate_user_ptr (base iov) (len iov)) then Done () else Next ())) ();
  Ret (match fl with Next _ => inr () | Done _ => inl (-1) end).

Definition copy_iovec_from_user u (n : Z) dst (src : Z) : outcome (SysResult () * list Z) :=
  if n =? 0 then Ret (inr (), dst) else
  byte_size ← umul n 16;
  if negb (validate_user_ptr src byte_size) then Ret (inl (-1), dst)
  else copy_from_user u dst src byte_size.

Definition copy_iovec_to_user u (n : Z) (dst : Z) src : outcome (SysResult () * (Z → Z)) :=
  if n =? 0 then Ret (inr (), u) else
  byte_size ← umul n 16;
  if negb (validate_user_ptr dst byte_size) then Ret (inl (-1), u)
  else copy_to_user u dst src byte_size.

Definition validate_user_range (start size : Z) : bool :=
  if size =? 0 then true else
  if start =? 0 then false else
  let end_ := wrap 64 (start + size) in
  if end_ <? start then false else is_user_addr start && is_user_addr end_.

(** ** Page-aligned checks *)

(** The check both page-aligned copies start with. *)
Definition aligned_ends (p size : Z) : outcome bool :=
  let aligned_start := Z.land p (wnot 64 0xFFF) in
  t ← uadd p size; t ← uadd t 0xFFF;
  let aligned_end := Z.land t (wnot 64 0xFFF) in
  Ret (is_user_addr aligned_start && is_user_addr aligned_end).

Definition copy_page_aligned_from_user u dst (src : Z) : outcome (SysResult () * list Z) :=
  let size := Z.of_nat (length dst) in
  if size =? 0 then Ret (inr (), dst) else
  ok ← aligned_ends src size;
  if negb ok then Ret (inl (-1), dst) else
  if negb (validate_user_ptr src size) then Ret (inl (-1), dst)
  else copy_from_user u dst src size.

Definition copy_page_aligned_to_user u (dst : Z) src : outcome (SysResult () * (Z → Z)) :=
  let size := Z.of_nat (length src) in
  if size =? 0 then Ret (inr (), u) else
  ok ← aligned_ends dst size;
  if negb ok then Ret (inl (-1), u) else
  if negb (validate_user_ptr dst size) then Ret (inl (-1), u)
  else copy_to_user u dst src size.

(** The loop finds the length; the bytes are then copied in a second pass. *)
Definition copy_from_user_with_limit u (src limit : Z) : outcome (SysResult (list Z)) :=
  fl ← for_range 0 limit (λ len _,
    r ← user_byte u src len;
    Ret (match r with
         | inl e => Done (inl e)
         | inr byte => if byte =? 0 then Done (inr len) else Next ()
         end)) ();
  match fl with
  | Done (inl e) => Ret (inl e)
  | Next _ => Ret (inl (-1))
  | Done (inr len) =>
      '(r, vec) ← copy_from_user u (replicate (Z.to_nat len) 0) src len;
      Ret (match r with inr _ => inr vec | inl e => inl e end)
  end.

(** The slice is a pointer and a length. *)
Definition validate_and_get_user_slice (sz ptr count : Z) : outcome (SysResult (Z * Z)) :=
  if count =? 0 then Ret (inr (0, 0)) else
  if 1024 <? count then Ret (inl (-1)) else
  byte_size ← umul count sz;
  Ret (if negb (validate_user_ptr ptr byte_size) then inl (-1) else inr (ptr, count)).
End user.
