(* ===== verification/DispatchTheorems.v ===== *)
(** * Theorems about system call dispatch and user memory access

    Which handler a number reaches, that copies between kernel and user memory
    touch user addresses only, words and strings in user memory, error numbers. *)

From S2P Require Import Prelude Dispatch.
Open Scope Z_scope.

(** ** The table *)

(** The numbers of the table's names: discriminants of an enumeration differ, and
    each of them is an index of the table, without which the constant
    [SYSCALL_TABLE] does not evaluate. *)
Definition numbers `{!SyscallNum} : list Z := [
  READ; WRITE; EXIT; MMAP; BRK; EXECVE; GETPID; GETTID; CLOCK_GETTIME; FUTEX; STAT; OPEN;
  CLOSE; DUP; PIPE; WAIT4; KILL; SIGACTION; RT_SIGPROCMASK; POLL; IOCTL; CLONE; NANOSLEEP;
  SET_TID_ADDRESS; ARCH_PRCTL; GETDENTS64; MPROTECT; MUNMAP; SYSINFO
].
Class SyscallLaws `{!SyscallNum} := {
  numbers_range : Forall (λ n, 0 ≤ n < 256) numbers;
  numbers_distinct : NoDup numbers
}.

Section table.
Context {K : Type} `{!SyscallNum} `{!SyscallHandlers K} `{!SyscallLaws}.
Implicit Types (l : list (Z * Handler K)).

(** The table with the handlers of [l]. *)
Definition table_of l (table : list (option (Handler K))) : Prop :=
  length table = 256%nat ∧
  ∀ i, (i < 256)%nat →
    match table !! i with
    | Some (Some h) => (Z.of_nat i, h) ∈ l
    | Some None => ∀ h, (Z.of_nat i, h) ∉ l
    | None => False
    end.

Lemma table_set_of l table n h :
  0 ≤ n < 256 → n ∉ l.*1 → table_of l table → returns (table_set table n h) (table_of ((n, h) :: l)).
Proof.
  intros Hn Hnew [Hlen Ht]. unfold table_set.
  rewrite Hlen. rewrite (proj2 (Z.leb_le _ _)), (proj2 (Z.ltb_lt _ _)) by lia. simpl.
  split; [by rewrite length_insert|]. intros i Hi. destruct (decide (i = Z.to_nat n)) as [->|Hne].
  - rewrite list_lookup_insert_eq, Z2Nat.id by lia. left.
  - rewrite list_lookup_insert_ne by done. specialize (Ht i Hi).
    destruct (table !! i) as [[h'|]|]; [|..|done]; [by right|].
    intros h' [[= E _]|Hin]%elem_of_cons; [lia|by eapply Ht].
Qed.

Lemma table_fold l l0 m :
  Forall (λ n, 0 ≤ n < 256) l.*1 → NoDup (l.*1 ++ l0.*1) → returns m (table_of l0) →
  returns (foldl (λ table '(num, h), table ← table; table_set table num h) m l) (table_of (reverse l ++ l0)).
Proof.
  intros Hr. revert l0 m. induction l as [|[n h] l IH]; intros l0 m Hd Hm; simpl in *; [done|].
  apply Forall_cons in Hr as [Hn Hr]. apply NoDup_cons in Hd as [Hnew Hd].
  rewrite reverse_cons, <-app_assoc. apply IH; [done|simpl; apply NoDup_app; split_and!|].
  - by apply NoDup_app in Hd as (? & _ & _).
  - apply NoDup_app in Hd as (_ & Hd & _). intros x Hx [->|Hx0]%elem_of_cons; [set_solver|by apply (Hd x)].
  - apply NoDup_cons. apply NoDup_app in Hd as (_ & _ & Hd). set_solver.
  - apply returns_bind. eapply returns_mono; [exact Hm|]. intros table Ht.
    apply table_set_of; [done|set_solver|done].
Qed.

Lemma table_new : returns SyscallTable_new (table_of registrations).
Proof.
  assert (registrations.*1 = numbers) as En by done.
  eapply returns_mono; [apply (table_fold registrations [] (Ret (replicate 256 None)))|].
  - rewrite En. apply numbers_range.
  - rewrite En, app_nil_r. apply numbers_distinct.
  - split; [done|]. intros i Hi. rewrite lookup_replicate_2 by done. by intros n ?%elem_of_nil.
  - intros table [Hl Ht]. split; [done|]. intros i Hi. specialize (Ht i Hi).
    rewrite app_nil_r in Ht. destruct (table !! i) as [[h|]|]; [| |done].
    + by apply elem_of_reverse in Ht.
    + intros h Hh. eapply Ht. by apply elem_of_reverse.
Qed.

(** A number names one handler. *)
Lemma registration_unique n h h' :
  (n, h) ∈ registrations → (n, h') ∈ registrations → h = h'.
Proof.
  intros [i Hi]%list_elem_of_lookup_1 [j Hj]%list_elem_of_lookup_1.
  assert (numbers !! i = Some n ∧ numbers !! j = Some n) as [Hni Hnj].
  { change numbers with (registrations.*1). by rewrite !list_lookup_fmap, Hi, Hj. }
  pose proof (NoDup_lookup _ _ _ _ numbers_distinct Hni Hnj) as ->. congruence.
Qed.

(** C17: [handle_syscall] dispatches by the table of the statement, the names and
    functions of [SyscallTable::new]: the number of each of the 29 names runs the
    function beside it with the six arguments, and every other number, of any size,
    returns [-1] without any effect.  The numbers are those of
    the enumeration [SyscallNum], which the repository does not contain: pairwise
    different and below 256. *)
Theorem handle_syscall_exact num args (k : K) :
  0 ≤ num →
  let table := [
    (READ, sys_read); (WRITE, sys_write); (EXIT, sys_exit); (MMAP, sys_mmap); (BRK, sys_brk);
    (EXECVE, sys_execve); (GETPID, sys_getpid); (GETTID, sys_gettid);
    (CLOCK_GETTIME, sys_clock_gettime); (FUTEX, sys_futex); (STAT, sys_stat); (OPEN, sys_open);
    (CLOSE, sys_close); (DUP, sys_dup); (PIPE, sys_pipe); (WAIT4, sys_wait4); (KILL, sys_kill);
    (SIGACTION, sys_sigaction); (RT_SIGPROCMASK, sys_rt_sigprocmask); (POLL, sys_poll);
    (IOCTL, sys_ioctl); (CLONE, sys_clone); (NANOSLEEP, sys_nanosleep);
    (SET_TID_ADDRESS, sys_set_tid_address); (ARCH_PRCTL, sys_arch_prctl);
    (GETDENTS64, sys_getdents64); (MPROTECT, sys_mprotect); (MUNMAP, sys_munmap);
    (SYSINFO, sys_sysinfo)
  ] in
  (∀ h, (num, h) ∈ table → handle_syscall num args k = h args k) ∧
  (num ∉ table.*1 → handle_syscall num args k = Ret (2 ^ 64 - 1, k)).
Proof.
  intros Hnum t. change t with registrations. destruct (proj1 (returns_iff _ _) table_new) as (table&E&Hlen&Ht).
  unfold handle_syscall. rewrite E. simpl. unfold dispatch.
  destruct (Z.leb_spec 256 num) as [Hbig|Hsmall].
  { split; [|done]. intros h Hh. apply (list_elem_of_fmap_2 fst) in Hh.
    pose proof numbers_range as Hr. rewrite Forall_forall in Hr. specialize (Hr num Hh). lia. }
  specialize (Ht (Z.to_nat num) ltac:(lia)). rewrite Z2Nat.id in Ht by done.
  destruct (table !! Z.to_nat num) as [[h|]|]; [| |done].
  - split; [intros h' Hh; by rewrite (registration_unique num h h')|].
    intros Hno. destruct Hno. by apply (list_elem_of_fmap_2 fst) in Ht.
  - split; [|done]. intros h Hh. by destruct (Ht h).
Qed.
End table.

(** ** Copies *)

Section copies.
Context {prof : Profile} `{!UserAddr}.
Implicit Types (u : Z → Z).

(** The bytes of [n] addresses from [a], and the condition under which the copies
    go through. *)
Definition peek u (a : Z) (n : nat) : list Z := (λ i, u (wrap 64 (a + Z.of_nat i))) <$> seq 0 n.
Definition user_span (a len : Z) : Prop :=
  is_user_addr a = true ∧ is_user_addr (wrap 64 (a + len)) = true ∧
  ∀ i, 0 ≤ i < len → is_user_addr (wrap 64 (a + i)) = true.

Lemma peek_S u a n : peek u a (S n) = peek u a n ++ [u (wrap 64 (a + Z.of_nat n))].
Proof. unfold peek. by rewrite seq_S, fmap_app. Qed.

Lemma length_peek u a n : length (peek u a n) = n.
Proof. unfold peek. by rewrite length_fmap, length_seq. Qed.

Lemma lookup_peek u a n i :
  (i < n)%nat → peek u a n !! i = Some (u (wrap 64 (a + Z.of_nat i))).
Proof. intros. unfold peek. by rewrite list_lookup_fmap, lookup_seq_lt. Qed.

(** A buffer after [k] bytes were copied into it. *)
Definition filled u (a : Z) (dst : list Z) (k : Z) : list Z :=
  peek u a (Z.to_nat k) ++ drop (Z.to_nat k) dst.

Lemma filled_next u a dst k :
  0 ≤ k < Z.of_nat (length dst) →
  <[Z.to_nat k := u (wrap 64 (a + k))]> (filled u a dst k) = filled u a dst (k + 1).
Proof.
  intros Hk. unfold filled. replace (Z.to_nat (k + 1)) with (S (Z.to_nat k)) by lia.
  rewrite insert_app_r_alt by (rewrite length_peek; lia). rewrite length_peek, Nat.sub_diag.
  rewrite peek_S, <-app_assoc. f_equal. rewrite Z2Nat.id by lia.
  destruct (lookup_lt_is_Some_2 dst (Z.to_nat k)) as [x Hx]; [lia|].
  by rewrite (drop_S dst x) by done.
Qed.

Lemma length_filled u a dst k : 0 ≤ k ≤ Z.of_nat (length dst) → length (filled u a dst k) = length dst.
Proof. intros. unfold filled. rewrite length_app, length_peek, length_drop. lia. Qed.

(** What a copy from user memory does: it stops before the first address that is
    not a user address. *)
Lemma copy_from_user_returns u dst src len :
  0 ≤ len ≤ Z.of_nat (length dst) →
  returns (copy_from_user u dst src len) (λ rd,
    (rd = (inr (), filled u src dst len) ∧ user_span src len) ∨
    ∃ k, 0 ≤ k ≤ len ∧ rd = (inl (-1), filled u src dst k) ∧ ¬ user_span src len ∧
      ∀ i, 0 ≤ i < k → is_user_addr (wrap 64 (src + i)) = true).
Proof.
  intros Hlen. unfold copy_from_user.
  destruct (negb (is_user_addr src) || negb (is_user_addr (wrap 64 (src + len)))) eqn:E.
  { right. exists 0. split; [lia|]. split; [done|]. split; [|lia].
    intros (Hs&He&_). by rewrite Hs, He in E. }
  apply orb_false_iff in E as [Es%negb_false_iff Ee%negb_false_iff].
  apply returns_bind. eapply returns_mono.
  { apply (for_range_inv
      (λ k d, d = filled u src dst k ∧ ∀ i, 0 ≤ i < k → is_user_addr (wrap 64 (src + i)) = true)
      (λ d, ∃ k, 0 ≤ k ≤ len ∧ d = filled u src dst k ∧ ¬ user_span src len ∧
         ∀ i, 0 ≤ i < k → is_user_addr (wrap 64 (src + i)) = true)); [lia|split; [done|lia]|].
    intros k d Hk [-> Hu]. destruct (is_user_addr (wrap 64 (src + k))) eqn:Ek; simpl.
    - rewrite length_filled by lia. rewrite (proj2 (Z.ltb_lt _ _)) by lia. simpl.
      split; [apply filled_next; lia|]. intros i Hi.
      destruct (decide (i = k)) as [->|]; [done|apply Hu; lia].
    - exists k. split; [lia|]. split; [done|]. split; [|done].
      intros (_&_&Hall). by rewrite Hall in Ek. }
  intros [d|d]; simpl.
  - intros [-> Hu]. by left.
  - intros (k&?&->&?&?). right. eauto.
Qed.

Lemma copy_from_user_ok u dst src len :
  user_span src len → 0 ≤ len ≤ Z.of_nat (length dst) →
  copy_from_user u dst src len = Ret (inr (), filled u src dst len).
Proof.
  intros Hs Hlen. destruct (proj1 (returns_iff _ _) (copy_from_user_returns u dst src len Hlen))
    as (rd&->&[[-> _]|(k&_&_&Hn&_)]); done.
Qed.

(** Writing [l] to the addresses from [a]. *)
Fixpoint poke u (a : Z) (l : list Z) : Z → Z :=
  match l with
  | [] => u
  | b :: l' => poke (λ x, if x =? wrap 64 a then b else u x) (a + 1) l'
  end.

Lemma poke_snoc u a l b :
  poke u a (l ++ [b]) = λ x, if x =? wrap 64 (a + Z.of_nat (length l)) then b else poke u a l x.
Proof.
  revert u a. induction l as [|c l IH]; intros u a; simpl; [by rewrite Z.add_0_r|].
  rewrite IH. by replace (a + 1 + Z.of_nat (length l)) with (a + Z.of_nat (S (length l))) by lia.
Qed.

Lemma copy_to_user_returns u dst src len :
  0 ≤ len ≤ Z.of_nat (length src) →
  returns (copy_to_user u dst src len) (λ ru,
    (ru = (inr (), poke u dst (take (Z.to_nat len) src)) ∧ user_span dst len) ∨
    ∃ k, 0 ≤ k ≤ len ∧ ru = (inl (-1), poke u dst (take (Z.to_nat k) src)) ∧ ¬ user_span dst len ∧
      ∀ i, 0 ≤ i < k → is_user_addr (wrap 64 (dst + i)) = true).
Proof.
  intros Hlen. unfold copy_to_user.
  destruct (negb (is_user_addr dst) || negb (is_user_addr (wrap 64 (dst + len)))) eqn:E.
  { right. exists 0. split; [lia|]. split; [done|]. split; [|lia].
    intros (Hs&He&_). by rewrite Hs, He in E. }
  apply orb_false_iff in E as [Es%negb_false_iff Ee%negb_false_iff].
  apply returns_bind. eapply returns_mono.
  { apply (for_range_inv
      (λ k m, m = poke u dst (take (Z.to_nat k) src) ∧ ∀ i, 0 ≤ i < k → is_user_addr (wrap 64 (dst + i)) = true)
      (λ m, ∃ k, 0 ≤ k ≤ len ∧ m = poke u dst (take (Z.to_nat k) src) ∧ ¬ user_span dst len ∧
         ∀ i, 0 ≤ i < k → is_user_addr (wrap 64 (dst + i)) = true)); [lia|split; [done|lia]|].
    intros k m Hk [-> Hu]. destruct (is_user_addr (wrap 64 (dst + k))) eqn:Ek; simpl.
    - destruct (lookup_lt_is_Some_2 src (Z.to_nat k)) as [b Hb]; [lia|]. rewrite Hb. simpl. split.
      + replace (Z.to_nat (k + 1)) with (S (Z.to_nat k)) by lia. rewrite (take_S_r _ _ b) by done.
        rewrite poke_snoc, length_take_le, Z2Nat.id by lia. done.
      + intros i Hi. destruct (decide (i = k)) as [->|]; [done|apply Hu; lia].
    - exists k. split; [lia|]. split; [done|]. split; [|done]. intros (_&_&Hall). by rewrite Hall in Ek. }
  intros [d|d]; simpl.
  - intros [-> Hu]. by left.
  - intros (k&?&->&?&?). right. eauto.
Qed.

Lemma wrap_inj a i j : 0 ≤ i < 2 ^ 64 → 0 ≤ j < 2 ^ 64 → wrap 64 (a + i) = wrap 64 (a + j) → i = j.
Proof.
  unfold wrap. intros Hi Hj He.
  pose proof (Z.div_mod (a + i) (2 ^ 64) ltac:(lia)). pose proof (Z.div_mod (a + j) (2 ^ 64) ltac:(lia)). lia.
Qed.

(** What can be read back, and what is not touched. *)
Lemma poke_read u a l i b :
  Z.of_nat (length l) < 2 ^ 64 → l !! i = Some b → poke u a l (wrap 64 (a + Z.of_nat i)) = b.
Proof.
  induction l as [|c l IH] using rev_ind; [done|]. rewrite length_app. simpl. intros Hl Hi.
  rewrite poke_snoc. apply lookup_lt_Some in Hi as Hlt. rewrite length_app in Hlt. simpl in Hlt.
  destruct (Z.eqb_spec (wrap 64 (a + Z.of_nat i)) (wrap 64 (a + Z.of_nat (length l)))) as [He|Hne].
  - apply wrap_inj in He; [|lia..]. apply Nat2Z.inj in He as ->.
    by rewrite lookup_app_r, Nat.sub_diag in Hi by lia; injection Hi as <-.
  - apply IH; [lia|]. destruct (decide (i < length l)%nat); [by rewrite lookup_app_l in Hi|].
    by replace (length l) with i in Hne by lia.
Qed.

Lemma peek_poke u a l : Z.of_nat (length l) < 2 ^ 64 → peek (poke u a l) a (length l) = l.
Proof.
  intros Hl. apply list_eq_same_length with (length l); [done|by rewrite length_peek|].
  intros i x y Hi Hx Hy. rewrite lookup_peek in Hx by done. injection Hx as <-. by apply poke_read.
Qed.

Lemma poke_other u a l x :
  (∀ i, 0 ≤ i < Z.of_nat (length l) → x ≠ wrap 64 (a + i)) → poke u a l x = u x.
Proof.
  induction l as [|c l IH] using rev_ind; [done|]. rewrite length_app, poke_snoc. simpl. intros Hx.
  destruct (Z.eqb_spec x (wrap 64 (a + Z.of_nat (length l)))) as [->|]; [by destruct (Hx (Z.of_nat (length l))); lia|].
  apply IH. intros i Hi. apply Hx. lia.
Qed.

(** C18: [copy_to_user] writes user memory only, and all of it or an announced part.
    For every source it returns; success means that every byte can be read back, and
    holds exactly when the first address, the one behind the last, and all between
    are user addresses.  In either case, no address that is not a user address of the
    range changes. *)
Theorem copy_to_user_confined u dst src :
  Z.of_nat (length src) < 2 ^ 64 →
  ∃ r u', copy_to_user u dst src (Z.of_nat (length src)) = Ret (r, u') ∧
    (∀ x, u' x ≠ u x → is_user_addr x = true ∧ ∃ i, 0 ≤ i < Z.of_nat (length src) ∧ x = wrap 64 (dst + i)) ∧
    match r with
    | inr _ => user_span dst (Z.of_nat (length src)) ∧ peek u' dst (length src) = src
    | inl e => e = -1 ∧ ¬ user_span dst (Z.of_nat (length src))
    end.
Proof.
  intros Hlen. assert (∀ k x, 0 ≤ k ≤ Z.of_nat (length src) →
    (∀ i, 0 ≤ i < k → is_user_addr (wrap 64 (dst + i)) = true) → poke u dst (take (Z.to_nat k) src) x ≠ u x →
    is_user_addr x = true ∧ ∃ i, 0 ≤ i < Z.of_nat (length src) ∧ x = wrap 64 (dst + i)) as Hc.
  { intros k x Hk Hu Hx.
    destruct (decide (Exists (λ i, x = wrap 64 (dst + i)) (seqZ 0 k))) as [Hex|Hno].
    - apply Exists_exists in Hex as (i&Hi%elem_of_seqZ&->). split; [apply Hu; lia|]. exists i. split; [lia|done].
    - exfalso. apply Hx, poke_other. rewrite length_take_le by lia. intros i Hi ->.
      apply Hno, Exists_exists. exists i. split; [apply elem_of_seqZ; lia|done]. }
  destruct (proj1 (returns_iff _ _) (copy_to_user_returns u dst src (Z.of_nat (length src)) ltac:(lia)))
    as ([r u']&E&[[[= -> ->] Hs]|(k&Hk&[= -> ->]&Hn&Hu)]); eexists _, _; (split; [exact E|]).
  - split; [intros x; apply Hc; [lia|apply Hs]|]. split; [done|].
    rewrite Nat2Z.id, firstn_all. by apply peek_poke.
  - split; [intros x; by apply Hc|done].
Qed.

(** ** Words *)

Lemma le_decode_encode n v : 0 ≤ v < 256 ^ Z.of_nat n → le_decode (le_encode n v) = v.
Proof.
  revert v. induction n as [|n IH]; intros v Hv; simpl; [change (256 ^ Z.of_nat 0) with 1 in Hv; lia|].
  rewrite IH; [pose proof (Z.div_mod v 256 ltac:(lia)); lia|].
  rewrite Nat2Z.inj_succ, Z.pow_succ_r in Hv by lia.
  split; [apply Z.div_pos; lia|apply Z.div_lt_upper_bound; lia].
Qed.

Lemma length_le_encode n v : length (le_encode n v) = n.
Proof. revert v. induction n; intros v; simpl; [done|]. by rewrite IHn. Qed.

(** User addresses have no gaps. *)
Definition user_convex : Prop :=
  ∀ a b c, a ≤ b ≤ c → is_user_addr a = true → is_user_addr c = true → is_user_addr b = true.

Lemma validate_span ptr size :
  user_convex → in_u 64 ptr → 0 < size < 2 ^ 64 → validate_user_ptr ptr size = true →
  user_span ptr size ∧ ptr + size < 2 ^ 64.
Proof.
  intros Hcv [Hp1 Hp2] Hs. unfold validate_user_ptr.
  destruct (ptr =? 0); [done|]. destruct (Z.eqb_spec size 0); [lia|].
  destruct (Z.ltb_spec (wrap 64 (ptr + size)) ptr) as [|Hge]; [done|].
  intros [Ha Hb]%andb_true_iff.
  assert (ptr + size < 2 ^ 64) as Hlt.
  { destruct (decide (ptr + size < 2 ^ 64)) as [|Hno]; [done|exfalso]. unfold wrap in Hge.
    rewrite <-(Z.mod_add _ (-1)), Z.mod_small in Hge by lia. lia. }
  split; [|done]. split; [done|]. split; [done|]. intros i Hi.
  rewrite wrap_small by (unfold in_u; lia). apply (Hcv ptr _ (wrap 64 (ptr + size))); [|done..].
  rewrite wrap_small by (unfold in_u; lia). lia.
Qed.

(** A word written with [put_user_u64] reads back with [get_user_u64].  For a
    pointer that [validate_user_ptr] accepts both succeed, and no other address
    changes; for one it refuses both return the error and nothing changes. *)
Theorem user_u64_roundtrip u ptr v :
  user_convex → in_u 64 ptr → in_u 64 v →
  if validate_user_ptr ptr 8
  then ∃ u', put_user_u64 u ptr v = Ret (inr (), u') ∧ get_user_u64 u' ptr = Ret (inr v) ∧
       ∀ x, ¬ (ptr ≤ x < ptr + 8) → u' x = u x
  else put_user_u64 u ptr v = Ret (inl (-1), u) ∧ get_user_u64 u ptr = Ret (inl (-1)).
Proof.
  intros Hcv Hp Hv. unfold put_user_u64, get_user_u64.
  destruct (validate_user_ptr ptr 8) eqn:E; [|done]. simpl negb. cbv iota.
  destruct (validate_span ptr 8 Hcv Hp ltac:(lia) E) as [Hs Hlt]. destruct Hp as [Hp1 Hp2].
  destruct (proj1 (returns_iff _ _) (copy_to_user_returns u ptr (le_encode 8 v) 8
    ltac:(by rewrite length_le_encode))) as (ru&->&[[-> _]|(k&_&_&Hn&_)]); [|done].
  rewrite take_ge by (by rewrite length_le_encode).
  eexists. split; [done|]. split.
  - rewrite copy_from_user_ok by done.
    assert (filled (poke u ptr (le_encode 8 v)) ptr (replicate 8 0) 8 = le_encode 8 v) as ->.
    { unfold filled. rewrite drop_ge, app_nil_r by done.
      pose proof (peek_poke u ptr (le_encode 8 v)) as Hpp. rewrite length_le_encode in Hpp. by apply Hpp. }
    cbn -[le_decode le_encode]. do 2 f_equal.
    by apply le_decode_encode.
  - intros x Hx. apply poke_other. rewrite length_le_encode. intros i Hi ->. apply Hx.
    rewrite wrap_small by (unfold in_u; lia). lia.
Qed.

(** ** Strings *)

Lemma validate_one a :
  in_u 64 a → validate_user_ptr a 1 = true → user_span a 1 ∧ a + 1 < 2 ^ 64.
Proof.
  intros [Ha1 Ha2]. unfold validate_user_ptr. destruct (a =? 0); [done|]. simpl.
  destruct (Z.ltb_spec (wrap 64 (a + 1)) a) as [|Hge]; [done|]. intros [H1 H2]%andb_true_iff. split.
  - split; [done|]. split; [done|]. intros i Hi. replace i with 0 by lia.
    rewrite wrap_small by (unfold in_u; lia). by rewrite Z.add_0_r.
  - destruct (decide (a = 2 ^ 64 - 1)) as [->|]; [by vm_compute in Hge|lia].
Qed.

Lemma user_byte_ok u base i :
  0 ≤ base → 0 ≤ i → base + i < 2 ^ 64 →
  user_byte u base i =
    Ret (if validate_user_ptr (base + i) 1 then inr (u (base + i)) else inl (-1)).
Proof.
  intros. unfold user_byte. rewrite uadd_ok by (unfold in_u; lia). simpl.
  destruct (validate_user_ptr (base + i) 1) eqn:E; [|done]. simpl.
  apply validate_one in E as [Hs _]; [|unfold in_u; lia].
  rewrite copy_from_user_ok by (simpl; (done || lia)). simpl.
  rewrite !Z.add_0_r, wrap_small by (unfold in_u; lia). done.
Qed.

(** The bytes from [p] are [n] readable bytes other than zero and a readable zero. *)
Definition str_at u (p n : Z) : Prop :=
  0 ≤ n ∧ (∀ i, 0 ≤ i ≤ n → validate_user_ptr (p + i) 1 = true) ∧
  (∀ i, 0 ≤ i < n → u (p + i) ≠ 0) ∧ u (p + n) = 0.

Lemma str_at_unique u p n m : str_at u p n → str_at u p m → n = m.
Proof.
  intros (Hn&_&Hn1&Hn0) (Hm&_&Hm1&Hm0).
  destruct (Z.lt_trichotomy n m) as [|[|]]; [destruct (Hm1 n); (done || lia)|done|destruct (Hn1 m); (done || lia)].
Qed.

(** [k] bytes were looked at and none ended the search. *)
Definition str_prefix u (p k : Z) : Prop :=
  0 ≤ k ∧ ∀ i, 0 ≤ i < k → validate_user_ptr (p + i) 1 = true ∧ u (p + i) ≠ 0.

Lemma str_prefix_bad u p k n :
  str_prefix u p k → validate_user_ptr (p + k) 1 = false → ¬ str_at u p n.
Proof.
  intros (Hk&Hp) Hv (Hn&Hr&Hnz&Hz). destruct (decide (k ≤ n)); [by rewrite Hr in Hv by lia|].
  by destruct (Hp n); lia.
Qed.

Lemma str_prefix_step u p k :
  str_prefix u p k → validate_user_ptr (p + k) 1 = true →
  if u (p + k) =? 0 then str_at u p k else str_prefix u p (k + 1).
Proof.
  intros (Hk&Hp) Hv. destruct (Z.eqb_spec (u (p + k)) 0) as [Hz|Hz].
  - split; [done|]. split; [|split; [intros i Hi; by apply Hp|done]].
    intros i Hi. destruct (decide (i = k)) as [->|]; [done|apply Hp; lia].
  - split; [lia|]. intros i Hi. destruct (decide (i = k)) as [->|]; [done|apply Hp; lia].
Qed.

Lemma str_prefix_long u p k n : str_prefix u p k → str_at u p n → k ≤ n.
Proof. intros (_&Hp) (Hn&_&_&Hz). destruct (decide (k ≤ n)); [done|]. by destruct (Hp n); lia. Qed.

(** C33: [validate_string_ptr] terminates and is exact, for a pointer with at least 4097
    bytes up to the end of the address space: it returns [n] exactly when
    the bytes from the pointer are [n] readable bytes other than zero followed by a
    readable zero and [n] is at most 4096, and the error otherwise. *)
Theorem validate_string_ptr_exact u ptr :
  0 ≤ ptr → ptr + 4097 < 2 ^ 64 →
  ∃ r, validate_string_ptr u ptr = Ret r ∧
    match r with
    | inr n => str_at u ptr n ∧ n ≤ 4096
    | inl e => e = -1 ∧ ∀ n, str_at u ptr n → 4096 < n
    end.
Proof.
  intros Hp Hov.
  pose (Q := λ r : SysResult Z, match r with inr n => str_at u ptr n ∧ n ≤ 4096
    | inl e => e = -1 ∧ ∀ n, str_at u ptr n → 4096 < n end). apply (returns_iff _ Q).
  unfold validate_string_ptr. apply returns_bind. eapply returns_mono.
  { apply (iter_pos_inv (λ k len, len = k ∧ k ≤ 4097 ∧ str_prefix u ptr k) Q); [split; [done|split; [lia|split; [done|lia]]]|].
    intros k len Hk (->&Hle&Hpre). unfold string_round. destruct (Z.ltb_spec 4096 k) as [Hbig|Hsm].
    { split; [done|]. intros n Hn. pose proof (str_prefix_long u ptr k n Hpre Hn). lia. }
    rewrite user_byte_ok by lia. simpl. destruct (validate_user_ptr (ptr + k) 1) eqn:E.
    - pose proof (str_prefix_step u ptr k Hpre E) as Hst. destruct (u (ptr + k) =? 0); simpl; [done|].
      split; [done|]. split; [lia|done].
    - split; [done|]. intros n Hn. by destruct (str_prefix_bad u ptr k n Hpre E). }
  intros [k|r]; [|done]. simpl. lia.
Qed.

(** [copy_from_user_with_limit] returns exactly the string: the bytes before the
    first zero when all of them are readable and fewer than [limit], and the error in
    every other case. *)
Theorem copy_with_limit_exact u src limit :
  0 ≤ src → 0 ≤ limit → src + limit < 2 ^ 64 →
  ∃ r, copy_from_user_with_limit u src limit = Ret r ∧
    match r with
    | inr vec => ∃ n, str_at u src n ∧ n < limit ∧ vec = peek u src (Z.to_nat n)
    | inl e => e = -1 ∧ ∀ n, str_at u src n → limit ≤ n
    end.
Proof.
  intros Hp Hl Hov.
  apply (returns_iff _ (λ r, match r with
    | inr vec => ∃ n, str_at u src n ∧ n < limit ∧ vec = peek u src (Z.to_nat n)
    | inl e => e = -1 ∧ ∀ n, str_at u src n → limit ≤ n end)).
  unfold copy_from_user_with_limit. apply returns_bind. eapply returns_mono.
  { apply (for_range_inv (λ k _, str_prefix u src k)
      (λ r, match r with inr n => str_at u src n ∧ n < limit | inl e => e = -1 ∧ ∀ n, ¬ str_at u src n end));
      [done|split; [done|lia]|].
    intros k [] Hk Hpre. rewrite user_byte_ok by lia. simpl. destruct (validate_user_ptr (src + k) 1) eqn:E.
    - pose proof (str_prefix_step u src k Hpre E) as Hst. destruct (u (src + k) =? 0); simpl; [|done].
      split; [done|lia].
    - split; [done|]. intros n. by apply (str_prefix_bad u src k). }
  intros [[]|[e|n]]; simpl.
  - intros Hpre. split; [done|]. intros n. by apply str_prefix_long.
  - intros [-> Hno]. split; [done|]. intros n Hn. by destruct (Hno n).
  - intros [Hn Hlt]. pose proof Hn as (Hn0&Hr&_).
    assert (user_span src n) as Hspan.
    { assert (∀ i, 0 ≤ i ≤ n → is_user_addr (wrap 64 (src + i)) = true) as Hu.
      { intros i Hi. destruct (validate_one (src + i)) as [[Hui _] _]; [unfold in_u; lia|by apply Hr|].
        by rewrite wrap_small by (unfold in_u; lia). }
      split; [|split; [apply Hu; lia|intros i Hi; apply Hu; lia]].
      specialize (Hu 0 ltac:(lia)). rewrite wrap_small in Hu by (unfold in_u; lia). by rewrite Z.add_0_r in Hu. }
    rewrite copy_from_user_ok by (done || rewrite length_replicate; lia). simpl.
    exists n. split; [done|]. split; [done|]. unfold filled.
    by rewrite drop_ge, app_nil_r by (rewrite length_replicate; lia).
Qed.
End copies.

(** ** Error numbers *)

(** Error numbers survive the return register: the word [handle_error] makes of
    an [Errno] gives the number back when read as a signed word, and is one of the
    34 largest words, so it differs from every result below [2^64 - 34]. *)
Theorem errno_roundtrip (e : Errno.t) :
  let w := handle_error (inl (Errno.discriminant e)) in
  in_u 64 w ∧ 2 ^ 64 - 34 ≤ w ∧ (if 2 ^ 63 <=? w then w - 2 ^ 64 else w) = Errno.discriminant e ∧
  ∀ e', handle_error (inl (Errno.discriminant e')) = w → e' = e.
Proof.
  assert (∀ x, handle_error (inl (Errno.discriminant x)) = 2 ^ 64 + Errno.discriminant x) as Hw.
  { intros x. pose proof (Errno.errno_range x). unfold handle_error, as_u64.
    rewrite <-(Z.mod_add _ 1), Z.mul_1_l, Z.mod_small by lia. lia. }
  intros w. pose proof (Errno.errno_range e). subst w. rewrite Hw. split; [unfold in_u; lia|]. split; [lia|]. split.
  - destruct (Z.leb_spec (2 ^ 63) (2 ^ 64 + Errno.discriminant e)); lia.
  - intros e'. rewrite Hw. intros He. apply Errno.errno_inj. lia.
Qed.

(** ** A concrete machine and the witnesses *)

#[export] Instance low_half : UserAddr := λ a, (0x1000 <=? a) && (a <? 2 ^ 47).

Lemma low_half_convex : user_convex.
Proof. intros a b c. unfold is_user_addr, low_half. rewrite !andb_true_iff, !Z.leb_le, !Z.ltb_lt. lia. Qed.

(** Memory with the string of length 5 at 0x2000. *)
Definition sample_user : Z → Z := λ a, if (0x2000 <=? a) && (a <? 0x2005) then 65 else 0.

(** Numbers of Linux on x86-64; the [i]-th function adds [i] to its first argument. *)
#[export] Instance sample_nums : SyscallNum := {|
  READ := 0; WRITE := 1; EXIT := 60; MMAP := 9; BRK := 12; EXECVE := 59; GETPID := 39;
  GETTID := 186; CLOCK_GETTIME := 228; FUTEX := 202; STAT := 4; OPEN := 2; CLOSE := 3;
  DUP := 32; PIPE := 22; WAIT4 := 61; KILL := 62; SIGACTION := 13; RT_SIGPROCMASK := 14;
  POLL := 7; IOCTL := 16; CLONE := 56; NANOSLEEP := 35; SET_TID_ADDRESS := 218;
  ARCH_PRCTL := 158; GETDENTS64 := 217; MPROTECT := 10; MUNMAP := 11; SYSINFO := 99
|}.
Definition sample_handler (i : Z) : Handler Z := λ args k, Ret (a1 args + i, k + 1).
#[export] Instance sample_calls : SyscallHandlers Z := {|
  sys_read := sample_handler 0; sys_write := sample_handler 1; sys_exit := sample_handler 2;
  sys_mmap := sample_handler 3; sys_brk := sample_handler 4; sys_execve := sample_handler 5;
  sys_getpid := sample_handler 6; sys_gettid := sample_handler 7;
  sys_clock_gettime := sample_handler 8; sys_futex := sample_handler 9;
  sys_stat := sample_handler 10; sys_open := sample_handler 11; sys_close := sample_handler 12;
  sys_dup := sample_handler 13; sys_pipe := sample_handler 14; sys_wait4 := sample_handler 15;
  sys_kill := sample_handler 16; sys_sigaction := sample_handler 17;
  sys_rt_sigprocmask := sample_handler 18; sys_poll := sample_handler 19;
  sys_ioctl := sample_handler 20; sys_clone := sample_handler 21;
  sys_nanosleep := sample_handler 22; sys_set_tid_address := sample_handler 23;
  sys_arch_prctl := sample_handler 24; sys_getdents64 := sample_handler 25;
  sys_mprotect := sample_handler 26; sys_munmap := sample_handler 27;
  sys_sysinfo := sample_handler 28
|}.

#[export] Instance sample_laws : SyscallLaws.
Proof. split; apply (bool_decide_unpack _); by vm_compute. Qed.

Lemma handle_syscall_exact_witness :
  handle_syscall 9 (mkArgs 5 0 0 0 0 0) 7 = Ret (8, 8) ∧
  handle_syscall 300 (mkArgs 5 0 0 0 0 0) 7 = Ret (2 ^ 64 - 1, 7).
Proof.
  split.
  - refine (proj1 (handle_syscall_exact 9 (mkArgs 5 0 0 0 0 0) 7 ltac:(lia)) sys_mmap _). do 3 right. left.
  - apply (handle_syscall_exact 300 (mkArgs 5 0 0 0 0 0) 7 ltac:(lia)).
    apply (bool_decide_unpack _). by vm_compute.
Defined.

Lemma copy_to_user_confined_witness :
  ∃ r u', copy_to_user sample_user 0x3000 [1; 2; 3] 3 = Ret (r, u').
Proof.
  destruct (copy_to_user_confined sample_user 0x3000 [1; 2; 3]) as (r&u'&E&_); [simpl; lia|].
  exists r, u'. exact E.
Defined.

Lemma user_u64_roundtrip_witness :
  ∃ u', put_user_u64 sample_user 0x3000 0x1122334455667788 = Ret (inr (), u') ∧
        get_user_u64 u' 0x3000 = Ret (inr 0x1122334455667788).
Proof.
  destruct (user_u64_roundtrip sample_user 0x3000 0x1122334455667788 low_half_convex
    ltac:(unfold in_u; lia) ltac:(unfold in_u; lia)) as (u'&E&E'&_).
  exists u'. exact (conj E E').
Defined.

Lemma validate_string_ptr_exact_witness :
  ∃ r, validate_string_ptr (prof := dev) sample_user 0x2000 = Ret r.
Proof.
  destruct (validate_string_ptr_exact (prof := dev) sample_user 0x2000) as (r&E&_); [lia..|].
  exists r. exact E.
Defined.

Lemma copy_with_limit_exact_witness :
  ∃ r, copy_from_user_with_limit (prof := dev) sample_user 0x2000 16 = Ret r.
Proof.
  destruct (copy_with_limit_exact (prof := dev) sample_user 0x2000 16) as (r&E&_); [lia..|].
  exists r. exact E.
Defined.

(** Values on the concrete machine; a buffer that ends exactly where user space ends
    is refused, because the address behind it is checked too. *)
Example string_length_5 : validate_string_ptr (prof := dev) sample_user 0x2000 = Ret (inr 5).
Proof. by vm_compute. Qed.
Example last_byte_refused :
  validate_user_ptr (2 ^ 47 - 8) 8 = false ∧ is_user_addr (2 ^ 47 - 1) = true ∧
  validate_user_ptr (2 ^ 47 - 9) 8 = true ∧ validate_user_ptr (2 ^ 63) 0 = true.
Proof. by vm_compute. Qed.
