(* ===== verification/Timer.v ===== *)
(** * Time keeping (src/timer.rs)

    The tick counter and the frequency, the registers of the two timer chips, the
    conversions between ticks, cycles and time, the loops that wait for a counter,
    and the calendar conversion.  A loop takes what it reads as a sequence: [obs k]
    is the timer's state at its observation number [k], [tsc k] the value of its
    [rdtsc] number [k]; its result is the number of the last observation.  The
    theorems are in TimerTheorems. *)

From S2P Require Import Prelude.
Open Scope Z_scope.

Record Timer := { TICKS : Z; FREQUENCY : Z; TSC_KNOWN : bool }.
Definition timer_start : Timer := {| TICKS := 0; FREQUENCY := 0; TSC_KNOWN := false |}.

Record TimeVal := { sec : Z; usec : Z }.

Definition set_ticks (s : Timer) (v : Z) : Timer :=
  {| TICKS := v; FREQUENCY := FREQUENCY s; TSC_KNOWN := TSC_KNOWN s |}.
Definition set_frequency (s : Timer) (v : Z) : Timer :=
  {| TICKS := TICKS s; FREQUENCY := v; TSC_KNOWN := TSC_KNOWN s |}.

Record ITimerSpec := { it_interval : TimeVal; it_value : TimeVal }.

(** The 64-bit registers of the HPET by byte offset from [HPET_BASE], and the bytes
    sent to ports. *)
Definition HPET_BASE : Z := 0xFED00000.
Definition PIT_PORT_CMD : Z := 0x43.
Definition PIT_PORT_DATA : Z := 0x40.
Definition PIT_BASE_FREQ : Z := 1193182.

Record Machine := { timer : Timer; hpet : Z → Z; port_log : list (Z * Z) }.

Definition read_hpet_reg (m : Machine) (offset : Z) : Z := hpet m offset.
Definition write_hpet_reg (m : Machine) (offset value : Z) : Machine :=
  {| timer := timer m; hpet := λ o, if o =? offset then value else hpet m o; port_log := port_log m |}.
Definition outb (m : Machine) (port val : Z) : Machine :=
  {| timer := timer m; hpet := hpet m; port_log := port_log m ++ [(port, val)] |}.
Definition with_timer (m : Machine) (t : Timer) : Machine :=
  {| timer := t; hpet := hpet m; port_log := port_log m |}.

(** The fields of [struct HPET] lie where [repr(C)] puts them. *)
Definition HPET_cap_id : Z := 0.
Definition HPET_config : Z := 8.
Definition HPET_isr : Z := 16.
Definition HPET_main_ctr : Z := 24 + 25 * 8.

Definition is_hpet_capable (m : Machine) : bool :=
  let cap_id := read_hpet_reg m HPET_cap_id in negb (cap_id =? 0) && has_bit cap_id 13.

(** The high half of [cap_id] is the counter period in femtoseconds. *)
Definition init_hpet (m : Machine) : bool * Machine :=
  let period := Z.shiftr (read_hpet_reg m HPET_cap_id) 32 mod 2 ^ 32 in
  if period =? 0 then (false, m) else
  let m := write_hpet_reg m HPET_config (Z.land (read_hpet_reg m HPET_config) (wnot 64 1)) in
  let m := write_hpet_reg m HPET_main_ctr 0 in
  let m := write_hpet_reg m HPET_config (Z.lor (read_hpet_reg m HPET_config) 1) in
  (true, with_timer m (set_frequency (timer m) (1000000000000000 / period))).

Definition init_pit (m : Machine) : Machine :=
  let divisor := 65535 in
  let m := outb m PIT_PORT_CMD 0x36 in
  let m := outb m PIT_PORT_DATA (divisor mod 256) in
  outb m PIT_PORT_DATA (Z.shiftr divisor 8 mod 256).
Definition enable_periodic_mode (m : Machine) : Machine := outb m PIT_PORT_CMD 0x36.
Definition disable_timer (m : Machine) : Machine :=
  if is_hpet_capable m then write_hpet_reg m 0x10 0 else m.
Definition timer_frequency_detect : Z := PIT_BASE_FREQ.
Definition get_boot_time_ns : Z := 0.

(** [get_raw_counter], with [tsc] the processor's counter. *)
Definition get_raw_counter (m : Machine) (tsc : Z) : Z :=
  if is_hpet_capable m then read_hpet_reg m 0xF0 else tsc.

(** [while test() {}]: the number of the evaluation that fails. *)
Fixpoint wait_while (fuel : nat) (test : nat → outcome bool) (k : nat) : outcome nat :=
  match fuel with
  | O => Diverge
  | S fuel' => b ← test k; if (b : bool) then wait_while fuel' test (S k) else Ret k
  end.

Section timer.
Context {prof : Profile}.
Implicit Types (s : Timer).

Definition ticks s : Z := TICKS s.

(** [if f > 0 { t * k / f } else { 0 }]. *)
Definition scaled (k : Z) s : outcome Z :=
  if 0 <? FREQUENCY s then m ← umul (TICKS s) k; udiv m (FREQUENCY s) else Ret 0.
Definition uptime s : outcome Z := scaled 1000000000 s.
Definition uptime_ms s : outcome Z := scaled 1000000 s.
Definition uptime_us s : outcome Z := scaled 1000 s.

(** [calibrate_tsc]: [ticks_seen k] is the value of [TICKS] at load number [k],
    [start] and [end_] the two time stamps.  The new state has the counter as the
    loop last saw it. *)
Definition calibrate_tsc s (fuel : nat) (ticks_seen : nat → Z) (start end_ : Z) : outcome Timer :=
  if TSC_KNOWN s then Ret s else
  k ← wait_while fuel (λ k, d ← usub (ticks_seen k) (ticks_seen 0%nat); Ret (negb (100 <=? d))) 1;
  delta ← usub end_ start;
  f ← umul delta 10;
  Ret {| TICKS := ticks_seen k; FREQUENCY := f; TSC_KNOWN := true |}.

(** [init]: the HPET if there is one, else the PIT and the calibration. *)
Definition init (m : Machine) (fuel : nat) (ticks_seen : nat → Z) (start end_ : Z) : outcome Machine :=
  let '(done, m) := if is_hpet_capable m then init_hpet m else (false, m) in
  if done then Ret m else
  let m := init_pit m in
  t ← calibrate_tsc (timer m) fuel ticks_seen start end_;
  Ret (with_timer m t).

Definition get_timeval s : outcome TimeVal :=
  ns ← uptime s;
  Ret {| sec := ns / 1000000000; usec := (ns mod 1000000000) / 1000 |}.

Definition tick s : Timer := set_ticks s (wrap 64 (TICKS s + 1)).
Definition timer_interrupt_handler s : Timer := tick s.
Definition reset_timer s : Timer := set_ticks s 0.
Definition frequency s : Z := FREQUENCY s.
Definition timer_enabled s : bool := 0 <? FREQUENCY s.
Definition timer_reset_frequency s (freq : Z) : Timer := set_frequency s freq.

Definition cycles_to_ns s (cycles : Z) : outcome Z :=
  if 0 <? FREQUENCY s then m ← umul cycles 1000000000; udiv m (FREQUENCY s) else Ret 0.
Definition ns_to_cycles s (ns : Z) : outcome Z :=
  if 0 <? FREQUENCY s then m ← umul ns (FREQUENCY s); udiv m 1000000000 else Ret 0.

Definition time_since s (start_ns : Z) : outcome Z :=
  now ← uptime s; if start_ns <=? now then usub now start_ns else Ret 0.
Definition elapsed_time s (start : Z) : outcome Z :=
  cur ← uptime s; if start <=? cur then usub cur start else Ret 0.
Definition timestamp_ns s : outcome Z := uptime s.
Definition timestamp_us s : outcome Z := uptime_us s.
Definition timestamp_ms s : outcome Z := uptime_ms s.
Definition tick_rate_hz s : Z :=
  if 0 <? FREQUENCY s then FREQUENCY s / 1000000000 else 100.

Record Date := { year : Z; month : Z; day : Z; hour : Z; minute : Z; second : Z }.

(** [x as u8] and [x as u32] truncate; the additions are checked. *)
Definition convert_timestamp_to_date (timestamp : Z) : outcome Date :=
  let seconds := timestamp / 1000000000 in
  let days := seconds / 86400 in
  year ← checked 32 (1970 + (days / 365) mod 2 ^ 32);
  month ← checked 8 ((((days mod 365) / 30) mod 2 ^ 8) + 1);
  day ← checked 8 ((((days mod 365) mod 30) mod 2 ^ 8) + 1);
  let hour := ((seconds mod 86400) / 3600) mod 2 ^ 8 in
  let minute := ((seconds mod 3600) / 60) mod 2 ^ 8 in
  let second := (seconds mod 60) mod 2 ^ 8 in
  Ret {| year := year; month := month; day := day; hour := hour; minute := minute; second := second |}.

(** ** Waiting *)
Section waiting.
Context (obs : nat → Timer) (tsc : nat → Z).

(** [while uptime() < target]. *)
Definition wait_uptime (fuel : nat) (target : Z) (k : nat) : outcome nat :=
  wait_while fuel (λ k, u ← uptime (obs k); Ret (u <? target)) k.

Definition sleep_ns (fuel : nat) (ns : Z) : outcome nat :=
  t0 ← uptime (obs 0%nat); target ← uadd t0 ns; wait_uptime fuel target 1.
Definition sleep_ms (fuel : nat) (ms : Z) : outcome nat := ns ← umul ms 1000000; sleep_ns fuel ns.
Definition sleep_us (fuel : nat) (us : Z) : outcome nat := ns ← umul us 1000; sleep_ns fuel ns.
Definition sleep_ticks (fuel : nat) (n : Z) : outcome nat :=
  let current := TICKS (obs 0%nat) in
  wait_while fuel (λ k, target ← uadd current n; Ret (TICKS (obs k) <? target)) 1.
Definition wait_until_ns (fuel : nat) (target_ns : Z) : outcome nat := wait_uptime fuel target_ns 0.
Definition sleep_until_ns (fuel : nat) (target_ns : Z) : outcome nat := wait_uptime fuel target_ns 0.

Definition get_cycles (k : nat) : Z := tsc k.

(** [while rdtsc() - start < cycles], [start] being read first. *)
Definition busy_wait_cycles (fuel : nat) (cycles : Z) : outcome nat :=
  wait_while fuel (λ k, d ← usub (tsc k) (tsc 0%nat); Ret (d <? cycles)) 1.
Definition delay_us (fuel : nat) (us : Z) : outcome nat :=
  m ← umul us (FREQUENCY (obs 0%nat)); busy_wait_cycles fuel (m / 1000000).
Definition microsecond_delay (fuel : nat) (us : Z) : outcome nat :=
  m ← umul (FREQUENCY (obs 0%nat)) us; busy_wait_cycles fuel (m / 1000000).
Definition millisecond_delay (fuel : nat) (ms : Z) : outcome nat :=
  us ← umul ms 1000; microsecond_delay fuel us.

(** [wait_for_event], with [cond k] the result of call number [k] of the closure. *)
Fixpoint wait_for_event_loop (fuel : nat) (cond : nat → bool) (start timeout_ns : Z) (k : nat) :
    outcome bool :=
  match fuel with
  | O => Diverge
  | S fuel' =>
      u ← uptime (obs (S k));
      d ← usub u start;
      if d <? timeout_ns
      then if cond k then Ret true else wait_for_event_loop fuel' cond start timeout_ns (S k)
      else Ret false
  end.
Definition wait_for_event (fuel : nat) (timeout_ns : Z) (cond : nat → bool) : outcome bool :=
  start ← uptime (obs 0%nat); wait_for_event_loop fuel cond start timeout_ns 0.

(** The result is [None] when the function returns without reading the cycle
    counter. *)
Definition precise_sleep_ns (fuel : nat) (ns : Z) : outcome (option nat) :=
  start ← uptime (obs 0%nat);
  target ← uadd start ns;
  let freq := FREQUENCY (obs 1%nat) in
  if 0 <? freq then
    let cycles_per_ns := freq / 1000000000 in
    now ← uptime (obs 2%nat);
    remaining_ns ← usub target now;
    if (0 <? remaining_ns) && (0 <? cycles_per_ns) then
      cycles ← umul remaining_ns cycles_per_ns;
      k ← busy_wait_cycles fuel cycles;
      Ret (Some k)
    else Ret None
  else Ret None.
End waiting.
End timer.
