(* ===== verification/TimerTheorems.v ===== *)
(** * Time keeping: theorems

    The calendar conversion, the units of the clocks, how long the waiting loops
    wait, when they never return, and what the HPET set-up changes. *)

From S2P Require Import Prelude Timer.
Open Scope Z_scope.

Section timer.
Context {prof : Profile}.
Implicit Types (s : Timer).

(** For every 64-bit timestamp the conversion returns and its fields determine
    the second: the calendar is years of 365 days and months of 30 days, so the
    five last days of a year are in month 13. *)
Theorem date_is_invertible ts :
  in_u 64 ts →
  returns (convert_timestamp_to_date ts) (λ d,
    ts / 1000000000 = (((year d - 1970) * 365 + (month d - 1) * 30 + (day d - 1)) * 24 + hour d) * 3600
                      + minute d * 60 + second d ∧
    0 ≤ hour d < 24 ∧ 0 ≤ minute d < 60 ∧ 0 ≤ second d < 60 ∧ 1 ≤ day d ≤ 30 ∧ 1 ≤ month d ≤ 13 ∧
    (month d = 13 ↔ 360 ≤ (ts / 1000000000 / 86400) mod 365)).
Proof.
  intros [H0 H64]. unfold convert_timestamp_to_date.
  set (secs := ts / 1000000000). set (days := secs / 86400).
  assert (0 ≤ secs < 18446744074) by (unfold secs; split; [apply Z.div_pos|apply Z.div_lt_upper_bound]; lia).
  assert (0 ≤ days < 213504) by (unfold days; split; [apply Z.div_pos|apply Z.div_lt_upper_bound]; lia).
  set (doy := days mod 365).
  pose proof (Z.mod_pos_bound days 365 ltac:(lia)) as Hdoy. fold doy in Hdoy.
  pose proof (Z.div_mod days 365 ltac:(lia)) as Hyd. fold doy in Hyd.
  pose proof (Z.div_mod doy 30 ltac:(lia)). pose proof (Z.mod_pos_bound doy 30 ltac:(lia)).
  pose proof (Z.div_mod secs 86400 ltac:(lia)) as Hsd. fold days in Hsd.
  pose proof (Z.mod_pos_bound secs 86400 ltac:(lia)).
  set (sod := secs mod 86400) in *.
  pose proof (Z.div_mod sod 3600 ltac:(lia)). pose proof (Z.mod_pos_bound sod 3600 ltac:(lia)).
  assert (secs mod 3600 = sod mod 3600) as ->.
  { rewrite Hsd. replace (86400 * days + sod) with (sod + (24 * days) * 3600) by lia. by rewrite Z.mod_add. }
  assert (secs mod 60 = (sod mod 3600) mod 60) as ->.
  { rewrite Hsd. replace (86400 * days + sod) with (sod + (1440 * days) * 60) by lia.
    rewrite Z.mod_add by lia. rewrite (Z.div_mod sod 3600) at 1 by lia.
    replace (3600 * (sod / 3600) + sod mod 3600) with (sod mod 3600 + (60 * (sod / 3600)) * 60) by lia.
    by rewrite Z.mod_add. }
  set (soh := sod mod 3600) in *.
  pose proof (Z.div_mod soh 60 ltac:(lia)). pose proof (Z.mod_pos_bound soh 60 ltac:(lia)).
  assert (0 ≤ days / 365 < 585) by lia. assert (0 ≤ doy / 30 < 13) by lia.
  assert (0 ≤ sod / 3600 < 24) by lia. assert (0 ≤ soh / 60 < 60) by lia.
  rewrite !(Z.mod_small _ (2 ^ 32)), !(Z.mod_small _ (2 ^ 8)) by lia.
  step1. step1; [unfold in_u; lia|]. step1. step1; [unfold in_u; lia|]. step1. step1; [unfold in_u; lia|].
  simpl. split_and!; lia.
Qed.

(** The names of the scaled clocks are swapped.  When [FREQUENCY] is the number
    of ticks per second, [uptime] is in nanoseconds; [uptime_ms] is then in
    microseconds and [uptime_us] in milliseconds. *)
Theorem uptime_units s ns :
  0 < FREQUENCY s → 0 ≤ TICKS s → TICKS s * 1000000000 < 2 ^ 64 →
  uptime s = Ret ns → uptime_ms s = Ret (ns / 1000) ∧ uptime_us s = Ret (ns / 1000000).
Proof.
  intros Hf Ht Hmax. unfold uptime, uptime_ms, uptime_us, scaled.
  rewrite (proj2 (Z.ltb_lt 0 _)) by done.
  rewrite !umul_ok by (unfold in_u; lia). cbn [mbind outcome_bind]. unfold udiv.
  rewrite (proj2 (Z.eqb_neq _ 0)) by lia. intros [= <-].
  assert (∀ k c, 0 < c → TICKS s * k / FREQUENCY s = TICKS s * (k * c) / FREQUENCY s / c) as Hk.
  { intros k c Hc. rewrite Z.div_div by lia. rewrite (Z.mul_assoc _ k c).
    by rewrite Z.div_mul_cancel_r by lia. }
  by rewrite (Hk 1000000 1000), (Hk 1000 1000000) by lia.
Qed.

(** ** The waiting loops *)

Lemma wait_while_first test n k fuel :
  (∀ j, (k ≤ j < n)%nat → test j = Ret true) → test n = Ret false →
  (k ≤ n)%nat → (n - k < fuel)%nat → wait_while fuel test k = Ret n.
Proof.
  intros Ht Hn Hk Hf. revert k Ht Hk Hf.
  induction fuel as [|fuel IH]; intros k Ht Hk Hf; [lia|]. cbn [wait_while].
  destruct (decide (k = n)) as [->|]; [by rewrite Hn|].
  rewrite Ht by lia. apply IH; [intros; apply Ht; lia|lia|lia].
Qed.

Lemma wait_while_forever test k fuel :
  (∀ j, (k ≤ j)%nat → test j = Ret true) → wait_while fuel test k = Diverge.
Proof.
  revert k. induction fuel as [|fuel IH]; intros k Ht; [done|]. cbn [wait_while].
  rewrite Ht by lia. apply IH. intros; apply Ht; lia.
Qed.

(** The clock of a running timer: no product overflows. *)
Definition running s : Prop := 0 < FREQUENCY s ∧ in_u 64 (TICKS s * 1000000000).
Definition nanoseconds s : Z := TICKS s * 1000000000 / FREQUENCY s.

Lemma uptime_running s : running s → uptime s = Ret (nanoseconds s).
Proof.
  intros [Hf Ht]. unfold uptime, scaled. rewrite (proj2 (Z.ltb_lt 0 _)), umul_ok by done.
  cbn [mbind outcome_bind]. unfold udiv. by rewrite (proj2 (Z.eqb_neq _ 0)) by lia.
Qed.

Lemma uptime_stopped s : FREQUENCY s = 0 → uptime s = Ret 0.
Proof. intros Hf. unfold uptime, scaled. by rewrite Hf. Qed.

Lemma wait_uptime_first obs target n k fuel :
  (∀ j, running (obs j)) → (∀ j, (k ≤ j < n)%nat → nanoseconds (obs j) < target) →
  target ≤ nanoseconds (obs n) → (k ≤ n)%nat → (n - k < fuel)%nat →
  wait_uptime obs fuel target k = Ret n.
Proof.
  intros Hr Hb Hn Hk Hf. apply wait_while_first; try done.
  - intros j Hj. rewrite uptime_running by done. cbn [mbind outcome_bind].
    by rewrite (proj2 (Z.ltb_lt _ _)) by (by apply Hb).
  - rewrite uptime_running by done. cbn [mbind outcome_bind].
    by rewrite (proj2 (Z.ltb_ge _ _)).
Qed.

(** C35: [sleep_ns] sleeps neither too short nor too long.  While the timer runs and
    nothing overflows it returns at the first observation of the clock that is at
    least [ns] nanoseconds after the call; before [FREQUENCY] is set the clock stands
    still and a sleep of any positive length never returns. *)
Theorem sleep_ns_exact obs ns :
  0 < ns →
  (∀ n fuel,
    (∀ j, running (obs j)) → in_u 64 (nanoseconds (obs 0%nat) + ns) →
    (∀ j, (1 ≤ j < n)%nat → nanoseconds (obs j) < nanoseconds (obs 0%nat) + ns) →
    nanoseconds (obs 0%nat) + ns ≤ nanoseconds (obs n) → (1 ≤ n ≤ fuel)%nat →
    sleep_ns obs fuel ns = Ret n) ∧
  ((∀ j, FREQUENCY (obs j) = 0) → ns < 2 ^ 64 → ∀ fuel, sleep_ns obs fuel ns = Diverge).
Proof.
  intros Hns. split.
  - intros n fuel Hr Hu Hb Hn Hf. unfold sleep_ns. rewrite uptime_running by done.
    cbn [mbind outcome_bind]. rewrite uadd_ok by done. cbn [mbind outcome_bind].
    apply wait_uptime_first; (done || lia).
  - intros Hz Hmax fuel. unfold sleep_ns. rewrite uptime_stopped by done. cbn [mbind outcome_bind].
    rewrite uadd_ok by (unfold in_u; lia). apply wait_while_forever. intros j _.
    rewrite uptime_stopped by done. cbn [mbind outcome_bind]. by rewrite (proj2 (Z.ltb_lt _ _)) by lia.
Qed.

(** [sleep_ns] in general, with [up j] the clock at reading [j]: the target is computed in
    64 bits.  When it does not fit the dev profile panics; in release it is behind the
    clock. *)
Lemma sleep_ns_wraps obs (up : nat → Z) ns n fuel :
  (∀ j, uptime (obs j) = Ret (up j)) → 0 ≤ up 0%nat + ns →
  (∀ j, (1 ≤ j < n)%nat → up j < (up 0%nat + ns) mod 2 ^ 64) → (up 0%nat + ns) mod 2 ^ 64 ≤ up n →
  (1 ≤ n ≤ fuel)%nat →
  sleep_ns obs fuel ns = if overflow_checks && (2 ^ 64 <=? up 0%nat + ns) then Panic else Ret n.
Proof.
  intros Hup Hpos Hb Hn Hf. unfold sleep_ns. rewrite Hup. cbn [mbind outcome_bind].
  assert (wait_uptime obs fuel ((up 0%nat + ns) mod 2 ^ 64) 1 = Ret n) as Hw.
  { apply wait_while_first; [| |lia|lia]; intros; rewrite Hup; cbn [mbind outcome_bind].
    - by rewrite (proj2 (Z.ltb_lt _ _)) by (by apply Hb).
    - by rewrite (proj2 (Z.ltb_ge _ _)). }
  unfold uadd. destruct overflow_checks eqn:Ho; [|rewrite checked_release by done; exact Hw].
  destruct (Z.leb_spec (2 ^ 64) (up 0%nat + ns)); simpl.
  - rewrite checked_dev; [done|done|]. unfold in_u. lia.
  - rewrite checked_ok by (unfold in_u; lia). by rewrite Z.mod_small in Hw by lia.
Qed.

(** The cycle loops: a counter that starts at [c] and reaches [c + cycles] first at
    read [n] ends the wait there. *)
Lemma busy_wait_first tsc cycles n fuel :
  (∀ j, in_u 64 (tsc j - tsc 0%nat)) →
  (∀ j, (1 ≤ j < n)%nat → tsc j < tsc 0%nat + cycles) → tsc 0%nat + cycles ≤ tsc n →
  (1 ≤ n ≤ fuel)%nat → busy_wait_cycles tsc fuel cycles = Ret n.
Proof.
  intros Hu Hb Hn Hf. apply wait_while_first; [| |lia|lia].
  - intros j Hj. rewrite usub_ok by done. cbn [mbind outcome_bind]. specialize (Hb j Hj).
    by rewrite (proj2 (Z.ltb_lt _ _)) by lia.
  - rewrite usub_ok by done. cbn [mbind outcome_bind]. by rewrite (proj2 (Z.ltb_ge _ _)) by lia.
Qed.

(** [precise_sleep_ns] does not wait at all below one cycle per nanosecond. *)
Lemma precise_sleep_skips obs tsc fuel ns :
  (∀ j, running (obs j)) → FREQUENCY (obs 1%nat) < 1000000000 →
  in_u 64 (nanoseconds (obs 0%nat) + ns) →
  in_u 64 (nanoseconds (obs 0%nat) + ns - nanoseconds (obs 2%nat)) →
  precise_sleep_ns obs tsc fuel ns = Ret None.
Proof.
  intros Hr Hf H1 H2. unfold precise_sleep_ns. rewrite !uptime_running by done.
  cbn [mbind outcome_bind]. rewrite uadd_ok by done. cbn [mbind outcome_bind].
  destruct (Hr 1%nat) as [Hp _]. rewrite (proj2 (Z.ltb_lt 0 _)) by done.
  rewrite usub_ok by done. cbn [mbind outcome_bind]. rewrite Z.div_small by lia.
  by rewrite andb_false_r.
Qed.

(** The timer set-up needs timer interrupts.  Without a usable HPET [init] ends in
    the loop of [calibrate_tsc], which waits for 100 ticks: while the counter stays
    below that, as it does with interrupts disabled, [init] never returns; as soon as
    it gets there, the frequency is ten times the elapsed cycles. *)
Theorem init_waits_for_ticks m ticks_seen start end_ :
  is_hpet_capable m = false → TSC_KNOWN (timer m) = false →
  (∀ j, in_u 64 (ticks_seen j - ticks_seen 0%nat)) → in_u 64 ((end_ - start) * 10) →
  ((∀ j, ticks_seen j < ticks_seen 0%nat + 100) →
    ∀ fuel, init m fuel ticks_seen start end_ = Diverge) ∧
  (∀ n fuel, (∀ j, (1 ≤ j < n)%nat → ticks_seen j < ticks_seen 0%nat + 100) →
    ticks_seen 0%nat + 100 ≤ ticks_seen n → (1 ≤ n ≤ fuel)%nat →
    init m fuel ticks_seen start end_ =
      Ret (with_timer (init_pit m)
             {| TICKS := ticks_seen n; FREQUENCY := (end_ - start) * 10; TSC_KNOWN := true |})).
Proof.
  intros Hh Ht Hu Hd.
  assert (∀ j, ticks_seen j < ticks_seen 0%nat + 100 →
    (d ← usub (ticks_seen j) (ticks_seen 0%nat); Ret (negb (100 <=? d))) = Ret true) as Hlow.
  { intros j Hj. rewrite usub_ok by done. cbn [mbind outcome_bind].
    by rewrite (proj2 (Z.leb_gt _ _)) by lia. }
  unfold init. rewrite Hh. unfold calibrate_tsc. change (timer (init_pit m)) with (timer m).
  rewrite Ht. split.
  - intros Hb fuel. rewrite wait_while_forever; [done|]. intros j _. by apply Hlow.
  - intros n fuel Hb Hn Hf. rewrite (wait_while_first _ n 1); [|auto| |lia|lia].
    + cbn [mbind outcome_bind]. rewrite usub_ok by (unfold in_u in *; lia). cbn [mbind outcome_bind].
      by rewrite umul_ok.
    + rewrite usub_ok by done. cbn [mbind outcome_bind]. by rewrite (proj2 (Z.leb_le _ _)) by lia.
Qed.

End timer.

(** ** The HPET registers *)

(** [init_hpet] and the functions that use register offsets do not mean the same
    registers.  [init_hpet] starts the counter through the field [config], at offset 8,
    and clears the field [main_ctr], at offset 0xE0; afterwards [disable_timer] clears
    offset 0x10 and leaves the enable bit set, and [get_raw_counter] still reads what
    offset 0xF0 held before. *)
Theorem disable_timer_leaves_enabled m tsc :
  is_hpet_capable m = true → fst (init_hpet m) = true →
  let m1 := snd (init_hpet m) in
  let m2 := disable_timer m1 in
  read_hpet_reg m1 HPET_main_ctr = 0 ∧
  has_bit (read_hpet_reg m1 HPET_config) 0 = true ∧
  has_bit (read_hpet_reg m2 HPET_config) 0 = true ∧
  read_hpet_reg m2 0x10 = 0 ∧ get_raw_counter m1 tsc = read_hpet_reg m 0xF0.
Proof.
  intros Hc Hi m1.
  assert (is_hpet_capable m1 = true) as Hc1.
  { unfold m1, init_hpet. by destruct (_ =? 0). }
  assert (∀ x, has_bit (Z.lor x 1) 0 = true) as Hb.
  { intros x. unfold has_bit, bit. change (Z.shiftl 1 0) with 1. apply negb_true_iff, Z.eqb_neq.
    intros H0. apply (f_equal (λ z, Z.testbit z 0)) in H0.
    rewrite Z.land_spec, Z.lor_spec, Z.bits_0 in H0. by rewrite orb_true_r in H0. }
  unfold disable_timer, get_raw_counter. rewrite Hc1.
  revert Hi. unfold m1, init_hpet. destruct (_ =? 0); [done|]. intros _.
  split_and!; [done|exact (Hb _)|exact (Hb _)|done|done].
Qed.


Lemma date_is_invertible_witness :
  returns (convert_timestamp_to_date (prof := dev) (364 * 86400 * 1000000000)) (λ d,
    364 * 86400 * 1000000000 / 1000000000
      = (((year d - 1970) * 365 + (month d - 1) * 30 + (day d - 1)) * 24 + hour d) * 3600
        + minute d * 60 + second d ∧
    0 ≤ hour d < 24 ∧ 0 ≤ minute d < 60 ∧ 0 ≤ second d < 60 ∧ 1 ≤ day d ≤ 30 ∧ 1 ≤ month d ≤ 13 ∧
    (month d = 13 ↔ 360 ≤ (364 * 86400 * 1000000000 / 1000000000 / 86400) mod 365)).
Proof. apply (date_is_invertible (prof := dev) (364 * 86400 * 1000000000)). by split. Defined.

Lemma uptime_units_witness :
  let s := {| TICKS := 5000; FREQUENCY := 1000; TSC_KNOWN := true |} in
  uptime_ms (prof := dev) s = Ret 5000000 ∧ uptime_us (prof := dev) s = Ret 5000.
Proof. intros s. exact (uptime_units (prof := dev) s 5000000000 eq_refl ltac:(done) eq_refl eq_refl). Defined.

(** One tick per observation, a frequency of 1000. *)
Lemma sleep_ns_exact_witness :
  let obs := λ k, {| TICKS := Z.of_nat k `min` 1000; FREQUENCY := 1000; TSC_KNOWN := true |} in
  sleep_ns (prof := dev) obs 10 5000000 = Ret 5%nat.
Proof.
  intros obs. apply (proj1 (sleep_ns_exact (prof := dev) obs 5000000 eq_refl) 5%nat 10%nat).
  - intros j. split; [done|]. unfold in_u. simpl. lia.
  - by split.
  - intros j Hj. change (nanoseconds (obs 0%nat)) with 0. unfold nanoseconds, obs. cbn [TICKS FREQUENCY].
    apply Z.div_lt_upper_bound; lia.
  - done.
  - lia.
Defined.

Lemma init_waits_for_ticks_witness :
  let m := {| timer := timer_start; hpet := λ _, 0; port_log := [] |} in
  ∀ fuel, init (prof := dev) m fuel (λ _, 0) 0 1000 = Diverge.
Proof.
  intros m. apply (init_waits_for_ticks (prof := dev) m (λ _, 0) 0 1000); try done; by split.
Defined.

Lemma disable_timer_leaves_enabled_witness :
  let m := {| timer := timer_start; hpet := λ o, if o =? 0 then 0x0429B17F00002000 else 7; port_log := [] |} in
  has_bit (read_hpet_reg (disable_timer (snd (init_hpet m))) HPET_config) 0 = true.
Proof. intros m. by apply (disable_timer_leaves_enabled m 0 eq_refl eq_refl). Defined.
