(* ===== verification/Extra.v ===== *)
(** * Extended system calls (src/syscall/extra.rs)

    Every handler of the file.  [UserPtr], [SysError] and the functions of other
    modules the handlers call are imported but not part of the sources: they are the
    operations of the classes [UserMem] and [KernelCalls].  Handlers without any
    effect are plain functions to a result; the others run in the error monad on the
    state of the kernel.  Three functions are declared twice in the source with the
    same body, and [syscall_futimesat] with two bodies; the earlier declarations are
    in the module [Earlier]. *)

From S2P Require Import Prelude Timer.
Open Scope Z_scope.

(** ** Data *)

(** The variants of [SysError] the file uses. *)
Inductive SysError : Set :=
| EFAULT | ENOSYS | ENOENT | EBADF | EINVAL | ESRCH | ENOTTY | ERANGE | EOPNOTSUPP | EAFNOSUPPORT.
#[export] Instance SysError_eq_dec : EqDecision SysError.
Proof. solve_decision. Defined.

(** [SysResult<u64>]. *)
Definition SysResult : Type := SysError + Z.

Record TimeSpec := mkTimeSpec { tv_sec : Z; tv_nsec : Z }.

Record Stat := mkStat {
  st_dev : Z; st_ino : Z; st_nlink : Z; st_mode : Z; st_uid : Z; st_gid : Z; pad0 : Z;
  st_rdev : Z; st_size : Z; st_blksize : Z; st_blocks : Z;
  st_atim : TimeSpec; st_mtim : TimeSpec; st_ctim : TimeSpec; unused : list Z
}.

Record PollFd := mkPollFd { fd : Z; events : Z; revents : Z }.

Record IoVec := mkIoVec { iov_base : Z; iov_len : Z }.

Record UtsName := mkUtsName {
  sysname : list Z; nodename : list Z; release_ : list Z; version : list Z;
  machine : list Z; domainname : list Z
}.

Record SysInfo := mkSysInfo {
  uptime : Z; loads : list Z; totalram : Z; freeram : Z; sharedram : Z; bufferram : Z;
  totalswap : Z; freeswap : Z; procs : Z; totalhigh : Z; freehigh : Z; mem_unit : Z; padding : list Z
}.

(** What a handler stores through a [UserPtr]. *)
Inductive UserVal :=
| VTime (t : TimeSpec) | VStat (s : Stat) | VPoll (p : PollFd) | VUts (u : UtsName)
| VInfo (i : SysInfo) | VPair (a b : Z) | VInt (v : Z).

(** ** Parameters *)

(** The methods of [UserPtr<T>]; a pointer is its address.  [copy_to_slice] fills a
    buffer and returns a length. *)
Class UserMem (K : Type) := {
  is_null : Z → bool;
  time_aligned : Z → bool;
  stat_aligned : Z → bool;
  poll_offset : Z → Z → Z;
  iov_offset : Z → Z → Z;
  read_time : K → Z → SysError + TimeSpec;
  read_poll : K → Z → SysError + PollFd;
  read_iov : K → Z → SysError + IoVec;
  read_int : K → Z → SysError + Z;
  write : K → Z → UserVal → (SysError + ()) * K;
  copy_to_slice : K → Z → list Z → SysError + (Z * list Z);
  copy_from_slice : K → Z → list Z → (SysError + ()) * K
}.

(** The functions of scheduler::pcb, timer, sync::futex, arch::cpu, memory::virtual
    and console that the handlers call and that the sources do not define.
    [timer::sleep_ns] is the one of Timer.v, below: [timer_seen k j] is the timer as
    reading [j] of a wait that starts in [k] sees it, [after_wait k j] the state when the
    wait ends with that reading, and [wait_fuel] how many readings a wait is followed
    for. *)
Class KernelCalls (K : Type) := {
  current_pid : K → Z;
  current_tid : K → Z;
  is_process_alive : K → Z → bool;
  terminate_process : K → Z → K;
  create_clone : K → Z → Z → Z → Z → Z → Z * K;
  set_clear_child_tid : K → Z → K;
  get_process_count : K → Z;
  exit_current_process : K → Z → outcome K;
  get_time_ns : K → Z;
  uptime_seconds : K → Z;
  timer_seen : K → nat → Timer;
  after_wait : K → nat → K;
  wait_fuel : nat;
  futex_wait : K → Z → Z → outcome K;
  futex_wake : K → Z → Z → K;
  set_fs_base : K → Z → K;
  set_gs_base : K → Z → K;
  change_protection : K → Z → Z → Z → (SysError + ()) * K;
  unmap_user_pages : K → Z → Z → (SysError + ()) * K;
  set_brk : K → Z → (SysError + Z) * K;
  alloc_huge_page : K → Z → (SysError + Z) * K;
  map_user_pages : K → Z → Z → Z → Z → Z → Z → (SysError + Z) * K;
  write_bytes : K → Z → Z → (SysError + Z) * K;
  read_bytes : K → Z → Z → (SysError + Z) * K
}.

(** [x as u64] of a signed or unsigned value. *)
Definition as_u64 (x : Z) : Z := x mod 2 ^ 64.
(** [x as i64]. *)
Definition as_i64 (x : Z) : Z := let y := x mod 2 ^ 64 in if y <? 2 ^ 63 then y else y - 2 ^ 64.
(** [-100i64 as u64]. *)
Definition AT_FDCWD : Z := 2 ^ 64 - 100.

(** ** Handlers without effects *)

Definition syscall_ioctl (fd cmd arg : Z) : SysResult :=
  match fd with
  | 1 | 2 | 3 => if cmd =? 0x5401 then inr 0 else inl ENOTTY
  | _ => inl EBADF
  end.
Definition syscall_fcntl (fd cmd arg : Z) : SysResult :=
  match cmd with
  | 0 | 1 | 3 => inr 0
  | _ => inl EINVAL
  end.
Definition syscall_close (fd : Z) : SysResult :=
  if fd <? 3 then inr 0 else if (fd =? 3) || (fd =? 4) then inr 0 else inl EBADF.
Definition syscall_dup (oldfd : Z) : SysResult := if 4 <? oldfd then inl EBADF else inr oldfd.
Definition syscall_sigaction (sig act oldact : Z) : SysResult :=
  if (sig <? 1) || (64 <? sig) then inl EINVAL else inr 0.
Definition syscall_rt_sigprocmask (how nset oset sigsetsize : Z) : SysResult :=
  if negb (sigsetsize =? 8) then inl EINVAL else inr 0.
Definition syscall_getdents64 (fd dirent count : Z) : SysResult :=
  if negb (fd =? 3) then inl EBADF else inr 0.
Definition syscall_getuid : SysResult := inr 0.
Definition syscall_geteuid : SysResult := inr 0.
Definition syscall_getgid : SysResult := inr 0.
Definition syscall_getegid : SysResult := inr 0.
Definition syscall_getppid : SysResult := inr 0.
Definition syscall_getpgid (pid : Z) : SysResult := inr 0.
Definition syscall_epoll_create (size : Z) : SysResult := if size <=? 0 then inl EINVAL else inr 7.
Definition syscall_epoll_ctl (epfd op fd event : Z) : SysResult :=
  if negb (epfd =? 7) then inl EBADF else inr 0.
Definition syscall_epoll_wait (epfd events maxevents timeout : Z) : SysResult :=
  if negb (epfd =? 7) then inl EBADF else inr 0.
Definition syscall_sendfile (out_fd in_fd offset count : Z) : SysResult :=
  if (out_fd =? 1) && (in_fd =? 3) then inr 0 else inl EINVAL.
Definition syscall_link (oldname newname : Z) : SysResult := inr 0.
Definition syscall_rename (oldname newname : Z) : SysResult := inr 0.
Definition syscall_symlink (name1 name2 : Z) : SysResult := inr 0.
Definition syscall_readlink (path buf bufsiz : Z) : SysResult := inr 0.
Definition syscall_utime (path times : Z) : SysResult := inr 0.
Definition syscall_umask (mask : Z) : SysResult := inr 18.
Definition syscall_chmod (pathname mode : Z) : SysResult := inr 0.
Definition syscall_chown (pathname owner group : Z) : SysResult := inr 0.
Definition syscall_lseek (fd offset whence : Z) : SysResult :=
  if 6 <? fd then inl EBADF else inr (as_u64 offset).
Definition syscall_truncate (path length : Z) : SysResult := inr 0.
Definition syscall_ftruncate (fd length : Z) : SysResult := if 6 <? fd then inl EBADF else inr 0.
Definition syscall_fchmodat (dirfd pathname mode : Z) : SysResult :=
  if negb (dirfd =? AT_FDCWD) then inl EBADF else inr 0.
Definition syscall_mknod (pathname mode dev : Z) : SysResult := inr 0.
Definition syscall_readahead (fd offset count : Z) : SysResult :=
  if 6 <? fd then inl EBADF else inr 0.
Definition syscall_sync_file_range (fd offset count flags : Z) : SysResult :=
  if 6 <? fd then inl EBADF else inr 0.
Definition syscall_fallocate (fd mode offset len : Z) : SysResult :=
  if 6 <? fd then inl EBADF else inr 0.
Definition syscall_timerfd_create (clockid flags : Z) : SysResult := inr 8.
Definition syscall_eventfd (initval flags : Z) : SysResult := inr 9.
Definition syscall_signalfd (fd mask sizemask : Z) : SysResult := inr 10.
Definition syscall_inotify_init : SysResult := inr 11.
Definition syscall_membarrier (cmd flags cpu_id : Z) : SysResult := inr 0.
Definition syscall_copy_file_range (fd_in off_in fd_out off_out length flags : Z) : SysResult :=
  if (6 <? fd_in) || (6 <? fd_out) then inl EBADF else inr length.
Definition syscall_pkey_alloc (access_rights flags : Z) : SysResult :=
  if negb (flags =? 0) then inl EINVAL else inr 0.
Definition syscall_pkey_free (pkey : Z) : SysResult := if 15 <? pkey then inl EINVAL else inr 0.
Definition syscall_statx (dirfd pathname flags mask buffer : Z) : SysResult := inr 0.
Definition syscall_io_uring_setup (entries params : Z) : SysResult := inl ENOSYS.
Definition syscall_io_uring_enter (fd to_submit min_complete flags sig : Z) : SysResult :=
  inl ENOSYS.
Definition syscall_io_uring_register (fd opcode arg nr_args : Z) : SysResult := inl ENOSYS.
Definition syscall_mkdirat (dirfd pathname mode : Z) : SysResult :=
  if negb (dirfd =? AT_FDCWD) then inl EBADF else inr 0.
Definition syscall_mknodat (dirfd pathname mode dev : Z) : SysResult :=
  if negb (dirfd =? AT_FDCWD) then inl EBADF else inr 0.
Definition syscall_fchownat (dirfd pathname owner group : Z) : SysResult :=
  if negb (dirfd =? AT_FDCWD) then inl EBADF else inr 0.
Definition syscall_unlinkat (dirfd pathname flags : Z) : SysResult :=
  if negb (dirfd =? AT_FDCWD) then inl EBADF else inr 0.
Definition syscall_readlinkat (dirfd pathname buf bufsiz : Z) : SysResult :=
  if negb (dirfd =? AT_FDCWD) then inl EBADF else inr 0.
Definition syscall_symlinkat (target newdirfd linkpath : Z) : SysResult :=
  if negb (newdirfd =? AT_FDCWD) then inl EBADF else inr 0.
Definition syscall_linkat (olddirfd oldpath newdirfd newpath flags : Z) : SysResult :=
  if (negb (olddirfd =? AT_FDCWD)) || (negb (newdirfd =? AT_FDCWD)) then inl EBADF else inr 0.
Definition syscall_renameat (olddirfd oldpath newdirfd newpath : Z) : SysResult :=
  if (negb (olddirfd =? AT_FDCWD)) || (negb (newdirfd =? AT_FDCWD)) then inl EBADF else inr 0.
Definition syscall_renameat2 (olddirfd oldpath newdirfd newpath flags : Z) : SysResult :=
  if (negb (olddirfd =? AT_FDCWD)) || (negb (newdirfd =? AT_FDCWD)) then inl EBADF else
  if negb (Z.land flags (wnot 32 0x1F) =? 0) then inl EINVAL else inr 0.
Definition syscall_futimesat (dirfd pathname times : Z) : SysResult :=
  if negb (dirfd =? AT_FDCWD) then inl EBADF else inr 0.

(** The earlier declarations of the functions declared twice. *)
Module Earlier.
Definition syscall_fchownat (dirfd pathname owner group : Z) : SysResult :=
  if negb (dirfd =? AT_FDCWD) then inl EBADF else inr 0.
Definition syscall_mknodat (dirfd pathname mode dev : Z) : SysResult :=
  if negb (dirfd =? AT_FDCWD) then inl EBADF else inr 0.
Definition syscall_futimesat (dirfd pathname times : Z) : SysResult := inr 0.
Definition syscall_unlinkat (dirfd pathname flags : Z) : SysResult :=
  if negb (dirfd =? AT_FDCWD) then inl EBADF else inr 0.
End Earlier.

Definition syscall_faccessat2 (dirfd pathname mode flags : Z) : SysResult :=
  if negb (dirfd =? AT_FDCWD) then inl EBADF else if negb (flags =? 0) then inl EINVAL else inr 0.
Definition syscall_fchmodat2 (dirfd pathname mode flags : Z) : SysResult :=
  if negb (dirfd =? AT_FDCWD) then inl EBADF else if negb (flags =? 0) then inl EINVAL else inr 0.
Definition syscall_fcntl64 (fd cmd arg : Z) : SysResult := syscall_fcntl fd cmd arg.
Definition syscall_getdents (fd dirent count : Z) : SysResult := syscall_getdents64 fd dirent count.
Definition syscall_fadvise64 (fd offset len advice : Z) : SysResult :=
  if 6 <? fd then inl EBADF else inr 0.
Definition syscall_fadvise64_64 (fd offset len advice : Z) : SysResult :=
  syscall_fadvise64 fd offset len advice.
Definition syscall_fallocate64 (fd mode offset len : Z) : SysResult :=
  syscall_fallocate fd mode offset len.
Definition syscall_ftruncate64 (fd length : Z) : SysResult := syscall_ftruncate fd length.
Definition syscall_truncate64 (path length : Z) : SysResult := inr 0.
Definition syscall_lseek64 (fd offset whence : Z) : SysResult := syscall_lseek fd offset whence.
Definition syscall_sendfile64 (out_fd in_fd offset count : Z) : SysResult :=
  syscall_sendfile out_fd in_fd offset count.
Definition syscall_sync_file_range2 (fd flags offset count : Z) : SysResult :=
  syscall_sync_file_range fd offset count flags.
Definition syscall_dup2 (oldfd newfd : Z) : SysResult :=
  if (6 <? oldfd) || (6 <? newfd) then inl EBADF else inr newfd.
Definition syscall_dup3 (oldfd newfd flags : Z) : SysResult :=
  if (6 <? oldfd) || (6 <? newfd) then inl EBADF else
  if negb (Z.land flags (wnot 32 0x1000) =? 0) then inl EINVAL else inr newfd.
Definition syscall_socket (domain type_ protocol : Z) : SysResult := inl EAFNOSUPPORT.
Definition syscall_bind (sockfd addr addrlen : Z) : SysResult := inl EBADF.
Definition syscall_connect (sockfd addr addrlen : Z) : SysResult := inl EBADF.
Definition syscall_listen (sockfd backlog : Z) : SysResult := inl EBADF.
Definition syscall_accept (sockfd addr addrlen : Z) : SysResult := inl EBADF.
Definition syscall_getsockname (sockfd addr addrlen : Z) : SysResult := inl EBADF.
Definition syscall_getpeername (sockfd addr addrlen : Z) : SysResult := inl EBADF.
Definition syscall_socketpair (domain type_ protocol sv : Z) : SysResult := inl EAFNOSUPPORT.
Definition syscall_send (sockfd buf len flags : Z) : SysResult := inl EBADF.
Definition syscall_sendto (sockfd buf len flags dest_addr addrlen : Z) : SysResult := inl EBADF.
Definition syscall_recv (sockfd buf len flags : Z) : SysResult := inl EBADF.
Definition syscall_recvfrom (sockfd buf len flags src_addr addrlen : Z) : SysResult := inl EBADF.
Definition syscall_shutdown (sockfd how : Z) : SysResult := inl EBADF.
Definition syscall_setsockopt (sockfd level optname optval optlen : Z) : SysResult := inl EBADF.
Definition syscall_getsockopt (sockfd level optname optval optlen : Z) : SysResult := inl EBADF.
Definition syscall_sendmsg (sockfd msg flags : Z) : SysResult := inl EBADF.
Definition syscall_recvmsg (sockfd msg flags : Z) : SysResult := inl EBADF.

(** ** Handlers with effects *)

Section handlers.
Context {prof : Profile} {K : Type} `{!UserMem K, !KernelCalls K}.

Local Open Scope es_scope.
Notation M := (EST K SysError).

(** A read that may fail, and a call that may fail and changes the state. *)
Definition try_read {A} (f : K → SysError + A) : M A := λ k, Ret (f k, k).
Definition try_call {A} (f : K → (SysError + A) * K) : M A := λ k, Ret (f k).
(** A call that returns a state. *)
Definition call (f : K → K) : M () := es_update (λ k, Ret (f k)).

Definition syscall_getpid : M Z := es_read (λ k, Ret (as_u64 (current_pid k))).
Definition syscall_gettid : M Z := es_read (λ k, Ret (as_u64 (current_tid k))).
Definition syscall_setsid : M Z := es_read (λ k, Ret (as_u64 (current_pid k))).

Definition syscall_clock_gettime (clk_id tp : Z) : M Z :=
  if negb (time_aligned tp) then es_throw EFAULT else
  now_ns <- es_read (λ k, Ret (get_time_ns k));;
  let ts := mkTimeSpec (as_i64 (now_ns / 1000000000)) (as_i64 (now_ns mod 1000000000)) in
  try_call (λ k, write k tp (VTime ts));;;
  es_ret 0.

Definition syscall_futex (uaddr futex_op val timeout uaddr2 val3 : Z) : M Z :=
  match futex_op with
  | 0 =>
      current_val <- try_read (λ k, read_int k uaddr);;
      if negb (current_val =? val) then es_ret (as_u64 (-1)) else
      es_update (λ k, futex_wait k uaddr val);;;
      es_ret 0
  | 1 => call (λ k, futex_wake k uaddr val);;; es_ret 0
  | _ => es_throw ENOSYS
  end.

(** The record [syscall_stat] and [syscall_fstat] report for every file. *)
Definition fixed_stat : Stat :=
  mkStat 1 1 1 33188 0 0 0 0 0 512 0 (mkTimeSpec 0 0) (mkTimeSpec 0 0) (mkTimeSpec 0 0) [0; 0; 0].

(** [let mut path_buf = [0u8; 256]; let len = p.copy_to_slice(&mut path_buf)?]. *)
Definition read_path (p : Z) : M (Z * list Z) := try_read (λ k, copy_to_slice k p (replicate 256 0)).

Definition syscall_stat (filename statbuf : Z) : M Z :=
  if negb (stat_aligned statbuf) then es_throw EFAULT else
  lp <- read_path filename;;
  if (lp.1 =? 0) || (default 0 (lp.2 !! 0%nat) =? 0) then es_throw ENOENT else
  try_call (λ k, write k statbuf (VStat fixed_stat));;;
  es_ret 0.

(** [path_buf[lo..hi]]. *)
Definition slice (l : list Z) (lo hi : nat) : list Z := take (hi - lo) (drop lo l).
Definition b_dev : list Z := [100; 101; 118].
Definition b_null : list Z := [47; 110; 117; 108; 108].
Definition b_zero : list Z := [47; 122; 101; 114; 111].

Definition syscall_open (filename flags mode : Z) : M Z :=
  lp <- read_path filename;;
  let '(len, path_buf) := lp in
  if len =? 0 then es_throw ENOENT else
  if (default 0 (path_buf !! 0%nat) =? 47) && bool_decide (slice path_buf 1 5 = b_dev) then
    if bool_decide (slice path_buf 5 10 = b_null) then es_ret 3
    else if bool_decide (slice path_buf 5 9 = b_zero) then es_ret 4
    else es_throw ENOENT
  else es_throw ENOENT.

Definition syscall_pipe (fds : Z) : M Z :=
  try_call (λ k, write k fds (VPair 5 6));;; es_ret 0.

Definition syscall_wait4 (pid wstatus options rusage : Z) : M Z :=
  if pid =? -1 then es_ret u64_max else
  if 0 <? pid then
    alive <- es_read (λ k, Ret (is_process_alive k pid));;
    if negb alive then
      (if negb (is_null wstatus) then try_call (λ k, write k wstatus (VInt 0)) else es_ret ());;;
      es_ret (as_u64 pid)
    else es_ret u64_max
  else es_ret u64_max.

Definition syscall_kill (pid sig : Z) : M Z :=
  if sig =? 0 then
    exists_ <- es_read (λ k, Ret (is_process_alive k pid));;
    if (exists_ : bool) then es_ret 0 else es_throw ESRCH
  else if sig =? 9 then call (λ k, terminate_process k pid);;; es_ret 0
  else es_throw EINVAL.

(** One entry of [syscall_poll]: whether it is counted. *)
Definition poll_entry (fds i : Z) : M Z :=
  let fd_ptr := poll_offset fds i in
  fd_struct <- try_read (λ k, read_poll k fd_ptr);;
  if (0 <=? fd fd_struct) && (fd fd_struct <=? 6) then
    let r := Z.land (events fd_struct) 4 in
    try_call (λ k, write k fd_ptr (VPoll (mkPollFd (fd fd_struct) (events fd_struct) r)));;;
    es_ret (if negb (r =? 0) then 1 else 0)
  else es_ret 0.

(** [for i in lo..hi { total += body(i)?; }] with a counter of 64 bits. *)
Definition sum_for (lo hi : Z) (body : Z → M Z) : M Z := λ k,
  (fl ← for_range lo hi (λ i '(total, k),
     '(r, k1) ← body i k;
     match r with
     | inl e => Ret (Done (e, k1))
     | inr n => t ← uadd total n; Ret (Next (t, k1))
     end) (0, k);
   Ret (match fl with Next (total, k) => (inr total, k) | Done (e, k) => (inl e, k) end))%stdpp.

Definition syscall_poll (fds nfds timeout : Z) : M Z :=
  if 1024 <? nfds then es_throw EINVAL else sum_for 0 nfds (poll_entry fds).
Definition syscall_ppoll (fds nfds tmo_p sigmask sigsetsize : Z) : M Z := syscall_poll fds nfds (-1).

(** Both branches of the source return the same. *)
Definition syscall_clone (flags child_stack ptid ctid newtls : Z) : M Z :=
  new_pid <- (λ k, let '(p, k1) := create_clone k flags child_stack ptid ctid newtls in Ret (inr p, k1));;
  if new_pid =? 0 then es_ret 0 else es_ret (as_u64 new_pid).

(** [tv_sec as u64 * 1_000_000_000 + tv_nsec as u64]. *)
Definition timespec_ns (t : TimeSpec) : outcome Z :=
  (s ← umul (as_u64 (tv_sec t)) 1000000000; uadd s (as_u64 (tv_nsec t)))%stdpp.

(** [crate::timer::sleep_ns(ns)]; the [.await] behind it is ignored. *)
Definition sleep (ns : Z) : M () :=
  es_update (λ k, n ← sleep_ns (timer_seen k) wait_fuel ns; Ret (after_wait k n))%stdpp.

Definition syscall_nanosleep (req rem : Z) : M Z :=
  timespec <- try_read (λ k, read_time k req);;
  ns <- es_read (λ _, timespec_ns timespec);;
  sleep ns;;;
  (if negb (is_null rem) then try_call (λ k, write k rem (VTime (mkTimeSpec 0 0))) else es_ret ());;;
  es_ret 0.

Definition syscall_pselect6 (nfds readfds writefds exceptfds timeout sigmask : Z) : M Z :=
  if is_null timeout then es_ret 0 else
  timespec <- try_read (λ k, read_time k timeout);;
  ns <- es_read (λ _, timespec_ns timespec);;
  sleep ns;;;
  es_ret 0.

Definition syscall_set_tid_address (tidptr : Z) : M Z :=
  call (λ k, set_clear_child_tid k tidptr);;;
  es_read (λ k, Ret (as_u64 (current_tid k))).

Definition syscall_arch_prctl (code addr : Z) : M Z :=
  match code with
  | 0x1001 =>
      if negb (Z.land addr 0xFFF =? 0) then es_throw EINVAL
      else call (λ k, set_fs_base k addr);;; es_ret 0
  | 0x1002 => call (λ k, set_gs_base k addr);;; es_ret 0
  | _ => es_throw EINVAL
  end.

(** [u64::saturating_add]. *)
Definition saturating_add (a b : Z) : Z := Z.min (a + b) u64_max.

Definition syscall_mprotect (start len prot : Z) : M Z :=
  if negb (Z.land start 0xFFF =? 0) then es_throw EINVAL else
  let end_ := saturating_add start len in
  try_call (λ k, change_protection k start end_ prot);;;
  es_ret 0.

Definition syscall_munmap (addr length : Z) : M Z :=
  if negb (Z.land addr 0xFFF =? 0) then es_throw EINVAL else
  try_call (λ k, unmap_user_pages k addr length);;;
  es_ret 0.

Definition syscall_sysinfo (info : Z) : M Z :=
  sys_info <- es_read (λ k, Ret (mkSysInfo (as_i64 (uptime_seconds k)) [0; 0; 0] 0x100000000 0x80000000
    0 0 0 0 (get_process_count k mod 2 ^ 16) 0 0 1 (replicate 14 0)));;
  try_call (λ k, write k info (VInfo sys_info));;;
  es_ret 0.

(** The letters R, 1, 0 and x, 65 times each. *)
Definition syscall_uname (name : Z) : M Z :=
  let uts := mkUtsName (replicate 65 82) (replicate 65 0) (replicate 65 49) (replicate 65 48)
    (replicate 65 120) (replicate 65 0) in
  try_call (λ k, write k name (VUts uts));;;
  es_ret 0.

Definition syscall_brk (addr : Z) : M Z := try_call (λ k, set_brk k addr).

Definition syscall_mmap (addr len prot flags fd offset : Z) : M Z :=
  if len =? 0 then es_ret addr else
  if negb (Z.land flags 0x20 =? 0) then try_call (λ k, alloc_huge_page k addr)
  else try_call (λ k, map_user_pages k addr len prot flags fd offset).

(** [fd] is not used: both go to the console. *)
Definition syscall_writev (fd iov iovcnt : Z) : M Z :=
  if (iovcnt =? 0) || (1024 <? iovcnt) then es_throw EINVAL else
  sum_for 0 iovcnt (λ i,
    io <- try_read (λ k, read_iov k (iov_offset iov i));;
    if 0 <? iov_len io then try_call (λ k, write_bytes k (iov_base io) (iov_len io)) else es_ret 0).
Definition syscall_readv (fd iov iovcnt : Z) : M Z :=
  if (iovcnt =? 0) || (1024 <? iovcnt) then es_throw EINVAL else
  sum_for 0 iovcnt (λ i,
    io <- try_read (λ k, read_iov k (iov_offset iov i));;
    if 0 <? iov_len io then try_call (λ k, read_bytes k (iov_base io) (iov_len io)) else es_ret 0).

(** [data[i] = (i ^ (i << 1)) as u8]. *)
Definition random_byte (i : Z) : Z := Z.lxor i (Z.shiftl i 1) mod 256.
Definition syscall_getrandom (buf count flags : Z) : M Z :=
  if count =? 0 then es_ret 0 else
  let c := Z.min count 256 in
  let data := random_byte <$> seqZ 0 c in
  try_call (λ k, copy_from_slice k buf data);;;
  es_ret c.

Definition write_zero (p : Z) : M () :=
  if negb (is_null p) then try_call (λ k, write k p (VInt 0)) else es_ret ().
Definition syscall_getcpu (cpu node unused_ : Z) : M Z :=
  write_zero cpu;;; write_zero node;;; es_ret 0.

Definition syscall_exit_group (status : Z) : M Z :=
  es_update (λ k, exit_current_process k status);;; (λ _, Diverge).

(** Handlers that only read the path. *)
Definition path_only (p : Z) : M Z := read_path p;;; es_ret 0.
Definition syscall_access (pathname mode : Z) : M Z := path_only pathname.
Definition syscall_chdir (path : Z) : M Z := path_only path.
Definition syscall_mkdir (pathname mode : Z) : M Z := path_only pathname.
Definition syscall_rmdir (pathname : Z) : M Z := path_only pathname.
Definition syscall_unlink (pathname : Z) : M Z := path_only pathname.

Definition syscall_getcwd (buf size : Z) : M Z :=
  if size <? 2 then es_throw ERANGE else
  try_call (λ k, copy_from_slice k buf [47; 0]);;;
  es_ret 2.

Definition syscall_fstat (fd statbuf : Z) : M Z :=
  if 6 <? fd then es_throw EBADF else
  try_call (λ k, write k statbuf (VStat fixed_stat));;;
  es_ret 0.
Definition syscall_lstat (pathname statbuf : Z) : M Z := syscall_stat pathname statbuf.

(** [if dirfd != -100i64 as u64 { return Err(SysError::EBADF); }]. *)
Definition at_cwd (dirfd : Z) (m : M Z) : M Z :=
  if negb (dirfd =? AT_FDCWD) then es_throw EBADF else m.
Definition syscall_faccessat (dirfd pathname mode : Z) : M Z := at_cwd dirfd (syscall_access pathname mode).
Definition syscall_newfstatat (dirfd pathname statbuf flag : Z) : M Z :=
  at_cwd dirfd (syscall_stat pathname statbuf).
Definition syscall_fstatat (dirfd pathname statbuf flags : Z) : M Z :=
  at_cwd dirfd (syscall_newfstatat dirfd pathname statbuf flags).
Definition syscall_fstatat64 (dirfd pathname statbuf flags : Z) : M Z :=
  syscall_fstatat dirfd pathname statbuf flags.
Definition syscall_openat (dirfd pathname flags mode : Z) : M Z :=
  at_cwd dirfd (syscall_open pathname flags mode).

Definition syscall_preadv2 (fd iov iovcnt offset flags : Z) : M Z :=
  if negb (Z.land flags 0x1000 =? 0) then es_throw EOPNOTSUPP else syscall_readv fd iov iovcnt.
Definition syscall_pwritev2 (fd iov iovcnt offset flags : Z) : M Z :=
  if negb (Z.land flags 0x1000 =? 0) then es_throw EOPNOTSUPP else syscall_writev fd iov iovcnt.

Definition syscall_pkey_mprotect (addr len prot pkey : Z) : M Z :=
  if 15 <? pkey then es_throw EINVAL else syscall_mprotect addr len prot.

Definition syscall_pipe2 (fds flags : Z) : M Z :=
  if negb (Z.land flags (wnot 32 0x400) =? 0) then es_throw EINVAL else syscall_pipe fds.
End handlers.
