(* ===== verification/ExtraTheorems.v ===== *)
(** * Theorems about the extended system calls

    What polling, sleeping, opening and the descriptor numbers really do. *)

From S2P Require Import Prelude Timer TimerTheorems Extra.
Open Scope Z_scope.

(** ** Polling *)

Section poll.
Context {prof : Profile} {K : Type} `{!UserMem K}.

(** An array of [n] poll structures at [fds] that can be read and written. *)
Record PollArray (fds n : Z) (cell : K → Z → PollFd) : Prop := {
  poll_readable k i : 0 ≤ i < n → read_poll k (poll_offset fds i) = inr (cell k i);
  poll_writable k i p : 0 ≤ i < n →
    ∃ k', write k (poll_offset fds i) (VPoll p) = (inr (), k') ∧
      ∀ j, 0 ≤ j < n → cell k' j = if j =? i then p else cell k j
}.

Definition watched (p : PollFd) : bool := (0 <=? fd p) && (fd p <=? 6).
Definition ready_out (p : PollFd) : bool := watched p && negb (Z.land (events p) 4 =? 0).
Definition polled (p : PollFd) : PollFd :=
  if watched p then mkPollFd (fd p) (events p) (Z.land (events p) 4) else p.

(** How many of the first [i] structures are ready. *)
Definition ready_count (cell : Z → PollFd) (i : Z) : Z :=
  Z.of_nat (length (filter (λ j, ready_out (cell j) = true) (seqZ 0 i))).

Lemma ready_count_step cell i :
  0 ≤ i → ready_count cell (i + 1) = ready_count cell i + (if ready_out (cell i) then 1 else 0).
Proof.
  intros Hi. unfold ready_count. replace (seqZ 0 (i + 1)) with (seqZ 0 i ++ [i]).
  - rewrite filter_app, length_app, Nat2Z.inj_add. f_equal.
    destruct (ready_out (cell i)) eqn:E.
    + by rewrite filter_cons_True.
    + by rewrite filter_cons_False by congruence.
  - pose proof (seqZ_S 0 (Z.to_nat i)) as Hs. rewrite Nat2Z.inj_succ, Z2Nat.id in Hs by done.
    rewrite <-Z.add_1_r, Z.add_0_l in Hs. by rewrite Hs.
Qed.

Lemma ready_count_range cell i : 0 ≤ i → 0 ≤ ready_count cell i ≤ i.
Proof.
  intros Hi. unfold ready_count. pose proof (length_filter (λ j, ready_out (cell j) = true) (seqZ 0 i)) as Hl.
  rewrite length_seqZ in Hl. lia.
Qed.

(** Before entry [i], the entries below it have been handled. *)
Definition polled_below n (cell : K → Z → PollFd) (k0 : K) (i : Z) (st : Z * K) : Prop :=
  st.1 = ready_count (cell k0) i ∧
  ∀ j, 0 ≤ j < n → cell st.2 j = if j <? i then polled (cell k0 j) else cell k0 j.

Lemma poll_entry_returns fds n cell k0 i total k :
  PollArray fds n cell → 0 ≤ i < n → n ≤ 1024 → polled_below n cell k0 i (total, k) →
  returns (poll_entry fds i k) (λ rk, ∃ c, rk.1 = inr c ∧ total + c = ready_count (cell k0) (i + 1) ∧
    ∀ j, 0 ≤ j < n → cell rk.2 j = if j <? i + 1 then polled (cell k0 j) else cell k0 j).
Proof.
  intros Hp Hi Hn [Ht Hc]. simpl in Ht, Hc. rewrite ready_count_step, <-Ht by lia.
  pose proof (Hc i Hi) as Hci. rewrite Z.ltb_irrefl in Hci.
  unfold poll_entry, es_bind, try_read. rewrite (poll_readable _ _ _ Hp k i Hi), Hci. simpl.
  assert (∀ j x, 0 ≤ j < n → x = polled (cell k0 i) →
    (if j =? i then x else if j <? i then polled (cell k0 j) else cell k0 j) =
    (if j <? i + 1 then polled (cell k0 j) else cell k0 j)) as Hj.
  { intros j x Hj ->. by destruct (Z.eqb_spec j i), (Z.ltb_spec j i), (Z.ltb_spec j (i + 1)); subst; try lia. }
  unfold ready_out, polled in *. fold (watched (cell k0 i)). destruct (watched (cell k0 i)) eqn:Hw.
  - destruct (poll_writable _ _ _ Hp k i (mkPollFd (fd (cell k0 i)) (events (cell k0 i)) (Z.land (events (cell k0 i)) 4)) Hi)
      as (k'&Hwr&Hk'). unfold try_call. rewrite Hwr. simpl. eexists. split; [done|]. split; [done|].
    intros j Hjn. rewrite Hk', Hc by done. by apply Hj.
  - simpl. exists 0. split; [done|]. split; [done|]. intros j Hjn. rewrite Hc by done.
    rewrite <-(Hj j (cell k0 i)) by done. destruct (Z.eqb_spec j i) as [->|]; [|done].
    by destruct (Z.ltb_spec i i); [lia|].
Qed.

(** C37: [syscall_poll] is exact.  For an array of up to 1024 structures that can be read
    and written, where a write changes one structure, it returns the number of those that have a descriptor from 0 to 6 and
    ask for output; each structure with such a descriptor gets, as its result,
    exactly the requested output bit, and the others are unchanged. *)
Theorem syscall_poll_exact fds n timeout cell (k : K) :
  PollArray fds n cell → 0 ≤ n ≤ 1024 →
  ∃ k', syscall_poll fds n timeout k = Ret (inr (ready_count (cell k) n), k') ∧
    ∀ i, 0 ≤ i < n → cell k' i = polled (cell k i).
Proof.
  intros Hp Hn. unfold syscall_poll. rewrite (proj2 (Z.ltb_ge 1024 n)) by lia.
  cut (returns (sum_for 0 n (poll_entry fds) k) (λ rk, rk.1 = inr (ready_count (cell k) n) ∧
    ∀ i, 0 ≤ i < n → cell rk.2 i = polled (cell k i))).
  { intros ([r k']&->&Hr&Hc)%returns_iff. simpl in Hr. subst. by exists k'. }
  unfold sum_for. apply returns_bind. eapply returns_mono.
  { apply (for_range_inv (polled_below n cell k) (λ _, False)); [lia|split; [done|]|].
    - intros j Hj. destruct (Z.ltb_spec j 0); [lia|done].
    - intros i [total k1] Hi Hinv.
      destruct (proj1 (returns_iff _ _) (poll_entry_returns fds n cell k i total k1 Hp Hi ltac:(lia) Hinv))
        as ([r k2]&->&c&Hr&Htot&Hc). simpl in Hr, Hc. subst r. simpl.
      pose proof (ready_count_range (cell k) (i + 1) ltac:(lia)).
      rewrite uadd_ok by (unfold in_u; lia). simpl. split; [done|exact Hc]. }
  intros [[total k1]|[]]; [|done]. simpl. intros [Ht Hc]. simpl in *. split; [by rewrite Ht|].
  intros i Hi. rewrite Hc by done. destruct (Z.ltb_spec i n); [done|lia].
Qed.
End poll.

(** ** Sleeping *)

Section sleep.
Context {prof : Profile} {K : Type} `{!UserMem K, !KernelCalls K}.

(** The nanoseconds a request stands for, with the fields read as unsigned words. *)
Definition total_ns (t : TimeSpec) : Z := as_u64 (tv_sec t) * 1000000000 + as_u64 (tv_nsec t).

Lemma timespec_ns_cases t :
  timespec_ns t =
    if total_ns t <? 2 ^ 64 then Ret (total_ns t)
    else if overflow_checks then Panic else Ret (total_ns t mod 2 ^ 64).
Proof.
  unfold timespec_ns, total_ns, as_u64.
  pose proof (Z.mod_pos_bound (tv_sec t) (2 ^ 64) ltac:(lia)) as Ha.
  pose proof (Z.mod_pos_bound (tv_nsec t) (2 ^ 64) ltac:(lia)) as Hb.
  set (a := tv_sec t mod 2 ^ 64) in *. set (b := tv_nsec t mod 2 ^ 64) in *. unfold umul, uadd.
  destruct (Z.ltb_spec (a * 1000000000 + b) (2 ^ 64)) as [Hlt|Hge].
  - rewrite checked_ok by (unfold in_u; lia). simpl. by rewrite checked_ok by (unfold in_u; lia).
  - destruct overflow_checks eqn:Ho.
    + destruct (decide (in_u 64 (a * 1000000000))) as [Hm|Hm].
      * rewrite checked_ok by done. simpl. apply checked_dev; [done|]. unfold in_u. lia.
      * by rewrite checked_dev.
    + rewrite checked_release by (done || lia). simpl. rewrite checked_release by (done || lia).
      by rewrite Zplus_mod_idemp_l.
Qed.

(** Waiting inside a call. *)
Lemma sleep_wraps (k : K) (up : nat → Z) ns n :
  (∀ j, Timer.uptime (timer_seen k j) = Ret (up j)) → 0 ≤ up 0%nat + ns →
  (∀ j, (1 ≤ j < n)%nat → up j < (up 0%nat + ns) mod 2 ^ 64) → (up 0%nat + ns) mod 2 ^ 64 ≤ up n →
  (1 ≤ n ≤ wait_fuel)%nat →
  sleep ns k = if overflow_checks && (2 ^ 64 <=? up 0%nat + ns) then Panic else Ret (inr (), after_wait k n).
Proof.
  intros Hup Hpos Hb Hn Hf. unfold sleep, es_update. rewrite (sleep_ns_wraps _ up ns n) by done.
  by destruct (overflow_checks && _).
Qed.

(** C36: [syscall_nanosleep] for a request [t] that can be read, with [up j] the clock at
    reading [j] of the wait.  The length [ns] is the request in nanoseconds modulo
    [2^64], the target [up 0 + ns] modulo [2^64].  In the dev profile the kernel panics
    when either does not fit 64 bits; the first is so for every negative number of
    seconds.  Otherwise, and always in release, the call waits until the first reading
    [n] after the call that is at least the target, within [wait_fuel] readings, and then
    writes zero to [rem], unless that is null; an error of that write is the result.  A
    target that did not fit is behind the clock, so in release such a sleep ends at once.
    The clock readings themselves do not overflow. *)
Theorem nanosleep_exact (req rem : Z) (k : K) t (up : nat → Z) n :
  read_time k req = inr t → - 2 ^ 63 ≤ tv_sec t < 2 ^ 63 →
  (∀ j, Timer.uptime (timer_seen k j) = Ret (up j) ∧ in_u 64 (up j)) →
  let ns := total_ns t mod 2 ^ 64 in
  let target := (up 0%nat + ns) mod 2 ^ 64 in
  (∀ j, (1 ≤ j < n)%nat → up j < target) → target ≤ up n → (1 ≤ n ≤ wait_fuel)%nat →
  syscall_nanosleep req rem k =
    (if overflow_checks && ((2 ^ 64 <=? total_ns t) || (2 ^ 64 <=? up 0%nat + ns)) then Panic
     else if is_null rem then Ret (inr 0, after_wait k n)
     else match write (after_wait k n) rem (VTime (mkTimeSpec 0 0)) with
          | (inr _, k') => Ret (inr 0, k')
          | (inl e, k') => Ret (inl e, k')
          end) ∧
  (tv_sec t < 0 → 2 ^ 64 ≤ total_ns t) ∧ (2 ^ 64 ≤ up 0%nat + ns → target < up 0%nat).
Proof.
  intros Hr Ht Hup ns target Hb Hn Hf.
  assert (0 ≤ ns < 2 ^ 64) as Hns by (apply Z.mod_pos_bound; lia).
  assert (in_u 64 (up 0%nat)) as Hu by apply Hup. unfold in_u in Hu. split_and!.
  - unfold syscall_nanosleep, es_bind at 1, try_read. rewrite Hr. simpl.
    unfold es_bind at 1, es_read. rewrite timespec_ns_cases.
    assert (0 ≤ total_ns t) as Hpos.
    { unfold total_ns, as_u64. pose proof (Z.mod_pos_bound (tv_sec t) (2 ^ 64) ltac:(lia)).
      pose proof (Z.mod_pos_bound (tv_nsec t) (2 ^ 64) ltac:(lia)). lia. }
    pose proof (sleep_wraps k up ns n ltac:(intros; apply Hup) ltac:(lia) Hb Hn Hf) as Hs.
    assert ((if total_ns t <? 2 ^ 64 then Ret (total_ns t)
             else if overflow_checks then Panic else Ret (total_ns t mod 2 ^ 64)) =
            if overflow_checks && (2 ^ 64 <=? total_ns t) then Panic else Ret ns) as ->.
    { unfold ns. destruct (Z.ltb_spec (total_ns t) (2 ^ 64)), (Z.leb_spec (2 ^ 64) (total_ns t)); try lia.
      - by rewrite andb_false_r, Z.mod_small by lia.
      - by destruct overflow_checks. }
    destruct (overflow_checks && (2 ^ 64 <=? total_ns t)) eqn:E1.
    { rewrite andb_orb_distrib_r, E1. done. }
    rewrite andb_orb_distrib_r, E1. simpl. unfold es_bind at 1. rewrite Hs.
    destruct (overflow_checks && _); [done|]. simpl. destruct (is_null rem); [done|]. simpl.
    unfold es_bind, try_call. by destruct (write _ _ _) as [[e|[]] k'].
  - intros Hneg. unfold total_ns, as_u64. rewrite <-(Z.mod_add (tv_sec t) 1), Z.mul_1_l by lia.
    rewrite (Z.mod_small (tv_sec t + 2 ^ 64)) by lia.
    pose proof (Z.mod_pos_bound (tv_nsec t) (2 ^ 64) ltac:(lia)). lia.
  - intros Hov. unfold target. rewrite <-(Z.mod_add _ (-1)), Z.mod_small by lia. lia.
Qed.

(** ** Opening *)

(** [copy_to_slice] does not change the length of the buffer. *)
Definition keeps_length : Prop :=
  ∀ (k : K) p buf n b, copy_to_slice k p buf = inr (n, b) → length b = length buf.

(** [syscall_open] never opens anything.  The first five bytes of the path are
    compared as four bytes with the three of "dev", so for every path, [/dev/null] and
    [/dev/zero] included, the result is an error, and nothing changes. *)
Theorem syscall_open_never_opens filename flags mode (k : K) :
  keeps_length → ∃ e, syscall_open filename flags mode k = Ret (inl e, k).
Proof.
  intros Hlen. unfold syscall_open, es_bind, read_path, try_read.
  destruct (copy_to_slice k filename (replicate 256 0)) as [e|[len b]] eqn:E; [by eexists|].
  cbn -[slice replicate default].
  apply Hlen in E. rewrite length_replicate in E. destruct (len =? 0); [by eexists|].
  rewrite (bool_decide_false (slice b 1 5 = b_dev)).
  - rewrite andb_false_r. by eexists.
  - intros Hs%(f_equal length). unfold slice in Hs. rewrite length_take, length_drop, E in Hs.
    vm_compute in Hs. done.
Qed.
End sleep.

(** ** Descriptors *)

(** The descriptors the handlers give out. *)
Definition given_out : list Z := [5; 6; 7; 8; 9; 10; 11].

(** Descriptors that are given out cannot be given back.  [syscall_pipe] reports
    5 and 6, and epoll, timer, event, signal and inotify descriptors are 7 to 11; for
    each of them [syscall_close] and [syscall_dup] answer [EBADF], as for every number
    above 4. *)
Theorem descriptors_cannot_be_closed {K : Type} `{!UserMem K} fds (k : K) size clockid flags initval sfd mask sizemask :
  0 < size →
  (∀ fd, 4 < fd → syscall_close fd = inl EBADF ∧ syscall_dup fd = inl EBADF) ∧
  syscall_pipe fds k =
    Ret (match write k fds (VPair 5 6) with (inr _, k') => (inr 0, k') | (inl e, k') => (inl e, k') end) ∧
  [syscall_epoll_create size; syscall_timerfd_create clockid flags; syscall_eventfd initval flags;
   syscall_signalfd sfd mask sizemask; syscall_inotify_init] = inr <$> drop 2 given_out ∧
  Forall (λ fd, syscall_close fd = inl EBADF) given_out.
Proof.
  intros Hsize. split; [|split; [|split]].
  - intros x Hx. unfold syscall_close, syscall_dup.
    rewrite (proj2 (Z.ltb_ge x 3)), (proj2 (Z.eqb_neq x 3)), (proj2 (Z.eqb_neq x 4)),
      (proj2 (Z.ltb_lt 4 x)) by lia. done.
  - unfold syscall_pipe, es_bind, try_call. by destruct (write k fds (VPair 5 6)) as [[e|[]] k'].
  - unfold syscall_epoll_create. by rewrite (proj2 (Z.leb_gt size 0)).
  - unfold given_out. by repeat (apply Forall_cons_2; [done|]).
Qed.

(** ** A concrete machine and the witnesses *)

(** User memory that holds poll structures at small addresses, and a fixed request. *)
#[export] Instance sample_mem : UserMem (Z → PollFd) := {
  is_null p := p =? 0;
  time_aligned p := p mod 8 =? 0;
  stat_aligned p := p mod 8 =? 0;
  poll_offset p i := p + i;
  iov_offset p i := p + 16 * i;
  read_time _ _ := inr (mkTimeSpec (-1) 0);
  read_poll k p := inr (k p);
  read_iov _ _ := inl EFAULT;
  read_int _ _ := inl EFAULT;
  write k p v := match v with VPoll x => (inr (), λ q, if q =? p then x else k q) | _ => (inr (), k) end;
  copy_to_slice _ _ buf :=
    inr (9, take (length buf) ([47; 100; 101; 118; 47; 110; 117; 108; 108] ++ drop 9 buf));
  copy_from_slice k _ _ := (inr (), k)
}.

#[export] Instance sample_kernel : KernelCalls (Z → PollFd) := {
  current_pid _ := 1; current_tid _ := 1; is_process_alive _ _ := true; terminate_process k _ := k;
  create_clone k _ _ _ _ _ := (2, k); set_clear_child_tid k _ := k; get_process_count _ := 1;
  exit_current_process _ _ := Diverge; get_time_ns _ := 0; uptime_seconds _ := 0;
  timer_seen _ j := {| TICKS := 1000 + Z.min (Z.of_nat j) 20; FREQUENCY := 1000; TSC_KNOWN := true |};
  after_wait k _ := k; wait_fuel := 20%nat; futex_wait k _ _ := Ret k; futex_wake k _ _ := k;
  set_fs_base k _ := k; set_gs_base k _ := k;
  change_protection k _ _ _ := (inr (), k); unmap_user_pages k _ _ := (inr (), k);
  set_brk k a := (inr a, k); alloc_huge_page k a := (inr a, k);
  map_user_pages k a _ _ _ _ _ := (inr a, k);
  write_bytes k _ n := (inr n, k); read_bytes k _ n := (inr n, k)
}.

Definition sample_polls : Z → PollFd := λ i, mkPollFd i 5 0.

Lemma sample_array : PollArray (K := Z → PollFd) 0 8 (λ k i, k i).
Proof.
  split; [done|]. intros k i p Hi. eexists. split; [done|]. done.
Qed.

Lemma syscall_poll_exact_witness :
  ∃ k', syscall_poll (prof := dev) 0 8 0 sample_polls = Ret (inr (ready_count sample_polls 8), k') ∧
    ready_count sample_polls 8 = 7.
Proof.
  destruct (syscall_poll_exact (prof := dev) 0 8 0 _ sample_polls sample_array ltac:(lia)) as (k'&E&_).
  exists k'. split; [exact E|by vm_compute].
Defined.

(** The clock of the machine advances by a millisecond per reading, twenty times. *)
Definition sample_up (j : nat) : Z := (1000 + Z.min (Z.of_nat j) 20) * 1000000.
Lemma sample_clock {prof : Profile} (k : Z → PollFd) j :
  Timer.uptime (timer_seen k j) = Ret (sample_up j) ∧ in_u 64 (sample_up j).
Proof.
  split; [|unfold sample_up, in_u; lia]. rewrite uptime_running; [|split; [done|unfold in_u; simpl; lia]].
  unfold nanoseconds, sample_up. simpl. f_equal. Z.to_euclidean_division_equations. lia.
Qed.

(** A request of minus one second: dev panics; in release the target is 0 modulo [2^64]
    and the sleep ends at the first reading. *)
Lemma nanosleep_exact_witness :
  syscall_nanosleep (prof := dev) 8 8 sample_polls = Panic ∧
  syscall_nanosleep (prof := release) 8 8 sample_polls = Ret (inr 0, sample_polls).
Proof.
  split.
  - destruct (nanosleep_exact (prof := dev) 8 8 sample_polls (mkTimeSpec (-1) 0) sample_up 1) as [E _];
      [reflexivity|simpl; lia|apply sample_clock|intros; lia|by vm_compute|simpl; lia|].
    rewrite E. reflexivity.
  - destruct (nanosleep_exact (prof := release) 8 8 sample_polls (mkTimeSpec (-1) 0) sample_up 1) as [E _];
      [reflexivity|simpl; lia|apply sample_clock|intros; lia|by vm_compute|simpl; lia|].
    rewrite E. reflexivity.
Defined.

Lemma syscall_open_never_opens_witness : ∃ e, syscall_open 8 0 0 sample_polls = Ret (inl e, sample_polls).
Proof.
  apply (syscall_open_never_opens 8 0 0 sample_polls). intros k p buf n b [= <- <-].
  rewrite length_take. simpl. rewrite length_drop. lia.
Defined.

Lemma descriptors_cannot_be_closed_witness : syscall_close 5 = inl EBADF ∧ syscall_dup 5 = inl EBADF.
Proof.
  apply (proj1 (descriptors_cannot_be_closed 8 sample_polls 1 0 0 0 0 0 0 ltac:(lia))). lia.
Defined.

(** The bytes of [syscall_getrandom] are the same for every call. *)
Example random_bytes : random_byte <$> seqZ 0 6 = [0; 3; 6; 5; 12; 15].
Proof. by vm_compute. Qed.

(** The two declarations of [syscall_futimesat] disagree on every directory
    descriptor other than the working directory's. *)
Lemma futimesat_declarations dirfd pathname times :
  syscall_futimesat dirfd pathname times = Earlier.syscall_futimesat dirfd pathname times ↔ dirfd = AT_FDCWD.
Proof.
  unfold syscall_futimesat, Earlier.syscall_futimesat.
  destruct (Z.eqb_spec dirfd AT_FDCWD); simpl; split; (done || intros; congruence).
Qed.
