(* ===== verification/Console.v ===== *)
(** * The text console (src/console.rs)

    The console's cursor, color and byte buffer, the 80 by 25 cells of VGA text
    memory (two bytes per cell), and the UART and CRT ports.  A write outside
    the cells is [Undef]; the ports belong to the hardware and are a parameter. *)

From S2P Require Import Prelude.
Open Scope Z_scope.

Definition VGA_WIDTH : Z := 80.
Definition VGA_HEIGHT : Z := 25.
Definition UART_PORT : Z := 0x3f8.

Record Console := {
  cursor_x : Z;
  cursor_y : Z;
  color : Z;
  buffer : list Z;
  buf_pos : Z
}.

Definition new : Console :=
  {| cursor_x := 0; cursor_y := 0; color := 0x07; buffer := replicate 4096 0; buf_pos := 0 |}.

Definition at_cursor (c : Console) (x y : Z) : Console :=
  {| cursor_x := x; cursor_y := y; color := color c; buffer := buffer c; buf_pos := buf_pos c |}.
Definition with_color (c : Console) (v : Z) : Console :=
  {| cursor_x := cursor_x c; cursor_y := cursor_y c; color := v; buffer := buffer c;
     buf_pos := buf_pos c |}.
Definition with_buffer (c : Console) (b : list Z) (p : Z) : Console :=
  {| cursor_x := cursor_x c; cursor_y := cursor_y c; color := color c; buffer := b; buf_pos := p |}.

(** The console with the hardware it drives. *)
Record Screen (Dev : Type) := mkScreen { con : Console; vga : list Z; ports : Dev }.
Arguments mkScreen {Dev}.
Arguments con {Dev}.
Arguments vga {Dev}.
Arguments ports {Dev}.

Section console.
Context {prof : Profile} {Dev : Type} `{!PortIO Dev}.
(** How many polls of the line status register [uart_putc] makes at most. *)
Context (uart_fuel : nat).
#[local] Notation "'Scr'" := (Screen Dev).
Implicit Types (s : Scr).

Definition with_con s (c : Console) : Scr := mkScreen c (vga s) (ports s).
Definition with_vga s (v : list Z) : Scr := mkScreen (con s) v (ports s).
Definition with_ports s (d : Dev) : Scr := mkScreen (con s) (vga s) d.

(** Volatile access to the byte at offset [i] of the VGA buffer. *)
Definition poke s (i v : Z) : outcome Scr :=
  match vga s !! Z.to_nat i with
  | Some _ => Ret (with_vga s (<[Z.to_nat i := v]> (vga s)))
  | None => Undef
  end.
Definition peek s (i : Z) : outcome Z :=
  match vga s !! Z.to_nat i with Some v => Ret v | None => Undef end.

(** A sequence of port writes. *)
Definition outs s (l : list (Z * Z)) : Scr :=
  with_ports s (out_all (ports s) l).

Definition init_uart s : Scr :=
  outs s [(UART_PORT + 1, 0x00); (UART_PORT + 3, 0x80); (UART_PORT + 0, 0x03);
          (UART_PORT + 1, 0x00); (UART_PORT + 3, 0x03); (UART_PORT + 2, 0xC7);
          (UART_PORT + 4, 0x0B)].

Fixpoint uart_wait (fuel : nat) (d : Dev) : outcome Dev :=
  match fuel with
  | O => Diverge
  | S fuel' =>
      let '(v, d') := inb d (UART_PORT + 5) in
      if Z.land v 0x20 =? 0 then uart_wait fuel' d' else Ret d'
  end.

Definition uart_putc s (c : Z) : outcome Scr :=
  d ← uart_wait uart_fuel (ports s); Ret (with_ports s (outb d UART_PORT c)).

(** [(y * VGA_WIDTH + x) * 2]. *)
Definition cell (x y : Z) : outcome Z :=
  r ← umul y VGA_WIDTH; p ← uadd r x; umul p 2.

Definition put_cell s (x y c attr : Z) : outcome Scr :=
  i ← cell x y;
  s1 ← poke s i c;
  j ← uadd i 1;
  poke s1 j attr.

Definition scroll s : outcome Scr :=
  s1 ← for_each 1 VGA_HEIGHT (λ y s,
    for_each 0 VGA_WIDTH (λ x s,
      src ← cell x y;
      y' ← usub y 1;
      dst ← cell x y';
      c ← peek s src;
      src1 ← uadd src 1;
      attr ← peek s src1;
      s1 ← poke s dst c;
      dst1 ← uadd dst 1;
      poke s1 dst1 attr) s) s;
  let last_row := (VGA_HEIGHT - 1) * VGA_WIDTH * 2 in
  s2 ← for_each 0 (VGA_WIDTH * 2) (λ i s, j ← uadd last_row i; poke s j 0) s1;
  Ret (with_con s2 (at_cursor (con s2) (cursor_x (con s2)) (VGA_HEIGHT - 1))).

Definition newline s : outcome Scr :=
  y ← uadd (cursor_y (con s)) 1;
  let s1 := with_con s (at_cursor (con s) 0 y) in
  if VGA_HEIGHT <=? y then scroll s1 else Ret s1.

(** [write_char_with_attr]; [put_char] is the same with the console's color. *)
Definition write_char_with_attr s (c attr : Z) : outcome Scr :=
  s1 ← put_cell s (cursor_x (con s)) (cursor_y (con s)) c attr;
  x ← uadd (cursor_x (con s1)) 1;
  let s2 := with_con s1 (at_cursor (con s1) x (cursor_y (con s1))) in
  if VGA_WIDTH <=? x then newline s2 else Ret s2.
Definition put_char s (c : Z) : outcome Scr := write_char_with_attr s c (color (con s)).

Definition write_byte s (byte : Z) : outcome Scr :=
  s1 ← uart_putc s byte;
  if byte =? 10 then newline s1 else put_char s1 byte.

Definition clear_screen s : outcome Scr :=
  s1 ← for_each 0 VGA_HEIGHT (λ y s,
    for_each 0 VGA_WIDTH (λ x s, put_cell s x y 32 (color (con s))) s) s;
  Ret (with_con s1 (at_cursor (con s1) 0 0)).

Definition set_cursor s (x y : Z) : Scr :=
  if (x <? VGA_WIDTH) && (y <? VGA_HEIGHT) then with_con s (at_cursor (con s) x y) else s.

Definition move_cursor s : outcome Scr :=
  r ← umul (cursor_y (con s)) VGA_WIDTH;
  pos ← uadd r (cursor_x (con s));
  Ret (outs s [(0x3D4, 0x0F); (0x3D5, pos mod 256); (0x3D4, 0x0E); (0x3D5, Z.shiftr pos 8 mod 256)]).

(** [bg << 4] on a [u8]: the high bits are lost. *)
Definition set_color s (fg bg : Z) : Scr :=
  with_con s (with_color (con s) (Z.lor (ushl 8 bg 4) (Z.land fg 0x0F))).

Definition backspace s : outcome Scr :=
  if 0 <? cursor_x (con s) then
    x ← usub (cursor_x (con s)) 1;
    let s1 := with_con s (at_cursor (con s) x (cursor_y (con s))) in
    put_cell s1 x (cursor_y (con s1)) 32 (color (con s1))
  else if 0 <? cursor_y (con s) then
    y ← usub (cursor_y (con s)) 1;
    let s1 := with_con s (at_cursor (con s) (VGA_WIDTH - 1) y) in
    put_cell s1 (VGA_WIDTH - 1) y 32 (color (con s1))
  else Ret s.

(** A loop over the bytes of a string. *)
Fixpoint write_all (f : Scr → Z → outcome Scr) s (l : list Z) : outcome Scr :=
  match l with [] => Ret s | b :: l' => s1 ← f s b; write_all f s1 l' end.

Definition write_str s (bytes : list Z) : outcome Scr :=
  write_all (λ s b, if (b =? 0x08) || (b =? 0x7F) then backspace s else write_byte s b) s bytes.

(** [format!("{:0wX}", n)]: [w] upper-case hexadecimal digits. *)
Definition hex_digit (d : Z) : Z := if d <? 10 then 48 + d else 55 + d.
Fixpoint hex_pad (w : nat) (n : Z) : list Z :=
  match w with O => [] | S w' => hex_pad w' (n / 16) ++ [hex_digit (n mod 16)] end.
Definition write_hex_byte s (b : Z) : outcome Scr := write_str s (hex_pad 2 b).
Definition write_hex_word s (w : Z) : outcome Scr := write_str s (hex_pad 4 w).
Definition write_hex_dword s (d : Z) : outcome Scr := write_str s (hex_pad 8 d).
Definition write_hex_qword s (q : Z) : outcome Scr := write_str s (hex_pad 16 q).

(** [while num != 0 { buf[i] = digit(num) + b'0'; num = rest(num); i += 1 }], one
    unit of fuel per digit; an index past the end of [buf] panics. *)
Fixpoint digits (digit rest : Z → Z) (fuel : nat) (num : Z) (i : nat) (buf : list Z) :
    outcome (nat * list Z) :=
  if num =? 0 then Ret (i, buf) else
  match fuel with
  | O => Diverge
  | S fuel' =>
      match buf !! i with
      | None => Panic
      | Some _ => digits digit rest fuel' (rest num) (S i) (<[i := digit num + 48]> buf)
      end
  end.

(** The bytes [write_dec], [write_octal] and [write_binary] print, in order. *)
Definition number_bytes (digit rest : Z → Z) (size : nat) (n : Z) : outcome (list Z) :=
  if n =? 0 then Ret [48] else
  '(i, buf) ← digits digit rest 65 n 0 (replicate size 0);
  Ret (rev (take i buf)).

Definition dec_bytes : Z → outcome (list Z) := number_bytes (λ n, n mod 10) (λ n, n / 10) 20.
Definition octal_bytes : Z → outcome (list Z) :=
  number_bytes (λ n, Z.land n 7) (λ n, Z.shiftr n 3) 22.
Definition binary_bytes : Z → outcome (list Z) :=
  number_bytes (λ n, Z.land n 1) (λ n, Z.shiftr n 1) 64.
Definition write_dec s (n : Z) : outcome Scr := l ← dec_bytes n; write_all write_byte s l.
Definition write_octal s (n : Z) : outcome Scr := l ← octal_bytes n; write_all write_byte s l.
Definition write_binary s (n : Z) : outcome Scr := l ← binary_bytes n; write_all write_byte s l.

Definition flush_buffer s : outcome Scr :=
  s1 ← for_each 0 (buf_pos (con s)) (λ i s,
    match buffer (con s) !! Z.to_nat i with
    | Some b => write_byte s b
    | None => Panic
    end) s;
  Ret (with_con s1 (with_buffer (con s1) (buffer (con s1)) 0)).

Definition buffer_set s (i c : Z) : outcome Scr :=
  match buffer (con s) !! Z.to_nat i with
  | Some _ => Ret (with_con s (with_buffer (con s) (<[Z.to_nat i := c]> (buffer (con s))) (buf_pos (con s))))
  | None => Panic
  end.

Definition buffer_write s (c : Z) : outcome Scr :=
  if buf_pos (con s) <? Z.of_nat (length (buffer (con s))) then
    s1 ← buffer_set s (buf_pos (con s)) c;
    p ← uadd (buf_pos (con s1)) 1;
    Ret (with_con s1 (with_buffer (con s1) (buffer (con s1)) p))
  else
    s1 ← flush_buffer s;
    s2 ← buffer_set s1 0 c;
    Ret (with_con s2 (with_buffer (con s2) (buffer (con s2)) 1)).

Definition enable_cursor s : Scr :=
  let d1 := outb (ports s) 0x3D4 0x0A in
  let '(v, d2) := inb d1 0x3D5 in
  let d3 := outb d2 0x3D5 (Z.land v 0xE0) in
  let d4 := outb d3 0x3D4 0x0B in
  let '(w, d5) := inb d4 0x3D5 in
  with_ports s (outb d5 0x3D5 (Z.lor (Z.land w 0xE0) 0x0F)).

Definition disable_cursor s : Scr :=
  let d1 := outb (ports s) 0x3D4 0x0A in
  let '(v, d2) := inb d1 0x3D5 in
  with_ports s (outb d2 0x3D5 (Z.lor v 0x20)).

(** [fmt::Write] for the console: [write_str] of the trait calls the method above
    and never fails; [true] is [Ok]. *)
Definition fmt_write_str s (bytes : list Z) : outcome (bool * Scr) :=
  s1 ← write_str s bytes; Ret (true, s1).

(** [write_fmt] hands the pieces of a formatted text over one by one and stops at
    the first error; [print] unwraps its result. *)
Fixpoint write_fmt s (pieces : list (list Z)) : outcome (bool * Scr) :=
  match pieces with
  | [] => Ret (true, s)
  | bytes :: rest =>
      '(ok, s1) ← fmt_write_str s bytes;
      if ok : bool then write_fmt s1 rest else Ret (false, s1)
  end.
Definition print s (pieces : list (list Z)) : outcome Scr :=
  '(ok, s1) ← write_fmt s pieces; if ok : bool then Ret s1 else Panic.

(** [println!] adds a piece with the line feed. *)
Definition println s (pieces : list (list Z)) : outcome Scr := print s (pieces ++ [[10]]).

End console.
