(* ===== verification/ConsoleTheorems.v ===== *)
(** * Correctness of the text console

    The cursor stays on the screen and every access to video memory is in range,
    scrolling moves the rows up, numbers print as numerals that read back to the
    number, and the byte buffer is first in, first out. *)

From S2P Require Import Prelude Console.
Open Scope Z_scope.

Section console_theorems.
Context {prof : Profile} {Dev : Type} `{!PortIO Dev} (uart_fuel : nat).
Implicit Types (s : Screen Dev).

(** The device after [k] reads of the line status register, and bit 5 of the next
    reading: the transmitter takes a byte. *)
Definition polled (k : nat) (d : Dev) : Dev := Nat.iter k (λ d, (inb d (UART_PORT + 5)).2) d.
Definition thr_empty (d : Dev) : bool := negb (Z.land (inb d (UART_PORT + 5)).1 0x20 =? 0).

(** A UART that is done with the byte it sends within [uart_fuel] polls. *)
Definition uart_ready : Prop := ∀ d, ∃ k, (k < uart_fuel)%nat ∧ thr_empty (polled k d) = true.

(** The byte is written after the first reading that says the transmitter takes one. *)
Definition transmits (d : Dev) (b : Z) (d' : Dev) : Prop :=
  ∃ k, (∀ j, (j < k)%nat → thr_empty (polled j d) = false) ∧ thr_empty (polled k d) = true ∧
       d' = outb (polled (S k) d) UART_PORT b.

Lemma polled_S k d : polled (S k) d = polled k (inb d (UART_PORT + 5)).2.
Proof. apply (Nat.iter_succ_r k (λ d, (inb d (UART_PORT + 5)).2)). Qed.

Lemma uart_wait_first fuel k d :
  (k < fuel)%nat → thr_empty (polled k d) = true →
  ∃ k', (∀ j, (j < k')%nat → thr_empty (polled j d) = false) ∧ thr_empty (polled k' d) = true ∧
        uart_wait fuel d = Ret (polled (S k') d).
Proof.
  revert k d. induction fuel as [|fuel IH]; intros k d Hk Hr; [lia|].
  assert (uart_wait (S fuel) d =
    if thr_empty d then Ret (polled 1 d) else uart_wait fuel (inb d (UART_PORT + 5)).2) as ->.
  { unfold thr_empty. cbn [uart_wait]. destruct (inb d (UART_PORT + 5)) as [v d'] eqn:E.
    simpl. rewrite E. by destruct (Z.land v 0x20 =? 0). }
  destruct (thr_empty d) eqn:Hd.
  { exists 0%nat. split; [lia|done]. }
  destruct k as [|k]; [by change (thr_empty d = true) in Hr; rewrite Hr in Hd|]. rewrite polled_S in Hr.
  destruct (IH k _ ltac:(lia) Hr) as (k'&Hbusy&Hr'&->). exists (S k'). rewrite !(polled_S (S _)), !polled_S.
  split; [|done]. intros [|j] Hj; [done|]. rewrite polled_S. apply Hbusy. lia.
Qed.

Lemma uart_putc_transmits s b :
  uart_ready → returns (uart_putc uart_fuel s b) (λ s', ∃ d, s' = with_ports s d ∧ transmits (ports s) b d).
Proof.
  intros Hr. destruct (Hr (ports s)) as (k&Hk&Hk').
  destruct (uart_wait_first uart_fuel k (ports s) Hk Hk') as (k'&Hb&Hr'&E).
  unfold uart_putc. rewrite E. simpl. eexists. split; [done|]. by exists k'.
Qed.

(** A transmitter that never takes a byte keeps [uart_putc] waiting forever. *)
Lemma uart_putc_hangs s b :
  (∀ k, thr_empty (polled k (ports s)) = false) → uart_putc uart_fuel s b = Diverge.
Proof.
  intros H. unfold uart_putc. assert (uart_wait uart_fuel (ports s) = Diverge) as ->; [|done].
  revert H. generalize (ports s). generalize uart_fuel as fuel.
  induction fuel as [|fuel IH]; intros d H; [done|]. pose proof (H 0%nat) as H0. unfold thr_empty in H0.
  change (polled 0 d) with d in H0. cbn [uart_wait]. destruct (inb d (UART_PORT + 5)) as [v d'] eqn:E.
  cbn [fst] in H0. destruct (Z.land v 0x20 =? 0); [|done].
  apply IH. intros k. specialize (H (S k)). rewrite polled_S in H. by rewrite E in H.
Qed.

Record wf s : Prop := {
  wf_x : 0 ≤ cursor_x (con s) < VGA_WIDTH;
  wf_y : 0 ≤ cursor_y (con s) < VGA_HEIGHT;
  wf_vga : length (vga s) = 4000%nat;
  wf_buffer : length (buffer (con s)) = 4096%nat;
  wf_pos : 0 ≤ buf_pos (con s) ≤ 4096
}.

(** [s'] is on the screen and has the pending bytes of [s]. *)
Definition keeps s s' : Prop :=
  wf s' ∧ buffer (con s') = buffer (con s) ∧ buf_pos (con s') = buf_pos (con s).

Lemma screen_keeps_trans s s1 s2 : keeps s s1 → keeps s1 s2 → keeps s s2.
Proof. intros (_&?&?) (?&?&?). split; [done|]. split; congruence. Qed.

(** ** Cells *)

Lemma cell_ok x y : 0 ≤ x < 80 → 0 ≤ y < 25 → cell x y = Ret ((y * 80 + x) * 2).
Proof.
  intros Hx Hy. unfold cell, VGA_WIDTH. rewrite umul_ok by (unfold in_u; lia). cbn [mbind outcome_bind].
  rewrite uadd_ok by (unfold in_u; lia). cbn [mbind outcome_bind].
  by rewrite umul_ok by (unfold in_u; lia).
Qed.

Lemma poke_ok s i v :
  length (vga s) = 4000%nat → 0 ≤ i < 4000 → poke s i v = Ret (with_vga s (<[Z.to_nat i := v]> (vga s))).
Proof.
  intros Hl Hi. unfold poke.
  destruct (lookup_lt_is_Some_2 (vga s) (Z.to_nat i)) as [w ->]; [lia|done].
Qed.

Lemma put_cell_ok s x y c attr :
  length (vga s) = 4000%nat → 0 ≤ x < 80 → 0 ≤ y < 25 →
  put_cell s x y c attr =
  Ret (with_vga s (<[Z.to_nat ((y * 80 + x) * 2 + 1) := attr]>
                    (<[Z.to_nat ((y * 80 + x) * 2) := c]> (vga s)))).
Proof.
  intros Hl Hx Hy. unfold put_cell. rewrite cell_ok by done. cbn [mbind outcome_bind].
  rewrite poke_ok by lia. cbn [mbind outcome_bind].
  rewrite uadd_ok by (unfold in_u; lia). cbn [mbind outcome_bind].
  rewrite poke_ok; [done| |lia]. simpl. by rewrite length_insert.
Qed.

Lemma put_cell_keeps s x y c attr :
  wf s → 0 ≤ x < 80 → 0 ≤ y < 25 → returns (put_cell s x y c attr) (λ s', keeps s s' ∧ con s' = con s).
Proof.
  intros [????] Hx Hy. rewrite put_cell_ok by done. simpl. split; [|done]. split; [|done].
  split; simpl; try done. by rewrite !length_insert.
Qed.

(** ** Scrolling *)

(** Byte [i] of video memory. *)
Definition byte s (i : nat) : option Z := vga s !! i.

(** [s'] after the bytes below [n] took the values one row further down. *)
Definition shifted s s' (n : Z) : Prop :=
  con s' = con s ∧ ports s' = ports s ∧ length (vga s') = 4000%nat ∧
  ∀ i, (i < 4000)%nat → byte s' i = if Z.of_nat i <? n then byte s (i + 160) else byte s i.

Lemma shift_cell s s1 x y :
  length (vga s) = 4000%nat → 0 ≤ x < 80 → 1 ≤ y < 25 →
  shifted s s1 ((y - 1) * 160 + 2 * x) →
  returns (src ← cell x y;
      y' ← usub y 1;
      dst ← cell x y';
      c ← peek s1 src;
      src1 ← uadd src 1;
      attr ← peek s1 src1;
      s2 ← poke s1 dst c;
      dst1 ← uadd dst 1;
      poke s2 dst1 attr) (λ s', shifted s s' ((y - 1) * 160 + 2 * (x + 1))).
Proof.
  intros Hl Hx Hy (Hc & Hp & Hl1 & Hb).
  assert (∀ i : Z, (y - 1) * 160 + 2 * x ≤ i < 4000 → peek s1 i = Ret (default 0 (byte s (Z.to_nat i)))
            ∧ is_Some (byte s (Z.to_nat i))) as Hpeek.
  { intros i Hi. specialize (Hb (Z.to_nat i) ltac:(lia)).
    rewrite (proj2 (Z.ltb_ge _ _)) in Hb by lia. unfold peek. fold (byte s1 (Z.to_nat i)). rewrite Hb.
    destruct (lookup_lt_is_Some_2 (vga s) (Z.to_nat i)) as [v Hv]; [lia|].
    unfold byte. rewrite Hv. split; [done|by eexists]. }
  rewrite cell_ok by lia. cbn [mbind outcome_bind]. rewrite usub_ok by (unfold in_u; lia).
  cbn [mbind outcome_bind]. rewrite cell_ok by lia. cbn [mbind outcome_bind].
  destruct (Hpeek ((y * 80 + x) * 2) ltac:(lia)) as [-> [v0 Hv0]]. cbn [mbind outcome_bind].
  rewrite (uadd_ok ((y * 80 + x) * 2)) by (unfold in_u; lia). cbn [mbind outcome_bind].
  destruct (Hpeek ((y * 80 + x) * 2 + 1) ltac:(lia)) as [-> [v1 Hv1]]. cbn [mbind outcome_bind].
  rewrite poke_ok by lia. cbn [mbind outcome_bind].
  rewrite uadd_ok by (unfold in_u; lia). cbn [mbind outcome_bind].
  rewrite poke_ok by (simpl; rewrite ?length_insert; lia). simpl.
  split; [done|]. split; [done|]. split; [simpl; by rewrite !length_insert|].
  intros i Hi. unfold byte in *. simpl. rewrite !list_lookup_insert, length_insert, Hl1, Hv0, Hv1. simpl.
  case_decide as H1; [|case_decide as H2].
  - destruct H1 as [H1 _]. rewrite (proj2 (Z.ltb_lt _ _)) by lia. rewrite <-Hv1. f_equal. lia.
  - destruct H2 as [H2 _]. rewrite (proj2 (Z.ltb_lt _ _)) by lia. rewrite <-Hv0. f_equal. lia.
  - rewrite Hb by done. destruct (Z.ltb_spec (Z.of_nat i) ((y - 1) * 160 + 2 * x)) as [|].
    + by rewrite (proj2 (Z.ltb_lt _ _)) by lia.
    + rewrite (proj2 (Z.ltb_ge _ _)); [done|]. lia.
Qed.

Lemma scroll_ok s :
  length (vga s) = 4000%nat →
  returns (scroll s) (λ s',
    con s' = at_cursor (con s) (cursor_x (con s)) 24 ∧ ports s' = ports s ∧
    length (vga s') = 4000%nat ∧
    ∀ i, (i < 4000)%nat → byte s' i = if (i <? 3840)%nat then byte s (i + 160) else Some 0).
Proof.
  intros Hl. unfold scroll. apply returns_bind. eapply returns_mono.
  { apply (for_each_inv (λ y s', shifted s s' ((y - 1) * 160))); [unfold VGA_HEIGHT; lia| |].
    - do 3 (split; [done|]). intros i Hi. by destruct (Z.ltb_spec (Z.of_nat i) ((1 - 1) * 160)); [lia|].
    - unfold VGA_HEIGHT. intros y s1 Hy Hs1. eapply returns_mono.
      { apply (for_each_inv (λ x s', shifted s s' ((y - 1) * 160 + 2 * x))); [unfold VGA_WIDTH; lia| |].
        - by replace ((y - 1) * 160 + 2 * 0) with ((y - 1) * 160) by lia.
        - unfold VGA_WIDTH. intros x s2 Hx Hs2. by apply shift_cell. }
      intros s2. unfold VGA_WIDTH. by replace ((y - 1) * 160 + 2 * 80) with ((y + 1 - 1) * 160) by lia. }
  intros s1 (Hc & Hp & Hl1 & Hb). cbv zeta. apply returns_bind. eapply returns_mono.
  { apply (for_each_inv (λ k s', con s' = con s1 ∧ ports s' = ports s1 ∧ length (vga s') = 4000%nat ∧
      ∀ i, (i < 4000)%nat → byte s' i =
        if (3840 <=? Z.of_nat i) && (Z.of_nat i <? 3840 + k) then Some 0 else byte s1 i));
      [done| |].
    - split_and!; [done..|]. intros i Hi.
      by destruct (Z.leb_spec 3840 (Z.of_nat i)), (Z.ltb_spec (Z.of_nat i) (3840 + 0)); try lia.
    - unfold VGA_WIDTH, VGA_HEIGHT. intros k s2 Hk (Hc2 & Hp2 & Hl2 & Hb2).
      step1. step1; [unfold in_u; lia|]. rewrite poke_ok by lia. simpl.
      split_and!; [done|done|by rewrite length_insert|]. intros i Hi. unfold byte in *. simpl.
      rewrite list_lookup_insert, Hl2. case_decide as Hd.
      + destruct Hd as [Hd _]. by rewrite (proj2 (Z.leb_le _ _)), (proj2 (Z.ltb_lt _ _)) by lia.
      + rewrite Hb2 by done.
        destruct (Z.leb_spec 3840 (Z.of_nat i)), (Z.ltb_spec (Z.of_nat i) (3840 + k)),
          (Z.ltb_spec (Z.of_nat i) (3840 + (k + 1))); simpl; try done; lia. }
  intros s2 (Hc2 & Hp2 & Hl2 & Hb2). simpl. split_and!; [by rewrite Hc2, Hc|congruence|done|].
  intros i Hi. change (byte s2 i = if (i <? 3840)%nat then byte s (i + 160) else Some 0).
  rewrite Hb2 by done. unfold VGA_WIDTH, VGA_HEIGHT in *.
  destruct (Nat.ltb_spec i 3840).
  - rewrite (proj2 (Z.leb_gt _ _)) by lia. simpl. rewrite Hb by done.
    by rewrite (proj2 (Z.ltb_lt _ _)) by lia.
  - by rewrite (proj2 (Z.leb_le _ _)), (proj2 (Z.ltb_lt _ _)) by lia.
Qed.

(** ** The cursor *)

Lemma newline_keeps s :
  length (vga s) = 4000%nat → length (buffer (con s)) = 4096%nat → 0 ≤ buf_pos (con s) ≤ 4096 →
  0 ≤ cursor_y (con s) < 25 → returns (newline s) (keeps s).
Proof.
  intros Hl Hb Hp Hy. unfold newline. step1. step1; [unfold in_u; lia|].
  unfold VGA_HEIGHT. destruct (Z.leb_spec 25 (cursor_y (con s) + 1)).
  - eapply returns_mono; [by apply scroll_ok|]. intros s' (Hc & _ & Hl' & _).
    unfold keeps. rewrite Hc. split; [|done].
    split; rewrite ?Hc; simpl; unfold VGA_WIDTH, VGA_HEIGHT; try done; lia.
  - simpl. split; [|done]. split; simpl; unfold VGA_WIDTH, VGA_HEIGHT; try done; lia.
Qed.

Lemma write_char_keeps s c attr : wf s → returns (write_char_with_attr s c attr) (keeps s).
Proof.
  intros Hwf. pose proof Hwf as [Hx Hy Hl Hb Hp]. unfold VGA_WIDTH, VGA_HEIGHT in *.
  unfold write_char_with_attr. apply returns_bind.
  eapply returns_mono; [by apply put_cell_keeps|]. intros s1 [Hk Hc].
  rewrite Hc. step1. step1; [unfold in_u; lia|].
  destruct Hk as ([_ _ Hl1 Hb1 Hp1] & Hb' & Hp').
  unfold VGA_WIDTH. destruct (Z.leb_spec 80 (cursor_x (con s) + 1)).
  - eapply returns_mono; [by apply newline_keeps|]. intros s' (? & ? & ?). by split.
  - simpl. split; [|done]. split; simpl; unfold VGA_WIDTH, VGA_HEIGHT; try done; lia.
Qed.

Lemma uart_putc_keeps s c : uart_ready → wf s → returns (uart_putc uart_fuel s c) (keeps s).
Proof.
  intros Hr [????]. eapply returns_mono; [by apply uart_putc_transmits|].
  intros s' (d&->&_). by split.
Qed.

Lemma write_byte_keeps s b : uart_ready → wf s → returns (write_byte uart_fuel s b) (keeps s).
Proof.
  intros Hr Hwf. unfold write_byte. apply returns_bind.
  eapply returns_mono; [by apply uart_putc_keeps|]. intros s1 Hk. pose proof Hk as ([????] & _).
  destruct (b =? 10).
  - eapply returns_mono; [by apply newline_keeps|]. intros s2. by apply screen_keeps_trans.
  - eapply returns_mono; [by apply write_char_keeps|]. intros s2. by apply screen_keeps_trans.
Qed.

Lemma backspace_keeps s : wf s → returns (backspace s) (keeps s).
Proof.
  intros Hwf. pose proof Hwf as [Hx Hy Hl Hb Hp]. unfold VGA_WIDTH, VGA_HEIGHT in *. unfold backspace.
  destruct (Z.ltb_spec 0 (cursor_x (con s))); [|destruct (Z.ltb_spec 0 (cursor_y (con s)))].
  - step1. step1; [unfold in_u; lia|]. eapply returns_mono.
    { apply put_cell_keeps; [|simpl; lia..]. split; simpl; unfold VGA_WIDTH, VGA_HEIGHT; try done; lia. }
    intros s' [Hk _]. by destruct Hk as (?&?&?).
  - step1. step1; [unfold in_u; lia|]. unfold VGA_WIDTH. eapply returns_mono.
    { apply put_cell_keeps; [|simpl; lia..]. split; simpl; unfold VGA_WIDTH, VGA_HEIGHT; try done; lia. }
    intros s' [Hk _]. by destruct Hk as (?&?&?).
  - done.
Qed.

Lemma write_all_keeps f l s :
  (∀ s b, wf s → returns (f s b) (keeps s)) → wf s → returns (write_all f s l) (keeps s).
Proof.
  intros Hf. revert s. induction l as [|b l IH]; intros s Hwf; cbn [write_all]; [done|].
  apply returns_bind. eapply returns_mono; [by apply Hf|]. intros s1 Hk.
  eapply returns_mono; [apply IH, Hk|]. intros s2. by apply screen_keeps_trans.
Qed.

(** ** Numerals *)

(** The value of little-endian and of big-endian ASCII digits in base [b]. *)
Fixpoint value_le (b : Z) (l : list Z) : Z :=
  match l with [] => 0 | d :: l' => (d - 48) + b * value_le b l' end.
Definition value_be (b : Z) (l : list Z) : Z := fold_left (λ a d, a * b + (d - 48)) l 0.

Lemma value_be_rev b l : value_be b (rev l) = value_le b l.
Proof.
  induction l as [|d l IH]; [done|]. simpl. unfold value_be in *. rewrite fold_left_app. simpl.
  rewrite IH. lia.
Qed.

Definition is_digit (b d : Z) : Prop := 48 ≤ d < 48 + b.

(** A numeral without a leading zero. *)
Definition numeral (b n : Z) (l : list Z) : Prop :=
  value_be b l = n ∧ Forall (is_digit b) l ∧ (l = [48] ∨ ∃ d l', l = d :: l' ∧ d ≠ 48).

Lemma digits_ok b digit rest fuel num i buf :
  2 ≤ b → (∀ n, 0 ≤ n → digit n = n mod b) → (∀ n, 0 ≤ n → rest n = n / b) →
  (i ≤ length buf)%nat → (length buf - i ≤ fuel)%nat →
  0 ≤ num < b ^ Z.of_nat (length buf - i) →
  returns (digits digit rest fuel num i buf) (λ '(i', buf'),
    (i ≤ i' ≤ length buf)%nat ∧ length buf' = length buf ∧ take i buf' = take i buf ∧
    value_le b (drop i (take i' buf')) = num ∧ Forall (is_digit b) (drop i (take i' buf')) ∧
    (num = 0 → i' = i ∧ buf' = buf) ∧
    (num ≠ 0 → (i < i')%nat ∧ nth (i' - 1) buf' 0 ≠ 48)).
Proof.
  intros Hb Hd Hr. revert num i buf. induction fuel as [|fuel IH]; intros num i buf Hi Hf Hn; cbn [digits].
  all: destruct (Z.eqb_spec num 0) as [->|Hnz];
    [simpl; rewrite drop_ge by (rewrite length_take; lia);
     split_and!; (done || lia || constructor || by intros [])|].
  { replace (length buf - i)%nat with 0%nat in Hn by lia. simpl in Hn. lia. }
  assert (i < length buf)%nat as Hlt.
  { destruct (decide (i < length buf)%nat); [done|].
    replace (length buf - i)%nat with 0%nat in Hn by lia. simpl in Hn. lia. }
  destruct (lookup_lt_is_Some_2 buf i Hlt) as [w ->]. rewrite Hd, Hr by lia.
  pose proof (Z.mod_pos_bound num b ltac:(lia)). pose proof (Z.div_mod num b ltac:(lia)).
  set (v := num mod b + 48). eapply returns_mono.
  { apply IH; rewrite length_insert; [lia..|]. split; [apply Z.div_pos; lia|].
    apply Z.div_lt_upper_bound; [lia|]. rewrite <-Z.pow_succ_r by lia.
    replace (Z.succ (Z.of_nat (length buf - S i))) with (Z.of_nat (length buf - i)) by lia. lia. }
  intros [i' buf'] (Hi' & Hl & Ht & Hv & Hdig & Hzero & Hlead). rewrite length_insert in *.
  assert (buf' !! i = Some v) as Hbi.
  { rewrite <-(lookup_take_lt buf' (S i) i) by lia. rewrite Ht, lookup_take_lt by lia.
    by apply list_lookup_insert_eq. }
  assert (drop i (take i' buf') = v :: drop (S i) (take i' buf')) as Hdrop.
  { apply drop_S. by rewrite lookup_take_lt by lia. }
  rewrite Hdrop. cbn [value_le]. rewrite Hv. split_and!; [lia|lia|done| | | |done|].
  - apply (f_equal (take i)) in Ht. rewrite !take_take, !Nat.min_l in Ht by lia.
    rewrite Ht. apply take_insert_ge. lia.
  - unfold v. lia.
  - constructor; [unfold is_digit, v; lia|done].
  - intros _. destruct (decide (num / b = 0)) as [Hz|Hz].
    + destruct (Hzero Hz) as [-> _]. split; [lia|].
      replace (S i - 1)%nat with i by lia. rewrite (nth_lookup_Some _ _ _ v) by done. unfold v. lia.
    + destruct (Hlead Hz). split; [lia|done].
Qed.

Lemma number_bytes_ok b digit rest size n :
  2 ≤ b → (∀ n, 0 ≤ n → digit n = n mod b) → (∀ n, 0 ≤ n → rest n = n / b) →
  (size ≤ 65)%nat → 0 ≤ n < b ^ Z.of_nat size →
  returns (number_bytes digit rest size n) (λ l, numeral b n l ∧ (length l ≤ Nat.max 1 size)%nat).
Proof.
  intros Hb Hd Hr Hsz Hn. unfold number_bytes. destruct (Z.eqb_spec n 0) as [->|Hnz].
  { simpl. split; [|lia]. split; [done|]. split; [|by left]. repeat constructor; unfold is_digit; lia. }
  apply returns_bind. eapply returns_mono.
  { apply (digits_ok b); try done; rewrite length_replicate; try lia. by rewrite Nat.sub_0_r. }
  intros [i buf] (Hi & Hl & _ & Hv & Hdig & _ & Hlead). rewrite length_replicate in *. simpl.
  rewrite drop_0 in *. destruct (Hlead Hnz) as [Hpos Htop].
  split; [|rewrite length_rev, length_take; lia]. split; [by rewrite value_be_rev|].
  split; [by apply Forall_rev|]. right.
  assert (take i buf = take (i - 1) buf ++ [nth (i - 1) buf 0]) as ->.
  { replace i with (S (i - 1)) at 1 by lia. apply take_S_r.
    by destruct (nth_lookup_or_length buf (i - 1) 0); [|lia]. }
  rewrite rev_app_distr. simpl. by eexists _, _.
Qed.

(** ** The byte buffer *)

(** The bytes waiting in the buffer, oldest first. *)
Definition pending s : list Z := take (Z.to_nat (buf_pos (con s))) (buffer (con s)).

(** A loop over an index that reads a list is a loop over the list. *)
Lemma write_all_snoc f s l b : write_all f s (l ++ [b]) = (s1 ← write_all f s l; f s1 b).
Proof.
  revert s. induction l as [|c l IH]; intros s; simpl; [by destruct (f s b)|].
  destruct (f s c); simpl; [apply IH|done..].
Qed.

Lemma flush_buffer_ok s :
  uart_ready → wf s →
  returns (flush_buffer uart_fuel s) (λ s', wf s' ∧ pending s' = [] ∧ buffer (con s') = buffer (con s) ∧
    ∃ s1, write_all (write_byte uart_fuel) s (pending s) = Ret s1 ∧ vga s' = vga s1 ∧ ports s' = ports s1).
Proof.
  intros Hr Hwf. pose proof Hwf as [Hx Hy Hl Hb Hp]. unfold flush_buffer. apply returns_bind.
  eapply returns_mono.
  { apply (for_each_inv (λ i s', keeps s s' ∧
      write_all (write_byte uart_fuel) s (take (Z.to_nat i) (buffer (con s))) = Ret s')); [lia| |].
    - simpl. split; [by split|done].
    - intros i s1 Hi [Hk Hw]. pose proof Hk as (Hwf1 & Hb1 & _). rewrite Hb1.
      destruct (lookup_lt_is_Some_2 (buffer (con s)) (Z.to_nat i)) as [v Hv]; [lia|]. rewrite Hv.
      apply returns_iff. pose proof (write_byte_keeps s1 v Hr Hwf1) as Hret.
      apply returns_iff in Hret as (s2 & Hs2 & Hk2). exists s2. split; [done|].
      split; [by eapply screen_keeps_trans|].
      replace (Z.to_nat (i + 1)) with (S (Z.to_nat i)) by lia.
      rewrite (take_S_r _ _ v) by done. by rewrite write_all_snoc, Hw. }
  intros s1 [(Hwf1 & Hb1 & Hp1) Hw]. pose proof Hwf1 as [?? ? ??]. simpl.
  split; [by split; simpl; try done; lia|]. split; [done|]. split; [done|]. by exists s1.
Qed.

(** ** Claims *)

(** Whatever bytes are written, the cursor stays on the 80 by 25 screen, every
    access to video memory is inside it, and nothing panics: with a UART that
    accepts bytes, [write_str] returns a well-formed console. *)
Theorem write_str_stays_on_screen s bytes :
  uart_ready → wf s → returns (write_str uart_fuel s bytes) wf.
Proof.
  intros Hr Hwf. eapply returns_mono.
  { apply write_all_keeps; [|done]. intros s1 b Hwf1.
    destruct ((b =? 8) || (b =? 127)); [by apply backspace_keeps|by apply write_byte_keeps]. }
  by intros s' [? _].
Qed.

(** [scroll] moves every row up by one, blanks the last row with zero bytes
    and puts the cursor on it. *)
Theorem scroll_moves_rows s :
  length (vga s) = 4000%nat →
  returns (scroll s) (λ s',
    con s' = at_cursor (con s) (cursor_x (con s)) 24 ∧ ports s' = ports s ∧
    length (vga s') = 4000%nat ∧
    ∀ i, (i < 4000)%nat → vga s' !! i = if (i <? 3840)%nat then vga s !! (i + 160)%nat else Some 0).
Proof. apply scroll_ok. Qed.

(** C38: [write_dec], [write_octal] and [write_binary] print the numeral of every 64-bit
    number in base 10, 8 and 2: each writes, byte by byte with [write_byte], a list of
    ASCII digits that reads back to the number and has no leading zero, and the 20, 22
    and 64 bytes of their buffers are never overrun, on any screen. *)
Theorem numbers_print_exactly s n :
  in_u 64 n →
  (∃ l, numeral 10 n l ∧ (length l ≤ 20)%nat ∧ write_dec uart_fuel s n = write_all (write_byte uart_fuel) s l) ∧
  (∃ l, numeral 8 n l ∧ (length l ≤ 22)%nat ∧ write_octal uart_fuel s n = write_all (write_byte uart_fuel) s l) ∧
  (∃ l, numeral 2 n l ∧ (length l ≤ 64)%nat ∧ write_binary uart_fuel s n = write_all (write_byte uart_fuel) s l).
Proof.
  intros [H0 H64].
  assert (∀ m, 0 ≤ m → Z.shiftr m 3 = m / 8 ∧ Z.shiftr m 1 = m / 2) as Hsh
    by (intros m _; by rewrite !Z.shiftr_div_pow2).
  assert (∀ m, 0 ≤ m → Z.land m 7 = m mod 8 ∧ Z.land m 1 = m mod 2) as Hla.
  { intros m _. exact (conj (land_mod m 3 ltac:(lia)) (land_mod m 1 ltac:(lia))). }
  assert (returns (dec_bytes n) (λ l, numeral 10 n l ∧ (length l ≤ 20)%nat)) as (l1&E1&?&?)%returns_iff.
  { apply (number_bytes_ok 10); [lia|done|done|lia|]. split; [done|]. eapply Z.lt_trans; [exact H64|by vm_compute]. }
  assert (returns (octal_bytes n) (λ l, numeral 8 n l ∧ (length l ≤ 22)%nat)) as (l2&E2&?&?)%returns_iff.
  { apply (number_bytes_ok 8); [lia|apply Hla|apply Hsh|lia|]. split; [done|].
    eapply Z.lt_trans; [exact H64|by vm_compute]. }
  assert (returns (binary_bytes n) (λ l, numeral 2 n l ∧ (length l ≤ 64)%nat)) as (l3&E3&?&?)%returns_iff.
  { apply (number_bytes_ok 2); [lia|apply Hla|apply Hsh|lia|]. by split. }
  unfold write_dec, write_octal, write_binary. rewrite E1, E2, E3.
  split_and!; [exists l1|exists l2|exists l3]; by split_and!.
Qed.

(** The byte buffer is first in, first out: a byte is appended to the pending
    bytes, or, when 4096 are pending, these are written to the screen and the
    serial line in order and the byte becomes the only pending one. *)
Theorem buffer_write_fifo s c :
  uart_ready → wf s →
  returns (buffer_write uart_fuel s c) (λ s', wf s' ∧
    if buf_pos (con s) <? 4096
    then pending s' = pending s ++ [c] ∧ vga s' = vga s ∧ ports s' = ports s
    else pending s' = [c] ∧ length (pending s) = 4096%nat ∧
         ∃ s1, write_all (write_byte uart_fuel) s (pending s) = Ret s1 ∧
               vga s' = vga s1 ∧ ports s' = ports s1).
Proof.
  intros Hr Hwf. pose proof Hwf as [Hx Hy Hl Hb Hp]. unfold buffer_write. rewrite Hb.
  change (Z.of_nat 4096) with 4096. destruct (Z.ltb_spec (buf_pos (con s)) 4096).
  - unfold buffer_set. destruct (lookup_lt_is_Some_2 (buffer (con s)) (Z.to_nat (buf_pos (con s)))) as [v Hv]; [lia|].
    rewrite Hv. cbn [mbind outcome_bind]. step1. step1; [simpl; unfold in_u; lia|]. simpl. split.
    + split; simpl; rewrite ?length_insert; (done || lia).
    + split; [|done]. unfold pending. simpl.
      replace (Z.to_nat (buf_pos (con s) + 1)) with (S (Z.to_nat (buf_pos (con s)))) by lia.
      rewrite (take_S_r _ _ c) by (apply list_lookup_insert_eq; lia). by rewrite take_insert_ge by lia.
  - apply returns_bind. eapply returns_mono; [by apply flush_buffer_ok|].
    intros s1 (Hwf1 & _ & Hb1 & s2 & Hw & Hv2 & Hp2). pose proof Hwf1 as [?? ? Hlb ?].
    unfold buffer_set. destruct (lookup_lt_is_Some_2 (buffer (con s1)) (Z.to_nat 0)) as [v Hv]; [lia|].
    rewrite Hv. simpl. split; [split; simpl; rewrite ?length_insert; (done || lia)|].
    split; [|split; [unfold pending; rewrite length_take; lia|by exists s2]].
    unfold pending. simpl. destruct (buffer (con s1)); [done|]. change (c :: take 0 l = [c]). by rewrite take_0.
Qed.

End console_theorems.

(** ** Concrete instances *)

(** A port bus that records what is written and reads all ones. *)
#[export] Instance log_ports : PortIO (list (Z * Z)) :=
  {| inb d _ := (0xFF, d); outb d p v := d ++ [(p, v)] |}.

Definition blank : Screen (list (Z * Z)) := mkScreen new (replicate 4000 0) [].

Lemma blank_screen_wf : wf blank.
Proof. split; [done|done|by vm_compute|by vm_compute|done]. Qed.

Lemma log_ready : uart_ready (Dev := list (Z * Z)) 1.
Proof. intros d. exists 0%nat. split; [lia|done]. Qed.

Example dec_42 : dec_bytes 42 = Ret [52; 50].
Proof. by vm_compute. Qed.

Lemma write_str_stays_on_screen_witness :
  returns (write_str (prof := dev) 1 blank [72; 105; 10; 8]) wf.
Proof. exact (write_str_stays_on_screen (prof := dev) 1 blank [72; 105; 10; 8] log_ready blank_screen_wf). Defined.

Lemma scroll_moves_rows_witness :
  returns (scroll (prof := dev) blank) (λ s',
    con s' = at_cursor (con blank) (cursor_x (con blank)) 24 ∧ ports s' = ports blank ∧
    length (vga s') = 4000%nat ∧
    ∀ i, (i < 4000)%nat →
      vga s' !! i = if (i <? 3840)%nat then vga blank !! (i + 160)%nat else Some 0).
Proof. exact (scroll_moves_rows (prof := dev) blank (wf_vga blank blank_screen_wf)). Defined.

Lemma numbers_print_exactly_witness :
  ∃ l, numeral 8 1989 l ∧ write_octal (prof := dev) 1 blank 1989 = write_all (write_byte (prof := dev) 1) blank l.
Proof.
  destruct (numbers_print_exactly (prof := dev) 1 blank 1989 ltac:(by split)) as (_&(l&Hl&_&E)&_).
  exists l. exact (conj Hl E).
Defined.

Lemma buffer_write_fifo_witness :
  returns (buffer_write (prof := dev) 1 blank 65) (λ s', wf s' ∧
    if buf_pos (con blank) <? 4096
    then pending s' = pending blank ++ [65] ∧ vga s' = vga blank ∧ ports s' = ports blank
    else pending s' = [65] ∧ length (pending blank) = 4096%nat ∧
         ∃ s1, write_all (write_byte (prof := dev) 1) blank (pending blank) = Ret s1 ∧
               vga s' = vga s1 ∧ ports s' = ports s1).
Proof. exact (buffer_write_fifo (prof := dev) 1 blank 65 log_ready blank_screen_wf). Defined.
