(* ===== verification/ConsolePaper.v ===== *)
(** * The console as a window on a roll of paper (src/console.rs)

    An abstract terminal: a roll of paper of 80 columns and any number of rows,
    with a carriage and a window of 25 rows.  [write_str] on the real console, with
    its scrolling of video memory, shows what the same bytes put on the paper, and
    sends all but the rub-outs to the UART, in order and each after the transmitter
    has become ready for it. *)

From S2P Require Import Prelude Console ConsoleTheorems.
Open Scope Z_scope.

(** Character and attribute of every position, the carriage, and the first row of
    the window. *)
Record Paper := mkPaper { roll : Z → Z → Z * Z; row : Z; col : Z; top : Z }.

Definition print_at (p : Paper) (r x : Z) (v : Z * Z) : Paper :=
  mkPaper (λ r' x', if (r' =? r) && (x' =? x) then v else roll p r' x') (row p) (col p) (top p).
Definition carriage (p : Paper) (r x : Z) : Paper := mkPaper (roll p) r x (top p).

(** The next row; the window follows when the row is below it. *)
Definition feed (p : Paper) : Paper :=
  mkPaper (roll p) (row p + 1) 0 (Z.max (top p) (row p + 1 - 24)).

Definition type_char (attr : Z) (p : Paper) (c : Z) : Paper :=
  let p1 := print_at p (row p) (col p) (c, attr) in
  if col p + 1 <? 80 then carriage p1 (row p) (col p + 1) else feed p1.

(** Back over one position, at most to the start of the window. *)
Definition rub_out (attr : Z) (p : Paper) : Paper :=
  if 0 <? col p then print_at (carriage p (row p) (col p - 1)) (row p) (col p - 1) (32, attr)
  else if top p <? row p then print_at (carriage p (row p - 1) 79) (row p - 1) 79 (32, attr)
  else p.

Definition is_rubout (b : Z) : bool := (b =? 0x08) || (b =? 0x7F).
Definition paper_byte (attr : Z) (p : Paper) (b : Z) : Paper :=
  if is_rubout b then rub_out attr p else if b =? 10 then feed p else type_char attr p b.

Section paper.
Context {prof : Profile} {Dev : Type} `{!PortIO Dev} (uart_fuel : nat).
Implicit Types (s : Screen Dev) (p : Paper).

(** What the UART has seen: nothing of a rub-out, and every other byte after as many
    polls as the transmitter needed. *)
Definition uart_byte (d : Dev) (b : Z) (d' : Dev) : Prop :=
  if is_rubout b then d' = d else transmits d b d'.
Fixpoint uart_bytes (d : Dev) (bytes : list Z) (d' : Dev) : Prop :=
  match bytes with
  | [] => d' = d
  | b :: bytes => ∃ d1, uart_byte d b d1 ∧ uart_bytes d1 bytes d'
  end.

(** Video memory holds the 25 rows of the window; the paper below is blank. *)
Record displays (v : list Z) p : Prop := {
  dp_length : length v = 4000%nat;
  dp_char : ∀ x y, 0 ≤ x < 80 → 0 ≤ y < 25 →
    v !! Z.to_nat ((y * 80 + x) * 2) = Some (roll p (top p + y) x).1;
  dp_attr : ∀ x y, 0 ≤ x < 80 → 0 ≤ y < 25 →
    v !! Z.to_nat ((y * 80 + x) * 2 + 1) = Some (roll p (top p + y) x).2;
  dp_blank : ∀ r x, top p + 25 ≤ r → roll p r x = (0, 0)
}.

Record shows s p : Prop := {
  sh_vga : displays (vga s) p;
  sh_x : cursor_x (con s) = col p;
  sh_y : cursor_y (con s) = row p - top p;
  sh_col : 0 ≤ col p < 80;
  sh_row : 0 ≤ row p - top p < 25
}.

(** ** Video memory *)

Lemma displays_put v p x y c attr :
  displays v p → 0 ≤ x < 80 → 0 ≤ y < 25 →
  displays (<[Z.to_nat ((y * 80 + x) * 2 + 1) := attr]> (<[Z.to_nat ((y * 80 + x) * 2) := c]> v))
           (print_at p (top p + y) x (c, attr)).
Proof.
  intros [Hl Hc Ha Hb] Hx Hy.
  assert (∀ x' y', (top p + y' =? top p + y) && (x' =? x) = bool_decide (y' = y ∧ x' = x)) as Heq.
  { intros x' y'. destruct (Z.eqb_spec (top p + y') (top p + y)), (Z.eqb_spec x' x);
      simpl; symmetry; first [apply bool_decide_eq_true; lia|apply bool_decide_eq_false; lia]. }
  split; simpl.
  - by rewrite !length_insert.
  - intros x' y' Hx' Hy'. rewrite Heq, list_lookup_insert_ne by lia. case_bool_decide as E.
    + destruct E as [-> ->]. apply list_lookup_insert_eq. lia.
    + rewrite list_lookup_insert_ne by lia. by apply Hc.
  - intros x' y' Hx' Hy'. rewrite Heq. case_bool_decide as E.
    + destruct E as [-> ->]. apply list_lookup_insert_eq. rewrite length_insert. lia.
    + rewrite !list_lookup_insert_ne by lia. by apply Ha.
  - intros r x' Hr. rewrite (proj2 (Z.eqb_neq r _)) by lia. by apply Hb.
Qed.

Lemma shows_put s p x y c attr :
  displays (vga s) p → 0 ≤ x < 80 → 0 ≤ y < 25 →
  returns (put_cell s x y c attr) (λ s',
    con s' = con s ∧ ports s' = ports s ∧ displays (vga s') (print_at p (top p + y) x (c, attr))).
Proof.
  intros Hd Hx Hy. rewrite put_cell_ok by (done || by eapply dp_length). simpl.
  split; [done|]. split; [done|]. by apply displays_put.
Qed.

(** Scrolling moves the window down by one row. *)
Lemma shows_scroll s p :
  displays (vga s) p →
  returns (scroll s) (λ s',
    con s' = at_cursor (con s) (cursor_x (con s)) 24 ∧ ports s' = ports s ∧
    displays (vga s') (mkPaper (roll p) (row p) (col p) (top p + 1))).
Proof.
  intros [Hl Hc Ha Hb]. eapply returns_mono; [by apply scroll_ok|].
  intros s' (Hcon & Hp & Hl' & Hbyte). split; [done|]. split; [done|]. unfold byte in Hbyte.
  split; simpl.
  - done.
  - intros x y Hx Hy. rewrite Hbyte by lia. destruct (Nat.ltb_spec (Z.to_nat ((y * 80 + x) * 2)) 3840).
    + replace (top p + 1 + y) with (top p + (y + 1)) by lia. rewrite <-Hc by lia. f_equal. lia.
    + by rewrite Hb by lia.
  - intros x y Hx Hy. rewrite Hbyte by lia. destruct (Nat.ltb_spec (Z.to_nat ((y * 80 + x) * 2 + 1)) 3840).
    + replace (top p + 1 + y) with (top p + (y + 1)) by lia. rewrite <-Ha by lia. f_equal. lia.
    + by rewrite Hb by lia.
  - intros r x Hr. apply Hb. lia.
Qed.

(** ** The operations *)

(** [newline], also from the column behind the last one. *)
Lemma newline_feeds s p :
  displays (vga s) p → cursor_y (con s) = row p - top p → 0 ≤ row p - top p < 25 →
  returns (newline s) (λ s', shows s' (feed p) ∧ ports s' = ports s ∧ color (con s') = color (con s)).
Proof.
  intros Hd Hy Hr. unfold newline. rewrite Hy. step1. step1; [unfold in_u; lia|].
  unfold VGA_HEIGHT. destruct (Z.leb_spec 25 (row p - top p + 1)) as [Hs|Hs].
  - eapply returns_mono; [by apply (shows_scroll _ p)|]. intros s' (Hcon & Hp & Hd').
    rewrite Hcon. split; [|done]. unfold feed. replace (Z.max (top p) (row p + 1 - 24)) with (top p + 1) by lia.
    split; rewrite ?Hcon; simpl; [|done|lia|lia|lia]. by destruct Hd'.
  - simpl. split; [|done]. unfold feed. replace (Z.max (top p) (row p + 1 - 24)) with (top p) by lia.
    split; simpl; [by destruct Hd|done|lia..].
Qed.

Lemma put_char_types s p c :
  shows s p →
  returns (put_char s c) (λ s',
    shows s' (type_char (color (con s)) p c) ∧ ports s' = ports s ∧ color (con s') = color (con s)).
Proof.
  intros [Hd Hx Hy Hc Hr]. unfold put_char, write_char_with_attr. rewrite Hx, Hy. apply returns_bind.
  eapply returns_mono; [by apply shows_put|]. intros s1 (Hcon & Hp & Hd1). rewrite Hcon, Hx, Hy.
  replace (top p + (row p - top p)) with (row p) in Hd1 by lia.
  step1. step1; [unfold in_u; lia|]. unfold type_char, VGA_WIDTH.
  destruct (Z.leb_spec 80 (col p + 1)), (Z.ltb_spec (col p + 1) 80); try lia.
  - eapply returns_mono; [by apply newline_feeds|]. intros s' (Hs & Hp' & Hcol). split; [done|].
    split; [by rewrite Hp'|]. by rewrite Hcol.
  - simpl. split; [|done]. split; simpl; [by destruct Hd1|done|done|lia..].
Qed.

Lemma backspace_rubs s p :
  shows s p →
  returns (backspace s) (λ s',
    shows s' (rub_out (color (con s)) p) ∧ ports s' = ports s ∧ color (con s') = color (con s)).
Proof.
  intros [Hd Hx Hy Hc Hr]. unfold backspace, rub_out. rewrite Hx, Hy.
  destruct (Z.ltb_spec 0 (col p)) as [H0|H0].
  { step1. step1; [unfold in_u; lia|]. cbn [con with_con at_cursor cursor_x cursor_y color].
    eapply returns_mono; [apply (shows_put _ p); [exact Hd|lia..]|].
    intros s1 (Hcon & Hp & Hd1). replace (top p + (row p - top p)) with (row p) in Hd1 by lia.
    rewrite Hcon. split; [|done]. split; rewrite ?Hcon; simpl; [by destruct Hd1|done|lia..]. }
  destruct (Z.ltb_spec 0 (row p - top p)), (Z.ltb_spec (top p) (row p)); try lia; [|done].
  step1. step1; [unfold in_u; lia|]. cbn [con with_con at_cursor cursor_x cursor_y color].
  eapply returns_mono; [apply (shows_put _ p); [exact Hd|unfold VGA_WIDTH; lia|lia]|].
  intros s1 (Hcon & Hp & Hd1). replace (top p + (row p - top p - 1)) with (row p - 1) in Hd1 by lia.
  rewrite Hcon. split; [|done]. split; rewrite ?Hcon; simpl; [by destruct Hd1|done|lia..].
Qed.

Lemma write_one s p b :
  uart_ready (Dev := Dev) uart_fuel → shows s p →
  returns (if is_rubout b then backspace s else write_byte uart_fuel s b) (λ s',
    shows s' (paper_byte (color (con s)) p b) ∧ uart_byte (ports s) b (ports s') ∧
    color (con s') = color (con s)).
Proof.
  intros Hu Hs. unfold paper_byte, uart_byte. destruct (is_rubout b); [by apply backspace_rubs|].
  unfold write_byte. apply returns_bind. eapply returns_mono; [by apply uart_putc_transmits|].
  intros s1 (d&->&Hd). assert (shows (with_ports s d) p) as Hs1 by (by destruct Hs).
  destruct (b =? 10).
  - eapply returns_mono; [by apply (newline_feeds _ p); apply Hs1|]. by intros s' (?&->&?).
  - eapply returns_mono; [by apply (put_char_types _ p b)|]. by intros s' (?&->&?).
Qed.

(** [print] never panics by itself: it writes the pieces one after the other, so
    what holds of [write_str] holds of [print!] and [println!]. *)
Lemma write_all_app (f : Screen Dev → Z → outcome (Screen Dev)) s l l' :
  write_all f s (l ++ l') = (s1 ← write_all f s l; write_all f s1 l').
Proof.
  revert s. induction l as [|b l IH]; intros s; [done|]. simpl.
  destruct (f s b) as [s1| | |]; simpl; [apply IH|done..].
Qed.

Lemma print_write_str s pieces : print uart_fuel s pieces = write_str uart_fuel s (concat pieces).
Proof.
  unfold print. revert s. induction pieces as [|b pieces IH]; intros s; [done|].
  change (concat (b :: pieces)) with (b ++ concat pieces).
  assert (write_str uart_fuel s (b ++ concat pieces) =
    (s1 ← write_str uart_fuel s b; write_str uart_fuel s1 (concat pieces))) as -> by apply write_all_app.
  cbn [write_fmt]. unfold fmt_write_str.
  destruct (write_str uart_fuel s b) as [s1| | |]; simpl; [apply IH|done..].
Qed.

(** C28: [write_str] refines the paper roll, when the UART is done with a byte within
    [uart_fuel] polls from whatever state (with a transmitter that never is,
    [uart_putc] waits forever, [uart_putc_hangs]).  On a screen that shows the window
    of a roll, any byte string leaves the screen showing the window of the roll on
    which the same bytes were typed, rubbed out and fed row by row.  Every byte except
    the rub-outs 8 and 127 is written to the UART, in order, each right after the first
    reading of the line status that says the transmitter takes a byte.  The color is
    unchanged. *)
Theorem write_str_refines_paper s p bytes :
  uart_ready (Dev := Dev) uart_fuel → shows s p →
  returns (write_str uart_fuel s bytes) (λ s',
    shows s' (foldl (paper_byte (color (con s))) p bytes) ∧
    uart_bytes (ports s) bytes (ports s') ∧ color (con s') = color (con s)).
Proof.
  intros Hu. unfold write_str. revert s p. induction bytes as [|b bytes IH]; intros s p Hs; cbn [write_all]; [done|].
  apply returns_bind. eapply returns_mono; [by apply (write_one s p b)|]. intros s1 (Hs1 & Hp1 & Hc1).
  eapply returns_mono; [by apply IH|]. intros s2 (Hs2 & Hp2 & Hc2). simpl.
  rewrite Hc1 in Hs2, Hc2. split; [done|]. split; [by exists (ports s1)|done].
Qed.

End paper.

(** ** A blank screen *)

Definition blank_paper : Paper := mkPaper (λ _ _, (0, 0)) 0 0 0.

(** A UART that is busy for two polls after every byte and records the bytes. *)
Inductive Line := Idle | Busy (n : bool).
Definition slow_uart : PortIO (Line * list Z) := {|
  inb '(l, sent) _ :=
    match l with
    | Idle => (0x60, (Idle, sent))
    | Busy true => (0x00, (Busy false, sent))
    | Busy false => (0x00, (Idle, sent))
    end;
  outb '(_, sent) _ v := (Busy true, sent ++ [v])
|}.
Definition blank_screen : Screen (Line * list Z) := mkScreen new (replicate 4000 0) (Idle, []).

Lemma slow_uart_ready : uart_ready (PortIO0 := slow_uart) 3.
Proof. intros [[|[]] sent]; [exists 0%nat|exists 2%nat|exists 1%nat]; (split; [lia|done]). Qed.

Lemma blank_shows : shows blank_screen blank_paper.
Proof.
  split; [|done..]. split; [by vm_compute| | |done].
  all: intros x y Hx Hy; apply lookup_replicate_2; lia.
Qed.

(** Thirty lines: the window shows rows 6 to 30, the carriage is on row 30. *)
Definition thirty_lines : list Z := concat ((λ i, [65 + i; 10]) <$> seqZ 0 30).

Lemma write_str_refines_paper_witness :
  let p := foldl (paper_byte 7) blank_paper thirty_lines in
  (top p, row p, col p) = (6, 30, 0) ∧ (roll p 6 0, roll p 29 0) = ((71, 7), (94, 7)) ∧
  returns (write_str (prof := dev) (PortIO0 := slow_uart) 3 blank_screen thirty_lines) (λ s',
    vga s' !! 0%nat = Some 71 ∧ cursor_y (con s') = 24).
Proof.
  split; [by vm_compute|]. split; [by vm_compute|].
  eapply returns_mono.
  { apply (write_str_refines_paper (prof := dev) (PortIO0 := slow_uart) 3 blank_screen blank_paper thirty_lines);
      [exact slow_uart_ready|exact blank_shows]. }
  intros s' ([Hd _ Hy _ _] & _). split; [|by rewrite Hy; vm_compute].
  etrans; [exact (dp_char _ _ Hd 0 0 ltac:(lia) ltac:(lia))|by vm_compute].
Defined.

Example slow_uart_gets_all :
  match write_str (prof := dev) (PortIO0 := slow_uart) 3 blank_screen [72; 105; 8; 10] with
  | Ret s => ports s
  | _ => (Idle, [])
  end = (Busy true, [72; 105; 10]).
Proof. by vm_compute. Qed.
