(* ===== verification/Spinlock.v ===== *)
(** * Spinlocks (src/sync/spinlock.rs)

    The atomic operations on the lock word as functions, a step relation for any
    number of threads that interleave them, the operations that bypass the guards,
    [RawSpinlock] with its test-and-test-and-set loop, [IrqSafeSpinlock] with the
    interrupt flag, and the waiting helpers.  Atomic operations are sequentially
    consistent, so a fence changes no state and is modelled by its result only; the
    [spin_loop] and [pause] hints are in Instructions.  The theorems are in
    SpinlockTheorems. *)

From S2P Require Import Prelude.
Open Scope Z_scope.

Definition MAX_SPIN : Z := 64.

(** Finite sequences of steps. *)
Inductive run {S : Type} (R : S → S → Prop) (s0 : S) : S → Prop :=
| run_refl : run R s0 s0
| run_step s s' : run R s0 s → R s s' → run R s0 s'.

Definition set_thread {P : Type} (f : nat → P) (i : nat) (p : P) : nat → P :=
  λ j, if decide (j = i) then p else f j.

Record Spinlock (T : Type) := mkSpinlock {
  locked : bool;
  data : T;
  owner_cpu : Z;
  recursion_count : Z
}.
Arguments mkSpinlock {T}.
Arguments locked {T}.
Arguments data {T}.
Arguments owner_cpu {T}.
Arguments recursion_count {T}.

Section spinlock.
Context {T : Type}.
Implicit Types (l : Spinlock T).

(** [owner_cpu] starts as [!0]. *)
Definition new (d : T) : Spinlock T := mkSpinlock false d (2 ^ 64 - 1) 0.

Definition with_locked l (b : bool) : Spinlock T :=
  mkSpinlock b (data l) (owner_cpu l) (recursion_count l).

(** [locked.compare_exchange(false, true)]; [true] when it succeeds.  The weak
    exchange may also fail spuriously. *)
Definition compare_exchange l : bool * Spinlock T :=
  if locked l then (false, l) else (true, with_locked l true).
Definition compare_exchange_weak (spurious : bool) l : bool * Spinlock T :=
  if spurious then (false, l) else compare_exchange l.

Definition try_lock l : bool * Spinlock T := compare_exchange l.
Definition try_lock_or_yield l : (unit + unit) * Spinlock T :=
  let '(ok, l') := try_lock l in (if ok then inr () else inl (), l').
Definition raw_unlock l : Spinlock T := with_locked l false.
Definition force_unlock l : Spinlock T := with_locked l false.
Definition is_locked l : bool := locked l.
(** [WeakSpinlockGuard::new]: a guard on a lock somebody holds. *)
Definition weak_guard_new l : bool := locked l.

(** The data behind a lock: [into_inner], [get_mut], and the accesses through
    [SpinlockGuard] and [WeakSpinlockGuard]. *)
Definition into_inner l : T := data l.
Definition with_data l (d : T) : Spinlock T :=
  mkSpinlock (locked l) d (owner_cpu l) (recursion_count l).
Definition get_mut l (d : T) : Spinlock T := with_data l d.
Definition deref l : T := data l.
Definition deref_mut l (d : T) : Spinlock T := with_data l d.
Definition try_lock_for_debug l : bool * Spinlock T := try_lock l.

(** What a thread is doing with the lock: not using it, in the loop of [lock]
    with its [spin_count], halted in the loop with interrupts disabled, holding a
    [SpinlockGuard], or holding a [WeakSpinlockGuard]. *)
Inductive phase := Out | Spin (n : Z) | Halted | Hold | Weak.
#[global] Instance phase_eq_dec : EqDecision phase.
Proof. solve_decision. Defined.

(** The failing branch of [lock]: below [MAX_SPIN] failures spin, otherwise reset
    the count, disable interrupts and execute [hlt]. *)
Definition lock_retry (n : Z) : phase := if n + 1 <? MAX_SPIN then Spin (n + 1) else Halted.

(** One iteration of the loop of [lock]. *)
Definition lock_iteration (spurious : bool) (n : Z) l : phase * Spinlock T :=
  let '(ok, l') := compare_exchange_weak spurious l in
  (if ok then Hold else lock_retry n, l').

Record system := mkSystem { lk : Spinlock T; thread : nat → phase }.

(** The steps of thread [i], which uses the lock through its guards and the data
    through its guard.  [wakes] says whether a [hlt] executed with interrupts
    disabled ever returns. *)
Inductive act (wakes : bool) (i : nat) : system → system → Prop :=
| act_call l f :
    f i = Out → act wakes i (mkSystem l f) (mkSystem l (set_thread f i (Spin 0)))
| act_try l f ok l' :
    f i = Out → try_lock l = (ok, l') →
    act wakes i (mkSystem l f) (mkSystem l' (set_thread f i (if ok then Hold else Out)))
| act_iterate l f n spurious p l' :
    f i = Spin n → lock_iteration spurious n l = (p, l') →
    act wakes i (mkSystem l f) (mkSystem l' (set_thread f i p))
| act_wake l f :
    f i = Halted → wakes = true → act wakes i (mkSystem l f) (mkSystem l (set_thread f i (Spin 0)))
| act_write l f d :
    f i = Hold → act wakes i (mkSystem l f) (mkSystem (deref_mut l d) f)
| act_drop l f :
    f i = Hold → act wakes i (mkSystem l f) (mkSystem (raw_unlock l) (set_thread f i Out)).

Definition step (wakes : bool) (s s' : system) : Prop := ∃ i, act wakes i s s'.

(** The operations that bypass the guard: [force_unlock], and the life of a
    [WeakSpinlockGuard]. *)
Inductive forced : system → system → Prop :=
| forced_unlock l f : forced (mkSystem l f) (mkSystem (force_unlock l) f).

Inductive weak_step : system → system → Prop :=
| weak_new l f i :
    f i = Out → weak_guard_new l = true →
    weak_step (mkSystem l f) (mkSystem l (set_thread f i Weak))
| weak_drop l f i :
    f i = Weak → weak_step (mkSystem l f) (mkSystem (raw_unlock l) (set_thread f i Out)).

Definition initial (d : T) : system := mkSystem (new d) (λ _, Out).

(** ** The loop of [lock] on one processor *)

(** The whole call, with [busy k] saying that attempt number [k] fails (the lock is
    taken, or the exchange fails spuriously) and [irq] the interrupt flag.  The
    result is the number of the attempt that succeeds and the interrupt flag then:
    the branch that halts ends with [interrupts::enable()]. *)
Fixpoint lock (wakes : bool) (fuel : nat) (busy : nat → bool) (k : nat) (spin_count : Z)
    (irq : bool) : outcome (nat * bool) :=
  match fuel with
  | O => Diverge
  | S fuel' =>
      if busy k then
        if spin_count + 1 <? MAX_SPIN
        then lock wakes fuel' busy (S k) (spin_count + 1) irq
        else if wakes then lock wakes fuel' busy (S k) 0 true else Diverge
      else Ret (k, irq)
  end.

(** [debug_lock] takes the next number of [LOCK_COUNTER] in a build with debug
    assertions; otherwise it is [lock]. *)
Definition debug_lock (debug_assertions wakes : bool) (fuel : nat) (busy : nat → bool)
    (counter : Z) (irq : bool) : outcome (Z * (nat * bool)) :=
  r ← lock wakes fuel busy 0 0 irq;
  Ret (if debug_assertions then wrap 64 (counter + 1) else counter, r).

(** [AdaptiveSpinlock] only wraps [Spinlock]. *)
Definition adaptive_new (d : T) : Spinlock T := new d.
Definition adaptive_lock (wakes : bool) (fuel : nat) (busy : nat → bool) (irq : bool) :
    outcome (nat * bool) := lock wakes fuel busy 0 0 irq.

(** [Default::default], with the default of [T]. *)
Definition spinlock_default (d : T) : Spinlock T := new d.

(** [IrqSafeSpinlock::lock]: [interrupts::disable()], then the inner lock. *)
Definition irq_new (d : T) : Spinlock T := new d.
Definition irq_lock (wakes : bool) (fuel : nat) (busy : nat → bool) (irq : bool) :
    outcome (nat * bool) := lock wakes fuel busy 0 0 false.

(** The drop of an [IrqSafeSpinlockGuard]: release, then [interrupts::enable()]. *)
Definition irq_drop l (irq : bool) : Spinlock T * bool := (raw_unlock l, true).
Definition irq_deref l : T := deref l.
Definition irq_deref_mut l (d : T) : Spinlock T := deref_mut l d.

(** The access a [WeakSpinlockGuard] gives to the data. *)
Definition weak_deref l : T := data l.
Definition weak_deref_mut l (d : T) : Spinlock T := with_data l d.

End spinlock.

(** ** RawSpinlock *)

Module Raw.

Record RawSpinlock := mkRaw { raw_locked : bool }.
Definition raw_new : RawSpinlock := mkRaw false.
Definition release (l : RawSpinlock) : RawSpinlock := mkRaw false.
Definition raw_is_locked (l : RawSpinlock) : bool := raw_locked l.

(** [acquire] is two nested loops: at [Try] the thread executes the exchange, at
    [Test] it reads the word until it is clear. *)
Inductive rphase := ROut | RTry | RTest | RHold.

Definition acquire_try (spurious : bool) (l : RawSpinlock) : rphase * RawSpinlock :=
  if spurious || raw_locked l then (RTest, l) else (RHold, mkRaw true).
Definition acquire_test (l : RawSpinlock) : rphase := if raw_locked l then RTest else RTry.

Record rsystem := mkRsystem { rlk : RawSpinlock; rthread : nat → rphase }.

Inductive ract (i : nat) : rsystem → rsystem → Prop :=
| ract_call l f : f i = ROut → ract i (mkRsystem l f) (mkRsystem l (set_thread f i RTry))
| ract_try l f spurious p l' :
    f i = RTry → acquire_try spurious l = (p, l') →
    ract i (mkRsystem l f) (mkRsystem l' (set_thread f i p))
| ract_test l f : f i = RTest → ract i (mkRsystem l f) (mkRsystem l (set_thread f i (acquire_test l)))
| ract_release l f :
    f i = RHold → ract i (mkRsystem l f) (mkRsystem (release l) (set_thread f i ROut)).

Definition rstep (s s' : rsystem) : Prop := ∃ i, ract i s s'.
Definition rinitial : rsystem := mkRsystem raw_new (λ _, ROut).

(** One thread alone: the loop of [acquire] from its phase. *)
Fixpoint acquire (fuel : nat) (held : nat → bool) (k : nat) (testing : bool) : outcome nat :=
  match fuel with
  | O => Diverge
  | S fuel' =>
      if testing then acquire fuel' held (S k) (held k)
      else if held k then acquire fuel' held (S k) true else Ret k
  end.

End Raw.

(** ** Wrappers of the atomic types

    An atomic cell is its value; the exchange gives the old value as [Ok] or [Err]
    and the new contents. *)
Section atomics.
Context {A : Type} `{EqDecision A}.
Definition atomic_compare_exchange (cell current new : A) : (A + A) * A :=
  if decide (cell = current) then (inr cell, new) else (inl cell, cell).
Definition atomic_swap (cell val : A) : A * A := (cell, val).
End atomics.

Definition atomic_bool_load_acquire (cell : bool) : bool := cell.
Definition atomic_bool_store_release (cell val : bool) : bool := val.
Definition compare_and_swap_acquire_release (cell current new : bool) : (bool + bool) * bool :=
  atomic_compare_exchange cell current new.
Definition atomic_usize_load_acquire (cell : Z) : Z := cell.
Definition atomic_usize_store_release (cell val : Z) : Z := val.
Definition compare_and_swap_usize_acquire_release (cell current new : Z) : (Z + Z) * Z :=
  atomic_compare_exchange cell current new.
Definition atomic_bool_swap_acquire_release (cell val : bool) : bool * bool := atomic_swap cell val.
Definition atomic_usize_swap_acquire_release (cell val : Z) : Z * Z := atomic_swap cell val.

(** The standard library's memory orderings and its [fence], which panics on
    [Relaxed]. *)
Inductive Ordering : Type :=
| Relaxed
| Release
| Acquire
| AcqRel
| SeqCst.
Definition fence (order : Ordering) : outcome () :=
  match order with
  | Relaxed => Panic
  | Release | Acquire | AcqRel | SeqCst => Ret ()
  end.
Definition release_fence : outcome () := fence Release.
Definition acquire_fence : outcome () := fence Acquire.
Definition acquire_release_fence : outcome () := fence AcqRel.
Definition relaxed_fence : outcome () := fence Relaxed.
Definition seq_cst_fence : outcome () := fence SeqCst.

(** ** Waiting helpers *)

(** [wait_until], [spin_on] and [acquire_with_hint]: the loops call the condition
    until it holds; the result is the number of calls that did not. *)
Fixpoint wait_until (fuel : nat) (cond : nat → bool) (k : nat) : outcome nat :=
  match fuel with
  | O => Diverge
  | S fuel' => if negb (cond k) then wait_until fuel' cond (S k) else Ret k
  end.
Fixpoint spin_on (fuel : nat) (cond : nat → bool) (k : nat) : outcome nat :=
  match fuel with
  | O => Diverge
  | S fuel' => if cond k then Ret k else spin_on fuel' cond (S k)
  end.
Fixpoint acquire_with_hint (fuel : nat) (f : nat → bool) (k : nat) : outcome (bool * nat) :=
  match fuel with
  | O => Diverge
  | S fuel' => if f k then Ret (true, k) else acquire_with_hint fuel' f (S k)
  end.
Definition try_acquire (f : bool) : bool := f.

(** [wait_until_timeout], with [cond k] the result of call number [k]. *)
Fixpoint wait_until_timeout (fuel : nat) (cond : nat → bool) (k : nat) (count timeout : Z) : outcome bool :=
  match fuel with
  | O => Diverge
  | S fuel' =>
      if cond k then Ret true
      else if timeout <=? count then Ret false
      else wait_until_timeout fuel' cond (S k) (count + 1) timeout
  end.

(** [exponential_backoff]: the delay after each failure, and the loop, which gives
    the number of failures and the total number of [spin_loop] hints. *)
Definition next_delay (delay : Z) : Z :=
  let d := delay * 2 in if 1024 <? d then 1024 else d.
Fixpoint exponential_backoff (fuel : nat) (f : nat → bool) (k : nat) (delay spins : Z) :
    outcome (nat * Z) :=
  match fuel with
  | O => Diverge
  | S fuel' =>
      if f k then Ret (k, spins)
      else exponential_backoff fuel' f (S k) (next_delay delay) (spins + delay)
  end.

(** [acquire_with_backoff]: the loop with its counter; the result counts the
    failures and the [hlt] instructions. *)
Fixpoint acquire_with_backoff (fuel : nat) (f : nat → bool) (k : nat) (count : Z) (hlts : nat) :
    outcome (nat * nat) :=
  match fuel with
  | O => Diverge
  | S fuel' =>
      if f k then Ret (k, hlts)
      else if 100 <? count then acquire_with_backoff fuel' f (S k) 0 (S hlts)
      else acquire_with_backoff fuel' f (S k) (count + 1) hlts
  end.
