(* ===== verification/SpinlockTheorems.v ===== *)
(** * Spinlocks: theorems

    Mutual exclusion of both lock types, as instances of one invariant on a lock
    word and the phases of its users; the interrupt flag around [lock]; and the
    exact behaviour of the waiting helpers. *)

From S2P Require Import Prelude Spinlock.
Open Scope Z_scope.

Lemma set_thread_eq {P} (f : nat → P) i p : set_thread f i p i = p.
Proof. unfold set_thread. by rewrite decide_True. Qed.
Lemma set_thread_ne {P} (f : nat → P) i j p : j ≠ i → set_thread f i p j = f j.
Proof. intros. unfold set_thread. by rewrite decide_False. Qed.

(** ** One invariant for both lock types

    [P] is the type of phases and [holds] the phases that hold the lock: the lock
    word is set exactly while some user holds the lock, and only one does. *)
Section exclusion.
Context {P : Type} (holds : P → Prop).
Implicit Types (w : bool) (f : nat → P) (p : P).

Definition excl w f : Prop :=
  (w = true ↔ ∃ i, holds (f i)) ∧ ∀ i j, holds (f i) → holds (f j) → i = j.

Ltac threads := unfold set_thread in *; repeat case_decide; subst; try done.

Lemma excl_free w f : excl w f → w = false → ∀ i, ¬ holds (f i).
Proof. intros [Hw _] -> i Hi. assert (false = true) by (apply Hw; by exists i). done. Qed.

Lemma excl_move w f i p : excl w f → ¬ holds (f i) → ¬ holds p → excl w (set_thread f i p).
Proof.
  intros [Hw Hu] Hi Hp. split.
  - rewrite Hw. split; intros [j Hj]; exists j; threads.
  - intros j k Hj Hk. threads. by apply Hu.
Qed.

Lemma excl_take w f i p : excl w f → w = false → holds p → excl true (set_thread f i p).
Proof.
  intros He Hw Hp. pose proof (excl_free _ _ He Hw) as Hn. split.
  - split; [|done]. intros _. exists i. by rewrite set_thread_eq.
  - intros j k Hj Hk. threads; by exfalso; eapply Hn.
Qed.

Lemma excl_drop w f i p : excl w f → holds (f i) → ¬ holds p → excl false (set_thread f i p).
Proof.
  intros [Hw Hu] Hi Hp. split.
  - split; [done|]. intros [j Hj]. threads. specialize (Hu j i Hj Hi). done.
  - intros j k Hj Hk. threads. by apply Hu.
Qed.
End exclusion.

(** ** Spinlock *)
Section spinlock.
Context {T : Type}.
Implicit Types (l : Spinlock T) (s : @system T).

(** Moreover no thread holds a weak guard and no thread has failed more than
    [MAX_SPIN] times in a row. *)
Definition exclusive s : Prop :=
  excl (.= Hold) (locked (lk s)) (thread s) ∧
  (∀ i n, thread s i = Spin n → 0 ≤ n < MAX_SPIN) ∧ ∀ i, thread s i ≠ Weak.

(** The phases a thread may enter. *)
Definition phase_ok (p : phase) : Prop := (∀ n, p = Spin n → 0 ≤ n < MAX_SPIN) ∧ p ≠ Weak.

Lemma phases_set f i p :
  (∀ j, phase_ok (f j)) → phase_ok p → ∀ j, phase_ok (set_thread f i p j).
Proof. intros Hf Hp j. unfold set_thread. by case_decide. Qed.

Lemma exclusive_iff l f :
  exclusive (mkSystem l f) ↔ excl (.= Hold) (locked l) f ∧ ∀ i, phase_ok (f i).
Proof. unfold exclusive, phase_ok. simpl. naive_solver. Qed.

Lemma lock_retry_ok n : 0 ≤ n < MAX_SPIN → lock_retry n ≠ Hold ∧ phase_ok (lock_retry n).
Proof.
  intros Hn. unfold lock_retry, phase_ok.
  destruct (Z.ltb_spec (n + 1) MAX_SPIN); split_and!; try done. intros m [= <-]. lia.
Qed.

Lemma spin_zero_ok : phase_ok (Spin 0).
Proof. split; [|done]. intros n [= <-]. unfold MAX_SPIN. lia. Qed.

Lemma exclusive_act wakes i s s' : exclusive s → act wakes i s s' → exclusive s'.
Proof.
  intros He Hs.
  destruct Hs as [l f Hi|l f ok l' Hi Ht|l f n sp p l' Hi Hit|l f Hi _|l f d Hi|l f Hi];
    apply exclusive_iff in He as [He Hp]; apply exclusive_iff.
  - split; [apply excl_move; congruence|]. by apply phases_set, spin_zero_ok.
  - unfold try_lock, compare_exchange in Ht. destruct (locked l) eqn:E; simplify_eq.
    + split; [rewrite E; apply excl_move; congruence|]. by apply phases_set.
    + split; [by eapply excl_take|]. by apply phases_set.
  - destruct (lock_retry_ok n) as [? ?]; [by apply (Hp i)|].
    unfold lock_iteration, compare_exchange_weak, compare_exchange in Hit.
    destruct sp; [|destruct (locked l) eqn:E]; simplify_eq.
    + split; [apply excl_move; congruence|]. by apply phases_set.
    + split; [rewrite E; apply excl_move; congruence|]. by apply phases_set.
    + split; [by eapply excl_take|]. by apply phases_set.
  - split; [apply excl_move; congruence|]. by apply phases_set, spin_zero_ok.
  - by split.
  - split; [by eapply excl_drop|]. by apply phases_set.
Qed.

Lemma exclusive_run wakes s s' : exclusive s → run (step wakes) s s' → exclusive s'.
Proof. intros He Hr. induction Hr as [|a b _ IH [i Hi]]; [done|by eapply exclusive_act]. Qed.

Lemma exclusive_initial (d : T) : exclusive (initial d).
Proof.
  split_and!; simpl; try done. split; simpl; [|done]. split; [done|by intros [? ?]].
Qed.

(** A step of another thread leaves a guard and the data behind it alone. *)
Lemma others_leave_data wakes i j s s' :
  exclusive s → thread s i = Hold → j ≠ i → act wakes j s s' →
  thread s' i = Hold ∧ data (lk s') = data (lk s).
Proof.
  intros [[_ Hu] _] Hi Hj Hs.
  destruct Hs as [l f Hp|l f ok l' Hp Ht|l f n sp p l' Hp Hit|l f Hp _|l f d Hp|l f Hp];
    simpl in *; rewrite ?set_thread_ne by done.
  - done.
  - unfold try_lock, compare_exchange in Ht. destruct (locked l); by simplify_eq.
  - unfold lock_iteration, compare_exchange_weak, compare_exchange in Hit.
    destruct sp, (locked l); by simplify_eq.
  - done.
  - by specialize (Hu j i Hp Hi).
  - done.
Qed.

(** C11: mutual exclusion.  In every state that any number of threads reach by
    interleaving [lock], [try_lock], writes through their guards and the drop of
    their guards, the lock word is set exactly when some thread holds a guard, and
    at most one does.  From such a state, as long as thread [i] keeps its guard,
    nothing the other threads do changes the data behind the lock. *)
Theorem spinlock_mutual_exclusion wakes d s :
  run (step wakes) (initial d) s →
  (locked (lk s) = true ↔ ∃ i, thread s i = Hold) ∧
  (∀ i j, thread s i = Hold → thread s j = Hold → i = j) ∧
  ∀ i s', thread s i = Hold → run (λ a b, ∃ j, j ≠ i ∧ act wakes j a b) s s' →
    thread s' i = Hold ∧ deref (lk s') = deref (lk s).
Proof.
  intros Hr. pose proof (exclusive_run _ _ _ (exclusive_initial d) Hr) as He.
  split_and!; [apply He..|]. intros i s' Hi Hr'.
  assert (exclusive s' ∧ thread s' i = Hold ∧ data (lk s') = data (lk s)) as H; [|by destruct H].
  induction Hr' as [|a b _ (IHe & IHi & IHd) (j & Hj & Ha)]; [done|].
  destruct (others_leave_data _ _ _ _ _ IHe IHi Hj Ha) as [? Hd].
  split_and!; [by eapply exclusive_act|done|]. by rewrite Hd.
Qed.

(** *** The lock as an atomic mutex *)

(** The specification: an owner and a value; acquiring and releasing are single steps,
    and only the owner changes the value. *)
Record mutex := mkMutex { owner : option nat; value : T }.
Inductive mutex_step (i : nat) : mutex → mutex → Prop :=
| mutex_acquire d : mutex_step i (mkMutex None d) (mkMutex (Some i) d)
| mutex_write d d' : mutex_step i (mkMutex (Some i) d) (mkMutex (Some i) d')
| mutex_release d : mutex_step i (mkMutex (Some i) d) (mkMutex None d).

Record represents s (a : mutex) : Prop := {
  rep_value : deref (lk s) = value a;
  rep_word : is_locked (lk s) = bool_decide (is_Some (owner a));
  rep_owner i : thread s i = Hold ↔ owner a = Some i
}.

(** A thread that does not hold the lock moves on without getting it. *)
Lemma represents_move l f i p a :
  represents (mkSystem l f) a → f i ≠ Hold → p ≠ Hold → represents (mkSystem l (set_thread f i p)) a.
Proof.
  intros [Hv Hw Ho] Hi Hp. split; [done|done|]. intros j. simpl in *. unfold set_thread. case_decide; [|done].
  subst j. rewrite <-Ho. done.
Qed.

(** A thread gets the lock when the word is clear. *)
Lemma represents_take l f i a :
  represents (mkSystem l f) a → locked l = false →
  mutex_step i a (mkMutex (Some i) (value a)) ∧
  represents (mkSystem (with_locked l true) (set_thread f i Hold)) (mkMutex (Some i) (value a)).
Proof.
  intros [Hv Hw Ho] Hl. unfold is_locked in Hw. simpl in *. rewrite Hl in Hw. symmetry in Hw.
  apply bool_decide_eq_false, eq_None_not_Some in Hw. destruct a as [o d]. simpl in *. subst o.
  split; [constructor|]. split; [done|done|]. intros j. simpl. unfold set_thread. case_decide; [by subst|].
  rewrite Ho. naive_solver.
Qed.

Lemma act_refines wakes i s s' a :
  represents s a → act wakes i s s' → ∃ a', (a' = a ∨ mutex_step i a a') ∧ represents s' a'.
Proof.
  intros Hr Hs.
  destruct Hs as [l f Hi|l f ok l' Hi Ht|l f n sp p l' Hi Hit|l f Hi _|l f d Hi|l f Hi].
  - exists a. split; [by left|]. apply represents_move; congruence.
  - unfold try_lock, compare_exchange in Ht. destruct (locked l) eqn:E; simplify_eq.
    + exists a. split; [by left|]. apply represents_move; congruence.
    + destruct (represents_take l f i a Hr E). eexists. split; [by right|done].
  - assert (∀ m, lock_retry m ≠ Hold) as Hretry by (intros m; unfold lock_retry; by case_match).
    unfold lock_iteration, compare_exchange_weak, compare_exchange in Hit.
    destruct sp; [|destruct (locked l) eqn:E]; simplify_eq.
    + exists a. split; [by left|]. apply represents_move; congruence.
    + exists a. split; [by left|]. apply represents_move; congruence.
    + destruct (represents_take l f i a Hr E). eexists. split; [by right|done].
  - exists a. split; [by left|]. apply represents_move; congruence.
  - destruct Hr as [Hv Hw Ho], a as [o v]. apply Ho in Hi as Hown. simpl in Hown. subst o.
    exists (mkMutex (Some i) d). split; [right; constructor|]. by split.
  - destruct Hr as [Hv Hw Ho], a as [o v]. apply Ho in Hi as Hown. simpl in Hown. subst o.
    exists (mkMutex None v). split; [right; constructor|]. split; [done|done|]. intros j. simpl in *.
    unfold set_thread. case_decide; [done|]. rewrite Ho. naive_solver.
Qed.

(** C10: A spinlock is an atomic mutex.  Whatever any number of threads do with
    [lock], [try_lock] and their guards, in any interleaving and with spurious
    failures of the exchange, is a run of the mutex: its owner is the thread that
    holds the guard, the lock word says whether there is one, and the data behind the
    lock is the value the owners wrote. *)
Theorem spinlock_refines_mutex wakes d s :
  run (step wakes) (initial d) s →
  ∃ a, run (λ a b, ∃ i, mutex_step i a b) (mkMutex None d) a ∧ represents s a.
Proof.
  intros Hr. induction Hr as [|s s' _ (a & Ha & Hrep) [i Hi]].
  - exists (mkMutex None d). split; [apply run_refl|]. split; [done|done|]. by intros i.
  - destruct (act_refines wakes i s s' a Hrep Hi) as (a' & [->|Hs] & Hrep'); [by exists a|].
    exists a'. split; [|done]. eapply run_step; [done|]. by exists i.
Qed.

(** [force_unlock] and the drop of a [WeakSpinlockGuard] break exclusion: both
    free the lock under the thread that holds it, and a second thread then gets a
    guard. *)
Theorem bypass_breaks_exclusion wakes (d : T) :
  (∃ s, run (λ s s', step wakes s s' ∨ forced s s') (initial d) s ∧
        thread s 0%nat = Hold ∧ thread s 1%nat = Hold) ∧
  (∃ s, run (λ s s', step wakes s s' ∨ weak_step s s') (initial d) s ∧
        thread s 0%nat = Hold ∧ thread s 1%nat = Hold).
Proof.
  set (l1 := with_locked (new d) true). set (f1 := set_thread (λ _, Out) 0 Hold).
  assert (step wakes (initial d) (mkSystem l1 f1)) as H1.
  { exists 0%nat. by apply (act_try wakes 0 (new d) _ true). }
  split.
  - exists (mkSystem l1 (set_thread f1 1 Hold)). split; [|done].
    eapply run_step; [eapply run_step; [eapply run_step; [apply run_refl|]|]|].
    + left. apply H1.
    + right. apply forced_unlock.
    + left. exists 1%nat. by apply (act_try wakes 1 _ f1 true).
  - set (f2 := set_thread f1 2 Weak). set (f3 := set_thread f2 2 Out).
    exists (mkSystem l1 (set_thread f3 1 Hold)). split; [|done].
    eapply run_step; [eapply run_step; [eapply run_step; [eapply run_step; [apply run_refl|]|]|]|].
    + left. apply H1.
    + right. by apply (weak_new l1 f1 2).
    + right. by apply (weak_drop l1 f2 2).
    + left. exists 1%nat. by apply (act_try wakes 1 (raw_unlock l1) f3 true).
Qed.

Lemma halted_stays s i :
  thread s i = Halted → ∀ s', run (step false) s s' → thread s' i = Halted.
Proof.
  intros Hi s' Hr. induction Hr as [|s1 s2 _ IH [j Hs]]; [done|].
  destruct Hs; simpl in *; unfold set_thread; try case_decide; subst; congruence.
Qed.

(** A thread whose attempt number [MAX_SPIN] fails disables interrupts and
    halts.  If a [hlt] with interrupts disabled does not return, the thread never
    runs again, whatever the other threads do, even when they release the lock. *)
Theorem lock_halts_forever s i :
  thread s i = Spin (MAX_SPIN - 1) → locked (lk s) = true →
  ∃ s1, step false s s1 ∧ thread s1 i = Halted ∧
        ∀ s', run (step false) s1 s' → thread s' i = Halted.
Proof.
  intros Hi Hl. destruct s as [l f]. simpl in *.
  exists (mkSystem l (set_thread f i Halted)).
  assert (thread (mkSystem l (set_thread f i Halted)) i = Halted) as Hh by apply set_thread_eq.
  split_and!; [|done|by apply halted_stays]. exists i.
  apply (act_iterate false i l f (MAX_SPIN - 1) false Halted l Hi).
  unfold lock_iteration, compare_exchange_weak, compare_exchange. by rewrite Hl.
Qed.

End spinlock.

(** ** RawSpinlock *)

(** Mutual exclusion of [RawSpinlock]. *)
Theorem raw_mutual_exclusion s :
  run Raw.rstep Raw.rinitial s →
  (Raw.raw_locked (Raw.rlk s) = true ↔ ∃ i, Raw.rthread s i = Raw.RHold) ∧
  ∀ i j, Raw.rthread s i = Raw.RHold → Raw.rthread s j = Raw.RHold → i = j.
Proof.
  intros Hr. change (excl (.= Raw.RHold) (Raw.raw_locked (Raw.rlk s)) (Raw.rthread s)).
  induction Hr as [|a b _ IH [i Hs]]; [split; simpl; [split; [done|by intros [? ?]]|done]|].
  destruct Hs as [l f Hi|l f sp p l' Hi Ht|l f Hi|l f Hi]; simpl in *.
  - apply excl_move; congruence.
  - unfold Raw.acquire_try in Ht. destruct sp, (Raw.raw_locked l) eqn:E; simplify_eq/=;
      rewrite ?E; first [apply excl_move; congruence|by eapply excl_take].
  - apply excl_move; [done|congruence|]. unfold Raw.acquire_test. by destruct (Raw.raw_locked l).
  - by eapply excl_drop.
Qed.

(** Once the word stays clear, [acquire] returns within two more accesses. *)
Theorem raw_acquire_returns held n :
  (∀ k, (n ≤ k)%nat → held k = false) →
  ∀ fuel, (n + 2 ≤ fuel)%nat → ∃ k, Raw.acquire fuel held 0 false = Ret k ∧ (k ≤ S n)%nat.
Proof.
  intros Hfree.
  assert (∀ m k t fuel, (k + m = n ∨ m = 0 ∧ k = n)%nat → (m + 2 ≤ fuel)%nat →
    ∃ r, Raw.acquire fuel held k t = Ret r ∧ (r ≤ S n)%nat) as H.
  { induction m as [|m IH]; intros k t fuel Hk Hf.
    - destruct fuel as [|[|fuel]]; try lia. assert (k = n) as -> by lia.
      destruct t; simpl; rewrite !Hfree by lia; eexists; (split; [done|lia]).
    - destruct fuel as [|fuel]; [lia|]. simpl.
      destruct t; [apply IH; lia|]. destruct (held k); [apply IH; lia|].
      exists k. split; [done|lia]. }
  intros fuel Hf. apply (H n 0%nat); lia.
Qed.

(** ** The interrupt flag around [lock] *)

(** The failures before attempt [m], from attempt [k] with [spin_count = c]. *)
Lemma lock_from wakes busy m k (c : Z) irq fuel :
  (∀ j, (j < m)%nat → busy (k + j)%nat = true) → busy (k + m)%nat = false →
  0 ≤ c < MAX_SPIN → (m < fuel)%nat →
  lock wakes fuel busy k c irq =
  if c + Z.of_nat m <? MAX_SPIN then Ret ((k + m)%nat, irq)
  else if wakes then Ret ((k + m)%nat, true) else Diverge.
Proof.
  revert k c irq fuel.
  induction m as [|m IH]; intros k c irq fuel Hb Hfree Hc Hf; (destruct fuel as [|fuel]; [lia|]); simpl.
  - rewrite Nat.add_0_r in Hfree |- *. rewrite Hfree. rewrite (proj2 (Z.ltb_lt _ _)) by lia. done.
  - pose proof (Hb 0%nat ltac:(lia)) as H0. rewrite Nat.add_0_r in H0. rewrite H0.
    assert (∀ j, (j < m)%nat → busy (S k + j)%nat = true) as Hb'.
    { intros j Hj. replace (S k + j)%nat with (k + S j)%nat by lia. apply Hb. lia. }
    replace (k + S m)%nat with (S k + m)%nat in * by lia.
    destruct (Z.ltb_spec (c + 1) MAX_SPIN).
    + rewrite IH by (done || lia). replace (c + 1 + Z.of_nat m) with (c + Z.of_nat (S m)) by lia. done.
    + rewrite (proj2 (Z.ltb_ge _ _)) by lia. destruct wakes; [|done].
      rewrite IH by (done || (unfold MAX_SPIN; lia)). by case_match.
Qed.

(** C40: [IrqSafeSpinlock::lock] under contention, for a lock whose first successful
    attempt is number [m].  With fewer than 64 failed attempts the call returns at that
    attempt with interrupts disabled.  With 64 or more it executes [hlt] with interrupts
    disabled: if that does not wake, as on x86 without a non-maskable interrupt, the call
    never returns, whatever the fuel; if it wakes, the call returns at attempt [m] with
    interrupts enabled, so that the guard is held with interrupts enabled.  The flag
    before the call plays no part. *)
Theorem irq_lock_flag_exact wakes busy m irq fuel :
  (∀ j, (j < m)%nat → busy j = true) → busy m = false → (m < fuel)%nat →
  irq_lock wakes fuel busy irq =
  if Z.of_nat m <? 64 then Ret (m, false)
  else if wakes then Ret (m, true) else Diverge.
Proof.
  intros Hb Hm Hf. unfold irq_lock. change 64 with MAX_SPIN. rewrite (lock_from wakes busy m) by (done || (unfold MAX_SPIN; lia)).
  by rewrite Z.add_0_l.
Qed.

(** Dropping the inner one of two nested guards enables interrupts although the
    outer guard is still held. *)
Lemma nested_drop_enables {T} (outer inner : Spinlock T) :
  locked outer = true →
  let '(inner', irq) := irq_drop inner false in
  locked outer = true ∧ locked inner' = false ∧ irq = true.
Proof. done. Qed.

(** [relaxed_fence] panics on every call, since no relaxed fence exists; the other
    fences return. *)
Example relaxed_fence_panics :
  relaxed_fence = Panic ∧
  Forall (λ m, m = Ret ()) [release_fence; acquire_fence; acquire_release_fence; seq_cst_fence].
Proof. split; [done|by repeat constructor]. Qed.

(** ** The waiting helpers *)

(** All three loops return at the first call whose condition holds. *)
Lemma waits_return_first (cond : nat → bool) m fuel :
  (∀ j, (j < m)%nat → cond j = false) → cond m = true → (m < fuel)%nat →
  wait_until fuel cond 0 = Ret m ∧ spin_on fuel cond 0 = Ret m ∧
  acquire_with_hint fuel cond 0 = Ret (true, m).
Proof.
  intros Hb Hm Hf.
  assert (∀ d k fuel, (k + d = m)%nat → (d < fuel)%nat →
    wait_until fuel cond k = Ret m ∧ spin_on fuel cond k = Ret m ∧
    acquire_with_hint fuel cond k = Ret (true, m)) as H; [|by apply (H m 0%nat)].
  induction d as [|d IH]; intros k [|fu] Hk Hfu; try lia; simpl.
  - assert (k = m) as -> by lia. by rewrite Hm.
  - rewrite (Hb k) by lia. simpl. apply IH; lia.
Qed.

(** The [k]-th delay of [exponential_backoff]. *)
Lemma next_delay_iter k : Nat.iter k next_delay 1 = 2 ^ Z.of_nat (k `min` 10).
Proof.
  induction k as [|k IH]; [done|]. rewrite Nat.iter_succ, IH. unfold next_delay.
  destruct (decide (k < 10)%nat) as [Hk|Hk].
  - replace (k `min` 10)%nat with k by lia. replace (S k `min` 10)%nat with (S k) by lia.
    rewrite Nat2Z.inj_succ, Z.pow_succ_r, Z.mul_comm by lia.
    assert (2 ^ Z.of_nat k ≤ 2 ^ 9) by (apply Z.pow_le_mono_r; lia).
    rewrite (proj2 (Z.ltb_ge _ _)); [done|lia].
  - replace (k `min` 10)%nat with 10%nat by lia. by replace (S k `min` 10)%nat with 10%nat by lia.
Qed.

(** The number of hints after [k] failures. *)
Definition backoff_spins (k : nat) : Z :=
  if decide (k ≤ 10)%nat then 2 ^ Z.of_nat k - 1 else 1023 + (Z.of_nat k - 10) * 1024.

Lemma backoff_spins_S k : backoff_spins (S k) = backoff_spins k + Nat.iter k next_delay 1.
Proof.
  rewrite next_delay_iter. unfold backoff_spins. destruct (decide (k < 10)%nat) as [Hk|Hk].
  - rewrite !decide_True by lia. replace (k `min` 10)%nat with k by lia.
    rewrite Nat2Z.inj_succ, Z.pow_succ_r; lia.
  - replace (k `min` 10)%nat with 10%nat by lia. rewrite (decide_False (P := (S k ≤ 10)%nat)) by lia.
    case_decide; [assert (k = 10)%nat as -> by lia; done|lia].
Qed.

(** The back-off loops are exact.  If attempt [m] is the first that succeeds,
    [exponential_backoff] has executed 2^m - 1 hints, for [m] up to 10, and 1024 more
    for each further failure; [acquire_with_backoff] has halted once per 102 failures.
    Both return. *)
Theorem backoff_exact f m fuel :
  (∀ j, (j < m)%nat → f j = false) → f m = true → (m < fuel)%nat →
  exponential_backoff fuel f 0 1 0 = Ret (m, backoff_spins m) ∧
  acquire_with_backoff fuel f 0 0 0 = Ret (m, (m / 102)%nat).
Proof.
  intros Hb Hm Hf.
  assert (∀ d k fu, (k + d = m)%nat → (d < fu)%nat →
    exponential_backoff fu f k (Nat.iter k next_delay 1) (backoff_spins k) = Ret (m, backoff_spins m) ∧
    acquire_with_backoff fu f k (Z.of_nat (k mod 102)) (k / 102) = Ret (m, (m / 102)%nat)) as H;
    [|by apply (H m 0%nat fuel)].
  induction d as [|d IH]; intros k [|fu] Hk Hfu; try lia;
    cbn [exponential_backoff acquire_with_backoff].
  - assert (k = m) as -> by lia. by rewrite Hm.
  - rewrite (Hb k) by lia. destruct (IH (S k) fu ltac:(lia) ltac:(lia)) as [H1 H2].
    rewrite Nat.iter_succ, backoff_spins_S in H1. split; [exact H1|].
    pose proof (Nat.div_mod_eq k 102). pose proof (Nat.mod_upper_bound k 102 ltac:(lia)).
    destruct (Z.ltb_spec 100 (Z.of_nat (k mod 102))).
    + replace (S (k / 102)) with (S k / 102)%nat by (symmetry; apply (Nat.div_unique _ 102 _ 0); lia).
      replace (Z.of_nat (S k mod 102)) with 0 in H2; [done|].
      rewrite <- (Nat.mod_unique (S k) 102 (S (k / 102)) 0); lia.
    + replace (k / 102)%nat with (S k / 102)%nat
        by (symmetry; apply (Nat.div_unique _ _ _ (S (k mod 102))); lia).
      replace (Z.of_nat (S k mod 102)) with (Z.of_nat (k mod 102) + 1) in H2; [done|].
      rewrite <- (Nat.mod_unique (S k) 102 (k / 102) (S (k mod 102))); lia.
Qed.

(** [wait_until_timeout] terminates after at most [timeout + 1] calls of the
    condition, and returns [true] exactly when one of these calls does. *)
Lemma wait_until_timeout_exact cond timeout :
  0 ≤ timeout →
  returns (wait_until_timeout (S (Z.to_nat timeout)) cond 0 0 timeout) (λ b,
    b = true ↔ ∃ k, (k ≤ Z.to_nat timeout)%nat ∧ cond k = true).
Proof.
  intros Ht.
  assert (∀ fuel k, (fuel + k = S (Z.to_nat timeout))%nat → (0 < fuel)%nat →
    (∀ j, (j < k)%nat → cond j = false) →
    returns (wait_until_timeout fuel cond k (Z.of_nat k) timeout) (λ b,
      b = true ↔ ∃ k, (k ≤ Z.to_nat timeout)%nat ∧ cond k = true)) as H.
  { induction fuel as [|fuel IH]; intros k Hk Hf Hbefore; [lia|]. cbn [wait_until_timeout].
    destruct (cond k) eqn:Ec; [simpl; split; [|done]; intros _; exists k; split; [lia|done]|].
    destruct (Z.leb_spec timeout (Z.of_nat k)).
    - simpl. split; [done|]. intros (j & Hj & Hc). destruct (decide (j = k)) as [->|]; [congruence|].
      rewrite Hbefore in Hc by lia. done.
    - replace (Z.of_nat k + 1) with (Z.of_nat (S k)) by lia. apply IH; [lia|lia|].
      intros j Hj. destruct (decide (j = k)) as [->|]; [done|]. apply Hbefore. lia. }
  apply (H (S (Z.to_nat timeout)) 0%nat); lia.
Qed.

Lemma spinlock_mutual_exclusion_witness :
  let s := mkSystem (with_locked (new ()) true) (set_thread (λ _, Out) 0 Hold) in
  let s' := mkSystem (lk s) (set_thread (thread s) 1 (Spin 0)) in
  locked (lk s) = true ∧ thread s' 0%nat = Hold ∧ deref (lk s') = deref (lk s).
Proof.
  intros s s'.
  destruct (spinlock_mutual_exclusion true () s) as (H1 & _ & H3).
  { eapply run_step; [apply run_refl|]. exists 0%nat. by apply (act_try true 0 (new ()) (λ _, Out) true). }
  split; [done|]. apply (H3 0%nat s'); [done|].
  eapply run_step; [apply run_refl|]. exists 1%nat. split; [done|]. by apply act_call.
Defined.

Lemma spinlock_refines_mutex_witness :
  let s := mkSystem (with_locked (new 7) true) (set_thread (λ _, Out) 0 Hold) in
  ∃ a, run (λ a b, ∃ i, mutex_step i a b) (mkMutex None 7) a ∧ owner a = Some 0%nat ∧ value a = 7.
Proof.
  intros s. destruct (spinlock_refines_mutex true 7 s) as (a & Ha & [Hv _ Ho]).
  { eapply run_step; [apply run_refl|]. exists 0%nat. by apply (act_try true 0 (new 7) (λ _, Out) true). }
  exists a. split; [exact Ha|]. split; [by apply (Ho 0%nat)|]. symmetry. exact Hv.
Defined.

Lemma lock_halts_forever_witness :
  let s := mkSystem (with_locked (new ()) true) (set_thread (λ _, Spin 63) 0 Hold) in
  ∃ s1, step false s s1 ∧ thread s1 1%nat = Halted ∧
        ∀ s', run (step false) s1 s' → thread s' 1%nat = Halted.
Proof. intros s. exact (lock_halts_forever s 1 eq_refl eq_refl). Defined.

Lemma irq_lock_flag_exact_witness :
  irq_lock true 100 (λ k, Nat.ltb k 64) false = Ret (64%nat, true).
Proof.
  refine (irq_lock_flag_exact true (λ k, Nat.ltb k 64) 64 false 100 _ eq_refl _); [|lia].
  intros j Hj. by apply Nat.ltb_lt.
Defined.

Lemma backoff_exact_witness :
  exponential_backoff 300 (λ k, Nat.leb 204 k) 0 1 0 = Ret (204%nat, 199679) ∧
  acquire_with_backoff 300 (λ k, Nat.leb 204 k) 0 0 0 = Ret (204%nat, 2%nat).
Proof.
  refine (backoff_exact (λ k, Nat.leb 204 k) 204 300 _ eq_refl _); [|lia].
  intros j Hj. by apply Nat.leb_gt.
Defined.
