(* ===== verification/Boot.v ===== *)
(** * Start-up and panics (src/main.rs, src/panic.rs)

    [_start] as a program of calls, messages and one [sti], executed by a step
    relation, so that a call that never returns leaves the machine in a definite
    state; the panic handler of main.rs with its flag; and the register dump and
    stack trace of panic.rs.  Most functions [_start] names are not in the sources,
    so a call is a parameter: what it does to the kernel state and to the interrupt
    flag, if it returns. *)

From stdpp Require Import strings.
From S2P Require Import Prelude.
Open Scope Z_scope.

(** ** main.rs *)
Module Main.

Inductive Subsystem :=
  EarlySetup | Memory | Console | Idt | Fpu | Paging | TimerUnit | Apic | Sched | Syscalls.
#[global] Instance Subsystem_eq_dec : EqDecision Subsystem.
Proof. solve_decision. Defined.

(** The call of a subsystem, on the kernel state and the interrupt flag: an init function
    may execute [sti] or [cli] itself. *)
Class BootCalls (K : Type) := boot_call : Subsystem → K * bool → outcome (K * bool).

(** What [_start] executes; [Say] prints a line, with its newline, and [Halt] is
    [main_loop]. *)
Inductive instr := Call (c : Subsystem) | Say (s : string) | Sti | Halt.

Definition _start : list instr := [
  Call EarlySetup;
  Call Memory;
  Call Console; Say "Kernel started";
  Call Idt; Say "IDT initialized";
  Call Fpu; Say "FPU enabled";
  Call Paging; Say "Paging initialized";
  Call TimerUnit; Say "Timer initialized";
  Call Apic; Say "APIC initialized";
  Call Sched; Say "Scheduler initialized";
  Call Syscalls; Say "Syscalls initialized";
  Sti; Say "Enabling interrupts...";
  Halt].
Definition rust_main : list instr := _start.
Definition kernel_main : list instr := _start.
Definition kernel_entry_point : list instr := _start.

(** The interrupt flag, the lines printed and the subsystems whose set-up returned. *)
Record Boot (K : Type) := mkBoot {
  kern : K; irq : bool; out : list string; ready : list Subsystem
}.
Arguments mkBoot {K}.
Arguments kern {K}.
Arguments irq {K}.
Arguments out {K}.
Arguments ready {K}.

Section main.
Context {K : Type} `{!BootCalls K}.

Definition say (b : Boot K) (s : string) : Boot K := mkBoot (kern b) (irq b) (out b ++ [s]) (ready b).
Definition set_irq (b : Boot K) (v : bool) : Boot K := mkBoot (kern b) v (out b) (ready b).
Definition enable_interrupts_safe (b : Boot K) : Boot K := set_irq b true.
Definition disable_interrupts_safe (b : Boot K) : Boot K := set_irq b false.

(** One step; [None] when the machine stops or waits forever: a call that does not
    return, or the end of the program.  [main_loop] executes [hlt] again and again. *)
Definition boot_step (c : list instr * Boot K) : option (list instr * Boot K) :=
  match c with
  | ([], _) => None
  | (Call s :: p, b) =>
      match boot_call s (kern b, irq b) with
      | Ret (k, flag) => Some (p, mkBoot k flag (out b) (ready b ++ [s]))
      | _ => None
      end
  | (Say s :: p, b) => Some (p, say b s)
  | (Sti :: p, b) => Some (p, enable_interrupts_safe b)
  | (Halt :: p, b) => Some (Halt :: p, b)
  end.

Fixpoint boot_steps (n : nat) (c : list instr * Boot K) : list instr * Boot K :=
  match n with
  | O => c
  | S n' => match boot_step c with Some c' => boot_steps n' c' | None => c end
  end.

Definition power_on (k : K) : Boot K := mkBoot k false [] [].
Definition boot (n : nat) (k : K) : list instr * Boot K := boot_steps n (_start, power_on k).
End main.

(** Constants and small helpers. *)
Definition get_kernel_base : Z := 0xFFFF800000000000.
Definition kernel_heap_start : Z := 0xFFFF800010000000.
Definition kernel_heap_end : Z := 0xFFFF800020000000.
Definition kernel_code_start : Z := 0xFFFFFFFF80000000.
Definition kernel_code_end : Z := 0xFFFFFFFF80200000.
Definition kernel_data_start : Z := 0xFFFFFFFF80200000.
Definition kernel_data_end : Z := 0xFFFFFFFF80400000.
Definition get_boot_info : Z := 0x7000.
Definition kernel_version : string := "V".
Definition kernel_name : string := "Masika".

(** The pieces [print_welcome_message] prints before the newline. *)
Definition print_welcome_message : string := "Welcome to " +:+ kernel_name +:+ " v" +:+ kernel_version.
Definition initialize_subsystems : string := print_welcome_message.

Definition post_init_tasks : string := "All systems operational".
Definition setup_multicore : string := "Initializing multicore support".
Definition finalize_boot_process : string := "Boot process completed".

(** [check_hardware_capabilities], with [edx] of leaf 1. *)
Definition check_hardware_capabilities (edx : Z) : string :=
  if negb (Z.land (Z.shiftr edx 25) 1 =? 0) then "SSE supported" else "SSE not supported!".

(** [wait_cycles], with [tsc k] the result of [rdtsc] number [k]. *)
Fixpoint wait_cycles_loop {prof : Profile} (fuel : nat) (tsc : nat → Z) (cycles : Z) (k : nat) :
    outcome nat :=
  match fuel with
  | O => Diverge
  | S fuel' =>
      d ← usub (tsc k) (tsc 0%nat);
      if d <? cycles then wait_cycles_loop fuel' tsc cycles (S k) else Ret k
  end.
Definition wait_cycles {prof : Profile} (fuel : nat) (tsc : nat → Z) (cycles : Z) : outcome nat :=
  wait_cycles_loop fuel tsc cycles 1.

(** *** The panic handler

    It ends in a loop of [hlt] on both branches, so it is given by the state it
    leaves.  [info] is the formatted panic information, [location] its file and
    line, [dump] what [dump_registers] prints. *)
Record PanicState := mkPanic {
  PANIC_OCCURRED : bool; interrupts : bool; errors : list string
}.

Definition panic (info : string) (location : option (string * string)) (dump : list string)
    (s : PanicState) : PanicState :=
  if PANIC_OCCURRED s then s else
  let report := ["KERNEL PANIC OCCURRED"; info] ++
    match location with
    | Some (file, line) => ["File: " +:+ file +:+ ", Line: " +:+ line]
    | None => []
    end ++ dump in
  mkPanic true false (errors s ++ report).

End Main.

(** ** panic.rs *)
Module Dump.

Record Regs := mkRegs {
  rax : Z; rbx : Z; rcx : Z; rdx : Z; rsi : Z; rdi : Z; rbp : Z; rsp : Z;
  r8 : Z; r9 : Z; r10 : Z; r11 : Z; r12 : Z; r13 : Z; r14 : Z; r15 : Z;
  rip : Z; cs : Z; rflags : Z; ss : Z
}.

(** [get_current_stack_pointer] and [get_current_frame_pointer] of main.rs read the
    registers. *)
Definition get_current_stack_pointer (r : Regs) : Z := rsp r.
Definition get_current_frame_pointer (r : Regs) : Z := rbp r.

(** [{:016x}] and [{:2}] (the index is below 10). *)
Definition hex_char (d : Z) : string :=
  String (Ascii.ascii_of_nat (Z.to_nat (if d <? 10 then 48 + d else 87 + d))) EmptyString.
Fixpoint hex_digits (w : nat) (n : Z) : string :=
  match w with O => EmptyString | S w' => hex_digits w' (n / 16) +:+ hex_char (n mod 16) end.
Definition hex16 (n : Z) : string := hex_digits 16 n.
Definition dec2 (i : Z) : string := " " +:+ hex_char i.

(** The lines of the dump, from the registers as read. *)
Definition register_lines (r : Regs) : list string := [
  "RIP: " +:+ hex16 (rip r);
  "RSP: " +:+ hex16 (rsp r);
  "RBP: " +:+ hex16 (rbp r);
  "CS:  " +:+ hex16 (cs r) +:+ " SS:  " +:+ hex16 (ss r);
  "RAX: " +:+ hex16 (rax r) +:+ " RBX: " +:+ hex16 (rbx r);
  "RCX: " +:+ hex16 (rcx r) +:+ " RDX: " +:+ hex16 (rdx r);
  "RSI: " +:+ hex16 (rsi r) +:+ " RDI: " +:+ hex16 (rdi r);
  "R8:  " +:+ hex16 (r8 r) +:+ " R9:  " +:+ hex16 (r9 r);
  "R10: " +:+ hex16 (r10 r) +:+ " R11: " +:+ hex16 (r11 r);
  "R12: " +:+ hex16 (r12 r) +:+ " R13: " +:+ hex16 (r13 r);
  "R14: " +:+ hex16 (r14 r) +:+ " R15: " +:+ hex16 (r15 r);
  "RFLAGS: " +:+ hex16 (rflags r);
  "--- Stack trace ---"].

(** [mem a] is the word at address [a]. *)
Definition safe_read_ptr (mem : Z → Z) (addr : Z) : option Z :=
  if negb (addr mod 8 =? 0) || (addr <? 0x100000) then None else Some (mem addr).

(** The loop [for i in 0..10], with [n] iterations left, and the lines so far. *)
Fixpoint stack_trace {prof : Profile} (mem : Z → Z) (n : nat) (i ptr : Z) (acc : list string) :
    outcome (list string) :=
  match n with
  | O => Ret acc
  | S n' =>
      match safe_read_ptr mem ptr with
      | Some val =>
          ptr' ← uadd ptr 8;
          stack_trace mem n' (i + 1) ptr' (acc ++ ["[" +:+ dec2 i +:+ "] " +:+ hex16 val])
      | None => Ret acc
      end
  end.

Definition dump_regs {prof : Profile} (mem : Z → Z) (r : Regs) : outcome (list string) :=
  stack_trace mem 10 0 (rsp r) (register_lines r).

(** [panic]: the message, then the dump; it ends in a loop of [halt]. *)
Definition panic_report {prof : Profile} (info : string) (mem : Z → Z) (r : Regs) : outcome (list string) :=
  lines ← dump_regs mem r; Ret ([EmptyString; "PANIC: " +:+ info] ++ lines).

End Dump.
