(* ===== verification/BootTheorems.v ===== *)
(** * Start-up and panics: theorems

    The order of the start-up, its dependence on timer interrupts, the panic
    handler's single report, and the dump of panic.rs. *)

From stdpp Require Import strings.
From S2P Require Import Prelude Timer TimerTheorems Boot.
Open Scope Z_scope.

Import Main.

(** ** The start-up sequence *)
Section start.
Context {K : Type} `{!BootCalls K}.

Definition calls (p : list instr) : list Subsystem := omap (λ i, if i is Call s then Some s else None) p.
Definition says (p : list instr) : list string := omap (λ i, if i is Say s then Some s else None) p.
Definition stis (p : list instr) : bool := existsb (λ i, if i is Sti then true else false) p.

(** The calls leave the interrupt flag as it is; without this [irq] can be set by any of
    them. *)
Context (flag_kept : ∀ s k k' flag flag', boot_call s (k, flag) = Ret (k', flag') → flag' = flag).

(** A configuration is what the part of the program behind it produced. *)
Definition boot_inv (c : list instr * Boot K) : Prop :=
  ∃ done, _start = done ++ fst c ∧ ready (snd c) = calls done ∧ out (snd c) = says done ∧
          irq (snd c) = stis done.

Lemma omap_snoc {A B} (f : A → option B) l x : omap f (l ++ [x]) = omap f l ++ omap f [x].
Proof. apply omap_app. Qed.

Lemma boot_step_inv c c' : boot_inv c → boot_step c = Some c' → boot_inv c'.
Proof.
  destruct c as [p b]. intros (done & Hp & Hr & Ho & Hi) Hs. simpl in *.
  destruct p as [|[s|s| |] p]; simplify_eq/=.
  - destruct (boot_call s (kern b, irq b)) as [[k flag]| | |] eqn:Ec; simplify_eq.
    apply flag_kept in Ec as ->. exists (done ++ [Call s]). simpl.
    rewrite <- app_assoc. split_and!; [done| | |].
    + unfold calls. rewrite omap_snoc. fold (calls done). by rewrite <- Hr.
    + unfold says. rewrite omap_snoc. fold (says done). by rewrite <- Ho, app_nil_r.
    + unfold stis. rewrite existsb_app. fold (stis done). by rewrite <- Hi, orb_false_r.
  - exists (done ++ [Say s]). simpl. rewrite <- app_assoc. split_and!; [done| | |].
    + unfold calls. rewrite omap_snoc. fold (calls done). by rewrite <- Hr, app_nil_r.
    + unfold says. rewrite omap_snoc. fold (says done). by rewrite <- Ho.
    + unfold stis. rewrite existsb_app. fold (stis done). by rewrite <- Hi, orb_false_r.
  - exists (done ++ [Sti]). simpl. rewrite <- app_assoc. split_and!; [done| | |].
    + unfold calls. rewrite omap_snoc. fold (calls done). by rewrite <- Hr, app_nil_r.
    + unfold says. rewrite omap_snoc. fold (says done). by rewrite <- Ho, app_nil_r.
    + unfold stis. rewrite existsb_app. fold (stis done). by rewrite orb_true_r.
  - by exists done.
Qed.

Lemma boot_steps_inv n c : boot_inv c → boot_inv (boot_steps n c).
Proof.
  revert c. induction n as [|n IH]; intros c Hc; [done|]. simpl.
  destruct (boot_step c) eqn:E; [|done]. eapply IH, boot_step_inv; done.
Qed.

Lemma boot_inv_boot n k : boot_inv (boot n k).
Proof. apply boot_steps_inv. by exists []. Qed.

Definition all_subsystems : list Subsystem :=
  [EarlySetup; Memory; Console; Idt; Fpu; Paging; TimerUnit; Apic; Sched; Syscalls].

(** The instruction [Sti] is behind all calls: checked for each of the prefixes. *)
Lemma sti_last n : stis (take n _start) = true → calls (take n _start) = all_subsystems.
Proof.
  intros Hs. destruct (decide (n < 24)%nat) as [Hn|Hn].
  - assert (Forall (λ n, stis (take n _start) = true → calls (take n _start) = all_subsystems) (seq 0 24)) as H.
    { simpl seq. by repeat constructor. }
    rewrite Forall_forall in H. apply (H n); [|done]. apply elem_of_seq. lia.
  - by rewrite take_ge by (simpl; lia).
Qed.

(** The start-up order.  When no subsystem's call changes the interrupt flag, interrupts
    are enabled only once all ten have been set up, in the order of [_start]; until then
    the lines printed are a prefix of its messages.  If every call returns, [boot] reaches
    [main_loop] with interrupts enabled and all messages printed, and stays there. *)
Theorem boot_order k :
  (∀ n, irq (snd (boot n k)) = true → ready (snd (boot n k)) = all_subsystems) ∧
  (∀ n, out (snd (boot n k)) `prefix_of` says _start) ∧
  ((∀ s k, returns (boot_call s k) (λ _, True)) → ∀ n, (20 ≤ n)%nat →
    fst (boot n k) = [Halt] ∧ irq (snd (boot n k)) = true ∧ out (snd (boot n k)) = says _start).
Proof.
  split_and!.
  - intros n. destruct (boot_inv_boot n k) as (done & Hp & -> & _ & ->). intros Hs.
    assert (done = take (length done) _start) as Hd by (rewrite Hp; by rewrite take_app_length).
    rewrite Hd in Hs |- *. by apply sti_last.
  - intros n. destruct (boot_inv_boot n k) as (done & Hp & _ & -> & _).
    rewrite Hp. unfold says. rewrite omap_app. by eexists.
  - intros Hret n Hn. replace n with (20 + (n - 20))%nat by lia. generalize (n - 20)%nat as m. intros m.
    assert (∀ s k, ∃ k' flag, boot_call s k = Ret (k', flag)) as Hr.
    { intros s k0. specialize (Hret s k0). destruct (boot_call s k0) as [[]| | |]; [by eexists _, _|done..]. }
    assert (∀ m b, boot_steps m ([Halt], b) = ([Halt], b)) as Hh 
      by (intros m' b; induction m' as [|m' IH]; [done|exact IH]).
    unfold boot, power_on, _start.
    repeat (first [rewrite Hh|progress (cbn [boot_steps boot_step Nat.add kern out ready irq say
      enable_interrupts_safe set_irq app])|match goal with |- context [boot_call ?s ?k] =>
      let H := fresh in destruct (Hr s k) as (?&?&H); rewrite H; clear H end]).
    done.
Qed.
End start.

(** ** The timer during start-up

    The kernel state is the timer's machine.  [init_timer] is [timer::init] with the
    number of ticks it sees; the other subsystems keep the HPET registers and
    [TSC_KNOWN]. *)
Section hang.
Context {prof : Profile} `{!BootCalls Machine}.

Definition no_hpet (m : Machine) : Prop := is_hpet_capable m = false ∧ TSC_KNOWN (timer m) = false.

(** While the kernel has no HPET, no configuration is past the timer's call. *)
Lemma boot_never_past_timer n k :
  (∀ s m flag r, s ≠ TimerUnit → no_hpet m → boot_call s (m, flag) = Ret r → no_hpet r.1) →
  (∀ m flag r, no_hpet m → boot_call TimerUnit (m, flag) ≠ Ret r) → no_hpet k →
  TimerUnit ∈ calls (fst (boot n k)).
Proof.
  intros Hkeep Htimer Hk.
  assert (∀ n p b, no_hpet (kern b) → TimerUnit ∈ calls p →
    TimerUnit ∈ calls (fst (boot_steps n (p, b)))) as H; [|by apply H; [|set_solver]].
  clear n k Hk. induction n as [|n IH]; intros p b Hb Hp; [done|]. cbn [boot_steps].
  destruct p as [|[s|s| |] p]; cbn [boot_step]; try done; try by apply IH.
  destruct (boot_call s (kern b, irq b)) as [[k' flag]| | |] eqn:E; try done.
  destruct (decide (s = TimerUnit)) as [->|Hs]; [by destruct (Htimer (kern b) (irq b) (k', flag))|].
  apply IH; [by apply (Hkeep s (kern b) (irq b) (k', flag))|]. revert Hp. unfold calls. simpl. set_solver.
Qed.

(** Checked for each of the prefixes of [_start]. *)
Lemma timer_pending n :
  TimerUnit ∈ calls (drop n _start) →
  stis (take n _start) = false ∧ "Timer initialized" ∉ says (take n _start).
Proof.
  intros Hin. destruct (decide (n < 24)%nat) as [Hn|Hn].
  - assert (Forall (λ n, TimerUnit ∈ calls (drop n _start) →
      stis (take n _start) = false ∧ "Timer initialized" ∉ says (take n _start)) (seq 0 24)) as H.
    { apply (bool_decide_unpack _). by vm_compute. }
    rewrite Forall_forall in H. apply (H n); [|done]. apply elem_of_seq. lia.
  - rewrite drop_ge in Hin by (simpl; lia). by apply elem_of_nil in Hin.
Qed.

(** Start-up without an HPET hangs.  [_start] sets the timer up before it enables
    interrupts; if no call of a subsystem enables them, the timer call is [timer::init]
    and the tick counter stands still while interrupts are disabled, the machine never
    enables interrupts and never prints that the timer is initialised, however long it
    runs. *)
Theorem boot_hangs_without_hpet k fuel tick start end_ :
  (∀ s k k' flag flag', boot_call s (k, flag) = Ret (k', flag') → flag' = flag) →
  (∀ s m flag r, s ≠ TimerUnit → no_hpet m → boot_call s (m, flag) = Ret r → no_hpet r.1) →
  (∀ m flag, boot_call TimerUnit (m, flag) = (m' ← init m fuel (λ _, tick) start end_; Ret (m', flag))) →
  in_u 64 ((end_ - start) * 10) → no_hpet k →
  ∀ n, irq (snd (boot n k)) = false ∧ "Timer initialized" ∉ out (snd (boot n k)).
Proof.
  intros Hflag Hkeep Htimer Hu Hk n.
  assert (TimerUnit ∈ calls (fst (boot n k))) as Hin.
  { apply boot_never_past_timer; [done| |done]. intros m flag r [Hh Ht]. rewrite Htimer.
    unfold init. rewrite Hh. unfold calibrate_tsc. change (timer (init_pit m)) with (timer m).
    rewrite Ht, wait_while_forever; [done|]. intros j _. rewrite usub_ok; [|split; lia].
    by rewrite Z.sub_diag. }
  destruct (boot_inv_boot Hflag n k) as (done & Hp & _ & -> & ->).
  assert (done = take (length done) _start) as Hd by (rewrite Hp; by rewrite take_app_length).
  assert (fst (boot n k) = drop (length done) _start) as Hq by (rewrite Hp; by rewrite drop_app_length).
  rewrite Hq in Hin. rewrite Hd. by apply timer_pending.
Qed.
End hang.

(** ** Panics *)

(** The handler reports once: a panic raised while it runs changes nothing, and after
    the first one interrupts are disabled. *)
Lemma panic_reports_once info loc dump info' loc' dump' s :
  PANIC_OCCURRED s = false →
  let s' := panic info loc dump s in
  panic info' loc' dump' s' = s' ∧ interrupts s' = false ∧
  ∃ report, errors s' = errors s ++ "KERNEL PANIC OCCURRED" :: info :: report.
Proof.
  intros Hs. unfold panic. rewrite Hs. simpl. split_and!; [done|done|]. by eexists.
Qed.

Import Dump.

(** The value of a numeral. *)
Definition hex_value (c : Ascii.ascii) : Z :=
  let d := Z.of_nat (Ascii.nat_of_ascii c) in if d <? 58 then d - 48 else d - 87.
Fixpoint parse_hex (s : string) (acc : Z) : Z :=
  match s with EmptyString => acc | String c s' => parse_hex s' (acc * 16 + hex_value c) end.

Lemma parse_hex_app s t acc : parse_hex (s +:+ t) acc = parse_hex t (parse_hex s acc).
Proof. revert acc. induction s as [|c s IH]; intros acc; [done|]. simpl. apply IH. Qed.

Lemma parse_hex_char d acc : 0 ≤ d < 16 → parse_hex (hex_char d) acc = acc * 16 + d.
Proof.
  intros Hd. assert (d ∈ seqZ 0 16) as Hin by (apply elem_of_seqZ; lia).
  simpl. f_equal. clear Hd. revert d Hin. apply Forall_forall, (bool_decide_unpack _). by vm_compute.
Qed.

Lemma string_length_app s t : String.length (s +:+ t) = (String.length s + String.length t)%nat.
Proof. induction s as [|c s IH]; [done|]. simpl. by rewrite IH. Qed.

(** [{:016x}] prints every word exactly: sixteen digits whose value is the word. *)
Lemma hex16_exact n : in_u 64 n → String.length (hex16 n) = 16%nat ∧ parse_hex (hex16 n) 0 = n.
Proof.
  intros Hn. unfold hex16.
  assert (∀ w n acc, 0 ≤ n < 16 ^ Z.of_nat w →
    String.length (hex_digits w n) = w ∧ parse_hex (hex_digits w n) acc = acc * 16 ^ Z.of_nat w + n) as H.
  { clear n Hn. induction w as [|w IH]; intros n acc Hn; [simpl in *; lia|].
    rewrite Nat2Z.inj_succ, Z.pow_succ_r in * by lia. cbn [hex_digits].
    pose proof (Z.div_mod n 16 ltac:(lia)). pose proof (Z.mod_pos_bound n 16 ltac:(lia)).
    destruct (IH (n / 16) acc) as [Hl Hp]; [split; [lia|apply Z.div_lt_upper_bound; lia]|].
    rewrite parse_hex_app, parse_hex_char, Hp by done. split; [|lia].
    rewrite string_length_app, Hl. simpl. lia. }
  apply (H 16%nat n 0). exact Hn.
Qed.

(** The line of word [i] of the stack. *)
Definition stack_line (mem : Z → Z) (rsp : Z) (i : Z) : string :=
  "[" +:+ dec2 i +:+ "] " +:+ hex16 (mem (rsp + 8 * i)).

Lemma stack_trace_full {prof : Profile} mem rsp n i acc :
  rsp mod 8 = 0 → 0x100000 ≤ rsp → 0 ≤ i → rsp + 8 * (i + Z.of_nat n) < 2 ^ 64 →
  stack_trace mem n i (rsp + 8 * i) acc = Ret (acc ++ (stack_line mem rsp <$> seqZ i (Z.of_nat n))).
Proof.
  intros Ha Hlow. revert i acc. induction n as [|n IH]; intros i acc Hi Hmax.
  - simpl. by rewrite app_nil_r.
  - cbn [stack_trace]. unfold safe_read_ptr.
    rewrite Z.mul_comm, Z.mod_add, Ha, Z.mul_comm by lia. rewrite (proj2 (Z.ltb_ge _ _)) by lia.
    cbn [negb orb Z.eqb]. rewrite uadd_ok by (split; lia). cbn [mbind outcome_bind].
    replace (rsp + 8 * i + 8) with (rsp + 8 * (i + 1)) by lia.
    rewrite IH by lia. rewrite (seqZ_cons i) by lia. rewrite <- app_assoc. f_equal. simpl.
    replace (Z.pred (Z.of_nat (S n))) with (Z.of_nat n) by lia. by rewrite Z.add_1_r.
Qed.

(** The stack reaches the end of the address space within the words left: the dev profile
    panics at the addition, release goes on at address 0, which is refused. *)
Lemma stack_trace_end {prof : Profile} mem rsp n i acc :
  rsp mod 8 = 0 → 0x100000 ≤ rsp → 0 ≤ i → rsp + 8 * i < 2 ^ 64 → 2 ^ 64 ≤ rsp + 8 * (i + Z.of_nat n) →
  stack_trace mem n i (rsp + 8 * i) acc =
    if overflow_checks then Panic
    else Ret (acc ++ (stack_line mem rsp <$> seqZ i ((2 ^ 64 - rsp) / 8 - i))).
Proof.
  intros Ha Hlow. revert i acc. induction n as [|n IH]; intros i acc Hi Hlt Hge; [lia|].
  cbn [stack_trace]. unfold safe_read_ptr.
  rewrite Z.mul_comm, Z.mod_add, Ha, Z.mul_comm by lia. rewrite (proj2 (Z.ltb_ge _ _)) by lia.
  cbn [negb orb Z.eqb]. assert ((2 ^ 64 - rsp) mod 8 = 0) as H8 by (Z.to_euclidean_division_equations; lia).
  rewrite (seqZ_cons i) by (Z.to_euclidean_division_equations; lia).
  destruct (decide (rsp + 8 * i + 8 < 2 ^ 64)) as [Hf|Hf].
  - rewrite uadd_ok by (split; lia). cbn [mbind outcome_bind].
    replace (rsp + 8 * i + 8) with (rsp + 8 * (i + 1)) by lia. rewrite IH by lia.
    destruct overflow_checks; [done|]. rewrite <-app_assoc. simpl.
    by replace (Z.pred ((2 ^ 64 - rsp) / 8 - i)) with ((2 ^ 64 - rsp) / 8 - (i + 1)) by lia.
  - unfold uadd. destruct overflow_checks eqn:Ho; [rewrite checked_dev by (done || (unfold in_u; lia)); done|].
    rewrite checked_release by done. cbn [mbind outcome_bind].
    replace ((rsp + 8 * i + 8) mod 2 ^ 64) with 0 by (Z.to_euclidean_division_equations; lia).
    replace (Z.pred ((2 ^ 64 - rsp) / 8 - i)) with 0 by (Z.to_euclidean_division_equations; lia).
    by destruct n.
Qed.

(** C39: [dump_regs] of panic.rs is exact for every stack pointer.  It prints the registers
    and then, for a stack pointer that is a multiple of 8 and at least one megabyte, the
    ten words from it on; for any other stack pointer none.  When fewer than eleven words
    are left up to the end of the address space the addition behind the last word
    overflows: the dev profile panics inside the panic handler, and release prints the
    words there are. *)
Theorem dump_regs_exact {prof : Profile} mem r :
  in_u 64 (rsp r) →
  dump_regs mem r =
    if negb (rsp r mod 8 =? 0) || (rsp r <? 0x100000) then Ret (register_lines r)
    else if overflow_checks && (2 ^ 64 <=? rsp r + 80) then Panic
    else Ret (register_lines r ++
      ((λ i, "[" +:+ dec2 i +:+ "] " +:+ hex16 (mem (rsp r + 8 * i))) <$> seqZ 0 (Z.min 10 ((2 ^ 64 - rsp r) / 8)))).
Proof.
  intros [H0 Hu]. unfold dump_regs. change (λ i, _) with (stack_line mem (rsp r)).
  destruct (Z.eqb_spec (rsp r mod 8) 0) as [Ha|Ha], (Z.ltb_spec (rsp r) 0x100000) as [Hl|Hl]; cbn [negb orb].
  all: try (cbn [stack_trace]; unfold safe_read_ptr;
    (rewrite (proj2 (Z.ltb_lt _ _) Hl) || rewrite (proj2 (Z.eqb_neq _ _) Ha)); rewrite ?orb_true_r; done).
  replace (rsp r) with (rsp r + 8 * 0) at 1 by lia. destruct (Z.leb_spec (2 ^ 64) (rsp r + 80)) as [He|He].
  - rewrite stack_trace_end by lia. destruct overflow_checks; [done|]. simpl.
    rewrite Z.min_r, Z.sub_0_r by (Z.to_euclidean_division_equations; lia). done.
  - rewrite stack_trace_full by lia. rewrite andb_false_r.
    by rewrite Z.min_l by (Z.to_euclidean_division_equations; lia).
Qed.

(** ** Witnesses *)

#[local] Instance sample_calls : BootCalls Machine := λ s '(m, flag),
  if decide (s = TimerUnit) then m' ← init (prof := dev) m 1000 (λ _, 0) 0 5000; Ret (m', flag)
  else Ret (m, flag).
Definition no_hpet_machine : Machine := {| timer := timer_start; hpet := λ _, 0; port_log := [] |}.

Lemma boot_order_witness :
  let H : BootCalls unit := λ _ x, Ret x in irq (snd (boot (K := unit) 20 ())) = true.
Proof.
  intros H. assert (∀ s k k' flag flag', boot_call (K := unit) s (k, flag) = Ret (k', flag') → flag' = flag) as Hf.
  { intros s k k' flag flag' E. unfold boot_call, H in E. by injection E. }
  apply (proj2 (proj2 (boot_order (K := unit) Hf ()))); [done|lia].
Defined.

Lemma boot_hangs_without_hpet_witness :
  irq (snd (boot 1000 no_hpet_machine)) = false ∧
  "Timer initialized" ∉ out (snd (boot 1000 no_hpet_machine)).
Proof.
  refine (boot_hangs_without_hpet (prof := dev) no_hpet_machine 1000 0 0 5000 _ _ _ _ _ 1000); try done.
  - intros s k k' flag flag'. unfold boot_call, sample_calls. case_decide; [|by intros [= _ ->]].
    by destruct (init _ _ _ _ _) as [?| | |]; intros [= _ ->].
  - intros s m flag r Hs Hm. unfold boot_call, sample_calls. rewrite decide_False by done. by intros [= <-].
Defined.

Definition sample_regs (sp : Z) : Regs := mkRegs 0 0 0 0 0 0 0 sp 0 0 0 0 0 0 0 0 0 8 2 16.
Lemma dump_regs_exact_witness :
  dump_regs (prof := dev) (λ a, a) (sample_regs 0x200000)
    = Ret (register_lines (sample_regs 0x200000) ++ (stack_line (λ a, a) 0x200000 <$> seqZ 0 10)) ∧
  dump_regs (prof := dev) (λ a, a) (sample_regs (2 ^ 64 - 80)) = Panic.
Proof.
  split.
  - by rewrite (dump_regs_exact (prof := dev) (λ a, a) (sample_regs 0x200000)) by (unfold in_u; simpl; lia).
  - by rewrite (dump_regs_exact (prof := dev) (λ a, a) (sample_regs (2 ^ 64 - 80))) by (unfold in_u; simpl; lia).
Defined.
