(* ===== verification/Pcb.v ===== *)
(** * Process control blocks (src/scheduler/pcb.rs)

    The block of a process with all its fields.  Those the methods of the file
    change or read are in [ProcessControlBlock] itself, the others, which only
    [new] sets, in [PcbRest].  The time stamp counter is an argument. *)

From S2P Require Import Prelude.
Open Scope Z_scope.

Record RegisterContext := {
  rax : Z; rbx : Z; rcx : Z; rdx : Z; rsi : Z; rdi : Z; rbp : Z; rsp : Z; r8 : Z; r9 : Z;
  r10 : Z; r11 : Z; r12 : Z; r13 : Z; r14 : Z; r15 : Z; rip : Z; rflags : Z; fs_base : Z;
  gs_base : Z
}.

(** The context of a fresh process: interrupts enabled, entry point and stack. *)
Definition context_new (user_stack entry_point : Z) : RegisterContext := {|
  rax := 0; rbx := 0; rcx := 0; rdx := 0; rsi := 0; rdi := 0; rbp := 0; rsp := user_stack;
  r8 := 0; r9 := 0; r10 := 0; r11 := 0; r12 := 0; r13 := 0; r14 := 0; r15 := 0;
  rip := entry_point; rflags := 0x202; fs_base := 0; gs_base := 0
|}.

Inductive ProcessState := Running | Ready | Blocked | Zombie | Sleeping | Idle.
#[export] Instance ProcessState_eq_dec : EqDecision ProcessState.
Proof. solve_decision. Defined.

Record PcbRest := {
  pid : Z; parent_pid : option Z; registers : RegisterContext; kernel_stack_top : Z;
  user_stack_top : Z; wait_queue : Z; page_table_root : Z;
  cwd_inode : Z; umask : Z; uid : Z; euid : Z; gid : Z; egid : Z; start_time : Z;
  thread_id : Z; stack_bottom : Z; tls_area : Z; personality : Z; flags : Z;
  alarm_timer : Z; vfork_parent : option Z; ptrace_tracer : option Z; ptrace_flags : Z;
  seccomp_mode : Z; robust_list_head : Z; clear_tid_addr : Z; restart_block : Z;
  itimers : list Z; rusage : list Z; pending_children : Z; num_threads : Z;
  group_leader : Z; session_id : Z; process_group : Z; exit_signal : Z; exit_state : Z;
  jobctl : Z; task_works : Z; bpf_ctx : Z; sched_time_slice : Z; io_wait_count : Z;
  preempt_count : Z; static_prio : Z; normal_prio : Z; deadline : Z; virtual_runtime : Z;
  sleep_start : Z; is_idle : bool; needs_resched : bool; in_syscall : bool; in_irq : bool;
  mm_lock : Z; files_lock : Z; fs_lock : Z; signal_lock : Z; cred_lock : Z;
  ptrace_lock : Z; cleanup_state : Z; exit_link : option Z; numa_policy : Z;
  cpus_allowed : list Z; mems_allowed : list Z; node_vm_start : Z; node_vm_end : Z;
  last_cpu : Z; wake_cpu : Z; policy : Z; rt_priority : Z; slice : Z; nr_switches : Z;
  nr_voluntary_switches : Z; nr_involuntary_switches : Z; last_arrival : Z;
  avg_arrival : Z; load_weight : Z; exec_start : Z; stats : list Z
}.

Record ProcessControlBlock := {
  state : ProcessState; priority : Z; ticks_remaining : Z; exit_code : option Z;
  signal_mask : Z; pending_signals : Z; cpu_time : Z; comm : list Z; last_switch_time : Z;
  in_kernel : bool; fpu_owner : bool; on_rq : bool; runnable : bool; running : bool;
  fpu_state : list Z; rest : PcbRest
}.

(** [ProcessId::new]: [fetch_add] on the counter. *)
Definition pid_new (counter : Z) : Z * Z := (counter, wrap 64 (counter + 1)).

(** [ProcessControlBlock::new], with the value of [PID_COUNTER]; the fields are
    evaluated in the order they are written. *)
Definition new (counter now kernel_stack user_stack entry_point : Z) : ProcessControlBlock * Z :=
  let '(p0, c0) := pid_new counter in
  let '(p1, c1) := pid_new c0 in
  let '(p2, c2) := pid_new c1 in
  let '(p3, c3) := pid_new c2 in
  ({|
     state := Ready; priority := 10; ticks_remaining := 10; exit_code := None;
     signal_mask := 0; pending_signals := 0; cpu_time := 0; comm := replicate 16 0;
     last_switch_time := 0; in_kernel := false; fpu_owner := false; on_rq := false;
     runnable := true; running := false; fpu_state := replicate 512 0;
     rest := {|
       pid := p0; parent_pid := None; registers := context_new user_stack entry_point;
       kernel_stack_top := kernel_stack; user_stack_top := user_stack;
       wait_queue := 0; page_table_root := 0; cwd_inode := 0;
       umask := 18; uid := 0; euid := 0; gid := 0; egid := 0; start_time := now;
       thread_id := 0; stack_bottom := 0; tls_area := 0; personality := 0; flags := 0;
       alarm_timer := 0; vfork_parent := None; ptrace_tracer := None; ptrace_flags := 0;
       seccomp_mode := 0; robust_list_head := 0; clear_tid_addr := 0; restart_block := 0;
       itimers := replicate 3 0; rusage := replicate 16 0; pending_children := 0;
       num_threads := 1; group_leader := p1; session_id := p2; process_group := p3;
       exit_signal := 17; exit_state := 0; jobctl := 0; task_works := 0; bpf_ctx := 0;
       sched_time_slice := 1000000; io_wait_count := 0; preempt_count := 0;
       static_prio := 120; normal_prio := 120; deadline := 0; virtual_runtime := 0;
       sleep_start := 0; is_idle := false; needs_resched := false; in_syscall := false;
       in_irq := false; mm_lock := 0; files_lock := 0; fs_lock := 0; signal_lock := 0;
       cred_lock := 0; ptrace_lock := 0; cleanup_state := 0; exit_link := None;
       numa_policy := 0; cpus_allowed := [u64_max; 0; 0; 0];
       mems_allowed := [u64_max; 0; 0; 0]; node_vm_start := 0; node_vm_end := 0;
       last_cpu := 0; wake_cpu := 0; policy := 0; rt_priority := 0; slice := 1000000;
       nr_switches := 0; nr_voluntary_switches := 0; nr_involuntary_switches := 0;
       last_arrival := 0; avg_arrival := 0; load_weight := 1024; exec_start := 0;
       stats := replicate 8 0
     |}
   |}, c3).

(** Field assignment. *)
Definition put_state (p : ProcessControlBlock) (v : ProcessState) : ProcessControlBlock := {|
  state := v; priority := priority p; ticks_remaining := ticks_remaining p;
  exit_code := exit_code p; signal_mask := signal_mask p;
  pending_signals := pending_signals p; cpu_time := cpu_time p; comm := comm p;
  last_switch_time := last_switch_time p; in_kernel := in_kernel p;
  fpu_owner := fpu_owner p; on_rq := on_rq p; runnable := runnable p; running := running p;
  fpu_state := fpu_state p; rest := rest p
|}.
Definition put_ticks_remaining (p : ProcessControlBlock) (v : Z) : ProcessControlBlock := {|
  state := state p; priority := priority p; ticks_remaining := v; exit_code := exit_code p;
  signal_mask := signal_mask p; pending_signals := pending_signals p;
  cpu_time := cpu_time p; comm := comm p; last_switch_time := last_switch_time p;
  in_kernel := in_kernel p; fpu_owner := fpu_owner p; on_rq := on_rq p;
  runnable := runnable p; running := running p; fpu_state := fpu_state p; rest := rest p
|}.
Definition put_exit_code (p : ProcessControlBlock) (v : option Z) : ProcessControlBlock := {|
  state := state p; priority := priority p; ticks_remaining := ticks_remaining p;
  exit_code := v; signal_mask := signal_mask p; pending_signals := pending_signals p;
  cpu_time := cpu_time p; comm := comm p; last_switch_time := last_switch_time p;
  in_kernel := in_kernel p; fpu_owner := fpu_owner p; on_rq := on_rq p;
  runnable := runnable p; running := running p; fpu_state := fpu_state p; rest := rest p
|}.
Definition put_pending_signals (p : ProcessControlBlock) (v : Z) : ProcessControlBlock := {|
  state := state p; priority := priority p; ticks_remaining := ticks_remaining p;
  exit_code := exit_code p; signal_mask := signal_mask p; pending_signals := v;
  cpu_time := cpu_time p; comm := comm p; last_switch_time := last_switch_time p;
  in_kernel := in_kernel p; fpu_owner := fpu_owner p; on_rq := on_rq p;
  runnable := runnable p; running := running p; fpu_state := fpu_state p; rest := rest p
|}.
Definition put_cpu_time (p : ProcessControlBlock) (v : Z) : ProcessControlBlock := {|
  state := state p; priority := priority p; ticks_remaining := ticks_remaining p;
  exit_code := exit_code p; signal_mask := signal_mask p;
  pending_signals := pending_signals p; cpu_time := v; comm := comm p;
  last_switch_time := last_switch_time p; in_kernel := in_kernel p;
  fpu_owner := fpu_owner p; on_rq := on_rq p; runnable := runnable p; running := running p;
  fpu_state := fpu_state p; rest := rest p
|}.
Definition put_comm (p : ProcessControlBlock) (v : list Z) : ProcessControlBlock := {|
  state := state p; priority := priority p; ticks_remaining := ticks_remaining p;
  exit_code := exit_code p; signal_mask := signal_mask p;
  pending_signals := pending_signals p; cpu_time := cpu_time p; comm := v;
  last_switch_time := last_switch_time p; in_kernel := in_kernel p;
  fpu_owner := fpu_owner p; on_rq := on_rq p; runnable := runnable p; running := running p;
  fpu_state := fpu_state p; rest := rest p
|}.
Definition put_last_switch_time (p : ProcessControlBlock) (v : Z) : ProcessControlBlock := {|
  state := state p; priority := priority p; ticks_remaining := ticks_remaining p;
  exit_code := exit_code p; signal_mask := signal_mask p;
  pending_signals := pending_signals p; cpu_time := cpu_time p; comm := comm p;
  last_switch_time := v; in_kernel := in_kernel p; fpu_owner := fpu_owner p;
  on_rq := on_rq p; runnable := runnable p; running := running p; fpu_state := fpu_state p; rest := rest p
|}.
Definition put_fpu_owner (p : ProcessControlBlock) (v : bool) : ProcessControlBlock := {|
  state := state p; priority := priority p; ticks_remaining := ticks_remaining p;
  exit_code := exit_code p; signal_mask := signal_mask p;
  pending_signals := pending_signals p; cpu_time := cpu_time p; comm := comm p;
  last_switch_time := last_switch_time p; in_kernel := in_kernel p; fpu_owner := v;
  on_rq := on_rq p; runnable := runnable p; running := running p; fpu_state := fpu_state p; rest := rest p
|}.
Definition put_fpu_state (p : ProcessControlBlock) (v : list Z) : ProcessControlBlock := {|
  state := state p; priority := priority p; ticks_remaining := ticks_remaining p;
  exit_code := exit_code p; signal_mask := signal_mask p;
  pending_signals := pending_signals p; cpu_time := cpu_time p; comm := comm p;
  last_switch_time := last_switch_time p; in_kernel := in_kernel p; fpu_owner := fpu_owner p;
  on_rq := on_rq p; runnable := runnable p; running := running p; fpu_state := v; rest := rest p
|}.
Definition put_on_rq (p : ProcessControlBlock) (v : bool) : ProcessControlBlock := {|
  state := state p; priority := priority p; ticks_remaining := ticks_remaining p;
  exit_code := exit_code p; signal_mask := signal_mask p;
  pending_signals := pending_signals p; cpu_time := cpu_time p; comm := comm p;
  last_switch_time := last_switch_time p; in_kernel := in_kernel p;
  fpu_owner := fpu_owner p; on_rq := v; runnable := runnable p; running := running p;
  fpu_state := fpu_state p; rest := rest p
|}.
Definition put_runnable (p : ProcessControlBlock) (v : bool) : ProcessControlBlock := {|
  state := state p; priority := priority p; ticks_remaining := ticks_remaining p;
  exit_code := exit_code p; signal_mask := signal_mask p;
  pending_signals := pending_signals p; cpu_time := cpu_time p; comm := comm p;
  last_switch_time := last_switch_time p; in_kernel := in_kernel p;
  fpu_owner := fpu_owner p; on_rq := on_rq p; runnable := v; running := running p;
  fpu_state := fpu_state p; rest := rest p
|}.
Definition put_running (p : ProcessControlBlock) (v : bool) : ProcessControlBlock := {|
  state := state p; priority := priority p; ticks_remaining := ticks_remaining p;
  exit_code := exit_code p; signal_mask := signal_mask p;
  pending_signals := pending_signals p; cpu_time := cpu_time p; comm := comm p;
  last_switch_time := last_switch_time p; in_kernel := in_kernel p;
  fpu_owner := fpu_owner p; on_rq := on_rq p; runnable := runnable p; running := v;
  fpu_state := fpu_state p; rest := rest p
|}.

Section pcb.
Context {prof : Profile}.
Implicit Types (p : ProcessControlBlock).

Definition set_ready p : ProcessControlBlock :=
  put_on_rq (put_runnable (put_ticks_remaining (put_state p Ready) (priority p)) true) true.
Definition set_running p : ProcessControlBlock :=
  put_on_rq (put_runnable (put_running (put_state p Running) true) false) false.
Definition set_blocked p : ProcessControlBlock :=
  put_on_rq (put_runnable (put_state p Blocked) false) false.
Definition set_zombie p (code : Z) : ProcessControlBlock :=
  put_on_rq (put_runnable (put_exit_code (put_state p Zombie) (Some code)) false) false.

Definition is_runnable p : bool :=
  (bool_decide (state p = Ready) || bool_decide (state p = Running)) && runnable p.
Definition has_pending_signals p : bool := negb (pending_signals p =? 0) && negb (in_kernel p).

(** [1 << sig] with [sig : u8]: a shift of 64 or more panics in the dev profile
    and uses the low six bits of the amount in the release profile. *)
Definition signal_bit (sig : Z) : outcome Z :=
  if sig <? 64 then Ret (bit sig)
  else if overflow_checks then Panic else Ret (bit (sig mod 64)).

Definition clear_signal p (sig : Z) : outcome ProcessControlBlock :=
  b ← signal_bit sig; Ret (put_pending_signals p (Z.land (pending_signals p) (wnot 64 b))).
Definition add_signal p (sig : Z) : outcome ProcessControlBlock :=
  b ← signal_bit sig;
  if Z.land (signal_mask p) b =? 0 then
    b' ← signal_bit sig; Ret (put_pending_signals p (Z.lor (pending_signals p) b'))
  else Ret p.

Definition update_cpu_time p (now : Z) : outcome ProcessControlBlock :=
  d ← usub now (last_switch_time p);
  t ← uadd (cpu_time p) d;
  Ret (put_last_switch_time (put_cpu_time p t) now).

(** [iter().position(|&c| c == 0).unwrap_or(16)]. *)
Fixpoint position_zero (l : list Z) : option nat :=
  match l with
  | [] => None
  | c :: l' => if c =? 0 then Some 0%nat else S <$> position_zero l'
  end.

(** [get_comm_str], with the validity check of [core::str::from_utf8]; slicing
    beyond the array panics. *)
Definition get_comm_str (utf8_valid : list Z → bool) p : outcome (list Z) :=
  let len := default 16%nat (position_zero (comm p)) in
  if (length (comm p) <? len)%nat then Panic
  else Ret (if utf8_valid (take len (comm p)) then take len (comm p) else []).

(** [set_comm]: at most 15 bytes of the name and a terminating zero. *)
Definition set_comm p (name : list Z) : outcome ProcessControlBlock :=
  let len := Nat.min (length name) 15 in
  if (length (comm p) <? len)%nat then Panic else
  let c := take len name ++ drop len (comm p) in
  match c !! len with
  | Some _ => Ret (put_comm p (<[len := 0]> c))
  | None => Panic
  end.

(** [save_fpu], with the 512 bytes the processor stores, and the area that
    [restore_fpu] loads. *)
Definition save_fpu p (area : list Z) : ProcessControlBlock :=
  put_fpu_owner (put_fpu_state p area) false.
Definition restore_fpu p : list Z := fpu_state p.

End pcb.

(** ** Properties *)

Lemma position_zero_app l l' :
  Forall (λ c, c ≠ 0) l → position_zero (l ++ 0 :: l') = Some (length l).
Proof.
  induction 1 as [|c l Hc _ IH]; simpl; [done|].
  rewrite (proj2 (Z.eqb_neq c 0)) by done. by rewrite IH.
Qed.

(** A process name without zero bytes reads back as its first 15 bytes,
    whatever longer name was stored before, if they are valid UTF-8, and as the
    empty string when the cut leaves invalid UTF-8. *)
Theorem comm_roundtrip utf8_valid p name :
  length (comm p) = 16%nat → Forall (λ c, c ≠ 0) name →
  returns (set_comm p name) (λ p',
    length (comm p') = 16%nat ∧
    get_comm_str utf8_valid p' = Ret (if utf8_valid (take 15 name) then take 15 name else [])).
Proof.
  intros Hl Hn. unfold set_comm. set (len := Nat.min (length name) 15).
  assert (take len name = take 15 name) as Htk.
  { unfold len. destruct (decide (length name ≤ 15)%nat).
    - rewrite Nat.min_l by done. rewrite !take_ge by lia. done.
    - by rewrite Nat.min_r by lia. }
  assert (length (take len name) = len) as Hlt by (rewrite length_take; unfold len; lia).
  rewrite (proj2 (Nat.ltb_ge _ _)) by (unfold len; lia). rewrite Htk in *.
  assert (drop len (comm p) ≠ []) as Hd.
  { intros Hd. apply (f_equal length) in Hd. rewrite length_drop, Hl in Hd. simpl in Hd. unfold len in Hd. lia. }
  destruct (drop len (comm p)) as [|x tl] eqn:Edrop; [done|]. clear Hd.
  rewrite lookup_app_r, Hlt, Nat.sub_diag by lia. simpl.
  rewrite insert_app_r_alt, Hlt, Nat.sub_diag by lia. simpl.
  assert (length (take 15 name ++ 0 :: tl) = 16%nat) as Hlen.
  { apply (f_equal length) in Edrop. rewrite length_drop, Hl in Edrop. rewrite length_app, Hlt.
    simpl in *. unfold len in *. lia. }
  split; [done|]. unfold get_comm_str. simpl.
  rewrite position_zero_app by (by apply Forall_take). simpl.
  rewrite Hlen, Hlt, (proj2 (Nat.ltb_ge _ _)) by (unfold len; lia).
  rewrite take_app_length' by done. done.
Qed.

(** A new process is not the leader of its own group: [ProcessId::new] is called
    once for each of the four ids. *)
Lemma new_group_leader counter now k u e :
  0 ≤ counter → counter + 4 < 2 ^ 64 →
  let '(p, c) := new counter now k u e in
  pid (rest p) = counter ∧ group_leader (rest p) = counter + 1 ∧
  session_id (rest p) = counter + 2 ∧ process_group (rest p) = counter + 3 ∧ c = counter + 4.
Proof.
  intros H0 H1. unfold new, pid_new. simpl. unfold wrap.
  rewrite !Z.mod_small by (rewrite ?Z.mod_small; lia). lia.
Qed.

(** A process that [set_running] marked is not runnable, and [set_blocked] leaves
    its [running] flag set. *)
Lemma running_is_not_runnable p :
  is_runnable (set_running p) = false ∧ running (set_blocked (set_running p)) = true.
Proof. done. Qed.

Lemma comm_roundtrip_witness :
  let p := fst (new 1 0 0 0 0) in
  returns (set_comm p [105; 110; 105; 116]) (λ p',
    length (comm p') = 16%nat ∧
    get_comm_str (λ _, true) p' = Ret [105; 110; 105; 116]).
Proof.
  intros p. apply (comm_roundtrip (λ _, true) p [105; 110; 105; 116]); [done|].
  repeat constructor; done.
Defined.
