(* ===== verification/PcbTheorems.v ===== *)
(** * Signals of a process (src/scheduler/pcb.rs)

    The pending word of a process control block holds a set of signals: any
    sequence of [add_signal] and [clear_signal] calls acts on the word as adding and
    removing elements acts on the set. *)

From S2P Require Import Prelude Pcb.
Open Scope Z_scope.

(** ** Signals as a set *)

Inductive sig_op := AddSignal (sig : Z) | ClearSignal (sig : Z).
Definition op_signal (o : sig_op) : Z := match o with AddSignal g => g | ClearSignal g => g end.
Definition run_sig {prof : Profile} (p : ProcessControlBlock) (o : sig_op) : outcome ProcessControlBlock :=
  match o with AddSignal g => add_signal p g | ClearSignal g => clear_signal p g end.
Definition run_sigs {prof : Profile} (p : ProcessControlBlock) (l : list sig_op) : outcome ProcessControlBlock :=
  foldl (λ m o, q ← m; run_sig q o) (Ret p) l.

(** A masked signal is not added. *)
Definition set_step (mask : Z) (X : gset Z) (o : sig_op) : gset Z :=
  match o with
  | AddSignal g => if Z.testbit mask g then X else {[g]} ∪ X
  | ClearSignal g => X ∖ {[g]}
  end.

(** The word [w] holds the set [X] of signals below 64. *)
Definition holds_set (w : Z) (X : gset Z) : Prop :=
  in_u 64 w ∧ (∀ i, 0 ≤ i < 64 → Z.testbit w i = bool_decide (i ∈ X)) ∧ ∀ i, i ∈ X → 0 ≤ i < 64.

Section signals.
Context {prof : Profile}.
Implicit Types (p : ProcessControlBlock) (X : gset Z).

Lemma word_extensional w v : in_u 64 w → in_u 64 v → (∀ i, 0 ≤ i < 64 → Z.testbit w i = Z.testbit v i) → w = v.
Proof.
  intros Hw Hv H. apply Z.bits_inj'. intros i Hi. destruct (decide (i < 64)); [by apply H|].
  rewrite (in_u_testbit 64 w), (in_u_testbit 64 v); (done || lia).
Qed.

Lemma holds_empty w X : holds_set w X → (w =? 0) = bool_decide (X = ∅).
Proof.
  intros (Hw & Hb & Hr). case_bool_decide as HX.
  - apply Z.eqb_eq. apply word_extensional; [done|by unfold in_u|]. intros i Hi.
    rewrite Hb, Z.bits_0 by done. apply bool_decide_eq_false. set_solver.
  - apply Z.eqb_neq. intros ->. apply HX, set_eq. intros i. split; [|set_solver]. intros Hi.
    specialize (Hb i (Hr i Hi)). rewrite Z.bits_0, bool_decide_true in Hb; done.
Qed.

(** One call on the word is one step on the set. *)
Lemma run_sig_step p X o :
  0 ≤ op_signal o < 64 → holds_set (pending_signals p) X →
  ∃ w, run_sig p o = Ret (put_pending_signals p w) ∧ holds_set w (set_step (signal_mask p) X o).
Proof.
  intros Ho (Hw & Hb & Hr). destruct o as [g|g]; simpl in Ho; simpl.
  - unfold add_signal, signal_bit. rewrite (proj2 (Z.ltb_lt _ _)) by lia. simpl.
    rewrite land_bit_eqb by lia. destruct (Z.testbit (signal_mask p) g); simpl.
    { exists (pending_signals p). split; [by destruct p|by split]. }
    eexists. split; [done|]. split; [|split; [|set_solver by lia]].
    + apply lor_in_u; [done|done|]. by apply bit_in_u.
    + intros i Hi. rewrite Z.lor_spec, bit_spec, Hb by lia.
      destruct (decide (g = i)) as [->|]; [rewrite (bool_decide_true (i = i)), orb_true_r by done; symmetry;
        apply bool_decide_eq_true; set_solver|].
      rewrite (bool_decide_false (g = i)), orb_false_r by done. apply bool_decide_ext. set_solver.
  - unfold clear_signal, signal_bit. rewrite (proj2 (Z.ltb_lt _ _)) by lia. simpl.
    eexists. split; [done|]. split; [|split; [|set_solver]].
    + apply land_in_u_l; [done|done|]. by destruct (wnot_in_u 64 (bit g) ltac:(lia)).
    + intros i Hi. rewrite Z.land_spec, wnot_spec, bit_spec, Hb by lia.
      rewrite (proj2 (Z.ltb_lt i 64)) by lia. simpl. destruct (decide (g = i)) as [->|].
      * rewrite (bool_decide_true (i = i)), andb_false_r by done. symmetry. apply bool_decide_eq_false. set_solver.
      * rewrite (bool_decide_false (g = i)), andb_true_r by done. apply bool_decide_ext. set_solver.
Qed.

Lemma run_sigs_steps l p X :
  Forall (λ o, 0 ≤ op_signal o < 64) l → holds_set (pending_signals p) X →
  ∃ w, run_sigs p l = Ret (put_pending_signals p w) ∧ holds_set w (foldl (set_step (signal_mask p)) X l).
Proof.
  intros Hl. revert p X. unfold run_sigs.
  induction Hl as [|o l Ho _ IH]; intros p X Hp.
  - exists (pending_signals p). split; [by destruct p|done].
  - destruct (run_sig_step p X o Ho Hp) as (w & Hrun & Hw). simpl. rewrite Hrun.
    destruct (IH (put_pending_signals p w) _ Hw) as (w' & Hrun' & Hw'). exists w'. by split.
Qed.
End signals.

(** C25: the signal word refines a set.  Over any sequence of [add_signal] and
    [clear_signal] calls with signals below 64 the calls return, only the pending
    word changes, and it holds the set that adding unmasked signals and removing
    signals gives; [has_pending_signals] says whether that set is inhabited outside
    the kernel.  From 64 on [dev] panics, and [release] acts on the signal modulo 64. *)
Theorem signals_refine_set {prof : Profile} p X l g :
  holds_set (pending_signals p) X → Forall (λ o, 0 ≤ op_signal o < 64) l → 64 ≤ g < 256 →
  returns (run_sigs p l) (λ p', ∃ w,
    p' = put_pending_signals p w ∧ in_u 64 w ∧
    (∀ i, 0 ≤ i < 64 → Z.testbit w i = bool_decide (i ∈ foldl (set_step (signal_mask p)) X l)) ∧
    has_pending_signals p' = bool_decide (foldl (set_step (signal_mask p)) X l ≠ ∅) && negb (in_kernel p)) ∧
  add_signal p g = (if overflow_checks then Panic else add_signal p (g mod 64)) ∧
  clear_signal p g = (if overflow_checks then Panic else clear_signal p (g mod 64)).
Proof.
  intros HX Hl Hg. split.
  - destruct (run_sigs_steps l p X Hl HX) as (w & -> & Hw). exists w. split; [done|].
    split; [apply Hw|]. split; [apply Hw|]. unfold has_pending_signals. simpl. rewrite (holds_empty _ _ Hw). f_equal.
    by case_bool_decide as E; case_bool_decide.
  - pose proof (Z.mod_pos_bound g 64 ltac:(lia)).
    unfold add_signal, clear_signal, signal_bit.
    rewrite (proj2 (Z.ltb_ge g 64)), (proj2 (Z.ltb_lt (g mod 64) 64)) by lia.
    by destruct overflow_checks.
Qed.

Lemma signals_refine_set_witness :
  let p := fst (new 1 0 0 0 0) in
  returns (run_sigs (prof := dev) p [AddSignal 9; AddSignal 15; ClearSignal 9]) (λ p',
    Z.testbit (pending_signals p') 9 = false ∧ Z.testbit (pending_signals p') 15 = true ∧
    has_pending_signals p' = true).
Proof.
  intros p. destruct (signals_refine_set (prof := dev) p ∅ [AddSignal 9; AddSignal 15; ClearSignal 9] 64) as [H _].
  - split; [by unfold in_u|]. split; [|set_solver]. intros i Hi. rewrite bool_decide_false by set_solver.
    apply Z.bits_0.
  - by repeat constructor.
  - lia.
  - eapply returns_mono; [exact H|]. intros p' (w & -> & _ & Hw & ->).
    split; [etrans; [exact (Hw 9 ltac:(lia))|by vm_compute]|].
    split; [etrans; [exact (Hw 15 ltac:(lia))|by vm_compute]|by vm_compute].
Defined.
