(* ===== verification/Cpu.v ===== *)
(** * Processor control (src/arch/cpu.rs)

    The registers the functions read and write, as a state; [cpuid] is a parameter.
    An instruction that writes a register stores the value: the faults a processor
    raises for reserved bits, and side effects on caches, are outside the model.
    The instructions without an effect on this state (hlt, pause, monitor, mwait,
    invlpg and cache flushes) are in Instructions. *)

From S2P Require Import Prelude.
Open Scope Z_scope.

(** ** Descriptors *)

Record Descriptor := mkDescriptor {
  limit : Z;
  base_lo : Z;
  base_mid : Z;
  access : Z;
  flags_limit_hi : Z;
  base_hi : Z
}.

Record TssEntry := mkTss {
  reserved : Z;
  rsp0_lo : Z;
  rsp0_hi : Z;
  rsp1_lo : Z;
  rsp1_hi : Z;
  rsp2_lo : Z;
  rsp2_hi : Z;
  reserved2 : Z;
  ist1_lo : Z;
  ist1_hi : Z;
  ist2_lo : Z;
  ist2_hi : Z;
  ist3_lo : Z;
  ist3_hi : Z;
  ist4_lo : Z;
  ist4_hi : Z;
  ist5_lo : Z;
  ist5_hi : Z;
  ist6_lo : Z;
  ist6_hi : Z;
  ist7_lo : Z;
  ist7_hi : Z;
  reserved3 : Z;
  iopb_offset : Z
}.
Definition TSS_init : TssEntry := mkTss 0 0 0 0 0 0 0 0 0 0 0 0 0 0 0 0 0 0 0 0 0 0 0 0.

(** [size_of::<TssEntry>()]: a packed struct of 20 [u32], two [u64] and a [u16] fields
    and the word in front. *)
Definition tss_size : Z := 102.

(** [x as u8], [x as u16], [x as u32]. *)
Definition as_u (w x : Z) : Z := x mod 2 ^ w.

Definition make_seg (access_ flags base lim : Z) : Descriptor :=
  mkDescriptor (as_u 16 lim) (as_u 16 base) (as_u 8 (Z.shiftr base 16)) access_
    (Z.lor (Z.land (as_u 8 (Z.shiftr lim 16)) 0x0f) flags) (as_u 8 (Z.shiftr base 24)).
Definition make_code_seg (base lim : Z) : Descriptor := make_seg 0x9a 0xa0 base lim.
Definition make_data_seg (base lim : Z) : Descriptor := make_seg 0x92 0xc0 base lim.

(** [addr] is the address of the static [TSS]. *)
Definition make_tss_desc (addr : Z) : Descriptor :=
  mkDescriptor (as_u 16 (tss_size - 1)) (as_u 16 addr) (as_u 8 (Z.shiftr addr 16)) 0x89
    (Z.lor (Z.land (as_u 8 (Z.shiftr addr 24)) 0x0f) 0x40) (as_u 8 (Z.shiftr addr 32)).

Definition Gdt_new : list Descriptor := replicate 8 (mkDescriptor 0 0 0 0 0 0).

(** ** Registers *)

Inductive Reg := CR0 | CR3 | CR4 | XCR0 | EFLAGS | MXCSR | PKRU | MSR (number : Z).
#[export] Instance Reg_eq_dec : EqDecision Reg.
Proof. solve_decision. Defined.

Record Cpu := mkCpu {
  reg : Reg → Z;
  TSS : TssEntry;
  gdtr : Z * Z;
  idtr : Z * Z;
  tr : Z;
  data_selectors : Z;
  code_selector : Z
}.

Definition set_reg (r : Reg) (v : Z) (s : Cpu) : Cpu :=
  mkCpu (λ r', if decide (r' = r) then v else reg s r') (TSS s) (gdtr s) (idtr s) (tr s)
    (data_selectors s) (code_selector s).

(** A 64-bit value from and into two 32-bit registers. *)
Definition join (high low : Z) : Z := Z.lor (ushl 64 high 32) low.
Definition low32 (v : Z) : Z := as_u 32 v.
Definition high32 (v : Z) : Z := as_u 32 (Z.shiftr v 32).

Definition read_cr0 (s : Cpu) : Z := reg s CR0.
Definition write_cr0 (value : Z) (s : Cpu) : Cpu := set_reg CR0 value s.
Definition read_cr3 (s : Cpu) : Z := reg s CR3.
Definition write_cr3 (value : Z) (s : Cpu) : Cpu := set_reg CR3 value s.
Definition read_cr4 (s : Cpu) : Z := reg s CR4.
Definition write_cr4 (value : Z) (s : Cpu) : Cpu := set_reg CR4 value s.
Definition read_msr (msr : Z) (s : Cpu) : Z := join (high32 (reg s (MSR msr))) (low32 (reg s (MSR msr))).
Definition write_msr (msr value : Z) (s : Cpu) : Cpu :=
  set_reg (MSR msr) (join (high32 value) (low32 value)) s.
Definition read_xcr0 (s : Cpu) : Z := join (high32 (reg s XCR0)) (low32 (reg s XCR0)).
Definition write_xcr0 (value : Z) (s : Cpu) : Cpu := set_reg XCR0 (join (high32 value) (low32 value)) s.
Definition read_eflags (s : Cpu) : Z := reg s EFLAGS.
Definition write_eflags (flags : Z) (s : Cpu) : Cpu := set_reg EFLAGS flags s.
Definition read_pkru (s : Cpu) : Z := reg s PKRU.
Definition write_pkru (value : Z) (s : Cpu) : Cpu := set_reg PKRU value s.
(** [rdtsc] and [rdtscp] leave the halves of the counter in two registers. *)
Definition read_time_stamp_counter (high low : Z) : Z := join high low.
Definition read_time_stamp_counter_high (high low : Z) : Z := join high low.

(** The interrupt flag is bit 9. *)
Definition cli (s : Cpu) : Cpu := set_reg EFLAGS (Z.land (reg s EFLAGS) (wnot 64 (bit 9))) s.
Definition sti (s : Cpu) : Cpu := set_reg EFLAGS (Z.lor (reg s EFLAGS) (bit 9)) s.

Definition lgdt (p : Z * Z) (s : Cpu) : Cpu :=
  mkCpu (reg s) (TSS s) p (idtr s) (tr s) (data_selectors s) (code_selector s).
Definition lidt (p : Z * Z) (s : Cpu) : Cpu :=
  mkCpu (reg s) (TSS s) (gdtr s) p (tr s) (data_selectors s) (code_selector s).
Definition load_tr (sel : Z) (s : Cpu) : Cpu :=
  mkCpu (reg s) (TSS s) (gdtr s) (idtr s) sel (data_selectors s) (code_selector s).

(** The table, which is at address [at_], and the processor after [Gdt::init]. *)
Definition Gdt_init (tss_addr at_ : Z) (entries : list Descriptor) (s : Cpu) : list Descriptor * Cpu :=
  let entries := <[1%nat := make_code_seg 0 0xfffff]> entries in
  let entries := <[2%nat := make_data_seg 0 0xfffff]> entries in
  let entries := <[3%nat := make_tss_desc tss_addr]> entries in
  let s := lgdt (as_u 16 (8 * Z.of_nat (length entries) - 1), at_) s in
  (entries, mkCpu (reg s) (TSS s) (gdtr s) (idtr s) (tr s) 0x10 0x8).

Definition set_rsp0 (t : TssEntry) (lo hi : Z) : TssEntry :=
  mkTss (reserved t) lo hi (rsp1_lo t) (rsp1_hi t) (rsp2_lo t) (rsp2_hi t) (reserved2 t) (ist1_lo t) (ist1_hi t) (ist2_lo t) (ist2_hi t) (ist3_lo t) (ist3_hi t) (ist4_lo t) (ist4_hi t) (ist5_lo t) (ist5_hi t) (ist6_lo t) (ist6_hi t) (ist7_lo t) (ist7_hi t) (reserved3 t) (iopb_offset t).
Definition set_kernel_stack (stack_top : Z) (s : Cpu) : Cpu :=
  mkCpu (reg s) (set_rsp0 (TSS s) (as_u 32 stack_top) (as_u 32 (Z.shiftr stack_top 32)))
    (gdtr s) (idtr s) (tr s) (data_selectors s) (code_selector s).

(** ** Bits of registers *)

(** A register read and written back with bits set or cleared.  The machine-specific
    ones go through [read_msr] and [write_msr]. *)
Definition read_reg (r : Reg) (s : Cpu) : Z :=
  match r with MSR n => read_msr n s | _ => reg s r end.
Definition write_reg (r : Reg) (v : Z) (s : Cpu) : Cpu :=
  match r with MSR n => write_msr n v s | _ => set_reg r v s end.
Definition or_reg (r : Reg) (mask : Z) (s : Cpu) : Cpu := write_reg r (Z.lor (read_reg r s) mask) s.
Definition clear_reg (r : Reg) (mask : Z) (s : Cpu) : Cpu :=
  write_reg r (Z.land (read_reg r s) (wnot 64 mask)) s.

Definition when (c : bool) (f : Cpu → Cpu) : Cpu → Cpu := λ s, if c then f s else s.

(** The four results of [cpuid], in the order of the tuple. *)
Record CpuidResult := mkCpuid { eax : Z; ebx : Z; ecx : Z; edx : Z }.
Class Cpuid := cpuid : Z → CpuidResult.

Section cpu.
Context {prof : Profile} `{!Cpuid}.

(** [(r >> i) & 1 == 1]. *)
Definition supports (leaf : Z) (r : CpuidResult → Z) (i : Z) : bool :=
  Z.land (Z.shiftr (r (cpuid leaf)) i) 1 =? 1.

Definition enable_sse (s : Cpu) : Cpu :=
  let cr0 := Z.lor (Z.land (reg s CR0) (wnot 64 0x04)) 0x02 in
  let s := set_reg CR0 cr0 s in
  set_reg CR4 (Z.lor (reg s CR4) 0x600) s.
Definition enable_avx : Cpu → Cpu := or_reg CR4 (Z.lor 0x20000 0x40000).

(** The initial value of the local variable is overwritten by the store. *)
Definition enable_fpu_exceptions (s : Cpu) : Cpu :=
  set_reg MXCSR (Z.land (Z.land (reg s MXCSR) (wnot 32 (bit 15))) (wnot 32 (bit 6))) s.

Definition enable_nxe_bit : Cpu → Cpu := or_reg (MSR 0xC0000080) 1.
Definition enable_write_protect : Cpu → Cpu := or_reg CR0 (bit 16).
Definition disable_write_protect : Cpu → Cpu := clear_reg CR0 (bit 16).
Definition enable_global_pages : Cpu → Cpu := or_reg CR4 (bit 7).

(** [u32::to_le_bytes]. *)
Definition to_le_bytes (x : Z) : list Z := (λ i, as_u 8 (Z.shiftr x (8 * Z.of_nat i))) <$> seq 0 4.

(** The tuple is taken apart as [(ebx, ecx, edx, _)]. *)
Definition get_cpu_vendor_string : list Z :=
  let '(ebx_, ecx_, edx_) := (eax (cpuid 0), ebx (cpuid 0), ecx (cpuid 0)) in
  to_le_bytes ebx_ ++ to_le_bytes edx_ ++ to_le_bytes ecx_.

Definition has_x2apic : bool := supports 1 ebx 21.
Definition has_fsgsbase : bool := supports 7 ebx 0.
Definition has_smap : bool := supports 7 ebx 20.
Definition has_smep : bool := supports 7 ebx 7.

Definition enable_smap : Cpu → Cpu := when has_smap (or_reg CR4 (bit 21)).
Definition clear_smap : Cpu → Cpu := clear_reg CR4 (bit 21).
Definition enable_smep : Cpu → Cpu := when has_smep (or_reg CR4 (bit 20)).

(** ** Segment bases *)

Definition read_fs_base : Cpu → Z := read_msr 0xC0000100.
Definition write_fs_base (base : Z) : Cpu → Cpu := write_msr 0xC0000100 base.
Definition read_gs_base : Cpu → Z := read_msr 0xC0000101.
Definition write_gs_base (base : Z) : Cpu → Cpu := write_msr 0xC0000101 base.
Definition enable_fsgsbase_if_supported : Cpu → Cpu := when has_fsgsbase (or_reg CR4 (bit 16)).

(** [rdfsbase eax] reads the low half of the FS base, [rdgsbase eax] that of the GS
    base; the writes with a 32-bit operand clear the high half. *)
Definition rdfsbase (s : Cpu) : Z :=
  join (low32 (reg s (MSR 0xC0000101))) (low32 (reg s (MSR 0xC0000100))).
Definition wrfsbase (val : Z) (s : Cpu) : Cpu :=
  set_reg (MSR 0xC0000101) (high32 val) (set_reg (MSR 0xC0000100) (low32 val) s).
Definition wrgsbase (val : Z) (s : Cpu) : Cpu :=
  set_reg (MSR 0xC0000101) (high32 val) (set_reg (MSR 0xC0000101) (low32 val) s).

(** ** Paging and protection features *)

Definition enable_pat (s : Cpu) : Cpu := write_msr 0x277 (read_msr 0x277 s) s.
Definition get_pat : Cpu → Z := read_msr 0x277.
Definition set_pat (pat : Z) : Cpu → Cpu := write_msr 0x277 pat.
Definition enable_pge : Cpu → Cpu := or_reg CR4 (bit 7).
Definition disable_pge : Cpu → Cpu := clear_reg CR4 (bit 7).
Definition enable_pae : Cpu → Cpu := or_reg CR4 (bit 5).
Definition disable_pae : Cpu → Cpu := clear_reg CR4 (bit 5).
Definition enable_pcid : Cpu → Cpu := or_reg CR4 (bit 17).
Definition disable_pcid : Cpu → Cpu := clear_reg CR4 (bit 17).
Definition enable_pge_if_supported : Cpu → Cpu := when (supports 1 edx 13) enable_pge.
Definition enable_page_attribute_table : Cpu → Cpu := when (supports 1 edx 16) enable_pat.
Definition enable_supervisor_mode_execution_protection : Cpu → Cpu := or_reg (MSR 0xC0000080) (bit 11).
Definition disable_supervisor_mode_execution_protection : Cpu → Cpu := clear_reg (MSR 0xC0000080) (bit 11).
Definition enable_supervisor_mode_access_prevention : Cpu → Cpu := or_reg (MSR 0xC0000080) (bit 12).
Definition disable_supervisor_mode_access_prevention : Cpu → Cpu := clear_reg (MSR 0xC0000080) (bit 12).

Definition enable_fpu (s : Cpu) : Cpu :=
  write_cr0 (Z.lor (Z.land (read_cr0 s) (wnot 64 (bit 2))) (bit 1)) s.
Definition disable_fpu (s : Cpu) : Cpu :=
  write_cr0 (Z.land (Z.lor (read_cr0 s) (bit 2)) (wnot 64 (bit 1))) s.

(** ** Frequency and monitoring *)

(** The fourth result is named [ebx] here. *)
Definition get_processor_base_frequency_khz : outcome Z :=
  umul (Z.land (edx (cpuid 0x16)) 0xFFFF) 1000.
Definition get_cpu_frequency_khz : outcome Z :=
  if negb (edx (cpuid 0x15) =? 0) then
    f ← get_processor_base_frequency_khz; umul (edx (cpuid 0x15)) f
  else Ret 0.

(** The second result is named [edx] here. *)
Definition enable_monitor_mwait : Cpu → Cpu :=
  when (Z.land (ebx (cpuid 5)) 1 =? 1) (or_reg CR4 (bit 4)).
Definition enable_adaptive_tickless : Cpu → Cpu := enable_monitor_mwait.

(** ** System call registers and extended state *)

Definition enable_rdtscp : Cpu → Cpu := when (supports 0x80000001 ecx 27) (or_reg (MSR 0xC0000080) (bit 15)).
Definition disable_rdtscp : Cpu → Cpu := clear_reg (MSR 0xC0000080) (bit 15).
Definition enable_syscall_msrs : Cpu → Cpu := when (supports 0x80000001 ecx 11) (or_reg (MSR 0xC0000080) (bit 0)).
Definition set_star_msr (kernel_cs user_cs : Z) : Cpu → Cpu :=
  write_msr 0xC0000081 (Z.lor (ushl 64 kernel_cs 32) user_cs).
Definition set_lstar_msr (handler : Z) : Cpu → Cpu := write_msr 0xC0000082 handler.
Definition set_sfmask_msr (mask : Z) : Cpu → Cpu := write_msr 0xC0000084 mask.
Definition enable_xsave : Cpu → Cpu := when (supports 1 ecx 26) (or_reg CR4 (bit 18)).
Definition enable_fxrstor_optimizations : Cpu → Cpu := when (supports 1 ecx 24) (or_reg CR4 (bit 9)).
Definition enable_xsaveopt : Cpu → Cpu := when (supports 0xD ecx 0) (or_reg (MSR 0x00000400) (bit 0)).
Definition get_xsave_feature_mask (index : Z) (s : Cpu) : Z :=
  if index =? 0 then read_xcr0 s else read_msr (0x400 + index) s.
Definition xsave_area_size : Z := ebx (cpuid 0xD).
Definition xsave_compacted_enabled : bool := supports 0xD ecx 1.

(** ** Security features, one capability bit and one control bit each *)

Definition enable_cet_shadow_stack : Cpu → Cpu := when (supports 7 ecx 20) (or_reg (MSR 0xC0000080) (bit 16)).
Definition enable_cet_indirect_branch_tracking : Cpu → Cpu := when (supports 7 ecx 20) (or_reg (MSR 0xC0000080) (bit 17)).
Definition enable_umip : Cpu → Cpu := when (supports 7 ecx 2) (or_reg CR4 (bit 11)).
Definition disable_umip : Cpu → Cpu := clear_reg CR4 (bit 11).
Definition enable_pku : Cpu → Cpu := when (supports 7 ecx 3) (or_reg CR4 (bit 22)).
Definition disable_pku : Cpu → Cpu := clear_reg CR4 (bit 22).
Definition enable_rdpid : Cpu → Cpu := when (supports 7 ecx 22) (or_reg CR4 (bit 23)).
Definition enable_tme : Cpu → Cpu := when (supports 7 ecx 13) (or_reg (MSR 0x982) (bit 0)).
Definition enable_keylocker : Cpu → Cpu := when (supports 7 ecx 23) (or_reg CR4 (bit 24)).
Definition enable_wbnoinvd : Cpu → Cpu := when (supports 7 ecx 9) (or_reg (MSR 0x1a0) (bit 12)).
Definition enable_pconfig : Cpu → Cpu := when (supports 7 ecx 18) (or_reg (MSR 0x1a0) (bit 18)).
Definition enable_ibt : Cpu → Cpu := when (supports 7 ecx 20) (or_reg (MSR 0xC0000080) (bit 14)).
Definition enable_ssbd : Cpu → Cpu := when (supports 7 ecx 31) (or_reg (MSR 0x1a0) (bit 24)).
Definition enable_stibp : Cpu → Cpu := when (supports 7 ecx 27) (or_reg (MSR 0x1a0) (bit 15)).
Definition enable_ibpb : Cpu → Cpu := when (supports 7 ecx 26) (or_reg (MSR 0x1a0) (bit 14)).
Definition ibpb : Cpu → Cpu := or_reg (MSR 0x48) (bit 0).
Definition stibp : Cpu → Cpu := or_reg (MSR 0x48) (bit 1).
Definition ssbd : Cpu → Cpu := or_reg (MSR 0x48) (bit 2).
Definition clear_spec_ctrl : Cpu → Cpu := write_msr 0x48 0.
Definition enable_arch_capabilities : Cpu → Cpu := when (supports 7 edx 29) (or_reg (MSR 0x10a) (bit 0)).
Definition enable_flush_l1d : Cpu → Cpu := when (supports 7 edx 28) (or_reg (MSR 0x10a) (bit 1)).
Definition enable_md_clear : Cpu → Cpu := when (supports 7 edx 27) (or_reg (MSR 0x10a) (bit 2)).
Definition enable_tsx_ctrl : Cpu → Cpu := when (supports 7 edx 26) (or_reg (MSR 0x10a) (bit 3)).
Definition disable_taa : Cpu → Cpu := when (supports 7 edx 25) (or_reg (MSR 0x10a) (bit 4)).
Definition enable_bnti : Cpu → Cpu := when (supports 7 edx 24) (or_reg (MSR 0x10a) (bit 5)).
Definition enable_rtm_always_abort : Cpu → Cpu := when (supports 7 edx 23) (or_reg (MSR 0x10a) (bit 6)).
Definition enable_ppin : Cpu → Cpu := when (supports 7 edx 22) (or_reg (MSR 0x10a) (bit 7)).
Definition enable_cnp : Cpu → Cpu := when (supports 7 edx 21) (or_reg (MSR 0x10a) (bit 8)).
Definition enable_lbrv : Cpu → Cpu := when (supports 7 edx 20) (or_reg (MSR 0x10a) (bit 9)).
Definition enable_ptw : Cpu → Cpu := when (supports 7 edx 19) (or_reg (MSR 0x10a) (bit 10)).
Definition enable_pconfig_lock : Cpu → Cpu := when (supports 7 edx 18) (or_reg (MSR 0x10a) (bit 11)).
Definition enable_tme_key_locker : Cpu → Cpu := when (supports 7 edx 17) (or_reg (MSR 0x10a) (bit 12)).
Definition enable_hwp : Cpu → Cpu := when (supports 7 edx 16) (or_reg (MSR 0x10a) (bit 13)).
Definition enable_tme_multi_key : Cpu → Cpu := when (supports 7 edx 15) (or_reg (MSR 0x10a) (bit 14)).
Definition enable_ras_admin : Cpu → Cpu := when (supports 7 edx 14) (or_reg (MSR 0x10a) (bit 15)).
Definition enable_ras_cap : Cpu → Cpu := when (supports 7 edx 13) (or_reg (MSR 0x10a) (bit 16)).
Definition enable_ras_int : Cpu → Cpu := when (supports 7 edx 12) (or_reg (MSR 0x10a) (bit 17)).
Definition enable_ras_log : Cpu → Cpu := when (supports 7 edx 11) (or_reg (MSR 0x10a) (bit 18)).
Definition enable_ras_report : Cpu → Cpu := when (supports 7 edx 10) (or_reg (MSR 0x10a) (bit 19)).
Definition enable_ras_status : Cpu → Cpu := when (supports 7 edx 9) (or_reg (MSR 0x10a) (bit 20)).
Definition enable_ras_trigger : Cpu → Cpu := when (supports 7 edx 8) (or_reg (MSR 0x10a) (bit 21)).
Definition enable_ras_config : Cpu → Cpu := when (supports 7 edx 7) (or_reg (MSR 0x10a) (bit 22)).
Definition enable_ras_diag : Cpu → Cpu := when (supports 7 edx 6) (or_reg (MSR 0x10a) (bit 23)).
Definition enable_ras_error : Cpu → Cpu := when (supports 7 edx 5) (or_reg (MSR 0x10a) (bit 24)).
Definition enable_ras_fault : Cpu → Cpu := when (supports 7 edx 4) (or_reg (MSR 0x10a) (bit 25)).
Definition enable_ras_info : Cpu → Cpu := when (supports 7 edx 3) (or_reg (MSR 0x10a) (bit 26)).
Definition enable_ras_state : Cpu → Cpu := when (supports 7 edx 2) (or_reg (MSR 0x10a) (bit 27)).
Definition enable_ras_test : Cpu → Cpu := when (supports 7 edx 1) (or_reg (MSR 0x10a) (bit 28)).
Definition enable_ras_debug : Cpu → Cpu := when (supports 7 edx 0) (or_reg (MSR 0x10a) (bit 29)).

(** The calls of [enable_all_features], in order. *)
Definition all_features : list (Cpu → Cpu) := [
  enable_sse; enable_avx; enable_nxe_bit;
  enable_write_protect; enable_global_pages; enable_smap;
  enable_smep; enable_fsgsbase_if_supported; enable_pat;
  enable_pge; enable_pae; enable_pcid;
  enable_supervisor_mode_execution_protection; enable_supervisor_mode_access_prevention; enable_fpu;
  enable_monitor_mwait; enable_adaptive_tickless; enable_rdtscp;
  enable_syscall_msrs; enable_xsave; enable_fxrstor_optimizations;
  enable_xsaveopt; enable_cet_shadow_stack; enable_cet_indirect_branch_tracking;
  enable_umip; enable_pku; enable_rdpid;
  enable_tme; enable_keylocker; enable_wbnoinvd;
  enable_pconfig; enable_ibt; enable_ssbd;
  enable_stibp; enable_ibpb; enable_arch_capabilities;
  enable_flush_l1d; enable_md_clear; enable_tsx_ctrl;
  disable_taa; enable_bnti; enable_rtm_always_abort;
  enable_ppin; enable_cnp; enable_lbrv;
  enable_ptw; enable_pconfig_lock; enable_tme_key_locker;
  enable_hwp; enable_tme_multi_key; enable_ras_admin;
  enable_ras_cap; enable_ras_int; enable_ras_log;
  enable_ras_report; enable_ras_status; enable_ras_trigger;
  enable_ras_config; enable_ras_diag; enable_ras_error;
  enable_ras_fault; enable_ras_info; enable_ras_state;
  enable_ras_test; enable_ras_debug].
Definition enable_all_features (s : Cpu) : Cpu := foldl (λ s f, f s) s all_features.
End cpu.
