(* ===== verification/Instructions.v ===== *)
(** * Instructions without state (src/arch/cpu.rs, src/sync/spinlock.rs, src/main.rs)

    Functions whose only effect is to issue processor instructions that change no
    register or memory of the model: halting, spin hints, monitoring, cache and TLB
    control.  Each is the sequence of instructions it issues; on x86_64
    [core::hint::spin_loop] is the instruction [pause]. *)

From S2P Require Import Prelude.
Open Scope Z_scope.

Inductive instr : Type :=
| Sti
| Hlt
| Pause
| Monitor (eax ecx edx : Z)
| Mwait (eax ecx : Z)
| Invlpg (addr : Z)
| Wbnoinvd
| Wbpinvd
| Pconfig
| FlushL1d
| MdClear.
#[export] Instance instr_eq_dec : EqDecision instr.
Proof. solve_decision. Defined.

(** ** Processor primitives (src/arch/cpu.rs) *)

Definition halt : list instr := [Hlt].
Definition invlpg (addr : Z) : list instr := [Invlpg addr].
Definition wait_for_interrupt : list instr := [Sti; Hlt].
Definition pause : list instr := [Pause].
Definition monitor (eax ecx edx : Z) : list instr := [Monitor eax ecx edx].
Definition mwait (eax ecx : Z) : list instr := [Mwait eax ecx].
Definition wbnoinvd : list instr := [Wbnoinvd].
Definition wbpinvd : list instr := [Wbpinvd].
Definition pconfig : list instr := [Pconfig].
Definition flush_l1d_cache : list instr := [FlushL1d].
Definition md_clear : list instr := [MdClear].

(** ** Spin hints (src/sync/spinlock.rs) *)

Definition spin_loop : list instr := [Pause].

(** [for _ in 0..n { spin_loop() }]. *)
Definition spin_times (n : nat) : list instr := concat (replicate n spin_loop).
Definition spin_hint : list instr := spin_loop.
Definition cpu_relax : list instr := spin_loop.
Definition pause_cpu : list instr := [Pause].
Definition yield_spin : list instr := spin_times 10.
Definition yield_current_thread : list instr := spin_times 50.
Definition busy_wait : list instr := spin_times 100.

(** ** Endless halting (src/main.rs) *)

(** [loop { halt() }] never returns; what it issues in its first [n] iterations. *)
Fixpoint halt_loop (n : nat) : list instr :=
  match n with O => [] | S n' => halt ++ halt_loop n' end.
Definition halt_cpu (n : nat) : list instr := halt_loop n.
Definition enter_idle_state (n : nat) : list instr := halt_loop n.

(** ** Properties *)

Lemma spin_times_length n : length (spin_times n) = n.
Proof. induction n as [|n IH]; [done|]. unfold spin_times in *. simpl. by rewrite IH. Qed.

(** Every waiting helper issues [pause] only, as often as its loop runs. *)
Lemma spin_times_pause n : spin_times n = replicate n Pause.
Proof. induction n as [|n IH]; [done|]. unfold spin_times in *. simpl. by rewrite IH. Qed.

(** [halt_cpu] and [enter_idle_state] halt without enabling interrupts, and
    [wait_for_interrupt] enables them directly before it halts. *)
Lemma halting_leaves_interrupts n :
  (Sti ∉ halt_cpu n) ∧ (Sti ∉ enter_idle_state n) ∧ wait_for_interrupt = Sti :: halt.
Proof.
  assert (Sti ∉ halt_loop n) as H by (induction n; simpl; set_solver).
  done.
Qed.
