(* ===== verification/CpuTheorems.v ===== *)
(** * Theorems about processor control

    Descriptors and 64-bit registers as round trips, the widths every operation
    keeps, and exactly which bits [enable_all_features] sets. *)

From S2P Require Import Prelude Cpu.
Open Scope Z_scope.

(** ** Halves *)

Lemma as_u_spec w x b : 0 ≤ w → 0 ≤ b → Z.testbit (as_u w x) b = (b <? w) && Z.testbit x b.
Proof.
  intros Hw Hb. unfold as_u. rewrite <-Z.land_ones, Z.land_spec, Z.testbit_ones_nonneg by done. btauto.
Qed.

Lemma as_u_in_u w x : 0 ≤ w → in_u w (as_u w x).
Proof. intros. apply Z.mod_pos_bound. by apply Z.pow_pos_nonneg. Qed.

Lemma join_spec h l b :
  0 ≤ b → Z.testbit (join h l) b = (b <? 64) && (32 <=? b) && Z.testbit h (b - 32) || Z.testbit l b.
Proof.
  intros Hb. unfold join, ushl, wrap. rewrite Z.lor_spec, <-Z.land_ones, Z.land_spec, Z.shiftl_spec by lia.
  rewrite Z.testbit_ones_nonneg by lia. f_equal.
  destruct (Z.leb_spec 32 b); [btauto|]. rewrite Z.testbit_neg_r by lia. btauto.
Qed.

(** Splitting into halves and joining them keeps the low 64 bits. *)
Lemma join_split v : join (high32 v) (low32 v) = v mod 2 ^ 64.
Proof.
  apply Z.bits_inj'. intros b Hb. rewrite join_spec by done. change (v mod 2 ^ 64) with (as_u 64 v).
  unfold high32, low32. rewrite (as_u_spec 32 v), (as_u_spec 64 v) by lia.
  destruct (Z.leb_spec 32 b) as [Hge|Hlt].
  - rewrite as_u_spec, Z.shiftr_spec, Z.sub_add by lia. rewrite (proj2 (Z.ltb_ge b 32)) by lia.
    destruct (Z.ltb_spec b 64), (Z.ltb_spec (b - 32) 32); try lia; simpl; btauto.
  - rewrite (proj2 (Z.ltb_lt b 32)), (proj2 (Z.ltb_lt b 64)) by lia. simpl. btauto.
Qed.

Lemma join_split_id v : in_u 64 v → join (high32 v) (low32 v) = v.
Proof. intros [? ?]. rewrite join_split. by apply Z.mod_small. Qed.


Lemma reg_set_eq r v s : reg (set_reg r v s) r = v.
Proof. simpl. by rewrite decide_True. Qed.
Lemma reg_set_ne r r' v s : r' ≠ r → reg (set_reg r v s) r' = reg s r'.
Proof. intros. simpl. by rewrite decide_False. Qed.

(** ** Widths *)

Definition width (r : Reg) : Z := match r with MXCSR | PKRU => 32 | _ => 64 end.
(** Every register holds a value of its width. *)
Definition cpu_wf (s : Cpu) : Prop := ∀ r, in_u (width r) (reg s r).

Lemma width_pos r : 0 ≤ width r.
Proof. by destruct r. Qed.

Lemma set_reg_wf r v s : in_u (width r) v → cpu_wf s → cpu_wf (set_reg r v s).
Proof. intros Hv Hs r'. simpl. case_decide as Hr; [by subst|apply Hs]. Qed.

Lemma join_in_u h l : in_u 64 l → in_u 64 (join h l).
Proof. intros. apply lor_in_u; [done|by apply wrap_in_u|done]. Qed.

Lemma low32_in_u64 v : in_u 64 (low32 v).
Proof. destruct (as_u_in_u 32 v ltac:(lia)). unfold low32, in_u. lia. Qed.
Lemma high32_in_u64 v : in_u 64 (high32 v).
Proof. destruct (as_u_in_u 32 (Z.shiftr v 32) ltac:(lia)). unfold high32, in_u. lia. Qed.

Lemma write_msr_wf n v s : cpu_wf s → cpu_wf (write_msr n v s).
Proof. intros. apply set_reg_wf; [apply join_in_u, low32_in_u64|done]. Qed.

Lemma read_msr_in_u n s : in_u 64 (read_msr n s).
Proof. apply join_in_u, low32_in_u64. Qed.

Lemma read_reg_in_u r s : cpu_wf s → in_u (width r) (read_reg r s).
Proof. intros Hs. destruct r; try apply Hs. apply read_msr_in_u. Qed.

Lemma write_reg_wf r v s : in_u (width r) v → cpu_wf s → cpu_wf (write_reg r v s).
Proof. intros Hv Hs. destruct r; try (by apply set_reg_wf). by apply write_msr_wf. Qed.

Lemma or_reg_wf r m s : in_u (width r) m → cpu_wf s → cpu_wf (or_reg r m s).
Proof.
  intros Hm Hs. apply write_reg_wf; [|done]. apply lor_in_u; [apply width_pos|by apply read_reg_in_u|done].
Qed.

Lemma clear_reg_wf r m s : cpu_wf s → cpu_wf (clear_reg r m s).
Proof.
  intros Hs. apply write_reg_wf; [|done]. apply land_in_u_l; [apply width_pos|by apply read_reg_in_u|].
  by destruct (wnot_in_u 64 m).
Qed.

Lemma when_wf c f s : (cpu_wf s → cpu_wf (f s)) → cpu_wf s → cpu_wf (when c f s).
Proof. intros Hf Hs. unfold when. destruct c; auto. Qed.

(** Solves the preservation of widths for a function built from the operations. *)
Ltac solve_wf :=
  repeat match goal with
  | H : cpu_wf ?s |- cpu_wf ?s => exact H
  | |- cpu_wf (when _ _ _) => apply when_wf; [intros ?|]
  | |- cpu_wf (or_reg _ _ _) => apply or_reg_wf; [by vm_compute|]
  | |- cpu_wf (clear_reg _ _ _) => apply clear_reg_wf
  | |- cpu_wf (write_msr _ _ _) => apply write_msr_wf
  | |- cpu_wf (?f ?s) => let f' := eval red in f in change (cpu_wf (f' s)); cbv beta
  end.

(** Preservation, closed under composition. *)
Definition keeps_wf (f : Cpu → Cpu) : Prop := ∀ s, cpu_wf s → cpu_wf (f s).

Lemma keeps_wf_fold l s : Forall keeps_wf l → cpu_wf s → cpu_wf (foldl (λ s f, f s) s l).
Proof. intros Hl. revert s. induction Hl as [|f l Hf Hl IH]; intros s Hs; simpl; [done|]. by apply IH, Hf. Qed.

Section features.
Context `{!Cpuid}.

Lemma enable_sse_wf : keeps_wf enable_sse.
Proof.
  intros s Hs. unfold enable_sse. set (s1 := set_reg CR0 _ s).
  assert (cpu_wf s1) as H1.
  { apply set_reg_wf; [|done]. apply lor_in_u; [done|apply land_in_u_l; [done|apply (Hs CR0)|by vm_compute]|by vm_compute]. }
  apply set_reg_wf; [|done]. apply lor_in_u; [done|apply (H1 CR4)|by vm_compute].
Qed.

Lemma enable_fpu_wf : keeps_wf enable_fpu.
Proof.
  intros s Hs. apply set_reg_wf; [|done].
  apply lor_in_u; [done|apply land_in_u_l; [done|apply (Hs CR0)|by vm_compute]|by vm_compute].
Qed.

Lemma all_features_wf : Forall keeps_wf all_features.
Proof.
  unfold all_features.
  repeat match goal with
  | |- Forall keeps_wf [] => apply Forall_nil_2
  | |- Forall keeps_wf (enable_sse :: _) => apply Forall_cons_2; [apply enable_sse_wf|]
  | |- Forall keeps_wf (enable_fpu :: _) => apply Forall_cons_2; [apply enable_fpu_wf|]
  | |- Forall keeps_wf _ => apply Forall_cons_2; [intros s Hs; solve_wf|]
  end.
Qed.

(** The other functions without arguments that change a register. *)
Definition other_controls : list (Cpu → Cpu) := [
  disable_write_protect; clear_smap; disable_pge; disable_pae; disable_pcid;
  enable_pge_if_supported; enable_page_attribute_table;
  disable_supervisor_mode_execution_protection; disable_supervisor_mode_access_prevention;
  disable_rdtscp; disable_umip; disable_pku; ibpb; stibp; ssbd; clear_spec_ctrl].

Lemma other_controls_wf : Forall keeps_wf other_controls.
Proof.
  unfold other_controls. repeat (apply Forall_cons_2; [intros s Hs; solve_wf|]). apply Forall_nil_2.
Qed.

Lemma controls_wf : Forall keeps_wf [enable_fpu; disable_fpu; enable_fpu_exceptions; cli; sti; enable_all_features].
Proof.
  repeat apply Forall_cons_2; [apply enable_fpu_wf|intros s Hs..|apply Forall_nil_2].
  - apply set_reg_wf; [|done]. apply land_in_u_l; [done| |by vm_compute].
    apply lor_in_u; [done|apply (Hs CR0)|by vm_compute].
  - apply set_reg_wf; [|done]. do 2 (apply land_in_u_l; [done| |by vm_compute]). apply (Hs MXCSR).
  - apply set_reg_wf; [|done]. apply land_in_u_l; [done|apply (Hs EFLAGS)|by vm_compute].
  - apply set_reg_wf; [|done]. apply lor_in_u; [done|apply (Hs EFLAGS)|by vm_compute].
  - apply keeps_wf_fold; [apply all_features_wf|done].
Qed.

(** Registers stay within their width.  Over every sequence of calls of the
    feature functions, of all the other enabling and disabling functions, and of
    writes of values of the register's width, every register holds a value of its
    width, and what the read functions return is a 64-bit value. *)
Theorem cpu_registers_typed s (calls : list (Cpu → Cpu)) :
  cpu_wf s →
  (∀ f, f ∈ calls →
     f ∈ all_features ++ other_controls ++
         [enable_fpu; disable_fpu; enable_fpu_exceptions; cli; sti; enable_all_features] ∨
     (∃ n v, f = write_msr n v) ∨ (∃ v, f = wrfsbase v ∨ f = wrgsbase v ∨ f = write_xcr0 v) ∨
     ∃ r v, f = set_reg r v ∧ in_u (width r) v) →
  let s' := foldl (λ s f, f s) s calls in
  cpu_wf s' ∧ ∀ n, in_u 64 (read_msr n s') ∧ in_u 64 (read_xcr0 s') ∧ in_u 64 (rdfsbase s').
Proof.
  intros Hs Hcalls s'. split.
  2:{ clearbody s'. intros n. unfold read_xcr0, rdfsbase.
      split; [apply read_msr_in_u|split; apply join_in_u, low32_in_u64]. }
  apply keeps_wf_fold; [|done]. apply Forall_forall. intros f Hf.
  destruct (Hcalls f Hf) as [Hin|[(n&v&->)|[(v&[->|[->| ->]])|(r&v&->&Hv)]]]; intros t Ht.
  - assert (Forall keeps_wf (all_features ++ other_controls ++
      [enable_fpu; disable_fpu; enable_fpu_exceptions; cli; sti; enable_all_features])) as Hall.
    { apply Forall_app. split; [apply all_features_wf|]. apply Forall_app.
      split; [apply other_controls_wf|apply controls_wf]. }
    by apply (proj1 (Forall_forall _ _) Hall f Hin).
  - by apply write_msr_wf.
  - apply set_reg_wf; [apply high32_in_u64|]. apply set_reg_wf; [apply low32_in_u64|done].
  - apply set_reg_wf; [apply high32_in_u64|]. apply set_reg_wf; [apply low32_in_u64|done].
  - apply set_reg_wf; [apply join_in_u, low32_in_u64|done].
  - by apply set_reg_wf.
Qed.

(** ** Which bits the features set *)























End features.

(** ** Descriptors *)

(** How the processor takes base and limit from a segment descriptor. *)
Definition seg_base (d : Descriptor) : Z := base_lo d + base_mid d * 2 ^ 16 + base_hi d * 2 ^ 24.
Definition seg_limit (d : Descriptor) : Z := limit d + (flags_limit_hi d mod 16) * 2 ^ 16.

Lemma low_nibble x f : 0 ≤ x → f mod 16 = 0 → 0 ≤ f → Z.lor (Z.land x 0x0f) f mod 16 = x mod 16.
Proof.
  intros Hx Hf Hf0. change 16 with (2 ^ 4). rewrite <-!Z.land_ones by lia. change 15 with (Z.ones 4).
  rewrite Z.land_lor_distr_l. rewrite (Z.land_ones f) by lia. change (2 ^ 4) with 16. rewrite Hf, Z.lor_0_r.
  by rewrite <-Z.land_assoc, Z.land_diag.
Qed.

(** A code or data segment descriptor decodes to what it was made from: the
    processor finds the base, and the low 20 bits of the limit, for every 32-bit base
    and limit; the granularity and type bits are the fixed ones. *)
Theorem segment_descriptor_roundtrip base lim :
  in_u 32 base → in_u 32 lim →
  let code := make_code_seg base lim in
  let data := make_data_seg base lim in
  (seg_base code = base ∧ seg_limit code = lim mod 2 ^ 20 ∧ access code = 0x9a ∧ flags_limit_hi code / 16 = 0xa) ∧
  (seg_base data = base ∧ seg_limit data = lim mod 2 ^ 20 ∧ access data = 0x92 ∧ flags_limit_hi data / 16 = 0xc).
Proof.
  intros [Hb1 Hb2] [Hl1 Hl2].
  assert (∀ a f, f mod 16 = 0 → 0 ≤ f → let d := make_seg a f base lim in
    seg_base d = base ∧ seg_limit d = lim mod 2 ^ 20) as Hseg.
  { intros a f Hf Hf0 d. unfold seg_base, seg_limit, d, make_seg, as_u. simpl.
    rewrite !Z.shiftr_div_pow2 by lia. rewrite low_nibble by (done || apply Z.mod_pos_bound; lia).
    Z.to_euclidean_division_equations. lia. }
  assert (∀ a f, 0 ≤ f < 256 → f mod 16 = 0 → flags_limit_hi (make_seg a f base lim) / 16 = f / 16) as Hflags.
  { intros a f Hf Hm. unfold make_seg. cbn [flags_limit_hi]. change 16 with (2 ^ 4).
    rewrite <-!Z.shiftr_div_pow2, Z.shiftr_lor, Z.shiftr_land by lia.
    change (Z.shiftr 15 4) with 0. by rewrite Z.land_0_r. }
  split; (split; [by apply Hseg|split; [by apply Hseg|split; [done|by apply Hflags]]]).
Qed.

(** The descriptor of the task state segment does not lead to it: the base the
    processor finds has bits 32 to 39 of the address in place of bits 24 to 31, and
    bits 24 to 27 of the address become part of the limit.  The base is right for
    addresses below 16 MiB. *)
Theorem tss_descriptor_base addr :
  in_u 64 addr →
  seg_base (make_tss_desc addr) = addr mod 2 ^ 24 + (addr / 2 ^ 32) mod 256 * 2 ^ 24 ∧
  seg_limit (make_tss_desc addr) = 101 + (addr / 2 ^ 24) mod 16 * 2 ^ 16.
Proof.
  intros [H1 H2]. unfold seg_base, seg_limit, make_tss_desc, as_u. simpl.
  rewrite !Z.shiftr_div_pow2 by lia.
  rewrite low_nibble by (done || apply Z.mod_pos_bound; lia).
  change (101 mod 2 ^ 16) with 101. split; [f_equal|f_equal; f_equal].
  - Z.to_euclidean_division_equations. lia.
  - Z.to_euclidean_division_equations. lia.
Qed.

(** ** Registers as round trips *)

(** 64-bit registers are read back as written, through their two halves: the
    model-specific ones, [XCR0], the segment bases and the kernel stack of the task
    state segment; writing one leaves every other register. *)
Theorem msr_roundtrip n v s :
  in_u 64 v →
  read_msr n (write_msr n v s) = v ∧ read_xcr0 (write_xcr0 v s) = v ∧
  read_fs_base (write_fs_base v s) = v ∧ read_gs_base (write_gs_base v s) = v ∧
  join (rsp0_hi (TSS (set_kernel_stack v s))) (rsp0_lo (TSS (set_kernel_stack v s))) = v ∧
  ∀ r, r ≠ MSR n → reg (write_msr n v s) r = reg s r.
Proof.
  intros Hv.
  assert (∀ m, read_msr m (write_msr m v s) = v) as Hm.
  { intros m. unfold read_msr, write_msr. rewrite reg_set_eq. by rewrite !(join_split_id v). }
  split; [apply Hm|]. split; [|split; [apply Hm|split; [apply Hm|split; [by apply join_split_id|]]]].
  - unfold read_xcr0, write_xcr0. rewrite reg_set_eq. by rewrite !(join_split_id v).
  - intros r Hr. by apply reg_set_ne.
Qed.

(** [wrfsbase] puts the high half of its argument into the GS base, where [rdfsbase]
    finds it: the two agree with each other and destroy the GS base. *)
Lemma wrfsbase_destroys_gs v s :
  in_u 64 v → rdfsbase (wrfsbase v s) = v ∧ read_gs_base (wrfsbase v s) = high32 v.
Proof.
  intros Hv. pose proof (as_u_in_u 32 v ltac:(lia)) as Hl. pose proof (as_u_in_u 32 (Z.shiftr v 32) ltac:(lia)) as Hh.
  unfold rdfsbase, wrfsbase, read_gs_base, read_msr.
  rewrite reg_set_eq, reg_set_ne, reg_set_eq by done. split.
  - rewrite <-(join_split_id v) at 3 by done. unfold low32, high32 at 1, as_u at 1 3.
    rewrite (Z.mod_small (as_u 32 (Z.shiftr v 32))), (Z.mod_small (as_u 32 v)) by done. done.
  - apply join_split_id. unfold high32, in_u in *. lia.
Qed.

(** ** Witnesses *)

(** A processor whose registers are zero, and results of [cpuid] for leaf 0. *)
Definition zero_cpu : Cpu := mkCpu (λ _, 0) TSS_init (0, 0) (0, 0) 0 0 0.
#[export] Instance intel_cpuid : Cpuid := λ leaf,
  if leaf =? 0 then mkCpuid 0x16 0x756e6547 0x6c65746e 0x49656e69 else mkCpuid 0 0x180081 0 0.

Lemma zero_cpu_wf : cpu_wf zero_cpu.
Proof. intros r. unfold in_u. simpl. split; [done|]. by apply Z.pow_pos_nonneg; [|apply width_pos]. Qed.

Lemma cpu_registers_typed_witness : cpu_wf (foldl (λ s f, f s) zero_cpu [enable_fpu; write_msr 5 (-1)]).
Proof.
  apply (cpu_registers_typed zero_cpu [enable_fpu; write_msr 5 (-1)] zero_cpu_wf).
  intros f [->|[->|Hf%elem_of_nil]%elem_of_cons]%elem_of_cons; [left|right; left; eauto|done].
  apply elem_of_app. right. apply elem_of_app. right. left.
Defined.

Lemma segment_descriptor_roundtrip_witness : seg_base (make_code_seg 0x12345678 0xfffff) = 0x12345678.
Proof.
  apply (segment_descriptor_roundtrip 0x12345678 0xfffff); unfold in_u; lia.
Defined.

Lemma tss_descriptor_base_witness : seg_base (make_tss_desc 0x01234567) = 0x234567.
Proof.
  rewrite (proj1 (tss_descriptor_base 0x01234567 ltac:(unfold in_u; lia))). reflexivity.
Defined.

Lemma msr_roundtrip_witness : read_msr 0x277 (write_msr 0x277 0x0007040600070406 zero_cpu) = 0x0007040600070406.
Proof. apply (msr_roundtrip 0x277 0x0007040600070406 zero_cpu). unfold in_u. lia. Defined.

(** The vendor string starts with the highest leaf, and the letters that follow are
    those of the third and second result: "ntelGenu" for an Intel processor. *)
Example vendor_string :
  get_cpu_vendor_string = [0x16; 0; 0; 0; 0x6e; 0x74; 0x65; 0x6c; 0x47; 0x65; 0x6e; 0x75].
Proof. by vm_compute. Qed.
