(* ===== verification/Idt.v ===== *)
(** * The interrupt descriptor table (src/arch/idt.rs)

    The 256 gates, the register the processor finds them through, the installers
    and the mask bits of the interrupt lines.  The assembly entry points the
    gates refer to are parameters, one address each.  The functions on interrupt
    lines read and write memory at the addresses 0x20, 0x21, 0xA0 and 0xA1, as
    the source does, not ports. *)

From S2P Require Import Prelude.
From stdpp Require Import strings.
Open Scope Z_scope.

Record IdtEntry := {
  offset_low : Z;
  selector : Z;
  ist : Z;
  types_attr : Z;
  offset_mid : Z;
  offset_high : Z;
  reserved : Z
}.
#[export] Instance IdtEntry_eq_dec : EqDecision IdtEntry.
Proof. solve_decision. Defined.

Definition entry_new : IdtEntry :=
  {| offset_low := 0; selector := 0; ist := 0; types_attr := 0; offset_mid := 0;
     offset_high := 0; reserved := 0 |}.

(** [set_handler] overwrites every field of the entry it is called on. *)
Definition set_handler (addr attr sel i : Z) : IdtEntry :=
  {| offset_low := Z.land addr 0xFFFF;
     offset_mid := Z.land (Z.shiftr addr 16) 0xFFFF;
     offset_high := Z.land (Z.shiftr addr 32) 0xFFFFFFFF;
     types_attr := attr;
     selector := sel;
     ist := Z.land i 0x7;
     reserved := 0 |}.

(** The functions of the [extern] block. *)
Inductive Stub :=
| divide_error_entry | debug_entry | nmi_entry | breakpoint_entry | overflow_entry
| bound_range_exceeded_entry | invalid_opcode_entry | device_not_available_entry
| double_fault_entry | coprocessor_segment_overrun_entry | invalid_tss_entry
| segment_not_present_entry | stack_segment_fault_entry | general_protection_fault_entry
| page_fault_entry | x87_fpu_floating_point_error_entry | alignment_check_entry
| machine_check_entry | simd_floating_point_exception_entry | virtualization_exception_entry
| security_exception_entry | syscall_entry | default_handler_entry.

(** The table, the operand of the last [lidt], the interrupt flag, the bytes of
    low memory and what was written to ports. *)
Record Idt := {
  entries : list IdtEntry;
  idtr : option (Z * Z);
  interrupts : bool;
  memory : Z → Z;
  port_log : list (Z * Z)
}.

Definition boot : Idt :=
  {| entries := replicate 256 entry_new; idtr := None; interrupts := false;
     memory := λ _, 0; port_log := [] |}.

Definition with_entries (s : Idt) (l : list IdtEntry) : Idt :=
  {| entries := l; idtr := idtr s; interrupts := interrupts s; memory := memory s;
     port_log := port_log s |}.
Definition with_memory (s : Idt) (m : Z → Z) : Idt :=
  {| entries := entries s; idtr := idtr s; interrupts := interrupts s; memory := m;
     port_log := port_log s |}.
Definition with_interrupts (s : Idt) (b : bool) : Idt :=
  {| entries := entries s; idtr := idtr s; interrupts := b; memory := memory s;
     port_log := port_log s |}.

(** [IDT[i] = e], bounds checked. *)
Definition put_entry (s : Idt) (i : Z) (e : IdtEntry) : outcome Idt :=
  match entries s !! Z.to_nat i with
  | Some _ => Ret (with_entries s (<[Z.to_nat i := e]> (entries s)))
  | None => Panic
  end.

Inductive GateType := InterruptGate | TrapGate | TaskGate.
#[export] Instance GateType_eq_dec : EqDecision GateType.
Proof. solve_decision. Defined.
Definition gate_code (g : GateType) : Z :=
  match g with InterruptGate => 0xE | TrapGate => 0xF | TaskGate => 0x5 end.

Record IdtGate := {
  gate_offset : Z;
  gate_selector : Z;
  gate_type : GateType;
  dpl : Z;
  present : bool
}.
Definition gate_new (o sel : Z) (g : GateType) (d : Z) (p : bool) : IdtGate :=
  {| gate_offset := o; gate_selector := sel; gate_type := g; dpl := d; present := p |}.
Definition build (g : IdtGate) : Z :=
  let attr := gate_code (gate_type g) in
  let attr := if present g then Z.lor attr 0x80 else attr in
  Z.lor attr (ushl 8 (Z.land (dpl g) 0x3) 5).

Inductive ExceptionVector :=
| DivideError | Debug | NMI | Breakpoint | Overflow | BoundRangeExceeded | InvalidOpcode
| DeviceNotAvailable | DoubleFault | CoprocessorSegmentOverrun | InvalidTSS
| SegmentNotPresent | StackSegmentFault | GeneralProtectionFault | PageFault
| X87FPUFloatingPointError | AlignmentCheck | MachineCheck | SIMDFloatingPointException
| VirtualizationException | SecurityException.
Definition vector_number (v : ExceptionVector) : Z :=
  match v with
  | DivideError => 0 | Debug => 1 | NMI => 2 | Breakpoint => 3 | Overflow => 4
  | BoundRangeExceeded => 5 | InvalidOpcode => 6 | DeviceNotAvailable => 7
  | DoubleFault => 8 | CoprocessorSegmentOverrun => 9 | InvalidTSS => 10
  | SegmentNotPresent => 11 | StackSegmentFault => 12 | GeneralProtectionFault => 13
  | PageFault => 14 | X87FPUFloatingPointError => 16 | AlignmentCheck => 17
  | MachineCheck => 18 | SIMDFloatingPointException => 19
  | VirtualizationException => 20 | SecurityException => 30
  end.

Definition is_reserved (vector : Z) : bool := (vector =? 15) || (vector =? 31).

(** The exception gates [init_idt] sets one by one: vector, entry point, stack. *)
Definition exception_gates : list (Z * Stub * Z) :=
  [(0, divide_error_entry, 0); (1, debug_entry, 0); (2, nmi_entry, 0);
   (3, breakpoint_entry, 0); (4, overflow_entry, 0); (5, bound_range_exceeded_entry, 0);
   (6, invalid_opcode_entry, 0); (7, device_not_available_entry, 0);
   (8, double_fault_entry, 1); (9, coprocessor_segment_overrun_entry, 0);
   (10, invalid_tss_entry, 0); (11, segment_not_present_entry, 0);
   (12, stack_segment_fault_entry, 0); (13, general_protection_fault_entry, 0);
   (14, page_fault_entry, 0); (15, default_handler_entry, 0);
   (16, x87_fpu_floating_point_error_entry, 0); (17, alignment_check_entry, 0);
   (18, machine_check_entry, 0); (19, simd_floating_point_exception_entry, 0);
   (20, virtualization_exception_entry, 0); (30, security_exception_entry, 0)].

Section idt.
Context {prof : Profile}.
(** The addresses of the entry points and of the table. *)
Context (entry_point : Stub → Z) (idt_address : Z).
Implicit Types (s : Idt).

Fixpoint put_gates s (l : list (Z * Stub * Z)) : outcome Idt :=
  match l with
  | [] => Ret s
  | (v, stub, i) :: l' =>
      s1 ← put_entry s v (set_handler (entry_point stub) 0x8E 0x08 i);
      put_gates s1 l'
  end.

Definition load_idt s : Idt :=
  {| entries := entries s; idtr := Some (16 * 256 - 1, idt_address);
     interrupts := interrupts s; memory := memory s; port_log := port_log s |}.

Definition default_gate : IdtEntry := set_handler (entry_point default_handler_entry) 0x8E 0x08 0.

Definition init_idt s : outcome Idt :=
  s1 ← put_gates s exception_gates;
  s2 ← for_each 32 48 (λ i s, put_entry s i default_gate) s1;
  s3 ← put_entry s2 0x80 (set_handler (entry_point syscall_entry) 0xEE 0x08 0);
  s4 ← for_each 48 256 (λ i s,
    if negb (is_reserved i) then put_entry s i default_gate else Ret s) s3;
  Ret (load_idt s4).

Definition enable_interrupts s : Idt := with_interrupts s true.
Definition disable_interrupts s : Idt := with_interrupts s false.

(** [set_gate] does not use its last argument. *)
Definition set_gate s (index handler : Z) (g : GateType) (_dpl : Z) : outcome Idt :=
  if index <? 256 then
    let attr := if decide (g = TrapGate) then 0xEF else 0x8E in
    put_entry s index (set_handler handler attr 0x08 0)
  else Ret s.

Definition install_isr s (index handler : Z) : outcome Idt :=
  set_gate s index handler InterruptGate 0.
Definition install_user_isr s (index handler : Z) : outcome Idt :=
  set_gate s index handler TrapGate 3.

Definition set_exception_handler s (v : ExceptionVector) (handler : Z) : outcome Idt :=
  put_entry s (vector_number v) (set_handler handler 0x8E 0x08 0).

(** [irq + 32] is a [u8] addition. *)
Definition install_irq_handler s (irq handler : Z) : outcome Idt :=
  vector ← checked 8 (irq + 32);
  set_gate s vector handler InterruptGate 0.
Definition install_user_irq_handler s (irq handler : Z) : outcome Idt :=
  vector ← checked 8 (irq + 32);
  set_gate s vector handler TrapGate 3.

Definition update_idt_entry s (index offset sel i attr : Z) : outcome Idt :=
  put_entry s index (set_handler offset attr sel i).

Definition get_entry s (i : Z) : outcome IdtEntry :=
  match entries s !! Z.to_nat i with Some e => Ret e | None => Panic end.

Definition set_ist_for_vector s (vector ist_index : Z) : outcome Idt :=
  if vector <? 255 then
    e ← get_entry s vector;
    put_entry s vector
      {| offset_low := offset_low e; selector := selector e; ist := Z.land ist_index 0x7;
         types_attr := types_attr e; offset_mid := offset_mid e;
         offset_high := offset_high e; reserved := reserved e |}
  else Ret s.

Definition get_ist_for_vector s (vector : Z) : outcome Z :=
  if vector <? 255 then e ← get_entry s vector; Ret (ist e) else Ret 0.

(** Writes to the interrupt controllers. *)
Definition remap_pic s : Idt :=
  {| entries := entries s; idtr := idtr s; interrupts := interrupts s; memory := memory s;
     port_log := port_log s ++
       [(0x20, 0x11); (0xA0, 0x11); (0x21, 0x20); (0xA1, 0x28); (0x21, 0x04); (0xA1, 0x02);
        (0x21, 0x01); (0xA1, 0x01); (0xA1, 0xFF); (0x21, 0xFB)] |}.

Definition poke s (a v : Z) : Idt := with_memory s (λ b, if b =? a then v else memory s b).

Definition mask_pic_irq s (line : Z) : Idt :=
  let port := if line <? 8 then 0x21 else 0xA1 in
  poke s port (Z.lor (memory s port) (bit (line mod 8))).
Definition unmask_pic_irq s (line : Z) : Idt :=
  let port := if line <? 8 then 0x21 else 0xA1 in
  poke s port (Z.land (memory s port) (wnot 8 (bit (line mod 8)))).

Definition enable_irq_line s (irq : Z) : Idt :=
  if irq <? 16 then
    let port := if irq <? 8 then 0x21 else 0xA1 in
    let shift := if irq <? 8 then irq else irq - 8 in
    poke s port (Z.land (memory s port) (wnot 8 (bit shift)))
  else s.
Definition disable_irq_line s (irq : Z) : Idt :=
  if irq <? 16 then
    let port := if irq <? 8 then 0x21 else 0xA1 in
    let shift := if irq <? 8 then irq else irq - 8 in
    poke s port (Z.lor (memory s port) (bit shift))
  else s.

Definition eoi s (irq : Z) : Idt :=
  let s1 := if 8 <=? irq then poke s 0xA0 0x20 else s in
  poke s1 0x20 0x20.
End idt.

(** The panic of [handle_exception]: its format string and arguments. *)
Definition handle_exception (vector err_code rip : Z) : string * list Z :=
  if vector =? 0 then ("Divide by zero", []) else
  if vector =? 6 then ("Invalid opcode at {:#x}", [rip]) else
  if vector =? 8 then ("Double fault with err_code={:#x} at {:#x}", [err_code; rip]) else
  if vector =? 13 then ("General protection fault with err_code={:#x} at {:#x}", [err_code; rip]) else
  if vector =? 14 then ("Page fault at {:#x} with err_code={:#x}", [err_code; rip]) else
  ("Unhandled exception {} at {:#x}", [vector; rip]).

(** The placeholders behind the interrupt and the system call gate. *)
Definition handle_irq (vector : Z) : () := ().
Definition handle_syscall (number arg1 arg2 arg3 arg4 arg5 : Z) : Z := 0.

(** ** What the processor reads *)

(** The handler address the processor puts together from a gate. *)
Definition handler_address (e : IdtEntry) : Z :=
  Z.lor (offset_low e) (Z.lor (Z.shiftl (offset_mid e) 16) (Z.shiftl (offset_high e) 32)).

Lemma ones_spec_low w i : 0 ≤ w → 0 ≤ i → Z.testbit (2 ^ w - 1) i = (i <? w).
Proof.
  intros. replace (2 ^ w - 1) with (Z.ones w) by (rewrite Z.ones_equiv; lia).
  by apply Z.testbit_ones_nonneg.
Qed.

Lemma set_handler_address addr attr sel i :
  in_u 64 addr → handler_address (set_handler addr attr sel i) = addr.
Proof.
  intros Ha. apply Z.bits_inj'. intros j Hj. unfold handler_address. simpl.
  change 65535 with (2 ^ 16 - 1). change 4294967295 with (2 ^ 32 - 1).
  rewrite !Z.lor_spec, !Z.shiftl_spec, !Z.land_spec by done.
  destruct (Z.ltb_spec j 16); [|destruct (Z.ltb_spec j 32)].
  - rewrite (Z.testbit_neg_r _ (j - 16)), (Z.testbit_neg_r _ (j - 32)), ones_spec_low by lia.
    rewrite (proj2 (Z.ltb_lt j 16)) by done. btauto.
  - rewrite (Z.testbit_neg_r _ (j - 32)), !ones_spec_low, Z.shiftr_spec by lia.
    rewrite (proj2 (Z.ltb_ge j 16)), (proj2 (Z.ltb_lt (j - 16) 16)) by lia.
    replace (j - 16 + 16) with j by lia. btauto.
  - rewrite !ones_spec_low, !Z.shiftr_spec by lia.
    rewrite (proj2 (Z.ltb_ge j 16)), (proj2 (Z.ltb_ge (j - 16) 16)) by lia.
    replace (j - 32 + 32) with j by lia.
    destruct (Z.ltb_spec (j - 32) 32); [btauto|].
    rewrite (in_u_testbit 64 addr j) by (done || lia). btauto.
Qed.

(** ** Building the table *)

Definition idt_wf (s : Idt) : Prop := length (entries s) = 256%nat.
#[export] Instance idt_wf_dec s : Decision (idt_wf s).
Proof. unfold idt_wf. apply _. Defined.

(** The gate a list of settings leaves at vector [v]: the last one wins. *)
Fixpoint gate_at (l : list (Z * Stub * Z)) (v : Z) : option (Stub * Z) :=
  match l with
  | [] => None
  | (w, stub, i) :: l' =>
      match gate_at l' v with
      | Some g => Some g
      | None => if w =? v then Some (stub, i) else None
      end
  end.

Section idt_lemmas.
Context (entry_point : Stub → Z) (idt_address : Z).
Implicit Types (s : Idt).

(** The entry at vector [v]. *)
Definition gate s (v : Z) : option IdtEntry := entries s !! Z.to_nat v.

Lemma put_entry_ok s i e :
  idt_wf s → 0 ≤ i < 256 →
  returns (put_entry s i e) (λ s', idt_wf s' ∧
    ∀ v, 0 ≤ v → gate s' v = if v =? i then Some e else gate s v).
Proof.
  unfold idt_wf, put_entry, gate. intros Hl Hi.
  destruct (lookup_lt_is_Some_2 (entries s) (Z.to_nat i)) as [x Hx]; [lia|].
  rewrite Hx. simpl. split; [by rewrite length_insert|]. intros v Hv.
  destruct (Z.eqb_spec v i) as [->|]; [apply list_lookup_insert_eq; lia|].
  apply list_lookup_insert_ne. lia.
Qed.

Lemma put_gates_ok s l :
  idt_wf s → Forall (λ g, 0 ≤ g.1.1 < 256) l →
  returns (put_gates entry_point s l) (λ s', idt_wf s' ∧
    ∀ v, 0 ≤ v → gate s' v =
      match gate_at l v with
      | Some (stub, i) => Some (set_handler (entry_point stub) 0x8E 0x08 i)
      | None => gate s v
      end).
Proof.
  intros Hs Hl. revert s Hs. induction Hl as [|[[w stub] i] l Hw Hl IH]; intros s Hs; [done|].
  simpl. step1. eapply returns_mono; [by apply put_entry_ok|]. intros s1 [Hs1 H1].
  eapply returns_mono; [by apply IH|]. intros s2 [Hs2 H2]. split; [done|].
  intros v Hv. rewrite H2 by done. destruct (gate_at l v) as [[]|]; [done|].
  rewrite H1, (Z.eqb_sym w v) by done. by destruct (v =? w).
Qed.

(** A loop that puts one gate at every vector of a range that satisfies [p]. *)
Lemma put_range_ok (p : Z → bool) s e lo hi :
  idt_wf s → 0 ≤ lo ≤ hi → hi ≤ 256 →
  returns (for_each lo hi (λ i s, if p i then put_entry s i e else Ret s) s) (λ s', idt_wf s' ∧
    ∀ v, 0 ≤ v → gate s' v =
      if (lo <=? v) && (v <? hi) && p v then Some e else gate s v).
Proof.
  intros Hs Hr Hh. apply (for_each_inv (λ i s', idt_wf s' ∧ ∀ v, 0 ≤ v →
    gate s' v = if (lo <=? v) && (v <? i) && p v then Some e else gate s v)); [lia| |].
  { split; [done|]. intros v Hv. by replace ((lo <=? v) && (v <? lo)) with false by lia. }
  intros i t Hi [Ht Hg]. destruct (p i) eqn:Hp.
  - eapply returns_mono; [apply put_entry_ok; [done|lia]|]. intros t' [Ht' H']. split; [done|].
    intros v Hv. rewrite H', Hg by done. destruct (Z.eqb_spec v i) as [->|].
    + by replace ((lo <=? i) && (i <? i + 1)) with true by lia; rewrite Hp.
    + by replace (v <? i + 1) with (v <? i) by lia.
  - split; [done|]. intros v Hv. rewrite Hg by done.
    destruct (decide (v = i)) as [->|]; [by rewrite Hp, !andb_false_r|].
    by replace (v <? i + 1) with (v <? i) by lia.
Qed.

Lemma init_idt_ok s :
  idt_wf s →
  returns (init_idt entry_point idt_address s) (λ s',
    idtr s' = Some (4095, idt_address) ∧ idt_wf s' ∧
    ∀ v, 0 ≤ v < 256 → gate s' v =
      if 32 <=? v then Some (default_gate entry_point)
      else match gate_at exception_gates v with
           | Some (stub, i) => Some (set_handler (entry_point stub) 0x8E 0x08 i)
           | None => gate s v
           end).
Proof.
  intros Hs. unfold init_idt. step1.
  eapply returns_mono; [apply put_gates_ok; [done|by apply (bool_decide_unpack _), I]|].
  intros s1 [Hs1 H1]. step1.
  eapply returns_mono; [apply (put_range_ok (λ _, true)); [done|lia..]|].
  intros s2 [Hs2 H2]. step1.
  eapply returns_mono; [apply put_entry_ok; [done|lia]|]. intros s3 [Hs3 H3]. step1.
  eapply returns_mono; [apply (put_range_ok (λ i, negb (is_reserved i))); [done|lia..]|].
  intros s4 [Hs4 H4]. split; [done|]. split; [done|]. intros v Hv.
  change (gate (load_idt idt_address s4) v) with (gate s4 v).
  rewrite H4, H3, H2, H1 by lia. unfold is_reserved.
  destruct (Z.leb_spec 32 v); [destruct (Z.leb_spec 48 v)|].
  - by replace (negb _) with true by lia; replace (v <? 256) with true by lia.
  - by replace (v <? 48) with true by lia; replace (v =? 128) with false by lia.
  - by replace (48 <=? v) with false by lia; replace (v =? 128) with false by lia.
Qed.
End idt_lemmas.

(** ** Theorems *)

(** C29: [init_idt] fills a table of 256 entries.  Each exception vector of the
    processor, listed with its number, gets the address of the entry point of that
    exception, with the attributes of a kernel interrupt gate; stack 1 is used by the
    double fault, vector 8, and by no other.  Vector 15 gets the default handler, the
    vectors 21 to 29 and 31 keep what they had, and every vector from 32 up ends as the
    default handler's kernel gate.  This includes 0x80: the gate set for
    [syscall_entry] is overwritten by the loop after it, so no vector leads to the
    system call entry.  The entry points are any 64-bit addresses. *)
Theorem init_idt_gates (entry_point : Stub → Z) (idt_address : Z) (s : Idt) :
  idt_wf s → (∀ stub, in_u 64 (entry_point stub)) →
  returns (init_idt entry_point idt_address s) (λ s',
    idtr s' = Some (4095, idt_address) ∧
    (∀ v stub i, (v, stub, i) ∈
       [(0, divide_error_entry, 0); (1, debug_entry, 0); (2, nmi_entry, 0); (3, breakpoint_entry, 0);
        (4, overflow_entry, 0); (5, bound_range_exceeded_entry, 0); (6, invalid_opcode_entry, 0);
        (7, device_not_available_entry, 0); (8, double_fault_entry, 1);
        (9, coprocessor_segment_overrun_entry, 0); (10, invalid_tss_entry, 0);
        (11, segment_not_present_entry, 0); (12, stack_segment_fault_entry, 0);
        (13, general_protection_fault_entry, 0); (14, page_fault_entry, 0); (15, default_handler_entry, 0);
        (16, x87_fpu_floating_point_error_entry, 0); (17, alignment_check_entry, 0);
        (18, machine_check_entry, 0); (19, simd_floating_point_exception_entry, 0);
        (20, virtualization_exception_entry, 0); (30, security_exception_entry, 0)] →
       ∃ e, gate s' v = Some e ∧ handler_address e = entry_point stub ∧
            types_attr e = 0x8E ∧ selector e = 0x08 ∧ ist e = i) ∧
    (∀ v, 20 < v < 30 ∨ v = 31 → gate s' v = gate s v) ∧
    (∀ v, 32 ≤ v < 256 →
       ∃ e, gate s' v = Some e ∧ handler_address e = entry_point default_handler_entry ∧
            types_attr e = 0x8E ∧ selector e = 0x08 ∧ ist e = 0)).
Proof.
  intros Hs He. eapply returns_mono; [by apply init_idt_ok|]. intros s' (Hi & _ & Hg).
  assert (Forall (λ g, (0 ≤ g.1.1 < 32 ∧ Z.land g.2 0x7 = g.2) ∧
    gate_at exception_gates g.1.1 = Some (g.1.2, g.2)) exception_gates) as Hex.
  { repeat (constructor; [by repeat split; vm_compute|]). constructor. }
  split; [done|]. split; [|split].
  - intros v stub i Hin. change ((v, stub, i) ∈ exception_gates) in Hin. rewrite Forall_forall in Hex. specialize (Hex _ Hin) as [[Hv Hm] Ha].
    simpl in *. rewrite Hg by lia. rewrite (proj2 (Z.leb_gt 32 v)) by lia. rewrite Ha.
    eexists. split; [done|]. by rewrite set_handler_address.
  - intros v Hv. rewrite Hg by lia. rewrite (proj2 (Z.leb_gt 32 v)) by lia.
    replace (gate_at exception_gates v) with (@None (Stub * Z)); [done|].
    assert (v ∈ [21; 22; 23; 24; 25; 26; 27; 28; 29; 31]) as Hin by (rewrite !elem_of_cons; lia).
    assert (Forall (λ v, None = gate_at exception_gates v)
      [21; 22; 23; 24; 25; 26; 27; 28; 29; 31]) as Hall by (by repeat constructor).
    by apply (proj1 (Forall_forall _ _) Hall v Hin).
  - intros v Hv. rewrite Hg by lia. rewrite (proj2 (Z.leb_le 32 v)) by lia.
    eexists. split; [done|]. by unfold default_gate; rewrite set_handler_address.
Qed.

(** [install_irq_handler] puts the handler at vector [irq + 32] as long as
    that fits a [u8].  From [irq = 224] on the addition overflows: the dev profile
    panics, and the release profile overwrites the gate of exception
    [irq - 224]. *)
Theorem irq_vector_wraps {prof : Profile} (s : Idt) (irq handler : Z) :
  idt_wf s → in_u 8 irq → in_u 64 handler →
  let installed v := returns (install_irq_handler s irq handler) (λ s',
    (∃ e, gate s' v = Some e ∧ handler_address e = handler ∧ types_attr e = 0x8E) ∧
    ∀ w, 0 ≤ w → w ≠ v → gate s' w = gate s w) in
  (irq < 224 → installed (irq + 32)) ∧
  (224 ≤ irq → overflow_checks = true → install_irq_handler s irq handler = Panic) ∧
  (224 ≤ irq → overflow_checks = false → installed (irq - 224)).
Proof.
  intros Hs Hirq Hh installed. unfold in_u in Hirq.
  assert (∀ v, 0 ≤ v < 256 → checked 8 (irq + 32) = Ret v → installed v) as Hv.
  { intros v Hv Hc. unfold installed, install_irq_handler. rewrite Hc. simpl. unfold set_gate.
    rewrite (proj2 (Z.ltb_lt v 256)) by lia. rewrite decide_False by done.
    eapply returns_mono; [by apply put_entry_ok|]. intros s' [_ Hg]. split.
    - rewrite Hg, Z.eqb_refl by lia. eexists. split; [done|]. by rewrite set_handler_address.
    - intros w Hw Hne. by rewrite Hg, (proj2 (Z.eqb_neq w v)) by done. }
  split; [|split]; intros Hlt.
  - apply Hv; [lia|]. apply checked_ok. unfold in_u. lia.
  - intros Hd. unfold install_irq_handler. rewrite checked_dev; [done..|]. unfold in_u. lia.
  - intros Hd. apply Hv; [lia|]. rewrite checked_release by done. f_equal.
    replace (irq + 32) with (irq - 224 + 1 * 2 ^ 8) by lia.
    rewrite Z.mod_add by done. apply Z.mod_small. lia.
Qed.

(** [build] packs the gate type, the privilege level and the present bit into
    the attribute byte, from which they can be read back. *)
Lemma build_decodes g :
  0 ≤ dpl g →
  Z.land (build g) 0xF = gate_code (gate_type g) ∧
  Z.land (Z.shiftr (build g) 5) 0x3 = dpl g mod 4 ∧
  has_bit (build g) 7 = present g.
Proof.
  intros Hd. unfold build. assert (Z.land (dpl g) 0x3 = dpl g mod 4) as -> by (by apply (land_mod _ 2)).
  pose proof (Z.mod_pos_bound (dpl g) 4 ltac:(done)).
  assert (dpl g mod 4 = 0 ∨ dpl g mod 4 = 1 ∨ dpl g mod 4 = 2 ∨ dpl g mod 4 = 3) as Hc by lia.
  by destruct Hc as [->|[->|[->| ->]]], (gate_type g), (present g).
Qed.

(** ** Witnesses *)

(** Entry points 16 bytes apart in the upper half of the address space. *)
Definition sample_point (stub : Stub) : Z :=
  0xFFFFFFFF80100000 + 16 * match stub with
  | divide_error_entry => 0 | page_fault_entry => 1 | syscall_entry => 2 | _ => 3 end.

Lemma sample_point_u64 stub : in_u 64 (sample_point stub).
Proof. by destruct stub. Qed.

Lemma init_idt_gates_witness :
  idt_wf boot ∧ returns (init_idt sample_point 0x5000 boot) (λ s',
    idtr s' = Some (4095, 0x5000) ∧ gate s' 31 = Some entry_new).
Proof.
  assert (idt_wf boot) as Hb by done. split; [done|].
  eapply returns_mono; [apply (init_idt_gates sample_point 0x5000 boot Hb sample_point_u64)|].
  intros s' (Hi & _ & Hk & _). split; [done|]. rewrite Hk by (by right). done.
Defined.

Lemma irq_vector_wraps_witness :
  install_irq_handler (prof := dev) boot 230 0x1000 = Panic ∧
  returns (install_irq_handler (prof := release) boot 230 0x1000) (λ s',
    ∃ e, gate s' 6 = Some e ∧ handler_address e = 0x1000).
Proof.
  split.
  - apply (irq_vector_wraps (prof := dev) boot 230 0x1000); try done; by split.
  - eapply returns_mono;
      [apply (irq_vector_wraps (prof := release) boot 230 0x1000); try done; by split|].
    intros s' [(e & He & Ha & _) _]. by exists e.
Defined.
