(* ===== verification/Irq.v ===== *)
(** * Interrupt dispatch (src/irq/handler.rs)

    The table of handlers, the per-vector counters and latency samples, the masks
    of the two interrupt controllers, and the interrupt flag.  A [fn(u8)] in the
    table is either [default_irq_handler] or code outside the file, whose effect
    is a parameter; the devices behind the ports are a parameter too.  The file's
    many functions without a body are stubs that change nothing. *)

From S2P Require Import Prelude.
From stdpp Require Import strings.
Open Scope Z_scope.

(** Function pointers of type [fn(u8)]. *)
Inductive fnptr := default_handler_ptr | external_ptr (n : Z).

Record IrqHandler := { handler : fnptr; name : string }.

(** The stubs [handle_irq_work] to [handle_irq_nested_managed_shutdown]. *)
Inductive IrqStub : Type :=
| H_work | H_poll | H_throttle | H_retrigger | H_resend | H_coalesce | H_delayed | H_batched
| H_aggregated | H_filtered | H_masked | H_unmasked | H_suspended | H_resumed | H_offline | H_online
| H_startup | H_shutdown | H_enable | H_disable | H_set_affinity | H_retrigger_irq | H_sync
| H_no_debug | H_wake_thread | H_managed_shutdown | H_force_secondary | H_chip_retrigger
| H_chip_set_affinity | H_chip_bus_lock | H_chip_bus_sync_unlock | H_nested_primary
| H_nested_secondary | H_nested_thread | H_nested_throttle | H_nested_coalesce | H_nested_delayed
| H_nested_batched | H_nested_aggregated | H_nested_filtered | H_nested_masked | H_nested_unmasked
| H_nested_suspended | H_nested_resumed | H_nested_offline | H_nested_online | H_nested_startup
| H_nested_shutdown | H_nested_enable | H_nested_disable | H_nested_set_affinity
| H_nested_retrigger_irq | H_nested_sync | H_nested_no_debug | H_nested_wake_thread
| H_nested_managed_shutdown.

(** The statics of the file, the flags register, the devices, and the lines
    [kprintln!] printed (format and arguments). *)
Record Irq (Dev : Type) := mkIrq {
  irq_counts : list Z;
  latency_samples : list Z;
  irq_enabled : bool;
  handlers : list (option IrqHandler);
  rflags : Z;
  devices : Dev;
  printed : list (string * list Z)
}.
Arguments mkIrq {Dev}.
Arguments irq_counts {Dev}.
Arguments latency_samples {Dev}.
Arguments irq_enabled {Dev}.
Arguments handlers {Dev}.
Arguments rflags {Dev}.
Arguments devices {Dev}.
Arguments printed {Dev}.

(** [array[i]], bounds checked. *)
Definition array_get {X} (l : list X) (i : Z) : outcome X :=
  match l !! Z.to_nat i with Some x => Ret x | None => Panic end.
Definition array_set {X} (l : list X) (i : Z) (x : X) : outcome (list X) :=
  match l !! Z.to_nat i with Some _ => Ret (<[Z.to_nat i := x]> l) | None => Panic end.

Section irq.
Context {Dev : Type} `{!PortIO Dev}.
(** What the code behind an external function pointer does. *)
Context (call_external : Z → Z → Irq Dev → outcome (Irq Dev)).
Implicit Types (s : Irq Dev).

Definition with_counts s l : Irq Dev :=
  mkIrq l (latency_samples s) (irq_enabled s) (handlers s) (rflags s)
    (devices s) (printed s).
Definition with_samples s l : Irq Dev :=
  mkIrq (irq_counts s) l (irq_enabled s) (handlers s) (rflags s)
    (devices s) (printed s).
Definition with_enabled s b : Irq Dev :=
  mkIrq (irq_counts s) (latency_samples s) b (handlers s) (rflags s)
    (devices s) (printed s).
Definition with_handlers s l : Irq Dev :=
  mkIrq (irq_counts s) (latency_samples s) (irq_enabled s) l (rflags s)
    (devices s) (printed s).
Definition with_rflags s x : Irq Dev :=
  mkIrq (irq_counts s) (latency_samples s) (irq_enabled s) (handlers s) x
    (devices s) (printed s).
Definition with_devices s d : Irq Dev :=
  mkIrq (irq_counts s) (latency_samples s) (irq_enabled s) (handlers s) (rflags s)
    d (printed s).
Definition with_printed s l : Irq Dev :=
  mkIrq (irq_counts s) (latency_samples s) (irq_enabled s) (handlers s) (rflags s)
    (devices s) l.

Definition out s (port v : Z) : Irq Dev := with_devices s (outb (devices s) port v).
Definition kprintln s (fmt : string) (args : list Z) : Irq Dev :=
  with_printed s (printed s ++ [(fmt, args)]).

(** Bit 9 of the flags register. *)
Definition cli s : Irq Dev := with_rflags s (Z.land (rflags s) (wnot 64 (bit 9))).
Definition sti s : Irq Dev := with_rflags s (Z.lor (rflags s) (bit 9)).

(** ** Handlers *)

Definition handle_timer s := out s 0x20 0x20.
Definition handle_keyboard s := out s 0x20 0x20.
Definition handle_mouse s := out (out s 0x20 0x20) 0xA0 0x20.
Definition handle_cascade s := out s 0x20 0x20.
Definition handle_com2 s := out s 0x20 0x20.
Definition handle_com1 s := out s 0x20 0x20.
Definition handle_lpt2 s := out s 0x20 0x20.
Definition handle_floppy s := out s 0x20 0x20.
Definition handle_lpt1 s := out s 0x20 0x20.
Definition handle_rtc s := out s 0x20 0x20.
Definition handle_pci1 s := out s 0x20 0x20.
Definition handle_pci2 s := out s 0x20 0x20.
Definition handle_pci3 s := out s 0x20 0x20.
Definition handle_fpu s := out s 0x20 0x20.
Definition handle_ide1 s := out s 0x20 0x20.
Definition handle_ide2 s := out s 0x20 0x20.

Definition default_irq_handler (irq : Z) s : Irq Dev :=
  match irq with
  | 32 => handle_timer s
  | 33 => handle_keyboard s
  | 34 => handle_cascade s
  | 35 => handle_com2 s
  | 36 => handle_com1 s
  | 37 => handle_lpt2 s
  | 38 => handle_floppy s
  | 39 => handle_lpt1 s
  | 40 => handle_rtc s
  | 41 => handle_pci1 s
  | 42 => handle_pci2 s
  | 43 => handle_pci3 s
  | 44 => handle_mouse s
  | 45 => handle_fpu s
  | 46 => handle_ide1 s
  | 47 => handle_ide2 s
  | _ => out s 0x20 0x20
  end.

Definition call (f : fnptr) (irq : Z) s : outcome (Irq Dev) :=
  match f with
  | default_handler_ptr => Ret (default_irq_handler irq s)
  | external_ptr n => call_external n irq s
  end.

Definition eoi_irq (irq : Z) s : Irq Dev :=
  out (if 40 <=? irq then out s 0xA0 0x20 else s) 0x20 0x20.

Definition handle_irq (irq : Z) s : outcome (Irq Dev) :=
  c ← array_get (irq_counts s) irq;
  l ← array_set (irq_counts s) irq (wrap 32 (c + 1));
  let s1 := with_counts s l in
  h ← array_get (handlers s1) irq;
  s2 ← match h with
       | Some handler_info => call (handler handler_info) irq s1
       | None => Ret (default_irq_handler irq s1)
       end;
  Ret (out (if 40 <=? irq then out s2 0xA0 0x20 else s2) 0x20 0x20).

Definition rust_handle_irq (irq : Z) s := handle_irq irq s.
Definition handle_level_triggered (irq : Z) s := handle_irq irq s.
Definition handle_edge_triggered (irq : Z) s := handle_irq irq s.
Definition handle_per_cpu_irq (irq : Z) s := handle_irq irq s.
Definition handle_percpu_devid_irq (irq : Z) s := handle_irq irq s.
Definition handle_nested_thread_irq (irq : Z) s := handle_irq irq s.
Definition handle_nested_irq_with_ack (irq : Z) s : outcome (Irq Dev) :=
  eoi_irq irq <$> handle_irq irq s.

Definition ack_spurious s := out s 0x20 0x20.
Definition irq_exit s := out s 0x20 0x20.
Definition handle_fasteoi_irq (_irq : Z) s := out s 0x20 0x20.
Definition check_spurious (irq : Z) : bool := (irq =? 7) || (irq =? 15).

Definition handle_nmi s := kprintln s "NMI received" [].
Definition handle_error_irq s := kprintln s "IRQ Error" [].
Definition handle_threshold_irq s := kprintln s "Threshold IRQ" [].
Definition handle_corrected_irq s := kprintln s "Corrected IRQ" [].
Definition handle_uncorrected_irq s := kprintln s "Uncorrected IRQ" [].
Definition handle_bad_irq (irq : Z) s := kprintln s "Bad IRQ: {}" [irq].

(** ** The handler table *)

Definition register_handler (irq : Z) (f : fnptr) (n : string) s : outcome (Irq Dev) :=
  with_handlers s <$> array_set (handlers s) irq (Some {| handler := f; name := n |}).
Definition unregister_handler (irq : Z) s : outcome (Irq Dev) :=
  with_handlers s <$> array_set (handlers s) irq None.
Definition install_default_handlers s : outcome (Irq Dev) :=
  for_each 32 48 (λ i s, register_handler i default_handler_ptr "default" s) s.
(** The result is always [Ok(())]. *)
Definition request_irq_threaded (irq : Z) (f : fnptr) s : outcome (Irq Dev) :=
  register_handler irq f "threaded" s.
Definition free_irq (irq : Z) s : outcome (Irq Dev) := unregister_handler irq s.

(** ** The controllers *)

Definition mask_port (line : Z) : Z := if line <? 8 then 0x21 else 0xA1.
Definition mask_irq (line : Z) s : Irq Dev :=
  let port := mask_port line in
  let '(mask, d) := inb (devices s) port in
  with_devices s (outb d port (Z.lor mask (bit (Z.land line 7)))).
Definition unmask_irq (line : Z) s : Irq Dev :=
  let port := mask_port line in
  let '(mask, d) := inb (devices s) port in
  with_devices s (outb d port (Z.land mask (wnot 8 (bit (Z.land line 7))))).
Definition enable_irq (irq : Z) s := unmask_irq irq s.
Definition disable_irq (irq : Z) s := mask_irq irq s.

Definition install_handlers s : outcome (Irq Dev) :=
  s1 ← for_each 32 256 (λ i s, Ret (unmask_irq (i - 32) s)) (cli s);
  Ret (sti (with_enabled s1 true)).

Definition setup_irq_controller s : Irq Dev :=
  with_devices s (out_all (devices s)
    [(0x20, 0x11); (0x21, 0x20); (0x21, 0x04); (0x21, 0x01); (0xA0, 0x11); (0xA1, 0x28);
     (0xA1, 0x02); (0xA1, 0x01); (0x21, 0xFD); (0xA1, 0xFF)]).

Definition is_irq_pending (line : Z) s : bool * Irq Dev :=
  let port := if line <? 8 then 0x20 else 0xA0 in
  let '(irr, d) := inb (devices s) (port + 0x0A) in
  (has_bit irr (Z.land line 7), with_devices s d).

(** The waiting loops, following at most [fuel] polls. *)
Fixpoint wait_until (fuel : nat) (b : bool) (irq : Z) s : outcome (Irq Dev) :=
  let '(p, s1) := is_irq_pending irq s in
  if Bool.eqb p b then Ret s1
  else match fuel with O => Diverge | S fuel' => wait_until fuel' b irq s1 end.
Definition wait_for_irq (fuel : nat) (irq : Z) s := wait_until fuel true irq s.

Fixpoint sync_loop (fuel : nat) (irq : Z) s : outcome (Irq Dev) :=
  let '(p, s1) := is_irq_pending irq s in
  if (p : bool) then
    match fuel with
    | O => Diverge
    | S fuel' => s2 ← wait_until fuel' false irq (sti s1); sync_loop fuel' irq (cli s2)
    end
  else Ret s1.
Definition sync_irq (fuel : nat) (irq : Z) s : outcome (Irq Dev) :=
  sti <$> sync_loop fuel irq (cli s).

(** ** The interrupt flag *)

Definition enable_irq_global s := sti (with_enabled s true).
Definition disable_irq_global s := with_enabled (cli s) false.
Definition is_irq_enabled s : bool := irq_enabled s.
Definition local_irq_save s : Z * Irq Dev := (rflags s, cli s).
Definition local_irq_restore (flags : Z) s : Irq Dev :=
  if negb (Z.land flags 0x200 =? 0) then sti s else s.
Definition local_irq_disable s := cli s.
Definition local_irq_enable s := sti s.
Definition enter_irq_context s := cli s.
Definition exit_irq_context s := sti s.

(** Functions without a body of their own: the ones with parameters, and the
    [handle_irq_*] functions without, one constructor for each. *)
Definition set_irq_affinity (irq cpu_mask : Z) s : Irq Dev := s.
Definition set_irq_type (irq : Z) (level : bool) s : Irq Dev := s.
Definition handle_nested_irq s : Irq Dev := s.
Definition run_stub (h : IrqStub) s : Irq Dev := s.

(** The context tests answer without looking at the state. *)
Definition in_interrupt : bool := true.
Definition in_irq : bool := true.
Definition in_softirq : bool := false.
Definition in_hardirq : bool := true.

(** ** Statistics *)

Definition get_irq_count (irq : Z) s : outcome Z := array_get (irq_counts s) irq.
Definition reset_irq_counts s : Irq Dev := with_counts s ((λ _, 0) <$> irq_counts s).
Definition clear_irq_stats s : outcome (Irq Dev) :=
  for_each 0 256 (λ i s,
    l ← array_set (irq_counts s) i 0;
    m ← array_set (latency_samples s) i 0;
    Ret (with_samples (with_counts s l) m)) s.

(** [tsc] is the value [read_tsc] returns. *)
Definition read_tsc (low high : Z) : Z := Z.lor (Z.shiftl high 32) low.
Definition measure_latency_start (tsc irq : Z) s : outcome (Irq Dev) :=
  with_samples s <$> array_set (latency_samples s) irq (wrap 32 tsc).
Definition measure_latency_end (tsc irq : Z) s : outcome (Irq Dev) :=
  start ← array_get (latency_samples s) irq;
  let latency := wrap 64 (tsc - start) in
  with_samples s <$> array_set (latency_samples s) irq (wrap 32 latency).
Definition get_irq_latency (irq : Z) s : outcome Z := array_get (latency_samples s) irq.

Definition print_irq_stats s : outcome (Irq Dev) :=
  for_each 0 256 (λ i s,
    count ← get_irq_count (wrap 8 i) s;
    if 0 <? count then
      latency ← get_irq_latency (wrap 8 i) s;
      Ret (kprintln s "IRQ {}: {} calls, {} cycles avg latency" [i; count; latency])
    else Ret s) s.

Definition get_irq_affinity (_irq : Z) : Z := 1.
Definition get_irq_type (_irq : Z) : bool := true.
End irq.

(** ** Invariant and lemmas *)

Definition irq_wf {Dev} (s : Irq Dev) : Prop :=
  length (irq_counts s) = 256%nat ∧ length (latency_samples s) = 256%nat ∧
  length (handlers s) = 256%nat.

(** The counter of vector [i]. *)
Definition count_of {Dev} (s : Irq Dev) (i : Z) : Z := default 0 (irq_counts s !! Z.to_nat i).

Lemma array_get_ok {X} (l : list X) i (P : X → Prop) :
  length l = 256%nat → in_u 8 i → (∀ x, l !! Z.to_nat i = Some x → P x) →
  returns (array_get l i) P.
Proof.
  intros Hl Hi HP. unfold in_u in Hi. unfold array_get.
  destruct (lookup_lt_is_Some_2 l (Z.to_nat i)) as [x Hx]; [lia|]. rewrite Hx. by apply HP.
Qed.

Lemma array_set_ok {X} (l : list X) i x :
  length l = 256%nat → in_u 8 i → array_set l i x = Ret (<[Z.to_nat i := x]> l).
Proof.
  intros Hl Hi. unfold in_u in Hi. unfold array_set.
  by destruct (lookup_lt_is_Some_2 l (Z.to_nat i)) as [y ->]; [lia|].
Qed.

Section irq_lemmas.
Context {Dev : Type} `{!PortIO Dev}.
Context (call_external : Z → Z → Irq Dev → outcome (Irq Dev)).
Implicit Types (s : Irq Dev).

(** The acknowledgements of one interrupt nobody registered a handler for. *)
Definition acknowledgements (irq : Z) : list (Z * Z) :=
  [(0x20, 0x20)] ++ (if irq =? 44 then [(0xA0, 0x20)] else []) ++
  (if 40 <=? irq then [(0xA0, 0x20)] else []) ++ [(0x20, 0x20)].

Lemma default_handler_out irq s :
  default_irq_handler irq s =
  with_devices s (out_all (devices s)
    ([(0x20, 0x20)] ++ if irq =? 44 then [(0xA0, 0x20)] else [])).
Proof.
  destruct (Z.eqb_spec irq 44) as [->|Hne]; [done|].
  unfold default_irq_handler. by repeat case_match.
Qed.

Lemma eoi_out irq s :
  eoi_irq irq s =
  with_devices s (out_all (devices s)
    ((if 40 <=? irq then [(0xA0, 0x20)] else []) ++ [(0x20, 0x20)])).
Proof. unfold eoi_irq. by destruct (40 <=? irq). Qed.

(** The state a handler is called in: the interrupt is counted. *)
Definition counted irq s : Irq Dev :=
  with_counts s (<[Z.to_nat irq := wrap 32 (count_of s irq + 1)]> (irq_counts s)).

Lemma counted_wf irq s : irq_wf s → irq_wf (counted irq s).
Proof. intros (?&?&?). split; [|done]. simpl. by rewrite length_insert. Qed.

Lemma count_of_counted irq i s :
  irq_wf s → in_u 8 irq → in_u 8 i →
  count_of (counted irq s) i = if i =? irq then wrap 32 (count_of s i + 1) else count_of s i.
Proof.
  intros (Hc&_) Hirq Hi. unfold in_u in *. unfold count_of at 1. simpl. destruct (Z.eqb_spec i irq) as [->|].
  - by rewrite list_lookup_insert_eq by lia.
  - by rewrite list_lookup_insert_ne by lia.
Qed.

(** Counting, the handler of the table, and the command to the controllers. *)
Lemma handle_irq_unfold irq h s :
  irq_wf s → in_u 8 irq → handlers s !! Z.to_nat irq = Some h →
  handle_irq call_external irq s =
    (s2 ← match h with
          | Some info => call call_external (handler info) irq (counted irq s)
          | None => Ret (default_irq_handler irq (counted irq s))
          end;
     Ret (with_devices s2 (out_all (devices s2)
       ((if 40 <=? irq then [(0xA0, 0x20)] else []) ++ [(0x20, 0x20)])))).
Proof.
  intros (Hc & Hl & Hh) Hirq Hn. unfold handle_irq. assert (Hr := Hirq). unfold in_u in Hr.
  destruct (lookup_lt_is_Some_2 (irq_counts s) (Z.to_nat irq)) as [c E]; [lia|].
  assert (array_get (irq_counts s) irq = Ret c) as -> by (unfold array_get; by rewrite E).
  cbn [mbind outcome_bind]. rewrite array_set_ok by done.
  cbn [mbind outcome_bind]. unfold array_get. change (handlers (with_counts s _)) with (handlers s).
  rewrite Hn. cbn [mbind outcome_bind].
  assert (with_counts s (<[Z.to_nat irq:=wrap 32 (c + 1)]> (irq_counts s)) = counted irq s) as ->
    by (unfold counted, count_of; by rewrite E).
  destruct h as [info|]; [destruct (call _ _ _ _)|]; try done; simpl; by destruct (40 <=? irq).
Qed.

(** The table has no handler for the vector, or [default_irq_handler]. *)
Definition handled_by_default s irq : Prop :=
  match handlers s !! Z.to_nat irq with
  | Some (Some info) => handler info = default_handler_ptr
  | _ => True
  end.

(** One such interrupt: one counter, and both acknowledgements. *)
Lemma default_irq_effect irq s :
  irq_wf s → in_u 8 irq → handled_by_default s irq →
  handle_irq call_external irq s =
    Ret (with_devices (counted irq s) (out_all (devices s) (acknowledgements irq))).
Proof.
  intros Hs Hirq Hd. pose proof Hs as (_ & _ & Hh). unfold in_u in Hirq.
  destruct (lookup_lt_is_Some_2 (handlers s) (Z.to_nat irq)) as [h E]; [lia|].
  rewrite (handle_irq_unfold irq h) by done. unfold handled_by_default in Hd. rewrite E in Hd.
  assert (match h with
    | Some info => call call_external (handler info) irq (counted irq s)
    | None => Ret (default_irq_handler irq (counted irq s))
    end = Ret (default_irq_handler irq (counted irq s))) as ->.
  { destruct h as [info|]; [by rewrite Hd|done]. }
  cbn [mbind outcome_bind]. rewrite default_handler_out. simpl. unfold acknowledgements.
  by destruct (irq =? 44), (40 <=? irq).
Qed.

(** A sequence of interrupts. *)
Fixpoint run_irqs (l : list Z) s : outcome (Irq Dev) :=
  match l with
  | [] => Ret s
  | irq :: l' => s1 ← handle_irq call_external irq s; run_irqs l' s1
  end.

Definition occurrences (i : Z) (l : list Z) : Z := Z.of_nat (length (filter (λ j, i = j) l)).

Lemma occurrences_cons i j l : occurrences i (j :: l) = occurrences i l + if i =? j then 1 else 0.
Proof.
  unfold occurrences. rewrite filter_cons. destruct (Z.eqb_spec i j).
  - rewrite decide_True by done. simpl. lia.
  - rewrite decide_False by done. lia.
Qed.
End irq_lemmas.

(** The mask registers of the two controllers behind the ports 0x21 and 0xA1:
    what was written is what is read, and reading changes neither. *)
Definition is_mask_port (p : Z) : Prop := p = 0x21 ∨ p = 0xA1.
Class PicMasks (Dev : Type) `{!PortIO Dev} := {
  mask_of : Dev → Z → Z;
  inb_mask d p : is_mask_port p → (inb d p).1 = mask_of d p;
  inb_keeps_masks d p q : is_mask_port p → is_mask_port q → mask_of (inb d p).2 q = mask_of d q;
  outb_mask d p v q : is_mask_port p → is_mask_port q →
    mask_of (outb d p v) q = if q =? p then v else mask_of d q
}.

Section mask_lemmas.
Context {Dev : Type} `{PicMasks Dev}.
Implicit Types (s : Irq Dev).

Lemma mask_port_is line : is_mask_port (mask_port line).
Proof. unfold mask_port. destruct (line <? 8); [by left|by right]. Qed.

Lemma line_bit line : Z.land line 7 = line mod 8.
Proof. by apply (land_mod line 3). Qed.

(** Reading a mask, changing it and writing it back. *)
Lemma update_mask_ok (f : Z → Z) d p q :
  is_mask_port p → is_mask_port q →
  mask_of (let '(m, d') := inb d p in outb d' p (f m)) q =
  if q =? p then f (mask_of d q) else mask_of d q.
Proof.
  intros Hp Hq. pose proof (inb_mask d p Hp) as Hv.
  pose proof (inb_keeps_masks d p q Hp Hq) as Hk. destruct (inb d p) as [m d']. simpl in *.
  rewrite outb_mask by done. destruct (Z.eqb_spec q p) as [->|]; [by rewrite Hv|done].
Qed.

(** Unmasking a line clears its bit, masking it sets the bit. *)
Lemma unmask_irq_ok line s q :
  is_mask_port q → mask_of (devices (unmask_irq line s)) q =
  if q =? mask_port line then Z.land (mask_of (devices s) q) (wnot 8 (bit (line mod 8)))
  else mask_of (devices s) q.
Proof.
  intros Hq. rewrite <-line_bit, <-(update_mask_ok (λ m, Z.land m _) _ (mask_port line))
    by (done || apply mask_port_is).
  unfold unmask_irq. by destruct (inb _ _).
Qed.
Lemma mask_irq_ok line s q :
  is_mask_port q → mask_of (devices (mask_irq line s)) q =
  if q =? mask_port line then Z.lor (mask_of (devices s) q) (bit (line mod 8))
  else mask_of (devices s) q.
Proof.
  intros Hq. rewrite <-line_bit,
    <-(update_mask_ok (λ m, Z.lor m _) _ (mask_port line)) by (done || apply mask_port_is).
  unfold mask_irq. by destruct (inb _ _).
Qed.

Lemma unmask_irq_frame line s :
  rflags (unmask_irq line s) = rflags s ∧ irq_counts (unmask_irq line s) = irq_counts s ∧
  handlers (unmask_irq line s) = handlers s.
Proof. unfold unmask_irq. by destruct (inb _ _). Qed.

(** Bits [0 .. n - 1] of a mask are clear, and no bit above 7 is set once a line
    was unmasked. *)
Definition cleared (x n : Z) : Prop :=
  (0 < n → in_u 8 x) ∧ ∀ j, 0 ≤ j < 8 → j < n → Z.testbit x j = false.

Lemma cleared_all x n : 8 ≤ n → cleared x n → x = 0.
Proof.
  intros Hn [Hu Hb]. apply Z.bits_inj'. intros j Hj. rewrite Z.bits_0.
  destruct (Z.ltb_spec j 8); [apply Hb; lia|]. apply (in_u_testbit 8); [lia|apply Hu; lia|done].
Qed.

Lemma cleared_step x n b :
  0 ≤ b < 8 → (n < 8 → n = b) → cleared x n → cleared (Z.land x (wnot 8 (bit b))) (n + 1).
Proof.
  intros Hb Hn [Hu Hc]. split; [auto with masika|]. intros j Hj Hlt.
  rewrite Z.land_spec, wnot_spec, bit_spec by lia.
  destruct (decide (j < n)); [by rewrite Hc by lia|].
  rewrite bool_decide_true by lia. btauto.
Qed.
End mask_lemmas.

(** ** Theorems *)

(** C30: Interrupt dispatch is exact.  For every sequence of vectors the table holds no
    handler or [default_irq_handler] for, every call returns, the counter of each vector
    has grown by the number of times it occurred, modulo [2^32], the controllers have
    seen exactly the commands of these interrupts in order (the default handler's and
    those of [handle_irq] after it), and nothing else changed.  For a vector with a
    handler of another file, whatever that handler does, [handle_irq] runs it on the
    state with the interrupt counted and, if it returns, sends the command to the
    controllers once. *)
Theorem irq_counts_exact {Dev : Type} `{!PortIO Dev}
    (call_external : Z → Z → Irq Dev → outcome (Irq Dev)) (l : list Z) (s : Irq Dev) :
  irq_wf s → Forall (in_u 8) l → Forall (handled_by_default s) l →
  returns (run_irqs call_external l s) (λ s',
    (∀ i, in_u 8 i → in_u 32 (count_of s i) → count_of s' i = wrap 32 (count_of s i + occurrences i l)) ∧
    devices s' = out_all (devices s) (concat (acknowledgements <$> l)) ∧
    handlers s' = handlers s ∧ latency_samples s' = latency_samples s ∧
    irq_enabled s' = irq_enabled s ∧ rflags s' = rflags s ∧ printed s' = printed s) ∧
  ∀ irq n info, in_u 8 irq → handlers s !! Z.to_nat irq = Some (Some info) → handler info = external_ptr n →
    handle_irq call_external irq s =
      (s2 ← call_external n irq
         (with_counts s (<[Z.to_nat irq := wrap 32 (count_of s irq + 1)]> (irq_counts s)));
       Ret (with_devices s2 (out_all (devices s2)
         (if 40 <=? irq then [(0xA0, 0x20); (0x20, 0x20)] else [(0x20, 0x20)])))).
Proof.
  intros Hs Hl Hd. split.
  - revert s Hs Hd. induction Hl as [|irq l Hirq Hl IH]; intros s Hs Hd; simpl.
    { split_and!; try done. intros i _ Hc. unfold occurrences. simpl. by rewrite Z.add_0_r, wrap_small. }
    apply Forall_cons in Hd as [Hd1 Hd]. rewrite default_irq_effect by done. cbn [mbind outcome_bind].
    eapply returns_mono; [apply IH; [by apply counted_wf|exact Hd]|].
    intros s2 (H2&Hdev&->&->&->&->&->). split_and!; try done.
    + intros i Hi Hc. assert (count_of (counted irq s) i = if i =? irq then wrap 32 (count_of s i + 1)
        else count_of s i) as H1 by by apply count_of_counted.
      rewrite H2, occurrences_cons; [|done|].
      * change (count_of (with_devices (counted irq s) _) i) with (count_of (counted irq s) i). rewrite H1.
        unfold wrap. destruct (i =? irq); [rewrite Zplus_mod_idemp_l|]; f_equal; lia.
      * change (in_u 32 (count_of (counted irq s) i)). rewrite H1.
        destruct (i =? irq); [by apply wrap_in_u|done].
    + rewrite Hdev. unfold out_all. symmetry. apply fold_left_app.
  - intros irq n info Hirq Hh Hn. rewrite (handle_irq_unfold call_external irq (Some info)) by done.
    cbn [call]. rewrite Hn. simpl. by destruct (40 <=? irq).
Qed.

(** An interrupt without a registered handler changes one counter and
    acknowledges itself to the controllers twice: the default handler sends the
    command and [handle_irq] sends it again, so the master controller sees two
    end-of-interrupt commands for one interrupt. *)
Theorem default_irq_acknowledged_twice {Dev : Type} `{!PortIO Dev}
    (call_external : Z → Z → Irq Dev → outcome (Irq Dev)) (irq : Z) (s : Irq Dev) :
  irq_wf s → in_u 8 irq → handlers s !! Z.to_nat irq = Some None →
  returns (handle_irq call_external irq s) (λ s',
    devices s' = out_all (devices s) (acknowledgements irq) ∧
    handlers s' = handlers s ∧ latency_samples s' = latency_samples s ∧
    rflags s' = rflags s ∧ count_of s' irq = wrap 32 (count_of s irq + 1)).
Proof.
  intros (Hc & Hl & Hh) Hirq Hn. unfold handle_irq. step1.
  apply array_get_ok; [done..|]. intros c Hc'. rewrite array_set_ok by done. simpl.
  unfold array_get at 1. rewrite Hn. simpl.
  rewrite default_handler_out. split; [|split_and!; try (by case_match)].
  - unfold acknowledgements. by destruct (irq =? 44), (40 <=? irq).
  - unfold in_u in Hirq. unfold count_of. rewrite Hc'.
    by destruct (40 <=? irq); simpl; rewrite list_lookup_insert_eq by lia.
Qed.

(** [install_handlers] unmasks every line of both interrupt controllers: its
    loop over the vectors 32 to 255 ends with both mask registers zero, and with
    interrupts enabled. *)
Theorem install_handlers_unmasks {Dev : Type} `{PicMasks Dev} (s : Irq Dev) :
  returns (install_handlers s) (λ s',
    mask_of (devices s') 0x21 = 0 ∧ mask_of (devices s') 0xA1 = 0 ∧
    irq_enabled s' = true ∧ has_bit (rflags s') 9 = true ∧
    irq_counts s' = irq_counts s ∧ handlers s' = handlers s).
Proof.
  unfold install_handlers. step1. eapply returns_mono.
  { apply (for_each_inv (λ i t, cleared (mask_of (devices t) 0x21) (i - 32) ∧
      cleared (mask_of (devices t) 0xA1) (i - 40) ∧
      irq_counts t = irq_counts s ∧ handlers t = handlers s)); [lia| |].
    { split; [split; lia|]. split; [split; lia|done]. }
    intros i t Hi (H1 & H2 & Hc & Hh). simpl. destruct (unmask_irq_frame (i - 32) t) as (_&->&->).
    rewrite (unmask_irq_ok _ _ 0x21) by (by left). rewrite (unmask_irq_ok _ _ 0xA1) by (by right).
    unfold mask_port.
    pose proof (Z.mod_pos_bound (i - 32) 8 ltac:(lia)).
    destruct (Z.ltb_spec (i - 32) 8); simpl; (split; [|split; [|done]]).
    - replace (i + 1 - 32) with (i - 32 + 1) by lia. apply cleared_step; [lia| |done].
      intros _. by rewrite Z.mod_small by lia.
    - split; lia.
    - destruct H1 as [Hu Hb]. split; [intros; apply Hu; lia|intros j ??; apply Hb; lia].
    - replace (i + 1 - 40) with (i - 40 + 1) by lia. apply cleared_step; [lia| |done].
      intros Hlt. rewrite <-(Z.mod_small (i - 40) 8) at 1 by lia.
      replace (i - 32) with (i - 40 + 1 * 8) by lia. by rewrite Z.mod_add. }
  intros t (H1 & H2 & Hc & Hh). simpl.
  split; [by eapply cleared_all, H1|]. split; [by eapply cleared_all, H2|].
  split_and!; [done| |done..]. rewrite has_bit_spec by done.
  rewrite Z.lor_spec, bit_spec, bool_decide_true by done. btauto.
Qed.

(** The latency between [measure_latency_start] and [measure_latency_end] is
    exact although only the low 32 bits of the start time are kept, as long as
    less than [2^32] cycles pass. *)
Theorem latency_exact {Dev : Type} (s : Irq Dev) (irq t0 t1 : Z) :
  irq_wf s → in_u 8 irq → in_u 64 t0 → in_u 64 t1 → 0 ≤ t1 - t0 < 2 ^ 32 →
  returns (s1 ← measure_latency_start t0 irq s;
           s2 ← measure_latency_end t1 irq s1;
           get_irq_latency irq s2) (λ x, x = t1 - t0).
Proof.
  intros (_ & Hl & _) Hirq H0 H1 Hd. pose proof Hirq as Hirq'. unfold in_u in Hirq'.
  unfold measure_latency_start, measure_latency_end, get_irq_latency.
  rewrite array_set_ok by done. simpl. unfold array_get.
  rewrite list_lookup_insert_eq by lia. simpl.
  rewrite array_set_ok by (done || by rewrite length_insert). simpl.
  rewrite list_lookup_insert_eq by (rewrite length_insert; lia). simpl. unfold wrap.
  rewrite Z.mod_mod_divide by (by exists (2 ^ 32)).
  rewrite Zminus_mod_idemp_r. by apply Z.mod_small.
Qed.

(** [local_irq_save] and [local_irq_restore] around a section that leaves
    interrupts disabled give back the interrupt flag, so such sections nest. *)
Lemma irq_save_restores {Dev : Type} (s s' : Irq Dev) :
  has_bit (rflags s') 9 = false →
  let '(flags, _) := local_irq_save s in
  has_bit (rflags (local_irq_restore flags s')) 9 = has_bit (rflags s) 9.
Proof.
  intros Hs'. simpl. unfold local_irq_restore. change 0x200 with (bit 9).
  fold (has_bit (rflags s) 9). destruct (has_bit (rflags s) 9); [|done]. simpl.
  rewrite has_bit_spec by done. rewrite Z.lor_spec, bit_spec, bool_decide_true by done. btauto.
Qed.

(** ** Witnesses *)

(** Ports that hold what was last written to them. *)
#[export] Instance latches : PortIO (Z → Z) :=
  {| inb d p := (d p, d); outb d p v := λ q, if q =? p then v else d q |}.
#[export, refine] Instance latch_masks : PicMasks (Z → Z) := {| mask_of d p := d p |}.
Proof. all: done. Defined.

Definition fresh_irq : Irq (Z → Z) :=
  mkIrq (replicate 256 0) (replicate 256 0) false (replicate 256 None) 0 (λ _, 0xFF) [].

Lemma irq_counts_exact_witness :
  returns (run_irqs (λ _ _ _, Panic) [32; 33; 32] fresh_irq) (λ s', count_of s' 32 = 2).
Proof.
  eapply returns_mono.
  { apply (irq_counts_exact (λ _ _ _, Panic) [32; 33; 32] fresh_irq); by repeat constructor. }
  intros s' [H _]. rewrite H; [done|by vm_compute|by vm_compute].
Defined.

Lemma default_irq_acknowledged_twice_witness :
  returns (handle_irq (λ _ _ s, Ret s) 44 fresh_irq) (λ s', count_of s' 44 = 1).
Proof.
  eapply returns_mono;
    [apply (default_irq_acknowledged_twice (λ _ _ s, Ret s) 44 fresh_irq); done|].
  intros s' (_ & _ & _ & _ & H). by rewrite H.
Defined.

Lemma install_handlers_unmasks_witness :
  returns (install_handlers fresh_irq) (λ s', devices s' 0x21 = 0 ∧ devices s' 0xA1 = 0).
Proof.
  eapply returns_mono; [apply (install_handlers_unmasks fresh_irq)|].
  intros s' (H1 & H2 & _). split; [exact H1|exact H2].
Defined.

Lemma latency_exact_witness :
  returns (s1 ← measure_latency_start (2 ^ 33 - 1) 32 fresh_irq;
           s2 ← measure_latency_end (2 ^ 33 + 99) 32 s1;
           get_irq_latency 32 s2) (λ x, x = 100).
Proof. by apply (latency_exact fresh_irq 32 (2 ^ 33 - 1) (2 ^ 33 + 99)). Defined.
