(* ===== verification/Apic.v ===== *)
(** * Local APIC and I/O APIC (src/irq/apic.rs)

    The driver programs two devices through memory-mapped registers; the devices
    are a parameter of class [Mmio], the model-specific register that locates the
    local APIC one of class [Msr].  The statics of the file and the devices are the
    state; a register offset of the source becomes an address. *)

From S2P Require Import Prelude.
Open Scope Z_scope.

Definition LAPIC_BASE_MSR : Z := 0x1B.
Definition IOAPIC_BASE : Z := 0xFEC00000.
Definition DEFAULT_IOAPIC_GSI_BASE : Z := 0.

Record IoApicInfo := mkInfo { addr : Z; gsi_base : Z; max_redir : Z }.
Definition IoApicInfo_new : IoApicInfo := mkInfo 0 0 0.

(** The struct [Apic]. *)
Record Apic := mkApic { lapic_id : Z; version : Z; max_lvt : Z }.

(** The statics and the devices. *)
Record Statics (Dev : Type) := mkStatics {
  LOCAL_APIC_ADDR : Z;
  IOAPIC_ADDR : Z;
  IOAPIC_COUNT : Z;
  IOAPIC_INFO : list IoApicInfo;
  dev : Dev
}.
Arguments mkStatics {Dev}.
Arguments LOCAL_APIC_ADDR {Dev}.
Arguments IOAPIC_ADDR {Dev}.
Arguments IOAPIC_COUNT {Dev}.
Arguments IOAPIC_INFO {Dev}.
Arguments dev {Dev}.

(** [x86::msr::rdmsr]. *)
Class Msr (Dev : Type) := rdmsr : Dev → Z → Z.

Definition divisor_to_bits (divisor : Z) : Z :=
  match divisor with
  | 1 => 0 | 2 => 1 | 4 => 2 | 8 => 3 | 16 => 4 | 32 => 5 | 64 => 6 | 128 => 7
  | _ => 3
  end.

Section apic.
Context {prof : Profile} {Dev : Type} `{!Mmio Dev, !Msr Dev}.
Implicit Types (s : Statics Dev) (a : Apic).

Definition with_dev s d : Statics Dev :=
  mkStatics (LOCAL_APIC_ADDR s) (IOAPIC_ADDR s) (IOAPIC_COUNT s) (IOAPIC_INFO s) d.
Definition with_info s l : Statics Dev :=
  mkStatics (LOCAL_APIC_ADDR s) (IOAPIC_ADDR s) (IOAPIC_COUNT s) l (dev s).
Definition with_count s n : Statics Dev :=
  mkStatics (LOCAL_APIC_ADDR s) (IOAPIC_ADDR s) n (IOAPIC_INFO s) (dev s).

Local Open Scope st_scope.
Notation M := (ST (Statics Dev)).

(** [read_volatile] and [write_volatile] of a 32-bit register. *)
Definition load (p : Z) : M Z := λ s,
  let '(v, d) := mmio_read (dev s) p in Ret (v, with_dev s d).
Definition store (p v : Z) : M () := λ s, Ret ((), with_dev s (mmio_write (dev s) p v)).

(** [LOCAL_APIC_ADDR.add(offset >> 2)]: [u32] elements of four bytes. *)
Definition read_lapic_reg (offset : Z) : M Z :=
  p <- st_gets LOCAL_APIC_ADDR;; load (p + 4 * Z.shiftr offset 2).
Definition write_lapic_reg (offset value : Z) : M () :=
  p <- st_gets LOCAL_APIC_ADDR;; store (p + 4 * Z.shiftr offset 2) value.

(** [IOAPIC_INFO[i]] panics outside the array. *)
Definition info (i : Z) : M IoApicInfo := λ s,
  match IOAPIC_INFO s !! Z.to_nat i with Some x => Ret (x, s) | None => Panic end.
Definition set_info (i : Z) (f : IoApicInfo → IoApicInfo) : M () := λ s,
  match IOAPIC_INFO s !! Z.to_nat i with
  | Some x => Ret ((), with_info s (<[Z.to_nat i := f x]> (IOAPIC_INFO s)))
  | None => Panic
  end.

(** The index register is at the base, the data window four words on. *)
Definition read_ioapic_reg_at (idx offset : Z) : M Z :=
  x <- info idx;; store (addr x) offset;;; load (addr x + 16).
Definition write_ioapic_reg_at (idx offset value : Z) : M () :=
  x <- info idx;; store (addr x) offset;;; store (addr x + 16) value.

Definition find_ioapic_by_gsi (gsi default_idx : Z) : M Z := λ s,
  (fl ← for_range 0 (IOAPIC_COUNT s) (λ i _,
     match IOAPIC_INFO s !! Z.to_nat i with
     | None => Panic
     | Some x =>
         if gsi_base x <=? gsi then
           e ← checked 32 (gsi_base x + max_redir x);
           Ret (if gsi <=? e then Done i else Next ())
         else Ret (Next ())
     end) ();
   Ret (match fl with Done i => i | Next _ => default_idx end, s))%stdpp.

(** The low register of a redirection entry. *)
Definition reg_base (irq : Z) : Z := 0x10 + irq * 2.

(** [1 << i] set or cleared in a 32-bit register. *)
Definition put_bit (i : Z) (on : bool) (val : Z) : Z :=
  if on then Z.lor val (bit i) else Z.land val (wnot 32 (bit i)).

(** Reading, changing and writing back register [r] of I/O APIC [idx]. *)
Definition change_reg (idx r : Z) (f : Z → Z) : M () :=
  val <- read_ioapic_reg_at idx r;; write_ioapic_reg_at idx r (f val).

(** ** Interrupt lines *)

(** [find_ioapic_by_gsi], and the early return. *)
Definition with_ioapic (irq : Z) (k : Z → M ()) : M () :=
  idx <- find_ioapic_by_gsi irq 0;;
  n <- st_gets IOAPIC_COUNT;;
  if n <=? idx then st_ret () else k idx.

Definition setup_irq a (irq vector : Z) : M () :=
  with_ioapic irq (λ idx,
    let low := Z.land vector 0xFF in
    let high := Z.land (ushl 32 (lapic_id a) 24) 0xFF000000 in
    write_ioapic_reg_at idx (reg_base irq) low;;;
    write_ioapic_reg_at idx (reg_base irq + 1) high).

Definition mask_irq (irq : Z) : M () :=
  with_ioapic irq (λ idx, change_reg idx (reg_base irq) (put_bit 16 true)).
Definition unmask_irq (irq : Z) : M () :=
  with_ioapic irq (λ idx, change_reg idx (reg_base irq) (put_bit 16 false)).

(** ** Start-up *)

Definition init_local a : M () :=
  v <- read_lapic_reg 0xF0;;
  write_lapic_reg 0xF0 (Z.lor v 0x100);;;
  write_lapic_reg 0x80 (Z.shiftl 0x1B 24);;;
  write_lapic_reg 0xD0 (lapic_id a);;;
  write_lapic_reg 0xE0 0;;;
  write_lapic_reg 0x320 0x1FF;;;
  write_lapic_reg 0x350 0;;;
  write_lapic_reg 0x360 0;;;
  write_lapic_reg 0x370 0;;;
  write_lapic_reg 0x380 0;;;
  write_lapic_reg 0x390 0;;;
  write_lapic_reg 0x3A0 0;;;
  write_lapic_reg 0x3B0 0;;;
  write_lapic_reg 0x3C0 0;;;
  write_lapic_reg 0x3D0 0.

Definition init_ioapics : M () :=
  set_info 0 (λ x, mkInfo IOAPIC_BASE (gsi_base x) (max_redir x));;;
  set_info 0 (λ x, mkInfo (addr x) DEFAULT_IOAPIC_GSI_BASE (max_redir x));;;
  ver <- read_ioapic_reg_at 0 0x01;;
  set_info 0 (λ x, mkInfo (addr x) (gsi_base x) (Z.land (Z.shiftr ver 16) 0xFF));;;
  st_modify (λ s, with_count s 1);;;
  x <- info 0;;
  st_for 0 (max_redir x + 1) mask_irq.

Definition setup_timer : M () :=
  write_lapic_reg 0x3E0 0x3;;;
  write_lapic_reg 0x320 (Z.lor 0x20 (bit 16)).

(** [LOCAL_APIC_ADDR] becomes the value of the register plus [0x200] bytes. *)
Definition Apic_new : M Apic :=
  st_modify (λ s, mkStatics (rdmsr (dev s) LAPIC_BASE_MSR + 4 * Z.shiftr 0x200 2) IOAPIC_BASE
                    (IOAPIC_COUNT s) (IOAPIC_INFO s) (dev s));;;
  id <- read_lapic_reg 0x20;;
  v <- read_lapic_reg 0x30;;
  l <- read_lapic_reg 0x30;;
  let a := mkApic (Z.shiftr id 24) (Z.land v 0xFF) (Z.land (Z.shiftr l 16) 0xFF) in
  init_local a;;;
  init_ioapics;;;
  setup_timer;;;
  st_ret a.

(** ** Local APIC *)

Definition send_eoi : M () := write_lapic_reg 0xB0 0.

Definition enable_spurious_vector : M () :=
  v <- read_lapic_reg 0xF0;;
  write_lapic_reg 0xF0 (Z.lor (Z.lor (Z.land v (wnot 32 0xFF)) 0xFF) 0x100).

(** The destination, then the command. *)
Definition send_command (dest low : Z) : M () :=
  write_lapic_reg 0x310 (ushl 32 dest 24);;;
  write_lapic_reg 0x300 low.

Definition send_ipi (dest vector : Z) : M () := send_command dest (Z.lor 0x000C4000 vector).
Definition send_ipi_init (dest : Z) : M () := send_command dest 0x000C4500.
Definition send_ipi_startup (dest vector : Z) : M () :=
  send_command dest (Z.lor 0x000C4600 (Z.shiftr vector 12)).
Definition send_sipi (dest vector : Z) : M () := send_command dest (Z.lor 0x000C4600 vector).
Definition send_nmi : M () := write_lapic_reg 0x300 (Z.lor 0x400 (Z.shiftl 4 8)).
Definition broadcast_ipi (vector : Z) : M () := write_lapic_reg 0x300 (Z.lor 0x00084000 vector).
Definition broadcast_ipi_with_self (vector : Z) : M () := write_lapic_reg 0x300 (Z.lor 0x000C4000 vector).

(** [while read_lapic_reg(r) & mask != 0 {}], for [fuel] polls. *)
Fixpoint poll_clear (fuel : nat) (r mask : Z) : M () :=
  match fuel with
  | O => λ _, Diverge
  | S n => v <- read_lapic_reg r;; if Z.land v mask =? 0 then st_ret () else poll_clear n r mask
  end.

Definition calibrate_timer (fuel : nat) (loops : Z) : M () :=
  write_lapic_reg 0x3E0 loops;;;
  write_lapic_reg 0x320 (Z.lor 0x20 (bit 16));;;
  poll_clear fuel 0x390 (2 ^ 32 - 1).

Definition set_timer_periodic (vector divisor count : Z) : M () :=
  write_lapic_reg 0x3E0 count;;;
  write_lapic_reg 0x380 (Z.shiftl (divisor_to_bits divisor) 24);;;
  write_lapic_reg 0x320 (Z.lor vector (Z.shiftl 0x2 17)).

Definition set_timer_oneshot (vector divisor count : Z) : M () :=
  write_lapic_reg 0x3E0 count;;;
  write_lapic_reg 0x380 (Z.shiftl (divisor_to_bits divisor) 24);;;
  write_lapic_reg 0x320 (Z.lor vector (Z.shiftl 0x1 16)).

(** Bit 16 of a local vector table entry. *)
Definition mask_lvt (r : Z) (on : bool) : M () :=
  v <- read_lapic_reg r;; write_lapic_reg r (put_bit 16 on v).

Definition stop_timer : M () := mask_lvt 0x320 true.
Definition enable_local_interrupts : M () := mask_lvt 0x350 false;;; mask_lvt 0x360 false.
Definition disable_local_interrupts : M () := mask_lvt 0x350 true;;; mask_lvt 0x360 true.

(** The bit of a vector in a bank of eight registers, 16 bytes apart. *)
Definition read_bank (bank vector : Z) : M bool :=
  v <- read_lapic_reg (bank + vector / 32 * 0x10);;
  st_ret (has_bit v (vector mod 32)).
Definition read_isr_bit (vector : Z) : M bool := read_bank 0x100 vector.
Definition read_irr_bit (vector : Z) : M bool := read_bank 0x200 vector.

Definition wait_for_delivery (fuel : nat) : M () := poll_clear fuel 0x300 (bit 12).

Definition read_icr : M Z :=
  low <- read_lapic_reg 0x300;;
  high <- read_lapic_reg 0x310;;
  st_ret (Z.lor (ushl 64 (Z.land high 0xFF000000) 32) low).

Definition get_lapic_id a : Z := lapic_id a.
Definition get_max_lvt a : Z := max_lvt a.
Definition read_version a : Z := version a.
Definition detect_apic_ids : list Z := (λ i, Z.of_nat i mod 256) <$> seq 0 256.

(** ** Redirection entries, always of the first I/O APIC *)

Definition configure_legacy_irqs a : M () :=
  st_for 0 16 (λ i, v <- st_lift (checked 8 (0x20 + i));; setup_irq a i v).

Definition route_irq_to_cpu (irq cpu_id : Z) : M () :=
  write_ioapic_reg_at 0 (reg_base irq) (Z.land (0x20 + irq) 0xFF);;;
  write_ioapic_reg_at 0 (reg_base irq + 1) (Z.land (ushl 32 cpu_id 24) 0xFF000000).

Definition change_entry (irq : Z) (f : Z → Z) : M () := change_reg 0 (reg_base irq) f.

(** A field of [mask] at bit [sh]. *)
Definition put_field (sh mask v val : Z) : Z :=
  Z.lor (Z.land val (wnot 32 (Z.shiftl mask sh))) (Z.shiftl (Z.land v mask) sh).

Definition configure_irq_trigger_mode (irq : Z) (level_triggered : bool) : M () :=
  change_entry irq (put_bit 15 level_triggered).
Definition configure_irq_polarity (irq : Z) (active_low : bool) : M () :=
  change_entry irq (put_bit 13 active_low).
Definition configure_irq_delivery_mode (irq mode : Z) : M () := change_entry irq (put_field 8 0x7 mode).
Definition configure_irq_destination_mode (irq : Z) (logical : bool) : M () :=
  change_entry irq (put_bit 11 logical).
Definition set_irq_destination_shorthand (irq shorthand : Z) : M () :=
  change_entry irq (put_field 18 0x3 shorthand).
Definition set_irq_remote_irr (irq : Z) (irr : bool) : M () := change_entry irq (put_bit 14 irr).
Definition set_irq_mask (irq : Z) (masked : bool) : M () := change_entry irq (put_bit 16 masked).

Definition read_irq_entry (irq : Z) : M (Z * Z) :=
  lo <- read_ioapic_reg_at 0 (reg_base irq);;
  hi <- read_ioapic_reg_at 0 (reg_base irq + 1);;
  st_ret (lo, hi).
Definition get_irq_mask (irq : Z) : M bool :=
  val <- read_ioapic_reg_at 0 (reg_base irq);; st_ret (has_bit val 16).

Definition get_ioapic_count : M Z := st_gets IOAPIC_COUNT.
Definition get_ioapic_info (idx : Z) : M (option IoApicInfo) :=
  n <- st_gets IOAPIC_COUNT;;
  if (idx <? 8) && (idx <? n) then x <- info idx;; st_ret (Some x) else st_ret None.

Definition check_ioapic_present : M bool :=
  v <- read_ioapic_reg_at 0 0x00;; st_ret (negb (Z.shiftr v 24 =? 0xFF)).
End apic.
