(* ===== verification/ApicTheorems.v ===== *)
(** * Theorems about the APIC driver

    What the I/O APIC is relied on for, and from that: every line is masked after
    start-up, each setter changes its own field of its own entry, the legacy lines
    get their vectors.  What the local APIC driver gets wrong is shown on the writes
    it makes. *)

From S2P Require Import Prelude Apic.
Open Scope Z_scope.

(** ** What an I/O APIC promises *)

(** The bits of a redirection entry that software can write: of the low register all
    but delivery status and remote IRR, of the high one the destination. *)
Definition writable (r b : Z) : bool :=
  if Z.even r then (0 <=? b) && (b <? 17) && negb (b =? 12) && negb (b =? 14)
  else (24 <=? b) && (b <? 32).

(** Indirect access: a write to the base selects a register, the window reads and
    writes the selected one. *)
Class IoApicLaws (Dev : Type) `{!Mmio Dev} := {
  lines : Z;
  lines_range : 16 ≤ lines ≤ 120;
  ioreg : Dev → Z → Z;
  iosel : Dev → Z;
  sel_write d r : 0 ≤ r < 256 →
    iosel (mmio_write d IOAPIC_BASE r) = r ∧
    ∀ r', ioreg (mmio_write d IOAPIC_BASE r) r' = ioreg d r';
  win_read d : (mmio_read d (IOAPIC_BASE + 16)).1 = ioreg d (iosel d) ∧
    ∀ r', ioreg (mmio_read d (IOAPIC_BASE + 16)).2 r' = ioreg d r';
  win_write d v r' b : 0x10 ≤ iosel d < 0x10 + 2 * lines → writable r' b = true →
    Z.testbit (ioreg (mmio_write d (IOAPIC_BASE + 16) v) r') b =
    if r' =? iosel d then Z.testbit v b else Z.testbit (ioreg d r') b;
  win_version d v : ioreg (mmio_write d (IOAPIC_BASE + 16) v) 1 = ioreg d 1;
  version_lines d : Z.land (Z.shiftr (ioreg d 1) 16) 0xFF = lines - 1
}.

Section thms.
Context {prof : Profile} {Dev : Type} `{!Mmio Dev, !Msr Dev, !IoApicLaws Dev}.
Implicit Types (s : Statics Dev).

(** A writable bit of a register. *)
Definition rbit s (r b : Z) : bool := Z.testbit (ioreg (dev s) r) b.

(** The first I/O APIC is at its address, and serves the lines it has. *)
Definition ready s : Prop :=
  IOAPIC_COUNT s = 1 ∧ IOAPIC_INFO s !! 0%nat = Some (mkInfo IOAPIC_BASE 0 (lines - 1)).

Definition at_base s : Prop := ∃ x, IOAPIC_INFO s !! 0%nat = Some x ∧ addr x = IOAPIC_BASE.

(** [s'] differs from [s] in the devices only. *)
Definition same_statics s s' : Prop := s' = with_dev s (dev s').

Lemma same_refl s : same_statics s s.
Proof. by destruct s. Qed.
Lemma same_trans s1 s2 s3 : same_statics s1 s2 → same_statics s2 s3 → same_statics s1 s3.
Proof. unfold same_statics. intros -> ->. done. Qed.
Lemma same_ready s s' : same_statics s s' → ready s → ready s'.
Proof. by intros ->. Qed.
Lemma same_base s s' : same_statics s s' → at_base s → at_base s'.
Proof. by intros ->. Qed.
Lemma ready_base s : ready s → at_base s.
Proof. intros [_ H]. eexists. by split. Qed.

Lemma read_reg_runs s r :
  at_base s → 0 ≤ r < 256 →
  runs (read_ioapic_reg_at 0 r) s (λ v s',
    v = ioreg (dev s) r ∧ same_statics s s' ∧ ∀ r', ioreg (dev s') r' = ioreg (dev s) r').
Proof.
  intros (x&Hx&Ha) Hr. unfold runs, read_ioapic_reg_at, st_bind, info, store, load.
  change (Z.to_nat 0) with 0%nat. rewrite Hx. simpl. rewrite Ha.
  destruct (sel_write (dev s) r Hr) as [Hsel Hreg].
  pose proof (win_read (mmio_write (dev s) IOAPIC_BASE r)) as [Hv Hd].
  destruct (mmio_read _ (IOAPIC_BASE + 16)) as [v d]. simpl in *. rewrite Hsel, Hreg in Hv.
  split; [done|]. split; [done|]. intros r'. by rewrite Hd, Hreg.
Qed.

(** The effect of a register write. *)
Definition wrote s (r v : Z) s' : Prop :=
  same_statics s s' ∧ ioreg (dev s') 1 = ioreg (dev s) 1 ∧
  ∀ r' b, writable r' b = true → rbit s' r' b = if r' =? r then Z.testbit v b else rbit s r' b.

Lemma write_reg_runs s r v :
  at_base s → 0x10 ≤ r < 0x10 + 2 * lines → runs (write_ioapic_reg_at 0 r v) s (λ _, wrote s r v).
Proof.
  intros (x&Hx&Ha) Hr. pose proof lines_range. unfold runs, write_ioapic_reg_at, st_bind, info, store.
  change (Z.to_nat 0) with 0%nat. rewrite Hx. simpl. rewrite Ha.
  destruct (sel_write (dev s) r ltac:(lia)) as [Hsel Hreg].
  split; [done|]. simpl. split; [by rewrite win_version, Hreg|].
  intros r' b Hw. unfold rbit. simpl. rewrite win_write by (rewrite ?Hsel; done). by rewrite Hsel, Hreg.
Qed.

Lemma change_reg_runs s r f :
  at_base s → 0x10 ≤ r < 0x10 + 2 * lines →
  runs (change_reg 0 r f) s (λ _, wrote s r (f (ioreg (dev s) r))).
Proof.
  intros Hb Hr. pose proof lines_range. unfold change_reg. apply runs_bind.
  eapply runs_mono; [apply read_reg_runs; [done|lia]|]. intros v s1 (->&Hs1&Hr1).
  eapply runs_mono; [apply write_reg_runs; [by eapply same_base|done]|].
  intros [] s2 (Hs2&H1&H2). split; [by eapply same_trans|]. split; [by rewrite H1|].
  intros r' b Hw. rewrite H2 by done. unfold rbit. by rewrite Hr1.
Qed.

Lemma reg_base_range irq : 0 ≤ irq < lines → 0x10 ≤ reg_base irq ∧ reg_base irq + 1 < 0x10 + 2 * lines.
Proof. unfold reg_base. lia. Qed.

(** Entry 0 of the table serves every line of the first I/O APIC; it is also the
    default for lines no I/O APIC serves. *)
Lemma find_ioapic_ready s irq : ready s → find_ioapic_by_gsi irq 0 s = Ret (0, s).
Proof.
  intros [Hc Hi]. unfold find_ioapic_by_gsi. rewrite Hc.
  rewrite for_range_step by lia. cbv beta. change (Z.to_nat 0) with 0%nat. rewrite Hi. simpl.
  pose proof lines_range.
  rewrite checked_ok by (unfold in_u; lia). rewrite Z.add_0_l. simpl.
  destruct (0 <=? irq); simpl; [destruct (irq <=? lines - 1)|]; by rewrite ?for_range_empty by lia.
Qed.

Lemma with_ioapic_ready s irq k : ready s → with_ioapic irq k s = k 0 s.
Proof.
  intros Hr. unfold with_ioapic, st_bind at 1. rewrite find_ioapic_ready by done. simpl.
  unfold st_bind, st_gets. simpl. by rewrite (proj1 Hr).
Qed.

Lemma runs_with_ioapic s irq k (Q : () → Statics Dev → Prop) :
  ready s → runs (k 0) s Q → runs (with_ioapic irq k) s Q.
Proof. intros Hr. unfold runs. by rewrite with_ioapic_ready. Qed.

(** ** Fields *)

Lemma apic_put_bit_spec i on v b :
  0 ≤ i < 32 → 0 ≤ b < 32 → Z.testbit (put_bit i on v) b = if b =? i then on else Z.testbit v b.
Proof.
  intros Hi Hb. unfold put_bit. destruct on.
  - rewrite Z.lor_spec, bit_spec by lia. case_bool_decide; destruct (Z.eqb_spec b i); subst; (done || btauto || lia).
  - rewrite Z.land_spec, wnot_spec, bit_spec by lia. rewrite (proj2 (Z.ltb_lt b 32)) by lia.
    case_bool_decide; destruct (Z.eqb_spec b i); subst; simpl; try lia; btauto.
Qed.

Lemma put_field_spec sh n v x b :
  0 ≤ sh → 0 ≤ n → 0 ≤ b < 32 →
  Z.testbit (put_field sh (Z.ones n) v x) b =
  if (sh <=? b) && (b <? sh + n) then Z.testbit v (b - sh) else Z.testbit x b.
Proof.
  intros Hs Hn Hb. unfold put_field.
  rewrite Z.lor_spec, Z.land_spec, wnot_spec by lia. rewrite (proj2 (Z.ltb_lt b 32)) by lia.
  destruct (Z.leb_spec sh b) as [Hge|Hlt]; simpl.
  - rewrite !Z.shiftl_spec, Z.land_spec by lia. rewrite Z.testbit_ones_nonneg by lia.
    destruct (Z.ltb_spec (b - sh) n), (Z.ltb_spec b (sh + n)); try lia; simpl; btauto.
  - rewrite !Z.shiftl_spec_low by lia. simpl. btauto.
Qed.

(** The seven setters, and the bits their fields have. *)
Inductive Setting :=
| Trigger (level : bool) | Polarity (low : bool) | Logical (b : bool) | Masked (b : bool)
| RemoteIrr (b : bool) | Delivery (mode : Z) | Shorthand (n : Z).

Definition configure (irq : Z) (x : Setting) : ST (Statics Dev) () :=
  match x with
  | Trigger b => configure_irq_trigger_mode irq b
  | Polarity b => configure_irq_polarity irq b
  | Logical b => configure_irq_destination_mode irq b
  | Masked b => set_irq_mask irq b
  | RemoteIrr b => set_irq_remote_irr irq b
  | Delivery m => configure_irq_delivery_mode irq m
  | Shorthand n => set_irq_destination_shorthand irq n
  end.

(** The new value of bit [b], where the setting decides it. *)
Definition setting_bit (x : Setting) (b : Z) : option bool :=
  match x with
  | Trigger v => if b =? 15 then Some v else None
  | Polarity v => if b =? 13 then Some v else None
  | Logical v => if b =? 11 then Some v else None
  | Masked v => if b =? 16 then Some v else None
  | RemoteIrr v => if b =? 14 then Some v else None
  | Delivery m => if (8 <=? b) && (b <? 11) then Some (Z.testbit m (b - 8)) else None
  | Shorthand n => if (18 <=? b) && (b <? 20) then Some (Z.testbit n (b - 18)) else None
  end.

(** The function each setter applies to the register. *)
Definition setting_fun (x : Setting) : Z → Z :=
  match x with
  | Trigger b => put_bit 15 b | Polarity b => put_bit 13 b | Logical b => put_bit 11 b
  | Masked b => put_bit 16 b | RemoteIrr b => put_bit 14 b
  | Delivery m => put_field 8 0x7 m | Shorthand n => put_field 18 0x3 n
  end.

Lemma setting_fun_spec x v b :
  0 ≤ b < 32 → Z.testbit (setting_fun x v) b = default (Z.testbit v b) (setting_bit x b).
Proof.
  intros Hb. destruct x; simpl.
  1-5: rewrite apic_put_bit_spec by lia; by destruct (Z.eqb b _).
  - change 7 with (Z.ones 3). rewrite put_field_spec by lia.
    change (8 + 3) with 11. by destruct ((8 <=? b) && (b <? 11)).
  - change 3 with (Z.ones 2) at 1. rewrite put_field_spec by lia.
    change (18 + 2) with 20. by destruct ((18 <=? b) && (b <? 20)).
Qed.

Lemma configure_fun irq x : configure irq x = change_reg 0 (reg_base irq) (setting_fun x).
Proof. by destruct x. Qed.

Lemma reg_base_even irq : Z.even (reg_base irq) = true.
Proof. unfold reg_base. by rewrite Z.mul_comm, Z.even_add_mul_2. Qed.

(** The last write of a change goes to the window. *)
Lemma change_reg_window s r f :
  at_base s → 0 ≤ r < 256 →
  ∃ s' d, change_reg 0 r f s = Ret ((), s') ∧ iosel d = r ∧
    dev s' = mmio_write d (IOAPIC_BASE + 16) (f (ioreg (dev s) r)).
Proof.
  intros Hb Hr. pose proof (read_reg_runs s r Hb Hr) as Hread. unfold runs in Hread. unfold change_reg, st_bind.
  destruct (read_ioapic_reg_at 0 r s) as [[v s1]| | |]; [|done..]. simpl in Hread. destruct Hread as (->&Hs1&_). simpl.
  destruct (same_base _ _ Hs1 Hb) as (x&Hx&Ha).
  unfold write_ioapic_reg_at, st_bind, info, store. change (Z.to_nat 0) with 0%nat. rewrite Hx. simpl. rewrite Ha.
  eexists _, (mmio_write (dev s1) IOAPIC_BASE r). split; [done|]. split; [|done]. by apply sel_write.
Qed.

(** C32: The seven setters of a redirection entry, when the table holds one I/O APIC at
    [IOAPIC_BASE] whose lines start at 0, for a line it has.  The setter returns and its
    last access writes to the window, with the low register of the line's entry
    selected, a value that has the new bits in the field of the setter (trigger 15,
    polarity 13, destination mode 11, mask 16, remote IRR 14, delivery mode 8 to 10,
    shorthand 18 and 19) and elsewhere the bits read.  So on a device that stores the
    bits software can write, exactly the writable bits of the field change, in that
    register only; bit 14 is read-only and bits 18 and 19 are reserved, so the setters of
    remote IRR and shorthand change no writable bit. *)
Theorem irq_setting_exact s irq x :
  ready s → 0 ≤ irq < lines →
  ∃ s' d w, configure irq x s = Ret ((), s') ∧ ready s' ∧
    dev s' = mmio_write d (IOAPIC_BASE + 16) w ∧ iosel d = 0x10 + 2 * irq ∧
    (∀ b, 0 ≤ b < 32 → Z.testbit w b = default (rbit s (0x10 + 2 * irq) b) (setting_bit x b)) ∧
    ∀ r b, writable r b = true →
      rbit s' r b = if r =? 0x10 + 2 * irq then default (rbit s r b) (setting_bit x b) else rbit s r b.
Proof.
  intros Hr Hirq. destruct (reg_base_range irq Hirq) as [Hlo Hhi]. pose proof lines_range. rewrite configure_fun.
  replace (0x10 + 2 * irq) with (reg_base irq) by (unfold reg_base; lia).
  destruct (runs_unit _ _ _ (change_reg_runs s (reg_base irq) (setting_fun x) (ready_base s Hr) ltac:(lia)))
    as (s'&E&Hs&_&Hw).
  destruct (change_reg_window s (reg_base irq) (setting_fun x) (ready_base s Hr) ltac:(lia)) as (s1&d&E1&Hd&Hs1).
  rewrite E in E1. injection E1 as <-. exists s', d, (setting_fun x (ioreg (dev s) (reg_base irq))).
  split; [done|]. split; [by eapply same_ready|]. split; [done|]. split; [done|].
  split; [intros b Hb; by apply setting_fun_spec|].
  intros r b Hb. rewrite Hw by done. destruct (Z.eqb_spec r (reg_base irq)) as [->|]; [|done].
  unfold writable in Hb. rewrite reg_base_even in Hb. rewrite setting_fun_spec by lia. done.
Qed.

(** ** Start-up *)

Lemma mask_irq_runs s irq :
  ready s → 0 ≤ irq < lines →
  runs (mask_irq irq) s (λ _, wrote s (reg_base irq) (put_bit 16 true (ioreg (dev s) (reg_base irq)))).
Proof.
  intros Hr Hirq. destruct (reg_base_range irq Hirq) as [Hlo Hhi].
  apply runs_with_ioapic; [done|]. apply change_reg_runs; [by apply ready_base|lia].
Qed.

(** The masks of the lines below [n] are set, everything else is as in [s]. *)
Definition masked_below s (n : Z) s' : Prop :=
  same_statics s s' ∧
  ∀ r b, writable r b = true →
    rbit s' r b = if Z.even r && (0x10 <=? r) && (r <? reg_base n) && (b =? 16) then true else rbit s r b.

Lemma mask_all_runs s n :
  ready s → 0 ≤ n ≤ lines → runs (st_for 0 n mask_irq) s (λ _, masked_below s n).
Proof.
  intros Hr Hn. apply (runs_for (masked_below s)); [lia|..].
  - split; [apply same_refl|]. intros r b _. unfold reg_base.
    destruct (Z.leb_spec 16 r), (Z.ltb_spec r (16 + 0 * 2)); try lia; simpl; by rewrite ?andb_false_r.
  - intros i s1 Hi [Hs1 H1]. eapply runs_mono; [apply mask_irq_runs; [by eapply same_ready|lia]|].
    intros [] s2 (Hs2&_&H2). split; [by eapply same_trans|]. intros r b Hb. rewrite H2 by done.
    destruct (Z.eqb_spec r (reg_base i)) as [->|Hne].
    + pose proof Hb as Hb'. unfold writable in Hb'. rewrite reg_base_even in *.
      rewrite apic_put_bit_spec by lia. change (Z.testbit _ b) with (rbit s1 (reg_base i) b).
      rewrite H1 by done. rewrite reg_base_even. unfold reg_base in *.
      destruct (Z.eqb_spec b 16); simpl; [|by rewrite !andb_false_r].
      destruct (Z.leb_spec 16 (16 + i * 2)), (Z.ltb_spec (16 + i * 2) (16 + (i + 1) * 2)); (lia || done).
    + rewrite H1 by done. unfold reg_base in *. destruct (Z.even r) eqn:Ev; [|done]. simpl.
      apply Z.even_spec in Ev as [k ->].
      destruct (Z.leb_spec 16 (2 * k)), (Z.ltb_spec (2 * k) (16 + i * 2)),
        (Z.ltb_spec (2 * k) (16 + (i + 1) * 2)); try lia; done.
Qed.

Lemma runs_set_info s x l f (Q : () → Statics Dev → Prop) :
  IOAPIC_INFO s = x :: l → Q () (with_info s (f x :: l)) → runs (set_info 0 f) s Q.
Proof. intros El HQ. unfold runs, set_info. by rewrite El. Qed.

Lemma runs_info s x (Q : IoApicInfo → Statics Dev → Prop) :
  IOAPIC_INFO s !! 0%nat = Some x → Q x s → runs (info 0) s Q.
Proof. intros Hx HQ. unfold runs, info. change (Z.to_nat 0) with 0%nat. by rewrite Hx. Qed.

(** After [init_ioapics] every line of the I/O APIC is masked.  The table of
    I/O APICs then describes the device, the mask bit of every redirection entry is
    set, and every other writable bit is what it was. *)
Theorem init_ioapics_masks_all s :
  length (IOAPIC_INFO s) = 8%nat →
  ∃ s', init_ioapics s = Ret ((), s') ∧ ready s' ∧
    (∀ irq, 0 ≤ irq < lines → rbit s' (reg_base irq) 16 = true) ∧
    ∀ r b, writable r b = true → b ≠ 16 → rbit s' r b = rbit s r b.
Proof.
  intros Hlen. apply runs_unit. destruct (IOAPIC_INFO s) as [|x l] eqn:El; [done|].
  pose proof lines_range as Hl. unfold init_ioapics.
  apply runs_bind, (runs_set_info s x l); [done|]. set (s1 := with_info s _).
  apply runs_bind. eapply (runs_set_info s1); [done|]. set (s2 := with_info s1 _).
  apply runs_bind. eapply runs_mono; [apply read_reg_runs; [eexists; by split|lia]|].
  intros v s3 (->&Hs3&Hr3). rewrite version_lines.
  apply runs_bind. eapply (runs_set_info s3); [by rewrite Hs3|]. set (s4 := with_info _ _).
  apply runs_bind, runs_modify. set (s5 := with_count s4 1). assert (ready s5) as Hr5 by by split.
  apply runs_bind. eapply runs_info; [apply Hr5|]. cbn [max_redir].
  replace (lines - 1 + 1) with lines by lia.
  eapply (runs_mono (st_for 0 lines mask_irq) s5); [by apply mask_all_runs; [|lia]|].
  assert (∀ r b, rbit s5 r b = rbit s r b) as H5.
  { intros r b. unfold rbit. change (dev s5) with (dev s3). by rewrite Hr3. }
  intros [] s6 [Hs6 H6]. split; [by eapply same_ready|]. split.
  - intros irq Hirq. destruct (reg_base_range irq Hirq). rewrite H6 by (unfold writable; by rewrite reg_base_even).
    rewrite reg_base_even. unfold reg_base in *.
    destruct (Z.leb_spec 16 (16 + irq * 2)), (Z.ltb_spec (16 + irq * 2) (16 + lines * 2)); (lia || done).
  - intros r b Hw Hb16. rewrite H6, H5 by done. by rewrite (proj2 (Z.eqb_neq b 16)), andb_false_r.
Qed.

(** ** Legacy lines *)

Lemma setup_irq_runs s a irq v :
  ready s → 0 ≤ irq < lines →
  runs (setup_irq a irq v) s (λ _ s', same_statics s s' ∧ ∀ r b, writable r b = true →
    rbit s' r b =
      if r =? reg_base irq then Z.testbit (Z.land v 0xFF) b
      else if r =? reg_base irq + 1 then Z.testbit (Z.land (ushl 32 (lapic_id a) 24) 0xFF000000) b
      else rbit s r b).
Proof.
  intros Hr Hirq. destruct (reg_base_range irq Hirq). apply runs_with_ioapic; [done|]. apply runs_bind.
  eapply runs_mono; [apply write_reg_runs; [by apply ready_base|lia]|]. intros [] s1 (Hs1&_&H1).
  eapply runs_mono; [apply write_reg_runs; [by eapply same_base, ready_base|lia]|]. intros [] s2 (Hs2&_&H2).
  split; [by eapply same_trans|]. intros r b Hb. rewrite H2, H1 by done.
  destruct (Z.eqb_spec r (reg_base irq + 1)), (Z.eqb_spec r (reg_base irq)); (lia || done).
Qed.

(** The destination of an entry is the number in the upper eight bits. *)
Lemma destination_bit id b :
  in_u 8 id → 24 ≤ b < 32 → Z.testbit (Z.land (ushl 32 id 24) 0xFF000000) b = Z.testbit id (b - 24).
Proof.
  intros Hid Hb. change 0xFF000000 with (Z.shiftl (Z.ones 8) 24). unfold ushl, wrap.
  rewrite Z.land_spec, <-Z.land_ones, Z.land_spec, !Z.shiftl_spec, !Z.testbit_ones_nonneg by lia.
  rewrite (proj2 (Z.ltb_lt b 32)), (proj2 (Z.ltb_lt (b - 24) 8)) by lia. btauto.
Qed.

(** The lines below [n] are routed to processor [id]. *)
Definition routed s (id n : Z) s' : Prop :=
  same_statics s s' ∧
  ∀ r b, writable r b = true →
    rbit s' r b =
      if (0x10 <=? r) && (r <? reg_base n) then
        if Z.even r then Z.testbit (0x20 + (r - 0x10) / 2) b else Z.testbit id (b - 24)
      else rbit s r b.

Lemma legacy_runs s a :
  ready s → in_u 8 (lapic_id a) → runs (configure_legacy_irqs a) s (λ _, routed s (lapic_id a) 16).
Proof.
  intros Hr Hid. pose proof lines_range. unfold configure_legacy_irqs.
  apply (runs_for (routed s (lapic_id a))); [lia|..].
  - split; [apply same_refl|]. intros r b _. unfold reg_base.
    by destruct (Z.leb_spec 16 r), (Z.ltb_spec r (16 + 0 * 2)); try lia.
  - intros i s1 Hi [Hs1 H1]. apply runs_bind. eapply runs_lift; [by rewrite checked_ok by (unfold in_u; lia)|].
    eapply runs_mono; [apply setup_irq_runs; [by eapply same_ready|lia]|].
    intros [] s2 [Hs2 H2]. split; [by eapply same_trans|]. intros r b Hb. rewrite H2, H1 by done.
    unfold reg_base in *.
    destruct (Z.eqb_spec r (16 + i * 2)) as [->|Hne].
    + rewrite Z.mul_comm, Z.even_add_mul_2. replace ((16 + 2 * i - 16) / 2) with i
        by (replace (16 + 2 * i - 16) with (i * 2) by lia; by rewrite Z.div_mul).
      destruct (Z.leb_spec 16 (16 + 2 * i)), (Z.ltb_spec (16 + 2 * i) (16 + (i + 1) * 2)); try lia. simpl.
      change 255 with (2 ^ 8 - 1). by rewrite land_mod, Z.mod_small by lia.
    + destruct (Z.eqb_spec r (16 + i * 2 + 1)) as [->|Hne'].
      * unfold writable in Hb. replace (16 + i * 2 + 1) with (1 + 2 * (8 + i)) in * by lia.
        rewrite Z.even_add_mul_2 in *. simpl in Hb.
        destruct (Z.leb_spec 16 (1 + 2 * (8 + i))), (Z.ltb_spec (1 + 2 * (8 + i)) (16 + (i + 1) * 2)); try lia.
        simpl. apply destination_bit; [done|lia].
      * by destruct (Z.leb_spec 16 r), (Z.ltb_spec r (16 + i * 2)), (Z.ltb_spec r (16 + (i + 1) * 2)); try lia.
Qed.

(** [configure_legacy_irqs] routes the sixteen legacy lines: line [i] gets vector
    [0x20 + i], all its other writable bits zero, so it is unmasked, edge triggered
    and active high, and this processor as its destination; other lines keep
    theirs. *)
Theorem legacy_irqs_routed s a :
  ready s → in_u 8 (lapic_id a) →
  ∃ s', configure_legacy_irqs a s = Ret ((), s') ∧ ready s' ∧
    (∀ i b, 0 ≤ i < 16 → writable (reg_base i) b = true →
       rbit s' (reg_base i) b = Z.testbit (0x20 + i) b) ∧
    (∀ i b, 0 ≤ i < 16 → 24 ≤ b < 32 → rbit s' (reg_base i + 1) b = Z.testbit (lapic_id a) (b - 24)) ∧
    ∀ r b, 0x30 ≤ r → writable r b = true → rbit s' r b = rbit s r b.
Proof.
  intros Hr Hid. destruct (runs_unit _ _ _ (legacy_runs s a Hr Hid)) as (s'&E&Hs&Hw).
  exists s'. split; [done|]. split; [by eapply same_ready|]. split; [|split].
  - intros i b Hi Hb. rewrite Hw by done. rewrite reg_base_even. unfold reg_base.
    replace ((16 + i * 2 - 16) / 2) with i by (replace (16 + i * 2 - 16) with (i * 2) by lia; by rewrite Z.div_mul).
    by destruct (Z.leb_spec 16 (16 + i * 2)), (Z.ltb_spec (16 + i * 2) (16 + 16 * 2)); try lia.
  - intros i b Hi Hb. assert (Z.even (reg_base i + 1) = false) as Ho.
    { unfold reg_base. replace (16 + i * 2 + 1) with (1 + 2 * (8 + i)) by lia. by rewrite Z.even_add_mul_2. }
    rewrite Hw by (unfold writable; rewrite Ho; lia). rewrite Ho. unfold reg_base.
    by destruct (Z.leb_spec 16 (16 + i * 2 + 1)), (Z.ltb_spec (16 + i * 2 + 1) (16 + 16 * 2)); try lia.
  - intros r b Hge Hb. rewrite Hw by done. unfold reg_base.
    by destruct (Z.ltb_spec r (16 + 16 * 2)); [lia|rewrite andb_false_r].
Qed.

(** ** What the driver gets wrong *)

(** The range check never refuses a line: a line no I/O APIC serves is looked up as
    entry 0, and its register is written all the same. *)
Lemma mask_irq_any_line s irq :
  ready s → mask_irq irq s = change_reg 0 (reg_base irq) (put_bit 16 true) s.
Proof. intros Hr. unfold mask_irq. by rewrite with_ioapic_ready. Qed.

(** The vector of a start-up message is shifted out. *)
Lemma startup_vector_lost dest vector :
  in_u 8 vector → send_ipi_startup (Dev := Dev) dest vector = send_ipi_startup dest 0.
Proof.
  intros [H1 H2]. unfold send_ipi_startup. do 2 f_equal. rewrite !Z.shiftr_div_pow2 by lia.
  rewrite (Z.div_small vector) by lia. done.
Qed.
End thms.

(** ** A concrete I/O APIC with 24 lines, and a log of all writes *)

Record IoDev := mkIoDev { selected : Z; regs : Z → Z; log : list (Z * Z) }.

Definition iodev_reg (d : IoDev) (r : Z) : Z := if r =? 1 then 0x170020 else regs d r.

#[export] Instance iodev_mmio : Mmio IoDev := {
  mmio_read d p := (if p =? IOAPIC_BASE + 16 then iodev_reg d (selected d) else 0, d);
  mmio_write d p v :=
    if p =? IOAPIC_BASE then mkIoDev v (regs d) (log d)
    else if p =? IOAPIC_BASE + 16
    then mkIoDev (selected d) (λ r, if r =? selected d then v else regs d r) (log d)
    else mkIoDev (selected d) (regs d) (log d ++ [(p, v)])
}.
#[export] Instance iodev_msr : Msr IoDev := λ _ _, 0xFEE00900.

#[export] Instance iodev_laws : IoApicLaws IoDev.
Proof.
  refine (Build_IoApicLaws IoDev _ 24 _ iodev_reg selected _ _ _ _ _); [lia|..]; simpl.
  - done.
  - done.
  - intros d v r b Hr Hb. unfold iodev_reg. simpl. destruct (Z.eqb_spec r (selected d)) as [->|]; [|done].
    by destruct (Z.eqb_spec (selected d) 1); [lia|].
  - done.
  - done.
Defined.

Definition sample_statics : Statics IoDev :=
  mkStatics 0 0 0 (replicate 8 IoApicInfo_new) (mkIoDev 0 (λ _, 0) []).
Definition ready_statics : Statics IoDev :=
  mkStatics 0xFEE00000 IOAPIC_BASE 1 (mkInfo IOAPIC_BASE 0 23 :: replicate 7 IoApicInfo_new)
    (mkIoDev 0 (λ _, 0x10000) []).

Lemma irq_setting_exact_witness :
  ∃ s', configure 9 (Trigger true) ready_statics = Ret ((), s') ∧ ready s'.
Proof.
  destruct (irq_setting_exact ready_statics 9 (Trigger true)) as (s'&d&w&E&Hr&_); [done|simpl; lia|].
  exists s'. exact (conj E Hr).
Defined.

Lemma init_ioapics_masks_all_witness : ∃ s', init_ioapics (prof := Prelude.dev) sample_statics = Ret ((), s') ∧ ready s'.
Proof.
  destruct (init_ioapics_masks_all (prof := Prelude.dev) sample_statics eq_refl) as (s'&E&Hr&_).
  exists s'. exact (conj E Hr).
Defined.

Lemma legacy_irqs_routed_witness :
  ∃ s', configure_legacy_irqs (prof := release) (mkApic 3 0 0) ready_statics = Ret ((), s') ∧ ready s'.
Proof.
  destruct (legacy_irqs_routed (prof := release) ready_statics (mkApic 3 0 0)) as (s'&E&Hr&_);
    [done|unfold in_u; simpl; lia|]. exists s'. exact (conj E Hr).
Defined.

(** The registers [Apic::new] uses are not those of the APIC at [0xFEE00000]: the flag
    bits of the base register and [0x200] stay in the address. *)
Example lapic_address :
  returns (Apic_new (prof := Prelude.dev) sample_statics) (λ p, LOCAL_APIC_ADDR p.2 = 0xFEE00B00).
Proof. by vm_compute. Qed.

(** An interrupt for one processor carries the shorthand for all but the sender (3 in
    bits 18 and 19), and the broadcast that should include the sender excludes it,
    the other one includes it. *)
Example ipi_shorthands :
  returns (st_bind (send_ipi 5 0x40) (λ _, st_bind (broadcast_ipi 0x40) (λ _, broadcast_ipi_with_self 0x40))
             ready_statics) (λ p,
    (λ '(_, w), Z.land (Z.shiftr w 18) 3) <$> log (Apic.dev p.2) = [0; 3; 2; 3]).
Proof. by vm_compute. Qed.

(** The count of a periodic timer goes to the divide register [0x3E0] and the divider
    to the initial count [0x380]; the mode written is 2 (bits 17 and 18), not the
    periodic mode 1. *)
Example periodic_timer_registers :
  returns (set_timer_periodic 0x20 16 1000 ready_statics) (λ p,
    log (Apic.dev p.2) = [(0xFEE003E0, 1000); (0xFEE00380, 0x4000000); (0xFEE00320, 0x40020)]).
Proof. by vm_compute. Qed.
